(* ===== verification/_CoqProject ===== *)
-Q . S2P
Prelude.v
Libc.v
Dstr.v
Dlist.v
Heap.v
Hash.v
Buffers.v
Request.v
Client.v
Hashmap.v
Avl.v
Hll.v
Node.v
Zset.v
Commands.v
Keyspace.v
Lists.v
Bitmaps.v
Scores.v
Tables.v
Hashes.v
Sets.v
Wire.v
Shell.v
Expiry.v
Server.v
Timeouts.v
Session.v
Threadpool.v
Scenarios.v
Registers.v
Sparse.v
