(* ===== verification/Prelude.v ===== *)
(** * customRedis: a verification development

    customRedis is an in-memory key-value server in C++ that speaks a small
    binary protocol, with a command-line client.  This library models the
    program as executable Rocq functions, translated from the sources under
    [src/src], and proves what the parts do and how they work together.

    ** The program and the files

    - [Prelude]: faults and the error monad, machine integers ([u8], [u32],
      [u64], [s32], [s64] reduce modulo the width), pointers and stores,
      memory blocks with unwritten cells, little-endian integers, and the
      tactics and hints the other files share.
    - [Libc]: the functions of the C library the sources call on data
      ([strtol], [strtod], [tolower], C strings).
    - [Dstr]: [data_structures/dstr.cpp], strings with a header and spare room.
    - [Dlist]: [data_structures/dlist.cpp], intrusive doubly linked lists.
    - [Heap]: [data_structures/heap.cpp] and [set_ttl]/[rem_ttl] of
      [server.cpp], against the class [PosStore] of stores of back pointers.
    - [Hash]: [murmurHash64A] and [str_hash] of [utils/common.h].
    - [Buffers]: [buffer_funcs.cpp] and [out_helpers.cpp].
    - [Request]: [parse_cmd], [before_res_build], [after_res_build],
      [try_one_req] and the request loop of [handle_read] in [server.cpp],
      for any command interpreter.
    - [Client]: [client.cpp], sending requests and reading responses.
    - [Hashmap]: [data_structures/hashmap.cpp], the chained tables with
      incremental resizing, against the class [NodeStore] of node stores and its
      laws [NodeStoreOk]; [Node]: the nodes themselves ([new_node], disposal of
      values), which are an instance of that class.
    - [Avl]: [data_structures/avl_tree.cpp]; [Zset]: [data_structures/zset.cpp],
      which keeps the same nodes in a tree and in a table.
    - [Hll]: [data_structures/hyperloglog.cpp]; [Registers]: theorems about its
      dense registers and its cache; [Sparse]: theorems about its sparse
      encoding, PFADD and PFCOUNT.
    - [Commands]: [redis_functions.cpp] and [out_buffer] of [server.cpp]: every
      handler, in a monad over the database, the deadlines, the memory and the
      output of the connection.
    - [Keyspace], [Lists], [Bitmaps], [Scores], [Hashes], [Sets]: SET, GET, DEL
      and KEYS, the list, bitmap, sorted-set, hash and set commands on a database
      of any contents.  [Tables]: the tables that are values of keys; one group
      of lemmas about inserting, deleting and listing, for any field of a node
      that holds a table (class [SlotOk]), serves hashes and sets.
    - [Wire]: [out_buffer] plugged into the request loop and the client.
    - [Shell]: [handle_loop] and [main] of [client.cpp], the prompt that splits
      a line into words, against any peer and against the server of [Wire].
    - [Expiry]: EXPIRE and the last loop of [process_timers].
    - [Server]: the connections, the timeout lists and the event loop of
      [server.cpp], with the whole of [global_data] as state.
    - [Timeouts]: which connections the idle timeout closes, and when its loop
      returns.
    - [Session]: that event loop with many clients, against an abstract server.
    - [Threadpool]: [threadpool.cpp] as a step relation.
    - [Scenarios]: sessions of commands in which the program loses data or
      leaves defined behaviour.

    ** How the sources are modelled

    A function of the source is a function of the same name.  Undefined
    behaviour (null, dangling and out-of-range accesses, reads of unwritten
    memory, a missing [return]) and failed assertions are values of [fault], so
    a theorem that says a run is [Ok] says that none of it happens.  Objects
    that are shared live in stores from addresses to records ([gmap]); [free]
    and [delete] remove them.  The outcomes of [malloc] in [Dstr], of [read]
    and [write] in [Client] and [Server], of [accept] and [poll] in [Server],
    the clock and [logl] are arguments.

    ** What is proved

    - Data structures refine their abstractions: the two tables are a finite
      map in every state of the resizing ([hm_insert_refines],
      [hm_lookup_refines], [hm_delete_refines], [hm_keys_exact]); the AVL tree
      stays balanced with exact sizes ([avl_fix_after_insert],
      [avl_del_correct], [avl_height_log]); a sorted set is a map from members
      to scores in order ([zset_insert_refines], [zset_offset_index]); strings,
      lists, the heap and the hash function do what they say ([Dstr], [Dlist],
      [Heap], [Hash], [Registers]).
    - The server answers requests once each and in order however the bytes
      arrive ([requests_any_cut]), client and server agree on the encoding
      ([client_request_roundtrip], [client_response_roundtrip]), and for SET,
      GET and DEL it is a map of strings seen through its bytes
      ([kv_over_the_wire], [kv_session]), down to the lines a user types at the
      prompt and what is printed for them ([typed_session]; the client reads
      uninitialised memory when it prints a non-empty string,
      [print_res_unterminated]), and up to the event loop with many clients at
      once ([sessions_refine]).  The request loop ends on every input
      ([handle_read_terminates]).
    - The commands on values do what they promise on a database of any contents:
      sorted sets ([zadd_zscore], [zquery_exact], [zrem_exact]), hashes
      ([hset_hget], for a field whose hash code is new to the hash, since HSET
      of an existing one faults: [hset_existing_field]; [hdel_exact]), sets
      ([sadd_members], for a string that is not a member yet, [srem_exact]),
      bitmaps ([setbit_getbit], [bitcount_exact] for a start that is not before
      the bitmap), HyperLogLogs ([add_sparse_exact] for the registers,
      [pfadd_pfcount] for the first element, both away from the runs of zeros
      that the program misreads), lists ([push_adds], [pop_removes], [lrange_exact]) and the keys
      themselves ([keys_lists]).
    - A key that gets its first deadline lives until then, and TTL and PERSIST
      report and remove the deadline ([set_ttl_consistent], [expire_lifecycle],
      [expire_entries_exact], [persist_keeps]); the idle list holds exactly the
      open connections in every reachable state, so the idle timeout closes the
      right ones unless it meets a stale link ([idle_list_invariant],
      [idle_timeout_exact]).
    - The thread pool takes work in order and once ([pool_fifo_once]), and no
      wake-up is lost: left alone it finishes all work within a bounded number of
      steps of any schedule ([pool_drains]).
    - Where the program does not do this, a theorem shows it, for example
      [pipelined_request_dangles], [eof_never_closed], [resize_empties_hash],
      [del_leaves_deadline], [expire_twice], [large_delete_dangles], [rem_ttl_breaks_order],
      [next_timer_cases], [get_reg_neighbour], [dstr_append_overflow] and the
      sessions of [Scenarios].

    ** Fuel

    Loops that are not structural take fuel, and running out of it is the fault
    [OutOfFuel].  The fuel is a bound the data gives: the length of the input
    for parsing and printing, the number of entries for chains, trees and
    heaps, 128 for a step of the resizing, 201 for the expiry loop, the number
    of connections for the timeout loops.  The theorems that say a run is [Ok]
    show that it is enough; [handle_read_terminates] and
    [close_expired_terminates] show it for arbitrary input.

    ** Bounds

    Tables have fewer than 2^60 entries, sorted sets fewer than 2^31 members,
    heaps fewer than 2^31 entries, strings at most 2^30 bytes (the limit of the
    source): the sizes the machine integers of the source can count.

    ** Not modelled

    Setting up sockets, [fcntl] and the log output; the effect of a work item
    on the memory while the main thread runs (items are queued, see [Node]); the
    three kinds of list nodes of a connection are kept in three stores, since no
    operation links nodes of different kinds.  [tblock.cpp] and [darray.h] are stubs. *)

From stdpp Require Export base option list numbers gmap.
From Stdlib Require Export ZArith Lia.

#[global] Open Scope Z_scope.

(** ** Faults

    The C++ sources run into undefined behaviour on some inputs (a null or
    dangling pointer, an access outside an allocation, a read of memory that
    was never written).  Every definition that can do so returns [result];
    [Fault] says which kind of undefined behaviour was reached, or that an
    [assert] fired, or that a loop of the model ran out of fuel. *)
Inductive fault :=
  | NullDeref
  | Dangling
  | OutOfBounds
  | Uninitialised
  | AssertFailed
  | Overflow
  | MissingReturn
  | OutOfFuel.

Inductive result (A : Type) :=
  | Ok (a : A)
  | Fault (f : fault).
Arguments Ok {A} _.
Arguments Fault {A} _.

#[global] Instance fault_eq_dec : EqDecision fault.
Proof. solve_decision. Defined.

#[global] Instance result_eq_dec {A} `{EqDecision A} : EqDecision (result A).
Proof. solve_decision. Defined.

#[global] Instance result_ret : MRet result := fun A a => Ok a.
#[global] Instance result_bind : MBind result := fun A B f m =>
  match m with Ok a => f a | Fault e => Fault e end.
#[global] Instance result_fmap : FMap result := fun A B f m =>
  match m with Ok a => Ok (f a) | Fault e => Fault e end.

(** [check b f]: go on when the condition holds, fault otherwise. *)
Definition check (b : bool) (f : fault) : result unit :=
  if b then Ok tt else Fault f.

(** [need o f]: the content of an [option], or the fault [f]. *)
Definition need {A} (o : option A) (f : fault) : result A :=
  match o with Some a => Ok a | None => Fault f end.

Section result_lemmas.
Context {A B : Type}.
Implicit Types (m : result A) (k : A -> result B).

Lemma bind_ok m k b : (x ← m; k x) = Ok b <-> exists a, m = Ok a /\ k a = Ok b.
Proof. destruct m as [a|e]; cbn; split; [eauto|by intros (?&[=->]&?)|done|by intros (?&?&?)]. Qed.

Lemma bind_Ok_l (a : A) k : (x ← Ok a; k x) = k a.
Proof. reflexivity. Qed.

Lemma bind_assoc {C} m k (g : B -> result C) :
  (y ← (x ← m; k x); g y) = (x ← m; y ← k x; g y).
Proof. by destruct m. Qed.

Lemma check_ok b f : check b f = Ok tt <-> b = true.
Proof. destruct b; cbn; naive_solver. Qed.

Lemma need_ok (o : option A) f a : need o f = Ok a <-> o = Some a.
Proof. destruct o; cbn; naive_solver. Qed.
End result_lemmas.

(** Splits a chain of binds that is known to succeed into its steps. *)
Ltac inv_ok :=
  repeat match goal with
  | H : Ok _ = Ok _ |- _ => injection H as H; simplify_eq
  | H : Fault _ = Ok _ |- _ => discriminate H
  | H : Ok _ = Fault _ |- _ => discriminate H
  | H : (mbind _ _) = Ok _ |- _ =>
      apply bind_ok in H; destruct H as (? & ? & H); cbn beta in H
  | H : mret _ = Ok _ |- _ => unfold mret, result_ret in H
  | H : check _ _ = Ok _ |- _ => apply check_ok in H
  | H : need _ _ = Ok _ |- _ => apply need_ok in H
  | x : unit |- _ => destruct x
  | p : _ * _ |- _ => destruct p
  end; simplify_eq.

(** Decides the boolean comparison of the head of the goal by [lia]. *)
Ltac zbool :=
  repeat match goal with
  | |- context [(?a <? ?b)] =>
      first [ rewrite (proj2 (Z.ltb_lt a b)) by lia
            | rewrite (proj2 (Z.ltb_ge a b)) by lia ]
  | |- context [(?a <=? ?b)] =>
      first [ rewrite (proj2 (Z.leb_le a b)) by lia
            | rewrite (proj2 (Z.leb_gt a b)) by lia ]
  | |- context [(?a =? ?b)] =>
      first [ rewrite (proj2 (Z.eqb_eq a b)) by lia
            | rewrite (proj2 (Z.eqb_neq a b)) by lia ]
  end.

(** Case split on a boolean comparison of integers, with its meaning. *)
Ltac zcase :=
  match goal with
  | |- context [(?a <? ?b)] => destruct (Z.ltb_spec a b)
  | |- context [(?a <=? ?b)] => destruct (Z.leb_spec a b)
  | |- context [(?a =? ?b)] => destruct (Z.eqb_spec a b)
  end.

(** Proves a decidable closed proposition by evaluation. *)
Ltac by_compute := apply (bool_decide_unpack _); vm_compute; exact I.

(** ** Machine integers

    [size_t] and [uint64_t] are 64 bits wide, [uint32_t] and [int32_t] 32,
    [uint8_t] 8: the x86-64 platform the project is built on. *)
Definition u8 (z : Z) : Z := z mod 2 ^ 8.
Definition u32 (z : Z) : Z := z mod 2 ^ 32.
Definition u64 (z : Z) : Z := z mod 2 ^ 64.
Definition s32 (z : Z) : Z := (z + 2 ^ 31) mod 2 ^ 32 - 2 ^ 31.
Definition s64 (z : Z) : Z := (z + 2 ^ 63) mod 2 ^ 64 - 2 ^ 63.

Create HintDb redis discriminated.
Create Rewrite HintDb redis_len.

Lemma u8_small z : 0 <= z < 2 ^ 8 -> u8 z = z.
Proof. apply Z.mod_small. Qed.

Lemma u32_small z : 0 <= z < 2 ^ 32 -> u32 z = z.
Proof. apply Z.mod_small. Qed.

Lemma u64_small z : 0 <= z < 2 ^ 64 -> u64 z = z.
Proof. apply Z.mod_small. Qed.

Lemma s32_small z : - 2 ^ 31 <= z < 2 ^ 31 -> s32 z = z.
Proof. intros. unfold s32. rewrite Z.mod_small; lia. Qed.

Lemma s64_small z : - 2 ^ 63 <= z < 2 ^ 63 -> s64 z = z.
Proof. intros. unfold s64. rewrite Z.mod_small; lia. Qed.

Lemma u8_range z : 0 <= u8 z < 2 ^ 8.
Proof. by apply Z.mod_pos_bound. Qed.

Lemma u32_range z : 0 <= u32 z < 2 ^ 32.
Proof. by apply Z.mod_pos_bound. Qed.

Lemma u64_range z : 0 <= u64 z < 2 ^ 64.
Proof. by apply Z.mod_pos_bound. Qed.

#[export] Hint Resolve u8_range u32_range u64_range : redis.

(** Removes the wrap-arounds of machine arithmetic that [lia] shows exact. *)
Ltac nowrap :=
  repeat match goal with
  | |- context [u64 ?z] => rewrite (u64_small z) by lia
  | |- context [u32 ?z] => rewrite (u32_small z) by lia
  | |- context [u8 ?z] => rewrite (u8_small z) by lia
  | |- context [s32 ?z] => rewrite (s32_small z) by lia
  | |- context [s64 ?z] => rewrite (s64_small z) by lia
  end.

(** ** Pointers

    An address is a positive number, a pointer is an address or [NULL]. *)
Abbreviation loc := positive (only parsing).
Abbreviation ptr := (option positive) (only parsing).
Abbreviation NULL := (@None positive) (only parsing).

(** [deref h p]: the object [p] points to in the store [h]. *)
Definition deref {A} (h : gmap loc A) (p : ptr) : result A :=
  match p with
  | None => Fault NullDeref
  | Some l => need (h !! l) Dangling
  end.

Lemma deref_some {A} (h : gmap loc A) l a :
  h !! l = Some a -> deref h (Some l) = Ok a.
Proof. intros Hl. cbn. by rewrite Hl. Qed.

(** [update h p f]: assignment to fields of the object [p] points to. *)
Definition update {A} (h : gmap loc A) (p : ptr) (f : A -> A) : result (gmap loc A) :=
  match p with
  | None => Fault NullDeref
  | Some l => a ← need (h !! l) Dangling; Ok (<[l := f a]> h)
  end.

Lemma update_some {A} (h : gmap loc A) l a f :
  h !! l = Some a -> update h (Some l) f = Ok (<[l := f a]> h).
Proof. intros Hl. cbn. by rewrite Hl. Qed.

(** Distinct live addresses are at most as many as the objects of the store. *)
Lemma keys_bound {A} (st : gmap loc A) (D : list loc) :
  (forall l, l ∈ D -> is_Some (st !! l)) -> NoDup D -> (length D <= size st)%nat.
Proof.
  intros Hl Hnd. rewrite <- size_dom. rewrite <- (size_list_to_set (C := gset loc) D Hnd).
  apply subseteq_size. intros l Hin%elem_of_list_to_set. apply elem_of_dom. auto.
Qed.

(** ** Bytes and C strings *)

(** A byte of an allocation: [None] until it is written. *)
Abbreviation cell := (option Z) (only parsing).

(** [memcpy]/[memset] into an allocation of [length b] bytes. *)
Definition write_at (off : Z) (bs : list Z) (b : list cell) : result (list cell) :=
  if (0 <=? off) && (off + Z.of_nat (length bs) <=? Z.of_nat (length b))
  then Ok (list_inserts (Z.to_nat off) (Some <$> bs) b)
  else Fault OutOfBounds.

(** Reads [n] bytes at offset [off]. *)
Definition read_at (off n : Z) (b : list cell) : result (list Z) :=
  if (0 <=? off) && (0 <=? n) && (off + n <=? Z.of_nat (length b))
  then need (mapM id (take (Z.to_nat n) (drop (Z.to_nat off) b))) Uninitialised
  else Fault OutOfBounds.

(** The C string at the start of a byte sequence: up to the first NUL. *)
Fixpoint cstr (bs : list Z) : list Z :=
  match bs with
  | [] => []
  | b :: bs' => if b =? 0 then [] else b :: cstr bs'
  end.

(** All elements are byte values. *)
Definition bytes_ok (bs : list Z) : Prop := Forall (fun b => 0 <= b < 2 ^ 8) bs.

Lemma write_at_spec off bs b :
  0 <= off -> off + Z.of_nat (length bs) <= Z.of_nat (length b) ->
  write_at off bs b = Ok (list_inserts (Z.to_nat off) (Some <$> bs) b).
Proof. intros ??. unfold write_at. by zbool. Qed.

Lemma write_at_length off bs b b' :
  write_at off bs b = Ok b' -> length b' = length b.
Proof.
  unfold write_at. case_match; [|done]. intros [= <-]. apply length_inserts.
Qed.

Lemma write_at_oob off bs b :
  off + Z.of_nat (length bs) > Z.of_nat (length b) -> write_at off bs b = Fault OutOfBounds.
Proof. intros. unfold write_at. zbool. by rewrite andb_false_r. Qed.

Lemma cstr_id bs : Forall (fun b => b <> 0) bs -> cstr bs = bs.
Proof. induction 1; cbn; [done|]. zbool. by f_equal. Qed.

(** Replacing a segment of a list, seen as a split of the list. *)
Lemma inserts_split {A} (i : nat) (ks l : list A) :
  (i + length ks <= length l)%nat ->
  list_inserts i ks l = take i l ++ ks ++ drop (i + length ks) l.
Proof.
  revert i l. induction ks as [|k ks IH]; intros i l Hlen; cbn [list_inserts length app].
  - rewrite Nat.add_0_r. by rewrite take_drop.
  - cbn in Hlen. rewrite IH by lia.
    rewrite insert_take_drop by (rewrite length_app, length_take, length_app, length_drop; lia).
    rewrite take_app_le by (rewrite length_take; lia).
    rewrite take_take, Nat.min_l by lia. f_equal.
    rewrite drop_app_ge by (rewrite length_take; lia).
    rewrite length_take, Nat.min_l by lia.
    replace (S i - S i)%nat with 0%nat by lia. rewrite drop_0.
    by replace (S i + length ks)%nat with (i + S (length ks))%nat by lia.
Qed.

(** A write right after a known prefix. *)
Lemma write_at_app (pre rest : list cell) (bs : list Z) off :
  off = Z.of_nat (length pre) -> (length bs <= length rest)%nat ->
  write_at off bs (pre ++ rest) = Ok (pre ++ (Some <$> bs) ++ drop (length bs) rest).
Proof.
  intros -> Hlen. rewrite write_at_spec; [|lia|rewrite length_app; lia].
  rewrite inserts_split by (rewrite length_fmap, length_app; lia).
  rewrite Nat2Z.id, length_fmap, take_app_length.
  by rewrite drop_app_ge, Nat.add_comm, Nat.add_sub by lia.
Qed.

(** Replacing an element exchanges it with the new one, up to order. *)
Lemma insert_Permutation {A} (l : list A) i x y :
  l !! i = Some y -> y :: <[i := x]> l ≡ₚ x :: l.
Proof.
  intros Hi. rewrite insert_take_drop by (by apply lookup_lt_Some in Hi).
  rewrite <- Permutation_middle. rewrite Permutation_swap. apply perm_skip.
  rewrite Permutation_middle. by rewrite (take_drop_middle _ _ _ Hi).
Qed.

(** Moving an element into a hole, with the hole moving to its old place. *)
Lemma swap_Permutation {A} (l : list A) i j x y :
  (i < length l)%nat -> l !! j = Some y -> i <> j ->
  <[j := x]> (<[i := y]> l) ≡ₚ <[i := x]> l.
Proof.
  intros Hi Hj Hij. apply (Permutation_cons_inv (a := y)).
  rewrite (insert_Permutation (<[i := y]> l) j x y) by (by rewrite list_lookup_insert_ne).
  rewrite <- (insert_Permutation (<[i := x]> l) i y x) by (by apply list_lookup_insert_eq).
  by rewrite list_insert_insert_eq.
Qed.

(** A list is rebuilt from the bytes it was made of. *)
Lemma mapM_id_some {A} (l : list A) : mapM id (Some <$> l) = Some l.
Proof. induction l as [|x l IH]; [done|]. cbn. by rewrite IH. Qed.

(** ** Little-endian integers (the [memcpy] of an integer variable) *)
Fixpoint le_bytes (n : nat) (z : Z) : list Z :=
  match n with
  | O => []
  | S n => z mod 2 ^ 8 :: le_bytes n (z / 2 ^ 8)
  end.

Fixpoint le_val (bs : list Z) : Z :=
  match bs with
  | [] => 0
  | b :: bs => b + 2 ^ 8 * le_val bs
  end.

Lemma le_bytes_length n z : length (le_bytes n z) = n.
Proof. revert z. induction n; intros; cbn; auto. Qed.

Lemma le_bytes_ok n z : bytes_ok (le_bytes n z).
Proof.
  revert z. induction n as [|n IH]; intros; cbn; constructor.
  - by apply Z.mod_pos_bound.
  - apply IH.
Qed.

Lemma le_val_bytes n z : le_val (le_bytes n z) = z mod 2 ^ (8 * Z.of_nat n).
Proof.
  revert z. induction n as [|n IH]; intros z; cbn [le_bytes le_val].
  - change (8 * Z.of_nat 0) with 0. by rewrite Z.mod_1_r.
  - rewrite IH. replace (8 * Z.of_nat (S n)) with (8 + 8 * Z.of_nat n) by lia.
    rewrite Z.pow_add_r by lia. rewrite Z.rem_mul_r by lia. lia.
Qed.

Lemma le_val_bytes_small n z :
  0 <= z < 2 ^ (8 * Z.of_nat n) -> le_val (le_bytes n z) = z.
Proof. intros. rewrite le_val_bytes. by apply Z.mod_small. Qed.

Lemma le_val_range bs : bytes_ok bs -> 0 <= le_val bs < 2 ^ (8 * Z.of_nat (length bs)).
Proof.
  induction 1 as [|b bs Hb _ IH]; cbn [le_val length]; [done|].
  replace (8 * Z.of_nat (S (length bs))) with (8 + 8 * Z.of_nat (length bs)) by lia.
  rewrite Z.pow_add_r by lia. lia.
Qed.

Lemma le_bytes_val bs : bytes_ok bs -> le_bytes (length bs) (le_val bs) = bs.
Proof.
  induction 1 as [|b bs Hb _ IH]; cbn [le_bytes le_val length]; [done|].
  rewrite Z.mul_comm, Z_mod_plus_full, Z.div_add, Z.mod_small, Z.div_small by lia.
  by rewrite Z.add_0_l, IH.
Qed.

#[export] Hint Rewrite le_bytes_length @length_app @length_fmap @length_drop @length_take
  @length_replicate @length_resize @length_insert @length_inserts @length_cons @length_nil : redis_len.

#[global] Arguments le_bytes : simpl never.

(** Solves bounds that involve the lengths of lists. *)
Ltac len := autorewrite with redis_len in *; cbn [length] in *; lia.
#[export] Hint Resolve le_bytes_ok : redis.
