(* ===== verification/Libc.v ===== *)
(** * The C library functions the command handlers parse their arguments with

    [strtol]/[strtoll] in base 10, [strtod], [tolower] and [strcmp], on C strings.  A
    double is its 64-bit pattern; the locale is "C" and the rounding mode is to
    nearest. *)

From S2P Require Import Prelude.

(** ** Characters and C strings *)

Definition isspace (c : Z) : bool := (c =? 32) || ((9 <=? c) && (c <=? 13)).
Definition tolower (c : Z) : Z := if (65 <=? c) && (c <=? 90) then c + 32 else c.

(** The value of a digit in base [base], at most 16. *)
Definition digit (base c : Z) : option Z :=
  let d := if (48 <=? c) && (c <=? 57) then c - 48
           else let c := tolower c in if (97 <=? c) && (c <=? 102) then c - 87 else base in
  if d <? base then Some d else None.

(** The bytes in front of the terminator of a block. *)
Fixpoint c_str (b : list cell) : result (list Z) :=
  match b with
  | [] => Fault OutOfBounds
  | None :: _ => Fault Uninitialised
  | Some c :: b => if c =? 0 then Ok [] else s ← c_str b; Ok (c :: s)
  end.

Fixpoint skip_space (s : list Z) : list Z :=
  match s with c :: r => if isspace c then skip_space r else s | [] => [] end.

Definition sign_of (s : list Z) : bool * list Z :=
  match s with
  | 43 :: r => (false, r)
  | 45 :: r => (true, r)
  | _ => (false, s)
  end.

(** The longest prefix of digits and the rest. *)
Fixpoint digits (base : Z) (s : list Z) : list Z * list Z :=
  match s with
  | [] => ([], [])
  | c :: r =>
      match digit base c with
      | Some d => let '(ds, r) := digits base r in (d :: ds, r)
      | None => ([], s)
      end
  end.

Definition horner (base : Z) (ds : list Z) : Z := foldl (fun a d => base * a + d) 0 ds.

(** ** [strtol(s, NULL, 10)] and [strtoll(s, NULL, 10)]: both are 64 bits wide *)

Definition strtol (s : list Z) : Z :=
  let '(neg, s) := sign_of (skip_space s) in
  let v := horner 10 (fst (digits 10 s)) in
  if neg then Z.max (- 2 ^ 63) (- v) else Z.min (2 ^ 63 - 1) v.

(** ** [strtod(s, NULL)] *)

(** The double nearest to [num / den], ties to even. *)
Definition round_double (num den : Z) : Z :=
  if num =? 0 then 0
  else
    let e := Z.log2 num - Z.log2 den in
    let e := if Z.shiftl num (Z.max 0 (- e)) <? Z.shiftl den (Z.max 0 e) then e - 1 else e in
    let e := Z.max e (- 1022) in
    let n := Z.shiftl num (Z.max 0 (52 - e)) in
    let d := Z.shiftl den (Z.max 0 (e - 52)) in
    let q := n / d in
    let r := n mod d in
    let q := if (d <? 2 * r) || ((d =? 2 * r) && Z.odd q) then q + 1 else q in
    Z.min 0x7FF0000000000000 (Z.shiftl (e + 1022) 52 + q).

(** [num / den * b ^ e] *)
Definition scaled (num b e : Z) : Z :=
  if 0 <=? e then round_double (num * b ^ e) 1 else round_double num (b ^ (- e)).

(** An exponent part introduced by [mark], 0 if there is none. *)
Definition exponent (mark : Z) (s : list Z) : Z :=
  match s with
  | c :: r =>
      if tolower c =? mark then
        let '(neg, r) := sign_of r in
        let e := horner 10 (fst (digits 10 r)) in
        if neg then - e else e
      else 0
  | [] => 0
  end.

(** The magnitude of a number in base 10 or 16. *)
Definition magnitude (base : Z) (s : list Z) : option Z :=
  let '(ip, r) := digits base s in
  let '(fp, r) := match r with 46 :: r' => digits base r' | _ => ([], r) end in
  let m := horner base (ip ++ fp) in
  let n := Z.of_nat (length fp) in
  match ip ++ fp with
  | [] => None
  | _ => Some (if base =? 10 then scaled m 10 (exponent 101 r - n) else scaled m 2 (exponent 112 r - 4 * n))
  end.

Fixpoint prefix_nocase (p s : list Z) : bool :=
  match p, s with
  | [], _ => true
  | a :: p, c :: s => (a =? tolower c) && prefix_nocase p s
  | _ :: _, [] => false
  end.

Definition strtod (s : list Z) : Z :=
  let '(neg, s) := sign_of (skip_space s) in
  let mag :=
    if prefix_nocase [105; 110; 102] s then Some 0x7FF0000000000000
    else if prefix_nocase [110; 97; 110] s then Some 0x7FF8000000000000
    else
      match (if prefix_nocase [48; 120] s then magnitude 16 (drop 2 s) else None) with
      | Some v => Some v
      | None => magnitude 10 s
      end in
  match mag with
  | Some v => if neg then Z.lor v (2 ^ 63) else v
  | None => 0
  end.

(** ** Checks on known values *)

Example strtod_one_and_half : strtod [49; 46; 53] = 0x3FF8000000000000.
Proof. reflexivity. Qed.
Example strtod_tenth : strtod [32; 45; 48; 46; 49] = 0xBFB999999999999A.
Proof. reflexivity. Qed.
Example strtod_smallest : strtod [53; 101; 45; 51; 50; 52] = 1.
Proof. vm_compute. reflexivity. Qed.
Example strtod_overflow : strtod [49; 69; 51; 48; 57] = 0x7FF0000000000000.
Proof. vm_compute. reflexivity. Qed.
Example strtod_hex : strtod [48; 120; 49; 46; 56; 112; 49] = 0x4008000000000000.
Proof. reflexivity. Qed.
Example strtod_no_number : strtod [45; 120] = 0.
Proof. reflexivity. Qed.
Example strtol_saturates : strtol (45 :: replicate 30 57) = - 2 ^ 63.
Proof. vm_compute. reflexivity. Qed.

(** ** Lemmas *)

Lemma strtol_range s : - 2 ^ 63 <= strtol s < 2 ^ 63.
Proof.
  unfold strtol. destruct (sign_of _) as [neg r].
  assert (H : forall ds a, 0 <= a -> Forall (fun d => 0 <= d) ds -> 0 <= foldl (fun a d => 10 * a + d) a ds).
  { induction ds as [|d ds IH]; intros a Ha Hd; [done|]. apply Forall_cons in Hd as [Hd Hds]. apply IH; [lia|done]. }
  assert (Hd : Forall (fun d => 0 <= d) (digits 10 r).1).
  { induction r as [|c r IH]; [constructor|]. cbn. destruct (digit 10 c) as [d|] eqn:E; [|constructor].
    destruct (digits 10 r) as [ds r']. constructor; [|done].
    revert E. unfold digit. repeat case_match; intros [= <-]; lia. }
  pose proof (H _ 0 ltac:(lia) Hd) as Hv. fold (horner 10 (digits 10 r).1) in Hv. destruct neg; lia.
Qed.

(** A block that starts with a terminated byte string reads as its C string. *)
Lemma c_str_app bs rest : c_str ((Some <$> bs) ++ Some 0 :: rest) = Ok (cstr bs).
Proof. induction bs as [|b bs IH]; cbn; [done|]. destruct (b =? 0); [done|]. by rewrite IH. Qed.
