(* ===== verification/Dstr.v ===== *)
(** * Dynamic strings: [src/src/data_structures/dstr.cpp], [dstr.h]

    A [dstr] is a heap block of a 16-byte header ([size], [free]) followed by
    the flexible array [buf].  The model keeps the bytes of [buf] that the
    allocation really has, so a write past the block is a [Fault].  The
    outcome of each [malloc]/[realloc] is a boolean argument. *)

From S2P Require Import Prelude.

(** ** Data *)

Definition MAX_STR_PREALOC : Z := 1024 * 1024.
Definition MAX_STR_SIZE : Z := Z.shiftl 1 30.

(** [sizeof(dstr)]: the two [size_t] of the header. *)
Definition sizeof_dstr : Z := 16.

Inductive StrFuncReturns := STR_OK | STR_ERR_TOO_LARGE | STR_ERR_ALLOC_FAIL.

#[export] Instance StrFuncReturns_eq_dec : EqDecision StrFuncReturns.
Proof. solve_decision. Defined.

(** [d_buf]: the bytes of the allocation from [buf] on. *)
Record dstr := mkDstr { d_size : Z; d_free : Z; d_buf : list cell }.

#[export] Instance dstr_eq_dec : EqDecision dstr.
Proof. solve_decision. Defined.

(** The bytes of [buf] after the block is reallocated to [n] bytes: the old
    prefix is kept, new bytes are indeterminate. *)
Definition realloc_buf (n : Z) (b : list cell) : list cell :=
  resize (Z.to_nat (n - sizeof_dstr)) None b.

(** ** Operations *)

Definition dstr_init (ok : bool) (len : Z) : StrFuncReturns + dstr :=
  if MAX_STR_SIZE <? len then inl STR_ERR_TOO_LARGE
  else if negb ok then inl STR_ERR_ALLOC_FAIL
  else inr (mkDstr 0 len (Some 0 :: replicate (Z.to_nat len) None)).

Definition dstr_cap (str : dstr) : Z := u64 (d_free str + d_size str).

Definition dstr_append (ok : bool) (str : dstr) (toadd : list Z) (toadd_s : Z)
  : result (StrFuncReturns * dstr) :=
  if MAX_STR_SIZE <? u64 (toadd_s + dstr_cap str) then Ok (STR_ERR_TOO_LARGE, str)
  else
    let lpos := d_size str in
    let grown :=
      if d_free str <? toadd_s then
        let newlen := u64 (d_size str + d_free str + toadd_s) in
        let incr := Z.min MAX_STR_PREALOC newlen in
        let newlen := u64 (newlen + incr) in
        let free := u64 (newlen - d_free str) in
        (ok, mkDstr (d_size str) free
               (if ok then realloc_buf (u64 (sizeof_dstr + newlen + 1)) (d_buf str)
                else d_buf str))
      else (true, str) in
    if negb (fst grown) then Ok (STR_ERR_ALLOC_FAIL, snd grown)
    else
      let str := snd grown in
      _ ← check (toadd_s <=? Z.of_nat (length toadd)) OutOfBounds;
      b ← write_at lpos (take (Z.to_nat toadd_s) toadd) (d_buf str);
      let size := u64 (d_size str + toadd_s) in
      let free := u64 (d_free str - toadd_s) in
      b ← write_at size [0] b;
      Ok (STR_OK, mkDstr size free b).

Definition dstr_assign (ok1 ok2 : bool) (str : dstr) (toadd : list Z) (toadd_s : Z)
  : result (StrFuncReturns * dstr) :=
  match dstr_init ok1 (dstr_cap str) with
  | inl err => Ok (err, str)
  | inr tmp =>
      '(err, tmp) ← dstr_append ok2 tmp toadd toadd_s;
      if decide (err = STR_OK) then Ok (STR_OK, tmp) else Ok (err, str)
  end.

Definition dstr_resize (ok : bool) (str : dstr) (len : Z) (pad : Z)
  : result (StrFuncReturns * dstr) :=
  if MAX_STR_SIZE <? len then Ok (STR_ERR_TOO_LARGE, str)
  else
    let cap := dstr_cap str in
    if d_size str <? len then
      if (cap <? len) && negb ok then Ok (STR_ERR_ALLOC_FAIL, str)
      else
        let b := if cap <? len then realloc_buf (sizeof_dstr + len + 1) (d_buf str)
                 else d_buf str in
        let cap := if cap <? len then len else cap in
        b ← write_at (d_size str) (replicate (Z.to_nat (len - d_size str)) (u8 pad)) b;
        b ← write_at len [0] b;
        Ok (STR_OK, mkDstr len (u64 (cap - len)) b)
    else
      b ← write_at len [0] (d_buf str);
      Ok (STR_OK, mkDstr len (u64 (cap - len)) b).

(** [realloc] is asked for [size + add + 1] bytes: the header is not counted. *)
Definition dstr_reserve (ok : bool) (str : dstr) (add : Z)
  : result (StrFuncReturns * dstr) :=
  if MAX_STR_SIZE <? u64 (d_size str + add) then Ok (STR_ERR_TOO_LARGE, str)
  else if add <=? d_free str then Ok (STR_OK, str)
  else
    let n := u64 (d_size str + add + 1) in
    _ ← check ok NullDeref;
    _ ← check (sizeof_dstr <=? n) OutOfBounds;
    Ok (STR_OK, mkDstr (d_size str) add (realloc_buf n (d_buf str))).

(** The copy idiom of the sources: [dstr_init(src->size)] followed by
    [dstr_append(&dst, src->buf, src->size)], the return code ignored. *)
Definition dstr_copy (src : list Z) : result dstr :=
  match dstr_init true (Z.of_nat (length src)) with
  | inl _ => Fault NullDeref
  | inr d => '(_, d) ← dstr_append true d src (Z.of_nat (length src)); Ok d
  end.

(** The first [size] bytes of a string (what [out_str] sends). *)
Definition dstr_bytes (d : dstr) : result (list Z) := read_at 0 (d_size d) (d_buf d).

(** ** Representation

    [dstr_rep d bs]: the block is consistent and holds the byte string [bs]. *)
Record dstr_rep (d : dstr) (bs : list Z) : Prop := mkRep {
  rep_size : d_size d = Z.of_nat (length bs);
  rep_free : 0 <= d_free d;
  rep_cap : d_size d + d_free d < 2 ^ 62;
  rep_alloc : d_size d + d_free d + 1 <= Z.of_nat (length (d_buf d));
  rep_buf : exists rest, d_buf d = (Some <$> bs) ++ Some 0 :: rest
}.

(** [dstr_append] computes the new [free] as [newlen - free] instead of
    [newlen - size]; the block stays consistent when no growth is needed or
    when [size <= free]. *)
Definition append_sound (d : dstr) (n : Z) : Prop :=
  n <= d_free d \/ d_size d <= d_free d.

#[export] Instance append_sound_dec d n : Decision (append_sound d n).
Proof. unfold append_sound. apply _. Defined.

(** ** Lemmas *)

Lemma max_str_size_eq : MAX_STR_SIZE = 2 ^ 30.
Proof. reflexivity. Qed.

Lemma rep_cap_eq d bs : dstr_rep d bs -> dstr_cap d = d_size d + d_free d.
Proof. intros [Hs Hf Hc _ _]. unfold dstr_cap. nowrap. lia. Qed.

(** Writing a payload and its terminator after a prefix. *)
Lemma write_terminated (pre rest : list cell) (bs : list Z) off off' :
  off = Z.of_nat (length pre) -> off' = off + Z.of_nat (length bs) ->
  (length bs < length rest)%nat ->
  (b ← write_at off bs (pre ++ rest); write_at off' [0] b)
  = Ok (pre ++ (Some <$> bs) ++ Some 0 :: drop (S (length bs)) rest).
Proof.
  intros -> -> Hlen. rewrite write_at_app by lia. cbn [mbind result_bind].
  rewrite app_assoc, write_at_app by len. cbn [fmap list_fmap length].
  rewrite drop_drop, <- app_assoc. cbn [app]. by rewrite Nat.add_comm.
Qed.

Lemma realloc_buf_app n (pre rest : list cell) :
  Z.of_nat (length pre) <= n - sizeof_dstr ->
  realloc_buf n (pre ++ rest)
  = pre ++ resize (Z.to_nat (n - sizeof_dstr) - length pre) None rest.
Proof. intros. unfold realloc_buf. rewrite resize_app_ge; [done|lia]. Qed.

Lemma length_realloc_buf n b : length (realloc_buf n b) = Z.to_nat (n - sizeof_dstr).
Proof. apply length_resize. Qed.

#[export] Hint Rewrite length_realloc_buf : redis_len.

Lemma rep_bytes d bs : dstr_rep d bs -> dstr_bytes d = Ok bs.
Proof.
  intros [Hs _ _ _ [rest Hb]]. unfold dstr_bytes, read_at.
  rewrite Hs, Hb, length_app, length_fmap. zbool. cbn [andb].
  rewrite drop_0, Nat2Z.id, <- (length_fmap Some bs), take_app_length.
  by rewrite mapM_id_some.
Qed.

(** [memcpy] reads only the first [toadd_s] bytes of its source. *)
Lemma append_prefix ok d add more :
  dstr_append ok d (add ++ more) (Z.of_nat (length add))
  = dstr_append ok d add (Z.of_nat (length add)).
Proof.
  unfold dstr_append. case_match; [done|]. cbn zeta. case_match; [done|].
  rewrite length_app. zbool. by rewrite Nat2Z.id, take_app_length, take_ge.
Qed.

(** The tail of the block that follows the represented bytes. *)
Lemma rep_split d bs :
  dstr_rep d bs -> exists rest, d_buf d = (Some <$> bs) ++ rest /\
    d_free d + 1 <= Z.of_nat (length rest).
Proof.
  intros [Hs Hf _ Ha [rest Hb]]. exists (Some 0 :: rest). split; [done|].
  rewrite Hb in Ha. len.
Qed.

(** The last steps of [dstr_append], on any block with room for the data. *)
Lemma append_tail (bs add : list Z) size free (rest : list cell) :
  size = Z.of_nat (length bs) -> Z.of_nat (length add) <= free -> size + free < 2 ^ 62 ->
  free + 1 <= Z.of_nat (length rest) ->
  exists d', (b ← write_at size (take (length add) add) ((Some <$> bs) ++ rest);
      b ← write_at (u64 (size + Z.of_nat (length add))) [0] b;
      Ok (STR_OK, mkDstr (u64 (size + Z.of_nat (length add)))
                   (u64 (free - Z.of_nat (length add))) b))
    = Ok (STR_OK, d') /\ dstr_rep d' (bs ++ add) /\
    d_free d' = free - Z.of_nat (length add).
Proof.
  intros -> Hle Hcap Hrest. nowrap. rewrite take_ge by lia.
  rewrite <- bind_assoc.
  rewrite write_terminated by len. eexists. split; [reflexivity|].
  split; [|reflexivity]. split; cbn; [len|len|len|len|].
  exists (drop (S (length add)) rest). by rewrite fmap_app, <- app_assoc.
Qed.

(** A growing [dstr_append] on a sound block, and one that fits. *)
Lemma append_ok d bs add :
  dstr_rep d bs -> append_sound d (Z.of_nat (length add)) ->
  Z.of_nat (length add) + dstr_cap d <= MAX_STR_SIZE ->
  exists d', dstr_append true d add (Z.of_nat (length add)) = Ok (STR_OK, d') /\
    dstr_rep d' (bs ++ add).
Proof.
  intros Hrep Hsound Hmax. pose proof (rep_cap_eq _ _ Hrep) as Hcap.
  destruct (rep_split _ _ Hrep) as (rest & Hb & Hrest).
  destruct Hrep as [Hs Hf Hc Ha _].
  rewrite Hcap in Hmax. unfold dstr_append. rewrite Hcap.
  rewrite max_str_size_eq in *. nowrap. zbool.
  destruct (Z.ltb_spec (d_free d) (Z.of_nat (length add))) as [Hlt|Hge]; cbn [fst snd negb].
  - unfold append_sound in Hsound. unfold MAX_STR_PREALOC, sizeof_dstr in *. nowrap.
    cbn [d_buf d_size d_free check mbind result_bind]. rewrite Nat2Z.id, Hb.
    rewrite realloc_buf_app by (unfold sizeof_dstr; len).
    edestruct append_tail as (d' & E & Hr & _); [..|exists d'; split; [exact E|exact Hr]];
      unfold sizeof_dstr; len.
  - cbn [check mbind result_bind]. rewrite Nat2Z.id, Hb.
    edestruct append_tail as (d' & E & Hr & _); [..|exists d'; split; [exact E|exact Hr]]; len.
Qed.

Lemma init_rep len d :
  0 <= len -> dstr_init true len = inr d ->
  dstr_rep d [] /\ d_free d = len /\ len <= MAX_STR_SIZE.
Proof.
  unfold dstr_init. intros Hlen. destruct (Z.ltb_spec MAX_STR_SIZE len); [done|].
  intros [= <-]. rewrite max_str_size_eq in *.
  split; [|done]. split; cbn; [done|lia|lia|len|by eexists].
Qed.

(** The capacity check of [dstr_append] and the failing [realloc]. *)
Lemma append_too_large ok d bs add :
  dstr_rep d bs -> Z.of_nat (length add) < 2 ^ 62 ->
  MAX_STR_SIZE < Z.of_nat (length add) + dstr_cap d ->
  dstr_append ok d add (Z.of_nat (length add)) = Ok (STR_ERR_TOO_LARGE, d).
Proof.
  intros Hrep Hlen Hmax. pose proof (rep_cap_eq _ _ Hrep) as Hcap.
  destruct Hrep as [Hs Hf Hc Ha _]. rewrite Hcap in Hmax. unfold dstr_append.
  rewrite Hcap. nowrap. by zbool.
Qed.

Lemma append_fits_any ok d bs add :
  dstr_rep d bs -> Z.of_nat (length add) <= d_free d ->
  dstr_append ok d add (Z.of_nat (length add)) = dstr_append true d add (Z.of_nat (length add)).
Proof. intros Hrep Hle. unfold dstr_append. by zbool. Qed.

Lemma append_alloc_fail d bs add :
  dstr_rep d bs -> d_free d < Z.of_nat (length add) ->
  Z.of_nat (length add) + dstr_cap d <= MAX_STR_SIZE ->
  exists d', dstr_append false d add (Z.of_nat (length add)) = Ok (STR_ERR_ALLOC_FAIL, d') /\
    d_size d' = d_size d /\ d_buf d' = d_buf d.
Proof.
  intros Hrep Hlt Hmax. pose proof (rep_cap_eq _ _ Hrep) as Hcap.
  destruct Hrep as [Hs Hf Hc Ha _]. rewrite Hcap in Hmax. unfold dstr_append.
  rewrite Hcap, max_str_size_eq in *. nowrap. zbool. cbn. by eexists.
Qed.

(** Appending to an empty string: every outcome. *)
Lemma append_empty ok d add :
  dstr_rep d [] -> Z.of_nat (length add) < 2 ^ 62 ->
  exists e d', dstr_append ok d add (Z.of_nat (length add)) = Ok (e, d') /\
    (e = STR_OK -> dstr_rep d' add) /\
    (ok = true -> Z.of_nat (length add) + dstr_cap d <= MAX_STR_SIZE -> e = STR_OK).
Proof.
  intros Hrep Hlen.
  destruct (Z.le_gt_cases (Z.of_nat (length add) + dstr_cap d) MAX_STR_SIZE) as [Hle|Hgt].
  2: { exists STR_ERR_TOO_LARGE, d. rewrite (append_too_large _ _ []) by done.
       split; [done|]. split; [done|lia]. }
  assert (Hsound : append_sound d (Z.of_nat (length add))).
  { right. destruct Hrep as [-> ? _ _ _]. done. }
  destruct (append_ok d [] add Hrep Hsound Hle) as (d' & E & Hr).
  destruct (Z.le_gt_cases (Z.of_nat (length add)) (d_free d)).
  { exists STR_OK, d'. by rewrite (append_fits_any _ _ []). }
  destruct ok; [by exists STR_OK, d'|].
  destruct (append_alloc_fail d [] add) as (d'' & -> & _); [done..|lia|].
  by exists STR_ERR_ALLOC_FAIL, d''.
Qed.

(** How much a string grows that starts empty. *)
Lemma append_empty_cap d add d' :
  dstr_rep d [] -> Z.of_nat (length add) + dstr_cap d <= MAX_STR_SIZE ->
  dstr_append true d add (Z.of_nat (length add)) = Ok (STR_OK, d') ->
  dstr_cap d' <= Z.max (dstr_cap d) (Z.of_nat (length add) + MAX_STR_PREALOC).
Proof.
  intros Hrep Hmax. pose proof (rep_cap_eq _ _ Hrep) as Hcap. destruct Hrep as [Hs Hf Hc _ _].
  cbn in Hs. rewrite Hcap, Hs, max_str_size_eq in *. unfold dstr_append, dstr_cap, MAX_STR_PREALOC.
  rewrite Hs, max_str_size_eq. nowrap. zbool.
  destruct (Z.ltb_spec (d_free d) (Z.of_nat (length add))); cbn [fst snd negb d_size d_free d_buf];
    intros E; inv_ok; cbn [d_size d_free]; nowrap; lia.
Qed.

(** Growing from a block whose [size] is over its [free] records a capacity
    that the block does not have. *)
Lemma append_overclaims d bs add :
  dstr_rep d bs -> d_free d < Z.of_nat (length add) -> d_free d < d_size d ->
  Z.of_nat (length add) + dstr_cap d <= MAX_STR_SIZE ->
  exists d', dstr_append true d add (Z.of_nat (length add)) = Ok (STR_OK, d') /\
    d_size d' = d_size d + Z.of_nat (length add) /\ d_size d' + d_free d' < 2 ^ 62 /\
    0 <= d_free d' /\
    d_size d' + d_free d' = Z.of_nat (length (d_buf d')) - 1 + (d_size d - d_free d).
Proof.
  intros Hrep Hlt Hsz Hmax. pose proof (rep_cap_eq _ _ Hrep) as Hcap.
  destruct (rep_split _ _ Hrep) as (rest & Hb & Hrest).
  destruct Hrep as [Hs Hf Hc Ha _].
  rewrite Hcap in Hmax. unfold dstr_append. rewrite Hcap.
  rewrite max_str_size_eq in *. unfold MAX_STR_PREALOC, sizeof_dstr. nowrap. zbool.
  cbn [fst snd negb d_buf d_size d_free check mbind result_bind]. nowrap.
  rewrite Nat2Z.id, take_ge, Hb by lia. rewrite <- bind_assoc.
  rewrite realloc_buf_app by (unfold sizeof_dstr; len).
  rewrite write_terminated by (unfold sizeof_dstr; len).
  eexists. split; [reflexivity|]. cbn [d_size d_free d_buf].
  unfold sizeof_dstr. repeat split; len.
Qed.

(** An append that [free] admits writes outside a block that is too short. *)
Lemma append_oob d add :
  0 <= d_size d -> 0 <= d_free d -> d_size d + d_free d < 2 ^ 62 ->
  Z.of_nat (length add) <= d_free d ->
  Z.of_nat (length (d_buf d)) < d_size d + Z.of_nat (length add) + 1 ->
  Z.of_nat (length add) + (d_size d + d_free d) <= MAX_STR_SIZE ->
  dstr_append true d add (Z.of_nat (length add)) = Fault OutOfBounds.
Proof.
  intros ?????? . unfold dstr_append, dstr_cap. rewrite max_str_size_eq in *. nowrap. zbool.
  cbn [fst snd negb check mbind result_bind]. nowrap. rewrite Nat2Z.id, take_ge by lia.
  destruct (write_at _ add _) as [b|e] eqn:E.
  - cbn [mbind result_bind]. rewrite write_at_oob; [done|].
    rewrite (write_at_length _ _ _ _ E). cbn [length]. lia.
  - revert E. unfold write_at. by case_match; intros [= <-].
Qed.

(** The last steps of [dstr_resize], growing and shrinking. *)
Lemma resize_grow_tail (bs : list Z) (rest : list cell) size len cap p :
  size = Z.of_nat (length bs) -> size < len <= cap -> cap < 2 ^ 62 ->
  cap + 1 <= size + Z.of_nat (length rest) ->
  exists d', (b ← write_at size (replicate (Z.to_nat (len - size)) p) ((Some <$> bs) ++ rest);
      b ← write_at len [0] b; Ok (STR_OK, mkDstr len (u64 (cap - len)) b)) = Ok (STR_OK, d') /\
    dstr_rep d' (resize (Z.to_nat len) p bs).
Proof.
  intros -> Hlen Hcap Hrest. rewrite <- bind_assoc.
  rewrite write_terminated by len. nowrap. eexists. split; [reflexivity|].
  rewrite resize_ge by lia. split; cbn; [len|len|len|len|].
  eexists. rewrite fmap_app, <- app_assoc. repeat f_equal. lia.
Qed.

Lemma resize_shrink_tail (bs : list Z) (rest : list cell) len cap p :
  0 <= len <= Z.of_nat (length bs) -> Z.of_nat (length bs) <= cap < 2 ^ 62 ->
  cap + 1 <= Z.of_nat (length bs) + Z.of_nat (length rest) ->
  exists d', (b ← write_at len [0] ((Some <$> bs) ++ rest);
      Ok (STR_OK, mkDstr len (u64 (cap - len)) b)) = Ok (STR_OK, d') /\
    dstr_rep d' (resize (Z.to_nat len) p bs).
Proof.
  intros Hlen Hcap Hrest. nowrap. rewrite resize_le by lia.
  assert (Hsplit : (Some <$> bs) ++ rest = (Some <$> take (Z.to_nat len) bs)
            ++ ((Some <$> drop (Z.to_nat len) bs) ++ rest)).
  { by rewrite app_assoc, <- fmap_app, take_drop. }
  rewrite Hsplit, write_at_app by len. eexists. split; [reflexivity|].
  split; cbn; [len|len|len|len|]. by eexists.
Qed.

Lemma copy_ok src :
  Z.of_nat (length src) + Z.of_nat (length src) <= MAX_STR_SIZE ->
  exists d, dstr_copy src = Ok d /\ dstr_rep d src.
Proof.
  intros Hmax. unfold dstr_copy. destruct (dstr_init true _) as [e|d] eqn:E.
  { revert E. unfold dstr_init. zbool. done. }
  apply init_rep in E as (Hr & Hf & Hm); [|lia].
  assert (dstr_cap d = Z.of_nat (length src)) as Hc.
  { rewrite (rep_cap_eq _ _ Hr), Hf. destruct Hr as [-> _ _ _ _]. done. }
  destruct (append_ok d [] src Hr) as (d' & -> & Hr'); [left; lia|lia|]. by exists d'.
Qed.

(** ** Properties *)

(** [dstr_append] on a consistent string, every branch: over the size
    limit it returns [STR_ERR_TOO_LARGE] and changes nothing; otherwise, when
    the growth computation is sound ([n <= free] or [size <= free]) and the
    allocation succeeds, it returns [STR_OK] and the string holds exactly the
    concatenation, NUL-terminated and within its block. *)
Theorem dstr_append_rep d bs add :
  dstr_rep d bs -> Z.of_nat (length add) < 2 ^ 62 ->
  if MAX_STR_SIZE <? Z.of_nat (length add) + dstr_cap d
  then forall ok, dstr_append ok d add (Z.of_nat (length add)) = Ok (STR_ERR_TOO_LARGE, d)
  else append_sound d (Z.of_nat (length add)) ->
    exists d', dstr_append true d add (Z.of_nat (length add)) = Ok (STR_OK, d') /\
      dstr_rep d' (bs ++ add) /\ dstr_bytes d' = Ok (bs ++ add).
Proof.
  intros Hrep Hlen. zcase; intros.
  - by apply (append_too_large _ _ bs).
  - destruct (append_ok d bs add) as (d' & E & Hr); [done..|].
    exists d'. eauto using rep_bytes.
Qed.

(** C40: [dstr_assign] never faults and is all-or-nothing: with any outcome of
    its two allocations it returns [STR_OK] and the string holds the new bytes,
    or an error and the string is the old one; it succeeds when the
    allocations do and the size limit holds. *)
Theorem dstr_assign_all_or_nothing ok1 ok2 d bs add :
  dstr_rep d bs -> Z.of_nat (length add) < 2 ^ 62 ->
  exists e d', dstr_assign ok1 ok2 d add (Z.of_nat (length add)) = Ok (e, d') /\
    (e = STR_OK -> dstr_rep d' add) /\ (e <> STR_OK -> d' = d) /\
    (ok1 = true -> ok2 = true -> Z.of_nat (length add) + dstr_cap d <= MAX_STR_SIZE ->
     e = STR_OK).
Proof.
  intros Hrep Hlen. unfold dstr_assign.
  assert (0 <= dstr_cap d) by apply u64_range.
  destruct (dstr_init ok1 (dstr_cap d)) as [e|tmp] eqn:E.
  - exists e, d. split; [done|]. revert E. unfold dstr_init.
    zcase; [|destruct ok1]; intros [= <-]; repeat split; try done; lia.
  - destruct ok1; [|revert E; unfold dstr_init; by case_match].
    apply init_rep in E as (Hr & Hf & Hm); [|done].
    destruct (append_empty ok2 tmp add Hr Hlen) as (e & d' & -> & H1 & H2).
    cbn [mbind result_bind]. assert (dstr_cap tmp = dstr_cap d) as Hc.
    { rewrite (rep_cap_eq _ _ Hr), Hf. destruct Hr as [-> _ _ _ _]. done. }
    rewrite Hc in H2. case_decide.
    + subst e. exists STR_OK, d'. naive_solver.
    + exists e, d. do 3 (split; [done|]). intros _ ??. by apply H2.
Qed.

(** [dstr_resize] on a consistent string never faults: it refuses a length
    over the limit and a failed allocation without changing the string, and
    otherwise the string holds its first [len] bytes, padded with [pad]. *)
Theorem dstr_resize_rep ok d bs len pad :
  dstr_rep d bs -> 0 <= len ->
  exists e d', dstr_resize ok d len pad = Ok (e, d') /\
    (e = STR_OK -> dstr_rep d' (resize (Z.to_nat len) (u8 pad) bs)) /\
    (e <> STR_OK -> d' = d) /\
    (e = STR_OK <-> len <= MAX_STR_SIZE /\ (dstr_cap d < len -> ok = true)).
Proof.
  intros Hrep Hlen. pose proof (rep_cap_eq _ _ Hrep) as Hcap.
  destruct (rep_split _ _ Hrep) as (rest & Hb & Hrest).
  destruct Hrep as [Hs Hf Hc Ha _]. unfold dstr_resize. rewrite Hcap.
  zcase; [exists STR_ERR_TOO_LARGE, d; split; [done|]; split; [done|]; split; [done|];
          split; [done|lia]|].
  rewrite max_str_size_eq in *. destruct (Z.ltb_spec (d_size d) len) as [Hlt|Hge].
  - destruct (Z.ltb_spec (d_size d + d_free d) len) as [Hgrow|Hfit]; cbn [andb].
    + destruct ok; cbn [negb]; [|exists STR_ERR_ALLOC_FAIL, d; naive_solver lia].
      rewrite Hb, realloc_buf_app by (unfold sizeof_dstr; len).
      edestruct (resize_grow_tail bs) as (d' & -> & Hr); [done|..|exists STR_OK, d'];
        [unfold sizeof_dstr; len..|naive_solver lia].
    + rewrite Hb. edestruct (resize_grow_tail bs rest) as (d' & -> & Hr);
        [done|..|exists STR_OK, d']; [len..|naive_solver lia].
  - rewrite Hb, Hs. edestruct (resize_shrink_tail bs rest len) as (d' & -> & Hr);
      [..|exists STR_OK, d']; [len..|naive_solver lia].
Qed.

(** (Growth of a block that is over half full): when [size > free], a
    growing [dstr_append] returns [STR_OK] but records [size - free] bytes of
    capacity more than the block has; a following append that fits the recorded
    [free] space writes outside the block. *)
Theorem dstr_append_overflow d bs add :
  dstr_rep d bs -> d_free d < Z.of_nat (length add) -> d_free d < d_size d ->
  Z.of_nat (length add) + dstr_cap d <= MAX_STR_SIZE ->
  exists d', dstr_append true d add (Z.of_nat (length add)) = Ok (STR_OK, d') /\
    dstr_cap d' = Z.of_nat (length (d_buf d')) - 1 + (d_size d - d_free d) /\
    forall add', Z.of_nat (length add') = d_free d' ->
      Z.of_nat (length add') + dstr_cap d' <= MAX_STR_SIZE ->
      dstr_append true d' add' (Z.of_nat (length add')) = Fault OutOfBounds.
Proof.
  intros Hrep Hlt Hsz Hmax.
  destruct (append_overclaims d bs add) as (d' & E & Hs' & Hb' & Hf' & Hc'); [done..|].
  pose proof (rep_size _ _ Hrep).
  assert (dstr_cap d' = d_size d' + d_free d') as Hcap by (unfold dstr_cap; nowrap; lia).
  exists d'. split; [done|]. split; [lia|]. intros add' Hl Hm.
  apply append_oob; lia.
Qed.

(** [dstr_reserve] does not count the header in the size it asks
    [realloc] for: the block it leaves is 16 bytes shorter than the [size +
    free + 1] it records, and filling the reserved space is a write outside
    the block. *)
Theorem dstr_reserve_short d bs add :
  dstr_rep d bs -> d_free d < add -> sizeof_dstr <= d_size d + add + 1 ->
  d_size d + add <= MAX_STR_SIZE ->
  exists d', dstr_reserve true d add = Ok (STR_OK, d') /\ d_free d' = add /\
    Z.of_nat (length (d_buf d')) = d_size d' + d_free d' + 1 - sizeof_dstr /\
    forall bs', Z.of_nat (length bs') = add -> add + dstr_cap d' <= MAX_STR_SIZE ->
      dstr_append true d' bs' add = Fault OutOfBounds.
Proof.
  intros [Hs Hf Hc Ha _] Hlt Hhd Hmax. unfold dstr_reserve.
  rewrite max_str_size_eq in *. unfold sizeof_dstr in *. nowrap. zbool.
  cbn [check mbind result_bind]. eexists. split; [reflexivity|]. cbn [d_free d_size d_buf].
  split; [done|]. split; [rewrite length_realloc_buf; unfold sizeof_dstr; lia|].
  intros bs' <- Hm. unfold dstr_cap in Hm. cbn in Hm. rewrite u64_small in Hm by lia.
  apply append_oob; cbn; rewrite ?length_realloc_buf, ?max_str_size_eq; unfold sizeof_dstr; lia.
Qed.

(** The copy idiom [dstr_init(n); dstr_append(.., n)] used for every key
    and value is exact up to half the size limit; above it the append is
    refused and the copy is silently empty, and above the limit itself the
    missing check on [dstr_init] is a null dereference. *)
Theorem dstr_copy_cases src :
  Z.of_nat (length src) < 2 ^ 62 ->
  let n := Z.of_nat (length src) in
  if MAX_STR_SIZE <? n then dstr_copy src = Fault NullDeref
  else exists d, dstr_copy src = Ok d /\
    dstr_rep d (if MAX_STR_SIZE <? n + n then [] else src).
Proof.
  intros Hlen. cbn zeta. unfold dstr_copy.
  destruct (dstr_init true (Z.of_nat (length src))) as [e|d] eqn:E.
  { revert E. unfold dstr_init. by case_match. }
  apply init_rep in E as (Hr & Hf & Hm); [|lia]. zbool.
  assert (dstr_cap d = Z.of_nat (length src)) as Hc.
  { rewrite (rep_cap_eq _ _ Hr), Hf. destruct Hr as [-> _ _ _ _]. done. }
  zcase.
  - rewrite (append_too_large _ _ [] _ Hr) by (done || lia). by exists d.
  - destruct (append_ok d [] src Hr) as (d' & -> & Hr'); [left; lia|lia|]. by exists d'.
Qed.

(** ** Witnesses *)

(** A string of eight bytes with two bytes free. *)
Definition full8 : dstr :=
  mkDstr 8 2 ((Some <$> replicate 8 97) ++ Some 0 :: [None; None]).

Lemma full8_rep : dstr_rep full8 (replicate 8 97).
Proof. split; cbn; [done|lia|lia|lia|by eexists]. Qed.

Lemma dstr_append_rep_witness :
  exists d', dstr_append true full8 [98; 99] 2 = Ok (STR_OK, d') /\
    dstr_rep d' (replicate 8 97 ++ [98; 99]) /\ dstr_bytes d' = Ok (replicate 8 97 ++ [98; 99]).
Proof.
  pose proof (dstr_append_rep full8 (replicate 8 97) [98; 99] full8_rep) as H.
  replace (MAX_STR_SIZE <? _) with false in H by reflexivity.
  apply H; [cbn; lia|]. left. cbn. lia.
Defined.

Lemma dstr_assign_all_or_nothing_witness :
  exists e d', dstr_assign true true full8 [98] 1 = Ok (e, d') /\
    (e = STR_OK -> dstr_rep d' [98]) /\ (e <> STR_OK -> d' = full8) /\
    (true = true -> true = true -> 1 + dstr_cap full8 <= MAX_STR_SIZE -> e = STR_OK).
Proof. apply (dstr_assign_all_or_nothing true true full8 _ [98] full8_rep). cbn. lia. Defined.

Lemma dstr_resize_rep_witness :
  exists e d', dstr_resize true full8 12 0 = Ok (e, d') /\
    (e = STR_OK -> dstr_rep d' (resize 12 (u8 0) (replicate 8 97))) /\
    (e <> STR_OK -> d' = full8) /\
    (e = STR_OK <-> 12 <= MAX_STR_SIZE /\ (dstr_cap full8 < 12 -> true = true)).
Proof. apply (dstr_resize_rep true full8 _ 12 0 full8_rep). lia. Defined.

Lemma dstr_append_overflow_witness :
  exists d', dstr_append true full8 [1; 2; 3] 3 = Ok (STR_OK, d') /\
    dstr_cap d' = Z.of_nat (length (d_buf d')) - 1 + (8 - 2) /\
    forall add', Z.of_nat (length add') = d_free d' ->
      Z.of_nat (length add') + dstr_cap d' <= MAX_STR_SIZE ->
      dstr_append true d' add' (Z.of_nat (length add')) = Fault OutOfBounds.
Proof.
  apply (dstr_append_overflow full8 _ [1; 2; 3] full8_rep); cbn; try lia.
  vm_compute. discriminate.
Defined.

Lemma dstr_reserve_short_witness :
  exists d', dstr_reserve true full8 20 = Ok (STR_OK, d') /\ d_free d' = 20 /\
    Z.of_nat (length (d_buf d')) = d_size d' + d_free d' + 1 - sizeof_dstr /\
    forall bs', Z.of_nat (length bs') = 20 -> 20 + dstr_cap d' <= MAX_STR_SIZE ->
      dstr_append true d' bs' 20 = Fault OutOfBounds.
Proof. apply (dstr_reserve_short full8 _ 20 full8_rep); vm_compute; (reflexivity || discriminate). Defined.

Lemma dstr_copy_cases_witness :
  exists d, dstr_copy [107; 49] = Ok d /\ dstr_rep d [107; 49].
Proof.
  pose proof (dstr_copy_cases [107; 49]) as H. cbn [length] in H.
  apply H. lia.
Defined.
