(* ===== verification/Dlist.v ===== *)
(** * Doubly linked lists: [src/src/data_structures/dlist.cpp], [dlist.h]

    The nodes live in a store from addresses to nodes, so the pointer
    assignments of the source are assignments to that store and aliasing is
    visible.  Two shapes are used by the program: rings with a sentinel (the
    idle, read and write lists of the server) and NULL-terminated lists with a
    head and a tail (the values of type list). *)

From S2P Require Import Prelude.

(** ** Data *)

Record DListNode (V : Type) := mkNode { dl_prev : ptr; dl_next : ptr; dl_val : V }.
Arguments mkNode {V} _ _ _.
Arguments dl_prev {V} _.
Arguments dl_next {V} _.
Arguments dl_val {V} _.

Record DList := mkDList { l_head : ptr; l_tail : ptr; l_size : Z }.

Section dlist.
Context {V : Type}.
Implicit Types (h : gmap loc (DListNode V)) (n : DListNode V) (x y z s : loc) (xs ys : list loc).

Definition set_prev (p : ptr) (n : DListNode V) : DListNode V := mkNode p (dl_next n) (dl_val n).
Definition set_next (p : ptr) (n : DListNode V) : DListNode V := mkNode (dl_prev n) p (dl_val n).

(** ** Operations *)

Definition dlist_init (h : gmap loc (DListNode V)) (node : ptr) : result (gmap loc (DListNode V)) :=
  h ← update h node (set_prev node);
  update h node (set_next node).

Definition dlist_empty (h : gmap loc (DListNode V)) (node : ptr) : result bool :=
  n ← deref h node; Ok (bool_decide (dl_next n = node)).

Definition dlist_deatach (h : gmap loc (DListNode V)) (node : ptr) : result (gmap loc (DListNode V)) :=
  n ← deref h node;
  let next := dl_next n in
  let prev := dl_prev n in
  h ← (if prev is Some _ then update h prev (set_next next) else Ok h);
  if next is Some _ then update h next (set_prev prev) else Ok h.

Definition dlist_insert_before (h : gmap loc (DListNode V)) (target node : ptr)
  : result (gmap loc (DListNode V)) :=
  t ← deref h target;
  let prev := dl_prev t in
  h ← update h target (set_prev node);
  h ← update h node (set_next target);
  h ← update h node (set_prev prev);
  if prev is Some _ then update h prev (set_next node) else Ok h.

Definition dlist_insert_after (h : gmap loc (DListNode V)) (target node : ptr)
  : result (gmap loc (DListNode V)) :=
  t ← deref h target;
  let next := dl_next t in
  h ← update h target (set_next node);
  h ← update h node (set_prev target);
  h ← update h node (set_next next);
  if next is Some _ then update h next (set_prev node) else Ok h.

(** ** Representation *)

(** The first node of a sequence, or the pointer that follows it. *)
Definition first (xs : list loc) (q : ptr) : ptr :=
  match xs with [] => q | x :: _ => Some x end.

(** The last node of a sequence, or the pointer that precedes it. *)
Definition final (p : ptr) (xs : list loc) : ptr :=
  match last xs with None => p | Some x => Some x end.

(** [seg h p xs q]: the nodes [xs] are linked in this order, [p] is the
    [prev] of the first one and [q] the [next] of the last one. *)
Fixpoint seg (h : gmap loc (DListNode V)) (p : ptr) (xs : list loc) (q : ptr) : Prop :=
  match xs with
  | [] => True
  | x :: xs' => (exists v, h !! x = Some (mkNode p (first xs' q) v)) /\ seg h (Some x) xs' q
  end.

(** A ring through the sentinel [s] and the nodes [xs]. *)
Definition ring (h : gmap loc (DListNode V)) (s : loc) (xs : list loc) : Prop :=
  NoDup (s :: xs) /\ seg h (final (Some s) xs) (s :: xs) (Some s).

(** A NULL-terminated list whose head and tail are recorded in a [DList]. *)
Definition chain (h : gmap loc (DListNode V)) (l : DList) (xs : list loc) : Prop :=
  NoDup xs /\ seg h NULL xs NULL /\ l_size l = Z.of_nat (length xs) /\
  (xs <> [] -> l_head l = first xs NULL /\ l_tail l = final NULL xs).

(** [frame h h' ls]: only links of the nodes [ls] were assigned to. *)
Definition frame (h h' : gmap loc (DListNode V)) (ls : list loc) : Prop :=
  (forall l, l ∉ ls -> h' !! l = h !! l) /\
  (forall l, dl_val <$> h' !! l = dl_val <$> h !! l).

(** ** Lemmas *)

Lemma final_snoc p xs x : final p (xs ++ [x]) = Some x.
Proof. unfold final. by rewrite last_snoc. Qed.

Lemma final_cons p x xs : final p (x :: xs) = final (Some x) xs.
Proof. unfold final. rewrite last_cons. by destruct (last xs). Qed.

Lemma final_app_cons p xs y ys : final p (xs ++ y :: ys) = final (Some y) ys.
Proof. revert p. induction xs as [|x xs IH]; intros p; cbn [app]; by rewrite final_cons. Qed.

Lemma first_app xs ys q : first (xs ++ ys) q = first xs (first ys q).
Proof. by destruct xs. Qed.

Lemma seg_app h p xs ys q :
  seg h p (xs ++ ys) q <-> seg h p xs (first ys q) /\ seg h (final p xs) ys q.
Proof.
  revert p. induction xs as [|x xs IH]; intros p; cbn [app seg]; [naive_solver|].
  rewrite IH, final_cons, first_app. naive_solver.
Qed.

Lemma seg_ext h h' p xs q :
  (forall x, x ∈ xs -> h' !! x = h !! x) -> seg h p xs q -> seg h' p xs q.
Proof.
  revert p. induction xs as [|x xs IH]; intros p Hext; cbn; [done|].
  intros [[v Hv] Hs]. split; [exists v; rewrite Hext by set_solver; done|].
  apply IH; [|done]. intros y Hy. apply Hext. set_solver.
Qed.

Lemma seg_lookup h p xs q x : x ∈ xs -> seg h p xs q -> exists n, h !! x = Some n.
Proof.
  revert p. induction xs as [|y xs IH]; intros p Hx; [set_solver|].
  intros [[v Hv] Hs]. apply elem_of_cons in Hx as [->|Hx]; eauto.
Qed.

Lemma frame_refl h ls : frame h h ls.
Proof. by split. Qed.

Lemma frame_trans h1 h2 h3 ls ls' :
  frame h1 h2 ls -> frame h2 h3 ls' -> frame h1 h3 (ls ++ ls').
Proof.
  intros [F1 V1] [F2 V2]. split; intros l; [|by rewrite V2].
  intros Hl. rewrite F2, F1; set_solver.
Qed.

Lemma frame_update h l n f :
  h !! l = Some n -> dl_val (f n) = dl_val n -> frame h (<[l := f n]> h) [l].
Proof.
  intros Hl Hv. split; intros k.
  - intros Hk. rewrite lookup_insert_ne; [done|]. set_solver.
  - rewrite lookup_insert. case_decide; simplify_eq/=; [|done]. by rewrite Hl, Hv.
Qed.

(** Redirecting the outgoing link at one end of a segment. *)
Lemma seg_set_next h p xs q q' y :
  NoDup xs -> last xs = Some y -> seg h p xs q ->
  exists h', update h (Some y) (set_next q') = Ok h' /\ seg h' p xs q' /\ frame h h' [y].
Proof.
  intros Hnd Hl Hs. apply last_Some in Hl as [xs' ->].
  apply seg_app in Hs as [Hs1 [[v Hv] _]].
  eexists. rewrite (update_some _ _ _ _ Hv). split; [done|]. split; [|by apply frame_update].
  apply seg_app. split.
  - apply seg_ext with h; [|done]. intros x Hx. rewrite lookup_insert_ne; [done|].
    apply NoDup_app in Hnd as (_ & Hd & _). intros ->. apply (Hd x Hx). set_solver.
  - cbn. rewrite lookup_insert_eq. split; [|done]. by exists v.
Qed.

Lemma seg_set_prev h p p' y xs q :
  NoDup (y :: xs) -> seg h p (y :: xs) q ->
  exists h', update h (Some y) (set_prev p') = Ok h' /\ seg h' p' (y :: xs) q /\ frame h h' [y].
Proof.
  intros Hnd [[v Hv] Hs].
  eexists. rewrite (update_some _ _ _ _ Hv). split; [done|]. split; [|by apply frame_update].
  split; [rewrite lookup_insert_eq; by exists v|].
  apply seg_ext with h; [|done]. intros x Hx. rewrite lookup_insert_ne; [done|].
  apply NoDup_cons in Hnd as [Hd _]. by intros ->.
Qed.

Lemma seg_frame h h' ls p xs q :
  frame h h' ls -> (forall x, x ∈ xs -> x ∉ ls) -> seg h p xs q -> seg h' p xs q.
Proof. intros [F _] Hd. apply seg_ext. intros x Hx. apply F. auto. Qed.

Lemma final_last p x xs : exists y, final p (x :: xs) = Some y /\ last (x :: xs) = Some y.
Proof.
  unfold final. destruct (last (x :: xs)) as [y|] eqn:E; [eauto|].
  by apply last_None in E.
Qed.

Lemma frame_weaken h h' ls ls' : frame h h' ls -> ls ⊆ ls' -> frame h h' ls'.
Proof. intros [F ?] Hsub. split; [|done]. intros l Hl. apply F. set_solver. Qed.

Lemma ring_nodup h s xs : ring h s xs -> NoDup (s :: xs).
Proof. by intros [? _]. Qed.

Lemma ring_sentinel h s xs :
  ring h s xs -> exists v, h !! s = Some (mkNode (final (Some s) xs) (first xs (Some s)) v).
Proof. by intros [_ [[v Hv] _]]; exists v. Qed.

Lemma ring_empty h s xs :
  ring h s xs -> dlist_empty h (Some s) = Ok (bool_decide (xs = [])).
Proof.
  intros Hr. destruct (ring_sentinel _ _ _ Hr) as [v Hv]. apply ring_nodup in Hr.
  unfold dlist_empty. rewrite (deref_some _ _ _ Hv). cbn. f_equal.
  apply bool_decide_ext. destruct xs as [|x xs]; cbn; [done|].
  split; [|done]. intros [= ->]. apply NoDup_cons in Hr as [Hn _]. set_solver.
Qed.

(** Linking a node at the end of a ring. *)
Lemma ring_insert h s xs z nd :
  ring h s xs -> z ∉ s :: xs -> h !! z = Some nd ->
  exists h', dlist_insert_before h (Some s) (Some z) = Ok h' /\ ring h' s (xs ++ [z]) /\
    frame h h' (z :: s :: xs).
Proof.
  intros [Hnd Hs] Hn Hnn. unfold dlist_insert_before.
  pose proof Hs as [[v Hv] _]. rewrite (deref_some _ _ _ Hv). cbn [mbind result_bind dl_prev].
  destruct (seg_set_prev _ _ (Some z) s xs _ Hnd Hs) as (h1 & -> & Hs1 & F1).
  cbn [mbind result_bind].
  assert (h1 !! z = Some nd) as H1n by (rewrite (proj1 F1); [done|set_solver]).
  rewrite (update_some _ _ _ _ H1n). cbn [mbind result_bind].
  erewrite update_some by apply lookup_insert_eq. cbn [mbind result_bind].
  rewrite insert_insert_eq.
  assert (F2 : frame h1 (<[z := mkNode (final (Some s) xs) (Some s) (dl_val nd)]> h1) [z]).
  { by apply (frame_update _ _ _ (fun _ => mkNode (final (Some s) xs) (Some s) (dl_val nd)) H1n). }
  change (set_prev _ (set_next _ _)) with (mkNode (final (Some s) xs) (Some s) (dl_val nd)).
  destruct (final_last (Some s) s xs) as (y & Hfy & Hly). rewrite final_cons in Hfy.
  rewrite Hfy in F2 |- *.
  apply (seg_frame _ _ _ _ _ _ F2) in Hs1; [|set_solver].
  destruct (seg_set_next _ _ _ _ (Some z) y Hnd Hly Hs1) as (h3 & E3 & Hs3 & F3).
  rewrite E3. exists h3. split; [done|].
  assert (y ∈ s :: xs) as Hy by (apply last_Some_elem_of in Hly; set_solver).
  split; [split|].
  - rewrite app_comm_cons. apply NoDup_app. split; [done|]. split; [|apply NoDup_singleton].
    intros w Hw ->%list_elem_of_singleton. done.
  - rewrite final_snoc, app_comm_cons. apply seg_app. split; [done|].
    rewrite final_cons, Hfy. cbn. split; [|done]. exists (dl_val nd).
    rewrite (proj1 F3) by set_solver. by rewrite lookup_insert_eq.
  - eapply frame_weaken; [exact (frame_trans _ _ _ _ _ (frame_trans _ _ _ _ _ F1 F2) F3)|].
    set_solver.
Qed.

(** Unlinking a node of a ring; the node keeps its own stale links. *)
Lemma ring_deatach h s xs1 x xs2 :
  ring h s (xs1 ++ x :: xs2) ->
  exists h', dlist_deatach h (Some x) = Ok h' /\ ring h' s (xs1 ++ xs2) /\
    frame h h' (s :: xs1 ++ xs2).
Proof.
  intros [Hnd Hs]. rewrite app_comm_cons in Hnd.
  apply NoDup_app in Hnd as (Hnd1 & Hd & Hnd2).
  apply NoDup_cons in Hnd2 as [Hx2 Hnd2].
  assert (Hx1 : x ∉ s :: xs1) by (intros H; apply (Hd x H); set_solver).
  assert (Hd' : forall y, y ∈ s :: xs1 -> y ∉ xs2) by (intros y Hy ?; apply (Hd y Hy); set_solver).
  assert (Hnd' : NoDup ((s :: xs1) ++ xs2)) by (by apply NoDup_app).
  rewrite app_comm_cons in Hs. apply seg_app in Hs as [Hs1 [[v Hv] Hs2]].
  cbn [first] in Hs1. rewrite final_cons in *.
  unfold dlist_deatach. rewrite (deref_some _ _ _ Hv). cbn [mbind result_bind dl_next dl_prev].
  destruct (final_last (Some s) s xs1) as (y & Hfy & Hly). rewrite final_cons in Hfy.
  assert (Hy : y ∈ s :: xs1) by (apply last_Some_elem_of in Hly; set_solver).
  rewrite Hfy.
  destruct (seg_set_next _ _ _ _ (first xs2 (Some s)) y Hnd1 Hly Hs1) as (h1 & -> & Hs1' & F1).
  cbn [mbind result_bind]. apply (seg_frame _ _ _ _ _ _ F1) in Hs2; [|set_solver].
  destruct xs2 as [|z xs2]; cbn [first] in *.
  - destruct (seg_set_prev _ _ (Some y) s xs1 _ Hnd1 Hs1') as (h2 & -> & Hs2' & F2).
    exists h2. split; [done|]. split; [split; [by rewrite app_comm_cons|]|].
    + by rewrite app_nil_r, Hfy.
    + eapply frame_weaken; [exact (frame_trans _ _ _ _ _ F1 F2)|]. set_solver.
  - destruct (seg_set_prev _ _ (Some y) z xs2 _ Hnd2 Hs2) as (h2 & -> & Hs2' & F2).
    exists h2. split; [done|]. split; [split; [by rewrite app_comm_cons|]|].
    + rewrite app_comm_cons. apply seg_app. rewrite final_cons, Hfy. split; [|done].
      apply (seg_frame _ _ _ _ _ _ F2); [set_solver|].
      revert Hs1'. rewrite !final_app_cons. by rewrite !final_cons.
    + eapply frame_weaken; [exact (frame_trans _ _ _ _ _ F1 F2)|]. set_solver.
Qed.

Lemma init_ring h s nd :
  h !! s = Some nd -> exists h', dlist_init h (Some s) = Ok h' /\ ring h' s [] /\ frame h h' [s].
Proof.
  intros Hs. unfold dlist_init. rewrite (update_some _ _ _ _ Hs). cbn [mbind result_bind].
  erewrite update_some by apply lookup_insert_eq. rewrite insert_insert_eq.
  eexists. split; [done|]. split.
  - split; [apply NoDup_singleton|]. cbn. rewrite lookup_insert_eq. split; [|done]. by eexists.
  - by apply (frame_update _ _ _ (fun n => set_next (Some s) (set_prev (Some s) n)) Hs).
Qed.

(** Linking a fresh node at either end of a NULL-terminated list. *)
Lemma seg_push_left h x xs z nd :
  NoDup (z :: x :: xs) -> seg h NULL (x :: xs) NULL -> h !! z = Some nd ->
  exists h', dlist_insert_before h (Some x) (Some z) = Ok h' /\
    seg h' NULL (z :: x :: xs) NULL /\ frame h h' (z :: x :: xs).
Proof.
  intros [Hz Hnd]%NoDup_cons Hs Hnn. pose proof Hs as [[v Hv] _].
  unfold dlist_insert_before. rewrite (deref_some _ _ _ Hv). cbn [mbind result_bind dl_prev].
  destruct (seg_set_prev _ _ (Some z) x xs _ Hnd Hs) as (h1 & -> & Hs1 & F1).
  cbn [mbind result_bind].
  assert (h1 !! z = Some nd) as H1z by (rewrite (proj1 F1); [done|set_solver]).
  rewrite (update_some _ _ _ _ H1z). cbn [mbind result_bind].
  erewrite update_some by apply lookup_insert_eq. cbn [mbind result_bind].
  rewrite insert_insert_eq. eexists. split; [done|].
  pose proof (frame_update _ _ _ (fun n => set_prev NULL (set_next (Some x) n)) H1z eq_refl) as F2.
  split; [split|].
  - rewrite lookup_insert_eq. by eexists.
  - apply (seg_frame _ _ _ _ _ _ F2); [set_solver|done].
  - eapply frame_weaken; [exact (frame_trans _ _ _ _ _ F1 F2)|]. set_solver.
Qed.

Lemma seg_push_right h xs y z nd :
  NoDup (xs ++ [y; z]) -> seg h NULL (xs ++ [y]) NULL -> h !! z = Some nd ->
  exists h', dlist_insert_after h (Some y) (Some z) = Ok h' /\
    seg h' NULL (xs ++ [y; z]) NULL /\ frame h h' (xs ++ [y; z]).
Proof.
  intros Hnd Hs Hnn. change [y; z] with ([y] ++ [z]) in *. rewrite app_assoc in *.
  apply NoDup_app in Hnd as (Hnd & Hz & _).
  assert (Hz' : z ∉ xs ++ [y]) by (intros H; apply (Hz z H); set_solver).
  pose proof Hs as Hs'. apply seg_app in Hs' as [_ [[v Hv] _]].
  unfold dlist_insert_after. rewrite (deref_some _ _ _ Hv). cbn [mbind result_bind dl_next first].
  destruct (seg_set_next _ _ _ _ (Some z) y Hnd (last_snoc _ _) Hs) as (h1 & -> & Hs1 & F1).
  cbn [mbind result_bind].
  assert (h1 !! z = Some nd) as H1z by (rewrite (proj1 F1); [done|set_solver]).
  rewrite (update_some _ _ _ _ H1z). cbn [mbind result_bind].
  erewrite update_some by apply lookup_insert_eq. cbn [mbind result_bind].
  rewrite insert_insert_eq. eexists. split; [done|].
  pose proof (frame_update _ _ _ (fun n => set_next NULL (set_prev (Some y) n)) H1z eq_refl) as F2.
  split; [apply seg_app; split|].
  - apply (seg_frame _ _ _ _ _ _ F2); [set_solver|done].
  - rewrite final_snoc. cbn. rewrite lookup_insert_eq. split; [|done]. by eexists.
  - eapply frame_weaken; [exact (frame_trans _ _ _ _ _ F1 F2)|]. set_solver.
Qed.
End dlist.

(** ** Properties *)

(** On a ring with sentinel [s] (the server's timeout lists),
    [dlist_insert_before(s, n)] appends the fresh node [n] as the last element,
    keeps the ring, and assigns to no node outside it. *)
Theorem dlist_insert_before_ring {V} (h : gmap loc (DListNode V)) s xs n nd :
  ring h s xs -> n ∉ s :: xs -> h !! n = Some nd ->
  exists h', dlist_insert_before h (Some s) (Some n) = Ok h' /\ ring h' s (xs ++ [n]) /\
    frame h h' (n :: s :: xs) /\ dlist_empty h' (Some s) = Ok false.
Proof.
  intros Hr Hn Hnd. destruct (ring_insert h s xs n nd) as (h' & E & Hr' & F); [done..|].
  exists h'. do 3 (split; [done|]). rewrite (ring_empty _ _ _ Hr'). f_equal.
  apply bool_decide_eq_false. by destruct xs.
Qed.

(** [dlist_deatach] of a member removes exactly that member: the ring then
    links the other nodes in the same order, and the detached node itself is
    left with its old links. *)
Theorem dlist_deatach_ring {V} (h : gmap loc (DListNode V)) s xs1 x xs2 :
  ring h s (xs1 ++ x :: xs2) ->
  exists h', dlist_deatach h (Some x) = Ok h' /\ ring h' s (xs1 ++ xs2) /\
    h' !! x = h !! x /\ dlist_empty h' (Some s) = Ok (bool_decide (xs1 ++ xs2 = [])).
Proof.
  intros Hr. destruct (ring_deatach h s xs1 x xs2 Hr) as (h' & E & Hr' & [F _]).
  exists h'. do 2 (split; [done|]). split; [|by apply ring_empty].
  apply F. apply ring_nodup in Hr.
  rewrite <- Permutation_middle, Permutation_swap, NoDup_cons in Hr. tauto.
Qed.

(** (A node is not reset when it is detached): detach [a], detach [b], free
    [b], then detach [a] again, as [close_conn] does for a connection that is
    no longer in a list: the second detach of [a] follows the stale link to the
    freed node. *)
Theorem dlist_deatach_twice {V} (h : gmap loc (DListNode V)) s a b :
  ring h s [a; b] ->
  exists h1 h2, dlist_deatach h (Some a) = Ok h1 /\ dlist_deatach h1 (Some b) = Ok h2 /\
    ring h2 s [] /\ dlist_deatach (delete b h2) (Some a) = Fault Dangling.
Proof.
  intros Hr. destruct (ring_deatach h s [] a [b] Hr) as (h1 & E1 & Hr1 & F1).
  destruct (ring_deatach h1 s [] b [] Hr1) as (h2 & E2 & Hr2 & F2).
  exists h1, h2. do 3 (split; [done|]).
  pose proof (ring_nodup _ _ _ Hr) as Hnd.
  assert (s <> a /\ a <> b /\ s <> b) as (Hsa & Hab & Hsb).
  { rewrite !NoDup_cons in Hnd. set_solver. }
  destruct Hr as [_ (_ & (v & Ha) & _)]. destruct (ring_sentinel _ _ _ Hr2) as [w Hw].
  assert (Ha' : delete b h2 !! a = Some (mkNode (Some s) (Some b) v)).
  { rewrite lookup_delete_ne by done. rewrite (proj1 F2), (proj1 F1) by set_solver. done. }
  unfold dlist_deatach. rewrite (deref_some _ _ _ Ha'). cbn [mbind result_bind dl_next dl_prev].
  rewrite (update_some _ _ (mkNode (Some s) (Some s) w)); [|by rewrite lookup_delete_ne].
  cbn. by rewrite lookup_insert_ne, lookup_delete_eq.
Qed.

(** ** Witnesses *)

(** A ring of the sentinel 1 with the nodes 2 and 3; 4 is not linked. *)
Definition ring3 : gmap loc (DListNode Z) :=
  {[ 1%positive := mkNode (Some 3) (Some 2) 0%Z; 2%positive := mkNode (Some 1) (Some 3) 20%Z;
     3%positive := mkNode (Some 2) (Some 1) 30%Z; 4%positive := mkNode NULL NULL 40%Z ]}%positive.

Lemma ring3_ring : ring ring3 1 [2; 3]%positive.
Proof.
  split; [by_compute|].
  cbn. split_and!; [by exists 0|by exists 20|by exists 30|done].
Qed.

Lemma dlist_insert_before_ring_witness :
  exists h', dlist_insert_before ring3 (Some 1%positive) (Some 4%positive) = Ok h' /\
    ring h' 1 [2; 3; 4]%positive /\ frame ring3 h' [4; 1; 2; 3]%positive /\
    dlist_empty h' (Some 1%positive) = Ok false.
Proof.
  apply (dlist_insert_before_ring ring3 1 [2; 3]%positive 4 (mkNode NULL NULL 40) ring3_ring);
    [by_compute|reflexivity].
Defined.

Lemma dlist_deatach_ring_witness :
  exists h', dlist_deatach ring3 (Some 2%positive) = Ok h' /\ ring h' 1 [3%positive] /\
    h' !! 2%positive = ring3 !! 2%positive /\
    dlist_empty h' (Some 1%positive) = Ok (bool_decide ([3%positive] = [])).
Proof. apply (dlist_deatach_ring ring3 1 [] 2 [3]%positive ring3_ring). Defined.

Lemma dlist_deatach_twice_witness :
  exists h1 h2, dlist_deatach ring3 (Some 2%positive) = Ok h1 /\
    dlist_deatach h1 (Some 3%positive) = Ok h2 /\ ring h2 1 [] /\
    dlist_deatach (delete 3%positive h2) (Some 2%positive) = Fault Dangling.
Proof. apply (dlist_deatach_twice ring3 1 2 3 ring3_ring). Defined.
