(* ===== verification/Heap.v ===== *)
(** * The TTL heap: [src/src/data_structures/heap.cpp], [heap.h], and
    [set_ttl] / [rem_ttl] of [src/src/server.cpp]

    The heap is a vector of entries; an entry points back to the [heap_idx]
    field of its database node, and every move of an entry writes that field.
    The heap is modelled against an interface to the nodes, [PosStore]. *)

From S2P Require Import Prelude.

(** ** Data *)

Record HeapNode := mkHeapNode { hn_val : Z; hn_pos_ref : loc }.

#[export] Instance HeapNode_eq_dec : EqDecision HeapNode.
Proof. solve_decision. Defined.

(** What the heap asks of the store of nodes: reading and writing the
    [heap_idx] field of a node. *)
Class PosStore (St : Type) := {
  pos_get : St -> loc -> result Z;
  pos_set : loc -> Z -> St -> result St
}.

Class PosStoreOk (St : Type) `{PosStore St} := {
  pos_live : St -> loc -> Prop;
  pos_set_live : forall st l v, pos_live st l ->
    exists st', pos_set l v st = Ok st' /\ pos_get st' l = Ok v /\
      (forall l', l' <> l -> pos_get st' l' = pos_get st l') /\
      (forall l', pos_live st' l' <-> pos_live st l')
}.

(** ** Operations of [heap.cpp] *)

Definition heap_left (pos : Z) : Z := u64 (pos * 2 + 1).
Definition heap_right (pos : Z) : Z := u64 (pos * 2 + 2).
Definition heap_parent (pos : Z) : Z := s32 (Z.shiftr (u64 (pos - 1)) 1).

(** [heap[pos]]: unchecked indexing of the vector. *)
Definition vget (heap : list HeapNode) (pos : Z) : result HeapNode :=
  if 0 <=? pos then need (heap !! Z.to_nat pos) OutOfBounds else Fault OutOfBounds.

Definition vset (heap : list HeapNode) (pos : Z) (n : HeapNode) : result (list HeapNode) :=
  if (0 <=? pos) && (pos <? Z.of_nat (length heap))
  then Ok (<[Z.to_nat pos := n]> heap) else Fault OutOfBounds.

Section heap.
Context {St : Type} `{PS : PosStore St}.

(** [heap[pos] = n; *heap[pos].pos_ref = pos;] *)
Definition place (heap : list HeapNode) (st : St) (pos : Z) (n : HeapNode)
  : result (list HeapNode * St) :=
  heap ← vset heap pos n;
  st ← pos_set (hn_pos_ref n) pos st;
  Ok (heap, st).

Fixpoint heap_up_loop (fuel : nat) (heap : list HeapNode) (st : St) (node : HeapNode) (pos : Z)
  : result (list HeapNode * St) :=
  match fuel with
  | O => Fault OutOfFuel
  | S fuel =>
      if 0 <? pos then
        p ← vget heap (u64 (heap_parent pos));
        if hn_val node <=? hn_val p then
          let parent := u64 (heap_parent pos) in
          '(heap, st) ← place heap st pos p;
          heap_up_loop fuel heap st node parent
        else place heap st pos node
      else place heap st pos node
  end.

Definition heap_up (heap : list HeapNode) (st : St) (pos : Z) : result (list HeapNode * St) :=
  node ← vget heap pos;
  heap_up_loop (S (length heap)) heap st node pos.

Fixpoint heap_down_loop (fuel : nat) (heap : list HeapNode) (st : St) (node : HeapNode) (pos : Z)
  : result (list HeapNode * St) :=
  match fuel with
  | O => Fault OutOfFuel
  | S fuel =>
      let size := Z.of_nat (length heap) in
      if pos <? size then
        let left_ch := heap_left pos in
        let right_ch := heap_right pos in
        let min_val := hn_val node in
        min_val ← (if left_ch <? size
                   then n ← vget heap left_ch; Ok (Z.min min_val (hn_val n)) else Ok min_val);
        min_val ← (if right_ch <? size
                   then n ← vget heap right_ch; Ok (Z.min min_val (hn_val n)) else Ok min_val);
        if hn_val node =? min_val then place heap st pos node
        else
          let next_pos := left_ch in
          next_pos ← (if right_ch <? size then
                        r ← vget heap right_ch; l ← vget heap left_ch;
                        Ok (if hn_val r <? hn_val l then left_ch else next_pos)
                      else Ok next_pos);
          n ← vget heap next_pos;
          '(heap, st) ← place heap st pos n;
          heap_down_loop fuel heap st node next_pos
      else place heap st pos node
  end.

Definition heap_down (heap : list HeapNode) (st : St) (pos : Z) : result (list HeapNode * St) :=
  node ← vget heap pos;
  heap_down_loop (S (length heap)) heap st node pos.

Definition heap_fix (heap : list HeapNode) (st : St) (pos : Z) : result (list HeapNode * St) :=
  node ← vget heap pos;
  let parent_pos := u64 (heap_parent pos) in
  up ← (if 0 <? pos then p ← vget heap parent_pos; Ok (hn_val node <? hn_val p) else Ok false);
  if (up : bool) then heap_up heap st pos
  else if pos <? Z.of_nat (length heap) then heap_down heap st pos
  else Ok (heap, st).

(** ** [set_ttl] and [rem_ttl]

    [curr_ms] is the value of the monotonic clock. *)
Definition set_ttl (heap : list HeapNode) (st : St) (curr_ms : Z) (node : loc) (ttl : Z)
  : result (list HeapNode * St) :=
  let hn := mkHeapNode (u64 (curr_ms + ttl)) node in
  let heap := heap ++ [hn] in
  heap_fix heap st (u64 (Z.of_nat (length heap) - 1)).

Definition rem_ttl (heap : list HeapNode) (st : St) (node : loc) : result (list HeapNode * St) :=
  idx ← pos_get st node;
  if (idx <? 0) || (Z.of_nat (length heap) <=? idx) then Ok (heap, st)
  else
    back ← vget heap (Z.of_nat (length heap) - 1);
    heap ← vset heap idx back;
    let heap := take (length heap - 1) heap in
    idx ← pos_get st node;
    if idx <? Z.of_nat (length heap) then heap_fix heap st idx
    else Ok (heap, st).

(** ** Representation *)

Definition parent_of (i : nat) : nat := ((i - 1) / 2)%nat.

(** [ordered_but k l]: every entry but the one at [k] is at least its parent. *)
Definition ordered_but (k : option nat) (l : list HeapNode) : Prop :=
  forall i x p, (0 < i)%nat -> k <> Some i -> l !! i = Some x -> l !! parent_of i = Some p ->
    hn_val p <= hn_val x.

Definition heap_ordered (l : list HeapNode) : Prop := ordered_but None l.

(** [tracked_but k l st]: every entry but the one at [k] is pointed at by the
    [heap_idx] of its node. *)
Definition tracked_but (k : option nat) (l : list HeapNode) (st : St) : Prop :=
  forall i x, k <> Some i -> l !! i = Some x -> pos_get st (hn_pos_ref x) = Ok (Z.of_nat i).

Definition tracked (l : list HeapNode) (st : St) : Prop := tracked_but None l st.

(** ** Lemmas *)

Lemma parent_lt i : (0 < i)%nat -> (parent_of i < i)%nat.
Proof. intros. unfold parent_of. apply Nat.Div0.div_lt_upper_bound; lia. Qed.

Lemma heap_parent_nat i :
  (0 < i)%nat -> Z.of_nat i < 2 ^ 31 -> u64 (heap_parent (Z.of_nat i)) = Z.of_nat (parent_of i).
Proof.
  intros Hi Hlt. unfold heap_parent, parent_of. rewrite (u64_small (Z.of_nat i - 1)) by lia.
  rewrite Z.shiftr_div_pow2 by lia. change (2 ^ 1) with 2.
  rewrite Nat2Z.inj_div, Nat2Z.inj_sub by lia. change (Z.of_nat 1) with 1.
  change (Z.of_nat 2) with 2.
  assert (0 <= (Z.of_nat i - 1) / 2 < 2 ^ 31)
    by (split; [apply Z.div_pos; lia|apply Z.div_lt_upper_bound; lia]).
  by nowrap.
Qed.

Lemma vget_nat (heap : list HeapNode) i x : heap !! i = Some x -> vget heap (Z.of_nat i) = Ok x.
Proof. intros Hx. unfold vget. zbool. by rewrite Nat2Z.id, Hx. Qed.

Lemma vset_nat (heap : list HeapNode) i x :
  (i < length heap)%nat -> vset heap (Z.of_nat i) x = Ok (<[i := x]> heap).
Proof. intros Hi. unfold vset. zbool. by rewrite Nat2Z.id. Qed.

Context {PO : PosStoreOk St}.

(** The loops carry an entry [node] and a hole at [pos]; the list they stand
    for is [<[pos := node]> heap]. *)
Record hole (heap : list HeapNode) (st : St) (node : HeapNode) (pos : nat) : Prop := mkHole {
  hole_lt : (pos < length heap)%nat;
  hole_live : Forall (fun x => pos_live st (hn_pos_ref x)) (<[pos := node]> heap);
  hole_nodup : NoDup (hn_pos_ref <$> <[pos := node]> heap);
  hole_tracked : tracked_but (Some pos) (<[pos := node]> heap) st
}.

Lemma refs_neq (l : list HeapNode) i j x y :
  NoDup (hn_pos_ref <$> l) -> l !! i = Some x -> l !! j = Some y -> i <> j ->
  hn_pos_ref x <> hn_pos_ref y.
Proof.
  intros Hnd Hx Hy Hij E. apply Hij. eapply (NoDup_lookup _ i j (hn_pos_ref x) Hnd).
  - by rewrite list_lookup_fmap, Hx.
  - by rewrite list_lookup_fmap, Hy, E.
Qed.

(** Moving the entry at [q] into the hole. *)
Lemma hole_move heap st node pos q P :
  hole heap st node pos -> q <> pos -> heap !! q = Some P ->
  exists st', place heap st (Z.of_nat pos) P = Ok (<[pos := P]> heap, st') /\
    hole (<[pos := P]> heap) st' node q /\
    <[q := node]> (<[pos := P]> heap) ≡ₚ <[pos := node]> heap /\
    (forall l, pos_live st' l <-> pos_live st l) /\
    (forall l, l ∉ hn_pos_ref <$> <[pos := node]> heap -> pos_get st' l = pos_get st l).
Proof.
  intros [Hlt Hlive Hnd Htr] Hq HP.
  assert (HPL : <[pos := node]> heap !! q = Some P) by (by rewrite list_lookup_insert_ne).
  assert (Hperm : <[q := node]> (<[pos := P]> heap) ≡ₚ <[pos := node]> heap)
    by (by apply swap_Permutation).
  destruct (pos_set_live st (hn_pos_ref P) (Z.of_nat pos)) as (st' & Hset & Hget & Hoth & Hl).
  { by apply (Forall_lookup_1 _ _ _ _ Hlive HPL). }
  exists st'. unfold place. rewrite vset_nat by done. cbn [mbind result_bind]. rewrite Hset.
  split; [done|]. split; [|split; [done|split; [done|]]].
  - split.
    + rewrite length_insert. by apply lookup_lt_Some in HP.
    + rewrite Hperm. eapply Forall_impl; [done|]. intros x. by rewrite Hl.
    + by rewrite Hperm.
    + intros i x Hi Hx. rewrite list_lookup_insert_ne in Hx by congruence.
      destruct (decide (i = pos)) as [->|Hip].
      { rewrite list_lookup_insert_eq in Hx by done. by simplify_eq. }
      rewrite list_lookup_insert_ne in Hx by done. 
      assert (HxL : <[pos := node]> heap !! i = Some x) by (by rewrite list_lookup_insert_ne).
      rewrite Hoth; [apply Htr; congruence|].
      apply (refs_neq _ i q _ _ Hnd HxL HPL). congruence.
  - intros l Hl'. apply Hoth. intros ->. apply Hl'. apply list_elem_of_fmap.
    exists P. split; [done|]. by apply list_elem_of_lookup_2 in HPL.
Qed.

(** Putting the carried entry into the hole. *)
Lemma hole_fill heap st node pos :
  hole heap st node pos ->
  exists st', place heap st (Z.of_nat pos) node = Ok (<[pos := node]> heap, st') /\
    tracked (<[pos := node]> heap) st' /\ (forall l, pos_live st' l <-> pos_live st l) /\
    (forall l, l ∉ hn_pos_ref <$> <[pos := node]> heap -> pos_get st' l = pos_get st l).
Proof.
  intros [Hlt Hlive Hnd Htr].
  assert (HL : <[pos := node]> heap !! pos = Some node) by (by apply list_lookup_insert_eq).
  destruct (pos_set_live st (hn_pos_ref node) (Z.of_nat pos)) as (st' & Hset & Hget & Hoth & Hl).
  { by apply (Forall_lookup_1 _ _ _ _ Hlive HL). }
  exists st'. unfold place. rewrite vset_nat by done. cbn [mbind result_bind]. rewrite Hset.
  split; [done|]. split; [|split; [done|]].
  - intros i x _ Hx. destruct (decide (i = pos)) as [->|Hip].
    { rewrite HL in Hx. by simplify_eq. }
    rewrite Hoth; [apply Htr; [congruence|done]|]. by apply (refs_neq _ i pos _ _ Hnd Hx HL).
  - intros l Hl'. apply Hoth. intros ->. apply Hl'. apply list_elem_of_fmap.
    exists node. split; [done|]. by apply list_elem_of_lookup_2 in HL.
Qed.

(** What both loops guarantee whatever the values are. *)
Definition settles (l : list HeapNode) (st : St) (r : result (list HeapNode * St))
  (good : list HeapNode -> Prop) : Prop :=
  exists l' st', r = Ok (l', st') /\ l' ≡ₚ l /\ tracked l' st' /\
    (forall p, pos_live st' p <-> pos_live st p) /\
    (forall p, p ∉ hn_pos_ref <$> l -> pos_get st' p = pos_get st p) /\ good l'.

Lemma settles_step l l1 st st1 r good :
  l1 ≡ₚ l -> (forall p, pos_live st1 p <-> pos_live st p) ->
  (forall p, p ∉ hn_pos_ref <$> l -> pos_get st1 p = pos_get st p) ->
  settles l1 st1 r good -> settles l st r good.
Proof.
  intros Hp Hl Hg (l' & st' & E & Hp' & Ht & Hl' & Hg' & HG).
  exists l', st'. split; [done|]. split; [by rewrite Hp'|]. split; [done|].
  split; [intros p; by rewrite Hl', Hl|]. split; [|done].
  intros p Hpp. rewrite Hg', Hg; [done|done|]. by rewrite Hp.
Qed.

Lemma settles_fill heap st node pos (good : list HeapNode -> Prop) :
  hole heap st node pos -> good (<[pos := node]> heap) ->
  settles (<[pos := node]> heap) st (place heap st (Z.of_nat pos) node) good.
Proof.
  intros Hh HG. destruct (hole_fill _ _ _ _ Hh) as (st' & -> & Ht & Hl & Hg).
  exists (<[pos := node]> heap), st'. by split_and!.
Qed.

(** The children of [pos] are not below its parent. *)
Definition bridged (pos : nat) (l : list HeapNode) : Prop :=
  forall i x g, (0 < i)%nat -> parent_of i = pos -> (0 < pos)%nat ->
    l !! i = Some x -> l !! parent_of pos = Some g -> hn_val g <= hn_val x.

(** Moving a parent that is not below [node] into the hole keeps the order
    around the hole, which is then at the parent. *)
Lemma sift_up_order heap node pos P :
  (0 < pos < length heap)%nat -> heap !! parent_of pos = Some P ->
  hn_val node <= hn_val P ->
  ordered_but (Some pos) (<[pos := node]> heap) -> bridged pos (<[pos := node]> heap) ->
  ordered_but (Some (parent_of pos)) (<[parent_of pos := node]> (<[pos := P]> heap)) /\
  bridged (parent_of pos) (<[parent_of pos := node]> (<[pos := P]> heap)).
Proof.
  intros Hpos HP Hle Ho Hb. pose proof (parent_lt pos) as Hlt. specialize (Hlt ltac:(lia)).
  set (q := parent_of pos) in *.
  assert (HL : forall i, i <> pos -> <[pos := node]> heap !! i = heap !! i)
    by (intros; by rewrite list_lookup_insert_ne).
  assert (HL' : forall i, i <> q -> i <> pos ->
            <[q := node]> (<[pos := P]> heap) !! i = heap !! i)
    by (intros; by rewrite !list_lookup_insert_ne).
  assert (HLp : <[pos := node]> heap !! pos = Some node) by (apply list_lookup_insert_eq; lia).
  assert (HLp' : <[q := node]> (<[pos := P]> heap) !! pos = Some P)
    by (rewrite list_lookup_insert_ne by lia; apply list_lookup_insert_eq; lia).
  assert (HLq' : <[q := node]> (<[pos := P]> heap) !! q = Some node)
    by (apply list_lookup_insert_eq; len).
  assert (HPo : forall i x, (0 < i)%nat -> parent_of i = q -> i <> pos -> heap !! i = Some x ->
            hn_val P <= hn_val x).
  { intros i x Hi Hpi Hip Hx. assert (i <> q) by (pose proof (parent_lt i); lia).
    apply (Ho i); [done|congruence|by rewrite HL|]. rewrite Hpi, HL by lia. done. }
  split.
  - intros i x p Hi Hiq Hx Hp.
    assert (i <> q) by congruence. destruct (decide (i = pos)) as [->|Hip].
    { fold q in Hp. rewrite HLp' in Hx. rewrite HLq' in Hp. by simplify_eq. }
    rewrite HL' in Hx by done. pose proof (parent_lt i Hi).
    destruct (decide (parent_of i = q)) as [E|Hpq].
    { rewrite E, HLq' in Hp. simplify_eq. trans (hn_val P); [done|]. eauto. }
    destruct (decide (parent_of i = pos)) as [E|Hpp].
    { rewrite E, HLp' in Hp. simplify_eq. apply (Hb i); [done|done|lia|by rewrite HL|].
      rewrite HL by lia. done. }
    rewrite HL' in Hp by done. apply (Ho i); [done|congruence|by rewrite HL|by rewrite HL].
  - intros i x g Hi Hpi Hq Hx Hg. pose proof (parent_lt q Hq).
    rewrite HL' in Hg by lia.
    assert (hn_val g <= hn_val P).
    { apply (Ho q); [done|intros [= E]; lia|by rewrite HL by lia|by rewrite HL by lia]. }
    destruct (decide (i = pos)) as [->|Hip]; [rewrite HLp' in Hx; by simplify_eq|].
    assert (i <> q) by (pose proof (parent_lt i); lia).
    rewrite HL' in Hx by done. trans (hn_val P); [done|]. eauto.
Qed.

Lemma heap_up_loop_ok fuel heap st node pos :
  hole heap st node pos -> (pos < fuel)%nat -> Z.of_nat (length heap) < 2 ^ 31 ->
  settles (<[pos := node]> heap) st (heap_up_loop fuel heap st node (Z.of_nat pos))
    (fun l' => ordered_but (Some pos) (<[pos := node]> heap) ->
               bridged pos (<[pos := node]> heap) -> heap_ordered l').
Proof.
  revert heap st pos. induction fuel as [|fuel IH]; intros heap st pos Hh Hfuel Hlen; [lia|].
  pose proof (hole_lt _ _ _ _ Hh) as Hlt. cbn [heap_up_loop].
  destruct (Z.ltb_spec 0 (Z.of_nat pos)) as [Hpos|Hpos].
  2: { apply settles_fill; [done|]. intros Ho _ i x p Hi _. apply Ho; [done|].
       intros [= ->]. lia. }
  rewrite heap_parent_nat by lia. pose proof (parent_lt pos) as Hpl.
  destruct (lookup_lt_is_Some_2 heap (parent_of pos)) as [P HP]; [lia|].
  rewrite (vget_nat _ _ _ HP). cbn [mbind result_bind]. zcase.
  - destruct (hole_move _ _ _ _ (parent_of pos) P Hh) as (st' & -> & Hh' & Hp & Hl & Hg);
      [lia|done|]. cbn [mbind result_bind].
    eapply settles_step; [exact Hp|done|done|].
    destruct (IH _ _ _ Hh') as (l' & st'' & E & H1 & H2 & H3 & H4 & H5); [lia|len|].
    exists l', st''. split_and!; [done..|]. intros Ho Hb.
    apply H5; apply sift_up_order; (done || lia).
  - apply settles_fill; [done|]. intros Ho _ i x p Hi _ Hx Hpx.
    destruct (decide (i = pos)) as [->|]; [|apply (Ho i x p); (done || congruence)].
    rewrite list_lookup_insert_eq in Hx by done.
    rewrite list_lookup_insert_ne in Hpx by lia. simplify_eq. lia.
Qed.

(** [heap_down] keeps the entries and the back pointers whatever the order;
    at a position without children it leaves the entry where it is. *)
Lemma heap_down_loop_ok fuel heap st node pos :
  hole heap st node pos -> (length heap - pos < fuel)%nat -> Z.of_nat (length heap) < 2 ^ 31 ->
  settles (<[pos := node]> heap) st (heap_down_loop fuel heap st node (Z.of_nat pos))
    (fun l' => (length heap <= 2 * pos + 1)%nat -> l' = <[pos := node]> heap).
Proof.
  revert heap st pos. induction fuel as [|fuel IH]; intros heap st pos Hh Hfuel Hlen; [lia|].
  pose proof (hole_lt _ _ _ _ Hh) as Hlt. cbn [heap_down_loop].
  rewrite (proj2 (Z.ltb_lt (Z.of_nat pos) _)) by lia.
  unfold heap_left, heap_right. nowrap.
  replace (Z.of_nat pos * 2 + 1) with (Z.of_nat (2 * pos + 1)) by lia.
  replace (Z.of_nat pos * 2 + 2) with (Z.of_nat (2 * pos + 2)) by lia.
  destruct (Z.ltb_spec (Z.of_nat (2 * pos + 1)) (Z.of_nat (length heap))) as [Hl|Hl].
  2: { rewrite (proj2 (Z.ltb_ge (Z.of_nat (2 * pos + 2)) _)) by lia.
       cbn [mbind result_bind]. rewrite Z.eqb_refl. by apply settles_fill. }
  destruct (lookup_lt_is_Some_2 heap (2 * pos + 1)) as [xl Hxl]; [lia|].
  rewrite (vget_nat _ _ _ Hxl). cbn [mbind result_bind].
  assert (Hnext : forall b, settles (<[pos := node]> heap) st
    (if (b : bool) then place heap st (Z.of_nat pos) node
     else '(heap0, st0) ← place heap st (Z.of_nat pos) xl;
          heap_down_loop fuel heap0 st0 node (Z.of_nat (2 * pos + 1)))
    (fun l' => (length heap <= 2 * pos + 1)%nat -> l' = <[pos := node]> heap)).
  { intros [|]; [by apply settles_fill|].
    destruct (hole_move _ _ _ _ (2 * pos + 1)%nat xl Hh) as (st' & -> & Hh' & Hp & Hlv & Hg);
      [lia|done|]. cbn [mbind result_bind].
    eapply settles_step; [exact Hp|done|done|].
    destruct (IH _ _ _ Hh') as (l' & st'' & E & H1 & H2 & H3 & H4 & _); [len|len|].
    exists l', st''. split_and!; try done. lia. }
  destruct (Z.ltb_spec (Z.of_nat (2 * pos + 2)) (Z.of_nat (length heap))) as [Hr|Hr].
  - destruct (lookup_lt_is_Some_2 heap (2 * pos + 2)) as [xr Hxr]; [lia|].
    rewrite (vget_nat _ _ _ Hxr). cbn [mbind result_bind].
    replace (if hn_val xr <? hn_val xl then _ else _) with (Z.of_nat (2 * pos + 1))
      by (by case_match).
    rewrite (vget_nat _ _ _ Hxl). cbn [mbind result_bind]. apply Hnext.
  - cbn [mbind result_bind]. rewrite (vget_nat _ _ _ Hxl). cbn [mbind result_bind]. apply Hnext.
Qed.

(** A heap whose entries belong to distinct live nodes. *)
Record heap_live (heap : list HeapNode) (st : St) : Prop := mkHeapLive {
  hl_live : Forall (fun x => pos_live st (hn_pos_ref x)) heap;
  hl_nodup : NoDup (hn_pos_ref <$> heap);
  hl_small : Z.of_nat (length heap) < 2 ^ 31
}.

(** A consistent TTL heap: ordered, with exact back pointers. *)
Record heap_wf (heap : list HeapNode) (st : St) : Prop := mkHeapWf {
  hw_live : heap_live heap st;
  hw_tracked : tracked heap st;
  hw_ordered : heap_ordered heap
}.

Lemma hole_of heap st pos node :
  heap_live heap st -> heap !! pos = Some node -> tracked_but (Some pos) heap st ->
  hole heap st node pos.
Proof.
  intros [Hl Hn _] Hx Ht. pose proof (list_insert_id _ _ _ Hx) as E.
  split; rewrite ?E; try done. by apply lookup_lt_Some in Hx.
Qed.

(** [heap_fix] at [pos], on a heap consistent everywhere else. *)
Lemma heap_fix_ok heap st pos node :
  heap_live heap st -> heap !! pos = Some node -> tracked_but (Some pos) heap st ->
  settles heap st (heap_fix heap st (Z.of_nat pos))
    (fun l' => (length heap <= 2 * pos + 1)%nat -> ordered_but (Some pos) heap -> heap_ordered l').
Proof.
  intros Hl Hx Ht. pose proof (hole_of _ _ _ _ Hl Hx Ht) as Hh.
  destruct Hl as [_ _ Hsmall]. pose proof (lookup_lt_Some _ _ _ Hx) as Hlt.
  unfold heap_fix. rewrite (vget_nat _ _ _ Hx). cbn [mbind result_bind].
  assert (Hid := list_insert_id _ _ _ Hx).
  assert (Hdown : ((0 < pos)%nat -> forall p, heap !! parent_of pos = Some p ->
             hn_val p <= hn_val node) ->
    settles heap st (if Z.of_nat pos <? Z.of_nat (length heap)
                     then heap_down heap st (Z.of_nat pos) else Ok (heap, st))
    (fun l' => (length heap <= 2 * pos + 1)%nat -> ordered_but (Some pos) heap -> heap_ordered l')).
  { intros Hpar. zbool. unfold heap_down. rewrite (vget_nat _ _ _ Hx). cbn [mbind result_bind].
    destruct (heap_down_loop_ok (S (length heap)) heap st node pos Hh) as
      (l' & st' & E & H1 & H2 & H3 & H4 & H5); [lia|done|].
    rewrite Hid in *. exists l', st'. split_and!; try done.
    intros Hleaf Ho i x p Hi _. rewrite H5 by done. intros Hxi Hpi.
    destruct (decide (i = pos)) as [->|]; [|apply (Ho i); (done || congruence)].
    simplify_eq. by apply Hpar. }
  destruct (Z.ltb_spec 0 (Z.of_nat pos)) as [Hpos|Hpos].
  2: { cbn [mbind result_bind]. apply Hdown. lia. }
  rewrite heap_parent_nat by lia. pose proof (parent_lt pos) as Hpl.
  destruct (lookup_lt_is_Some_2 heap (parent_of pos)) as [P HP]; [lia|].
  rewrite (vget_nat _ _ _ HP). cbn [mbind result_bind]. zcase.
  - unfold heap_up. rewrite (vget_nat _ _ _ Hx). cbn [mbind result_bind].
    destruct (heap_up_loop_ok (S (length heap)) heap st node pos Hh) as
      (l' & st' & E & H1 & H2 & H3 & H4 & H5); [lia|done|].
    rewrite Hid in *. exists l', st'. split_and!; try done.
    intros Hleaf Ho. apply H5; [done|]. intros i x g Hi Hpi _ Hxi _.
    apply lookup_lt_Some in Hxi. unfold parent_of in Hpi.
    pose proof (Nat.div_mod_eq (i - 1) 2). pose proof (Nat.mod_upper_bound (i - 1) 2). lia.
  - apply Hdown. intros _ p Hp. rewrite HP in Hp. by simplify_eq.
Qed.

Lemma root_min heap t i x :
  heap_ordered heap -> heap !! 0%nat = Some t -> heap !! i = Some x -> hn_val t <= hn_val x.
Proof.
  intros Ho Ht. revert x. induction (lt_wf i) as [i _ IH]. intros x Hx.
  destruct (decide (i = 0)%nat) as [->|Hi]; [by simplify_eq|].
  pose proof (parent_lt i ltac:(lia)) as Hp.
  destruct (lookup_lt_is_Some_2 heap (parent_of i)) as [p Hpp].
  { apply lookup_lt_Some in Hx. lia. }
  trans (hn_val p); [by apply (IH _ Hp)|]. apply (Ho i x p); (done || lia).
Qed.

Lemma settles_live heap st r good l' st' :
  heap_live heap st -> settles heap st r good -> r = Ok (l', st') -> heap_live l' st'.
Proof.
  intros [Hl Hn Hs] (? & ? & -> & Hp & _ & Hlv & _) [= -> ->].
  split; rewrite ?Hp; try done.
  eapply Forall_impl; [done|]. intros x. by rewrite Hlv.
Qed.

(** Appending an entry for a node that has none. *)
Lemma push_live heap st e :
  heap_live heap st -> pos_live st (hn_pos_ref e) -> hn_pos_ref e ∉ hn_pos_ref <$> heap ->
  Z.of_nat (length heap) + 1 < 2 ^ 31 -> heap_live (heap ++ [e]) st.
Proof.
  intros [Hl Hn _] Hlive Hnotin Hlen. split.
  - apply Forall_app. by split; [|constructor].
  - rewrite fmap_app. apply NoDup_app. split; [done|]. split; [|apply NoDup_singleton].
    intros x Hx ->%list_elem_of_singleton. done.
  - rewrite length_app. cbn. lia.
Qed.

Lemma app_but {A} (l : list A) e i x : (l ++ [e]) !! i = Some x -> i <> length l -> l !! i = Some x.
Proof. intros [?|(? & ?)]%lookup_snoc_Some Hi; naive_solver. Qed.

Lemma push_tracked heap st e :
  tracked heap st -> tracked_but (Some (length heap)) (heap ++ [e]) st.
Proof. intros Ht i x Hi Hx. apply Ht; [done|]. eapply app_but; [done|congruence]. Qed.

Lemma push_ordered heap e :
  heap_ordered heap -> ordered_but (Some (length heap)) (heap ++ [e]).
Proof.
  intros Ho i x p Hi Hn Hx Hp. assert (i <> length heap) by congruence.
  pose proof (app_but _ _ _ _ Hx ltac:(done)) as Hx'. pose proof (parent_lt i Hi).
  apply (Ho i); [done|done|done|]. eapply app_but; [done|].
  apply lookup_lt_Some in Hx'. lia.
Qed.

(** Removing the last entry after copying it over the entry at [i]. *)
Lemma drop_last_perm (heap : list HeapNode) i e b :
  heap !! i = Some e -> last heap = Some b ->
  e :: take (length heap - 1) (<[i := b]> heap) ≡ₚ heap.
Proof.
  intros Hi Hb. apply last_Some in Hb as [l ->].
  rewrite length_app, Nat.add_sub in *. cbn [length] in *.
  destruct (decide (i = length l)) as [->|Hne].
  - rewrite list_lookup_middle in Hi by done. simplify_eq.
    rewrite insert_app_r_alt by lia. rewrite take_app_length. by rewrite Permutation_app_comm.
  - assert (l !! i = Some e) as Hi' by (by eapply app_but).
    rewrite insert_app_l by (by apply lookup_lt_Some in Hi').
    rewrite take_app_le, take_ge by (rewrite length_insert; done).
    rewrite (insert_Permutation _ _ _ _ Hi'). by rewrite Permutation_app_comm.
Qed.

Lemma drop_last_lookup (heap : list HeapNode) i b j x :
  take (length heap - 1) (<[i := b]> heap) !! j = Some x -> i <> j -> heap !! j = Some x.
Proof.
  intros Hj Hne. apply lookup_take_Some in Hj as [Hj _].
  by rewrite list_lookup_insert_ne in Hj.
Qed.

(** [rem_ttl] of a node with an entry. *)
Lemma rem_ttl_ok heap st i e :
  heap_live heap st -> tracked heap st -> heap !! i = Some e ->
  exists heap' st', rem_ttl heap st (hn_pos_ref e) = Ok (heap', st') /\
    heap_live heap' st' /\ tracked heap' st' /\ e :: heap' ≡ₚ heap.
Proof.
  intros Hl Ht Hi. pose proof (lookup_lt_Some _ _ _ Hi) as Hlt. unfold rem_ttl.
  rewrite (Ht i e) by done. cbn [mbind result_bind]. zbool. cbn [orb].
  destruct (last heap) as [b|] eqn:Hb; [|apply last_None in Hb; by simplify_eq].
  replace (Z.of_nat (length heap) - 1) with (Z.of_nat (length heap - 1)) by lia.
  rewrite (vget_nat heap _ b) by (rewrite <- Hb, last_lookup; f_equal; lia).
  cbn [mbind result_bind]. rewrite vset_nat by done. cbn [mbind result_bind].
  rewrite length_insert. pose proof (drop_last_perm _ _ _ _ Hi Hb) as Hperm.
  set (heap' := take (length heap - 1) (<[i := b]> heap)) in *.
  assert (Hlen : length heap' = (length heap - 1)%nat)
    by (unfold heap'; rewrite length_take, length_insert; lia).
  assert (Hl' : heap_live heap' st).
  { destruct Hl as [H1 H2 H3]. rewrite <- Hperm in H1, H2. cbn in H2.
    apply Forall_cons in H1 as [_ H1]. apply NoDup_cons in H2 as [_ H2]. split; [done..|lia]. }
  assert (Ht' : tracked_but (Some i) heap' st).
  { intros j x Hj Hx. apply Ht; [done|]. eapply drop_last_lookup; [done|congruence]. }
  zcase.
  - destruct (lookup_lt_is_Some_2 heap' i) as [x Hx]; [lia|].
    pose proof (heap_fix_ok _ _ _ _ Hl' Hx Ht') as Hset.
    pose proof Hset as (l' & st' & E & Hp & Htr & _). exists l', st'.
    split; [done|]. split; [by eapply settles_live|]. split; [done|]. by rewrite Hp.
  - exists heap', st. split; [done|]. split; [done|]. split; [|done].
    intros j x _ Hx. apply Ht'; [|done]. intros [= ->]. apply lookup_lt_Some in Hx. lia.
Qed.

(** [set_ttl] of a node without an entry. *)
Lemma set_ttl_ok heap st curr_ms node ttl :
  heap_wf heap st -> pos_live st node -> node ∉ hn_pos_ref <$> heap ->
  Z.of_nat (length heap) + 1 < 2 ^ 31 ->
  exists heap' st', set_ttl heap st curr_ms node ttl = Ok (heap', st') /\ heap_wf heap' st' /\
    heap' ≡ₚ mkHeapNode (u64 (curr_ms + ttl)) node :: heap.
Proof.
  intros [Hl Ht Ho] Hnode Hnew Hlen. set (e := mkHeapNode (u64 (curr_ms + ttl)) node).
  pose proof (push_live _ _ e Hl Hnode Hnew Hlen) as Hl'.
  assert (He : (heap ++ [e]) !! length heap = Some e) by (by apply list_lookup_middle).
  pose proof (heap_fix_ok _ _ _ _ Hl' He (push_tracked _ _ e Ht)) as Hset.
  unfold set_ttl. fold e. rewrite length_app. cbn [length].
  replace (u64 (Z.of_nat (length heap + 1) - 1)) with (Z.of_nat (length heap))
    by (rewrite u64_small; lia).
  pose proof Hset as (l' & st' & E & Hp & Htr & _ & _ & Hord). exists l', st'.
  split; [done|]. split; [split; [by eapply settles_live|done|]|].
  - apply Hord; [len|]. by apply push_ordered.
  - rewrite Hp. by rewrite Permutation_app_comm.
Qed.
End heap.

(** A property of the store that [pos_set] keeps is kept by the heap. *)
Section pos_invariant.
Context {St : Type} `{PS : PosStore St}.
Variable P : St -> Prop.
Hypothesis P_set : forall l v st st', P st -> pos_set l v st = Ok st' -> P st'.

Lemma place_inv heap st pos n heap' st' : P st -> place heap st pos n = Ok (heap', st') -> P st'.
Proof. intros HP E. unfold place in E. inv_ok. eauto. Qed.

Lemma heap_up_loop_inv fuel heap st node pos heap' st' :
  P st -> heap_up_loop fuel heap st node pos = Ok (heap', st') -> P st'.
Proof.
  revert heap st pos. induction fuel as [|fuel IH]; intros heap st pos HP E; [done|]. cbn [heap_up_loop] in E.
  destruct (0 <? pos); [|by eapply place_inv]. apply bind_ok in E as (p & _ & E).
  destruct (_ <=? _); [|by eapply place_inv]. apply bind_ok in E as ([h1 st1] & E1 & E).
  eapply IH; [|exact E]. by eapply place_inv.
Qed.

Lemma heap_down_loop_inv fuel heap st node pos heap' st' :
  P st -> heap_down_loop fuel heap st node pos = Ok (heap', st') -> P st'.
Proof.
  revert heap st pos. induction fuel as [|fuel IH]; intros heap st pos HP E; [done|]. cbn [heap_down_loop] in E.
  destruct (pos <? _); [|by eapply place_inv]. apply bind_ok in E as (m1 & _ & E).
  apply bind_ok in E as (m2 & _ & E). destruct (hn_val node =? m2); [by eapply place_inv|].
  apply bind_ok in E as (np & _ & E). apply bind_ok in E as (n & _ & E).
  apply bind_ok in E as ([h1 st1] & E1 & E). eapply IH; [|exact E]. by eapply place_inv.
Qed.

Lemma heap_fix_inv heap st pos heap' st' : P st -> heap_fix heap st pos = Ok (heap', st') -> P st'.
Proof.
  intros HP E. unfold heap_fix, heap_up, heap_down in E. apply bind_ok in E as (n & _ & E).
  apply bind_ok in E as (up & _ & E). destruct up.
  - apply bind_ok in E as (n' & _ & E). by eapply heap_up_loop_inv.
  - destruct (pos <? _); [|by injection E as _ <-]. apply bind_ok in E as (n' & _ & E).
    by eapply heap_down_loop_inv.
Qed.

Lemma rem_ttl_inv heap st node heap' st' : P st -> rem_ttl heap st node = Ok (heap', st') -> P st'.
Proof.
  intros HP E. unfold rem_ttl in E. apply bind_ok in E as (i & _ & E).
  destruct (_ || _); [by injection E as _ <-|]. apply bind_ok in E as (b & _ & E).
  apply bind_ok in E as (h & _ & E). apply bind_ok in E as (i' & _ & E).
  destruct (_ <? _); [by eapply heap_fix_inv|by injection E as _ <-].
Qed.

Lemma set_ttl_inv heap st curr_ms node ttl heap' st' :
  P st -> set_ttl heap st curr_ms node ttl = Ok (heap', st') -> P st'.
Proof. intros HP E. unfold set_ttl in E. by eapply heap_fix_inv. Qed.
End pos_invariant.

Lemma heap_fix_singleton {St} `{PosStore St} x (st : St) :
  heap_fix [x] st 0 = place [x] st 0 x.
Proof.
  unfold heap_fix, heap_down. change (vget [x] 0) with (Ok x). change (0 <? 0) with false.
  cbn [mbind result_bind length heap_down_loop]. change (0 <? Z.of_nat 1) with true.
  change (heap_left 0 <? Z.of_nat 1) with false. change (heap_right 0 <? Z.of_nat 1) with false.
  cbn [mbind result_bind]. by rewrite Z.eqb_refl.
Qed.

(** A store that keeps the [heap_idx] fields only. *)
#[export] Instance idx_store : PosStore (gmap loc Z) := {
  pos_get st l := need (st !! l) Dangling;
  pos_set l v st := update st (Some l) (fun _ => v)
}.

#[export] Instance idx_store_ok : PosStoreOk (gmap loc Z).
Proof.
  refine {| pos_live := fun (st : gmap loc Z) l => is_Some (st !! l) |}.
  intros st l v [w Hw]. exists (<[l := v]> st). cbn. rewrite Hw. cbn.
  rewrite lookup_insert_eq. split; [done|]. split; [done|]. split.
  - intros l' Hl'. by rewrite lookup_insert_ne.
  - intros l'. destruct (decide (l = l')) as [<-|]; [|by rewrite lookup_insert_ne].
    rewrite lookup_insert_eq, Hw. split; intros; by eexists.
Defined.

(** ** Properties *)

(** C36: [set_ttl] on a consistent heap (min-ordered, entries of distinct live
    nodes, every [heap_idx] exact) for a node without an entry: the heap stays
    consistent, gains exactly the entry of the node with deadline
    [curr_ms + ttl], and its root is the earliest deadline, so
    [process_timers] looks at the right entry. *)
Theorem set_ttl_consistent {St} `{PosStoreOk St} heap (st : St) curr_ms node ttl :
  heap_wf heap st -> pos_live st node -> node ∉ hn_pos_ref <$> heap ->
  Z.of_nat (length heap) + 1 < 2 ^ 31 ->
  exists heap' st', set_ttl heap st curr_ms node ttl = Ok (heap', st') /\ heap_wf heap' st' /\
    heap' ≡ₚ mkHeapNode (u64 (curr_ms + ttl)) node :: heap /\
    forall t x, heap' !! 0%nat = Some t -> x ∈ heap' -> hn_val t <= hn_val x.
Proof.
  intros Hwf Hl Hn Hlen.
  destruct (set_ttl_ok heap st curr_ms node ttl) as (heap' & st' & E & Hwf' & Hp); [done..|].
  exists heap', st'. split_and!; try done.
  intros t x Ht [i Hi]%list_elem_of_lookup. eapply root_min; [apply Hwf'|done..].
Qed.

(** [rem_ttl] of a node that has an entry removes exactly that entry and
    leaves every other entry in the heap with an exact [heap_idx]; it needs no
    assumption on the order of the heap. *)
Theorem rem_ttl_removes {St} `{PosStoreOk St} heap (st : St) i e :
  heap_live heap st -> tracked heap st -> heap !! i = Some e ->
  exists heap' st', rem_ttl heap st (hn_pos_ref e) = Ok (heap', st') /\
    heap_live heap' st' /\ tracked heap' st' /\ e :: heap' ≡ₚ heap.
Proof. apply rem_ttl_ok. Qed.

(** ([heap_down] always descends to the left child): there is a consistent
    heap from which [rem_ttl] of the root makes a heap that is not ordered and
    whose root is not the earliest deadline. *)
Theorem rem_ttl_breaks_order :
  exists (heap : list HeapNode) (st : gmap loc Z) node heap' st' t x,
    heap_wf heap st /\ rem_ttl heap st node = Ok (heap', st') /\ ~ heap_ordered heap' /\
    heap' !! 0%nat = Some t /\ x ∈ heap' /\ hn_val x < hn_val t.
Proof.
  set (vals := [1; 10; 2; 11; 12; 3; 4]).
  set (heap := imap (fun i v => mkHeapNode v (Pos.of_succ_nat i)) vals).
  set (st := list_to_map (imap (fun i _ => (Pos.of_succ_nat i, Z.of_nat i)) vals) : gmap loc Z).
  exists heap, st, 1%positive.
  destruct (rem_ttl heap st 1%positive) as [[heap' st']|] eqn:E; [|by vm_compute in E].
  exists heap', st', (mkHeapNode 10 2), (mkHeapNode 2 3).
  assert (heap' = [mkHeapNode 10 2; mkHeapNode 4 7; mkHeapNode 2 3; mkHeapNode 11 4;
                   mkHeapNode 12 5; mkHeapNode 3 6]) as Hh'.
  { vm_compute in E. by injection E as <- _. }
  split; [|split; [done|split; [|by rewrite Hh'; split_and!; [|by_compute|]]]].
  - split; [split| |].
    + repeat constructor; by eexists.
    + by_compute.
    + done.
    + intros i x _ Hx. do 7 (destruct i as [|i]; [by injection Hx as <-|]). done.
    + intros i x p Hi _ Hx Hp.
      do 7 (destruct i as [|i]; [first [lia|injection Hx as <-; injection Hp as <-; cbn; lia]|]).
      done.
  - intros Ho. rewrite Hh' in Ho.
    specialize (Ho 2%nat (mkHeapNode 2 3) (mkHeapNode 10 2)). cbn in Ho.
    assert (10 <= 2); [|lia]. by apply Ho; [lia| | |].
Qed.

(** ([heap_idx] is not reset when the last entry is popped): after [rem_ttl]
    of the only entry, of node [n], and [set_ttl] of another node [m], a second
    [rem_ttl] of [n] removes the entry of [m]. *)
Theorem rem_ttl_stale_index {St} `{PosStoreOk St} (st : St) e m curr_ms ttl :
  heap_wf [e] st -> pos_live st m -> m <> hn_pos_ref e ->
  exists st1 st2, rem_ttl [e] st (hn_pos_ref e) = Ok ([], st1) /\
    set_ttl [] st1 curr_ms m ttl = Ok ([mkHeapNode (u64 (curr_ms + ttl)) m], st2) /\
    rem_ttl [mkHeapNode (u64 (curr_ms + ttl)) m] st2 (hn_pos_ref e) = Ok ([], st2).
Proof.
  intros [_ Ht _] Hm Hne. pose proof (Ht 0%nat e) as He. cbn in He.
  exists st. destruct (pos_set_live st m 0 Hm) as (st2 & Hset & _ & Hoth & _).
  exists st2. split; [|split].
  - unfold rem_ttl. by rewrite He.
  - unfold set_ttl. cbn [app length]. change (u64 (Z.of_nat 1 - 1)) with 0.
    rewrite heap_fix_singleton. unfold place. cbn. by rewrite Hset.
  - unfold rem_ttl. by rewrite Hoth, He.
Qed.

(** ** Witnesses *)

Definition ttl1 : list HeapNode := [mkHeapNode 500 1].
Definition idx2 : gmap loc Z := {[ 1%positive := 0; 2%positive := 7 ]}.

Lemma ttl1_wf : heap_wf ttl1 idx2.
Proof.
  split; [split| |].
  - repeat constructor. by eexists.
  - by_compute.
  - done.
  - intros i x _ Hx. destruct i as [|i]; [by injection Hx as <-|done].
  - intros i x p Hi _ Hx. destruct i as [|i]; [lia|done].
Qed.

Lemma set_ttl_consistent_witness :
  exists heap' st', set_ttl ttl1 idx2 100 2 50 = Ok (heap', st') /\ heap_wf heap' st' /\
    heap' ≡ₚ mkHeapNode (u64 (100 + 50)) 2 :: ttl1 /\
    forall t x, heap' !! 0%nat = Some t -> x ∈ heap' -> hn_val t <= hn_val x.
Proof. apply (set_ttl_consistent ttl1 idx2 100 2 50 ttl1_wf); [by eexists|by_compute|done]. Defined.

Lemma rem_ttl_removes_witness :
  exists heap' st', rem_ttl ttl1 idx2 1 = Ok (heap', st') /\
    heap_live heap' st' /\ tracked heap' st' /\ mkHeapNode 500 1 :: heap' ≡ₚ ttl1.
Proof.
  apply (rem_ttl_removes ttl1 idx2 0 (mkHeapNode 500 1));
    [apply ttl1_wf|apply ttl1_wf|reflexivity].
Defined.

Lemma rem_ttl_stale_index_witness :
  exists st1 st2, rem_ttl ttl1 idx2 1 = Ok ([], st1) /\
    set_ttl [] st1 100 2 50 = Ok ([mkHeapNode (u64 (100 + 50)) 2], st2) /\
    rem_ttl [mkHeapNode (u64 (100 + 50)) 2] st2 1 = Ok ([], st2).
Proof.
  apply (rem_ttl_stale_index idx2 (mkHeapNode 500 1) 2 100 50 ttl1_wf); [by eexists|done].
Defined.
