(* ===== verification/Hash.v ===== *)
(** * The string hash: [murmurHash64A] and [str_hash] of [src/src/utils/common.h] *)

From Stdlib Require Import Btauto.
From S2P Require Import Prelude.

(** ** Definitions *)

Definition murmur_m : Z := 0xc6a4a7935bd1e995.
Definition murmur_r : Z := 47.

(** One turn of the loop over the 64-bit words of the key. *)
Definition murmur_mix (h k : Z) : Z :=
  let k := u64 (k * murmur_m) in
  let k := Z.lxor k (Z.shiftr k murmur_r) in
  let k := u64 (k * murmur_m) in
  let h := Z.lxor h k in
  u64 (h * murmur_m).

(** The loop: [n] words are left; returns [h] and the bytes after them. *)
Fixpoint murmur_words (n : nat) (data : list Z) (h : Z) : Z * list Z :=
  match n with
  | O => (h, data)
  | S n => murmur_words n (drop 8 data) (murmur_mix h (le_val (take 8 data)))
  end.

(** [data2[i]] in the fall-through switch. *)
Definition data2 (data : list Z) (i : nat) : Z := default 0 (data !! i).

(** The switch on [len & 7]: a case falls through to the ones below it. *)
Definition murmur_tail (h : Z) (data : list Z) (n : Z) : Z :=
  let case (k : Z) (i : nat) (sh : Z) (h : Z) :=
    if k <=? n then Z.lxor h (u64 (Z.shiftl (data2 data i) sh)) else h in
  let h := case 7 6%nat 48 h in
  let h := case 6 5%nat 40 h in
  let h := case 5 4%nat 32 h in
  let h := case 4 3%nat 24 h in
  let h := case 3 2%nat 16 h in
  let h := case 2 1%nat 8 h in
  if 1 <=? n then u64 (Z.lxor h (data2 data 0) * murmur_m) else h.

Definition murmur_final (h : Z) : Z :=
  let h := Z.lxor h (Z.shiftr h murmur_r) in
  let h := u64 (h * murmur_m) in
  Z.lxor h (Z.shiftr h murmur_r).

(** [key] is the whole key: [len] is its length. *)
Definition murmurHash64A (key : list Z) (seed : Z) : Z :=
  let len := Z.of_nat (length key) in
  let h := Z.lxor seed (u64 (len * murmur_m)) in
  let '(h, data) := murmur_words (Z.to_nat (len / 8)) key h in
  murmur_final (murmur_tail h data (Z.land len 7)).

Definition str_hash (key : list Z) : Z := murmurHash64A key 0xadc83b19.

(** ** Reference

    The same hash over a key cut into 8-byte little-endian blocks, with the
    last incomplete block mixed in as one integer. *)
Fixpoint murmur_blocks (fuel : nat) (data : list Z) (h : Z) : Z :=
  match fuel with
  | O => h
  | S fuel =>
      if (8 <=? length data)%nat then murmur_blocks fuel (drop 8 data) (murmur_mix h (le_val (take 8 data)))
      else match data with
           | [] => h
           | _ => u64 (Z.lxor h (le_val data) * murmur_m)
           end
  end.

Definition murmur_ref (key : list Z) (seed : Z) : Z :=
  murmur_final (murmur_blocks (S (length key)) key
    (Z.lxor seed (u64 (Z.of_nat (length key) * murmur_m)))).

(** ** Lemmas *)

Lemma lxor_range a b n : 0 <= n -> 0 <= a < 2 ^ n -> 0 <= b < 2 ^ n -> 0 <= Z.lxor a b < 2 ^ n.
Proof.
  intros Hn Ha Hb. replace (Z.lxor a b) with (Z.lxor a b mod 2 ^ n).
  - apply Z.mod_pos_bound. by apply Z.pow_pos_nonneg.
  - rewrite <- Z.land_ones by done.
    assert (Z.land (Z.lxor a b) (Z.ones n) = Z.lxor (Z.land a (Z.ones n)) (Z.land b (Z.ones n)))
      as -> by (apply Z.bits_inj'; intros ? _; rewrite !Z.land_spec, !Z.lxor_spec, !Z.land_spec; btauto).
    by rewrite !Z.land_ones, !Z.mod_small.
Qed.

Lemma shiftr_range a n k : 0 <= k -> 0 <= a < 2 ^ n -> 0 <= Z.shiftr a k < 2 ^ n.
Proof.
  intros Hk [Ha Hlt]. rewrite Z.shiftr_div_pow2 by done.
  assert (0 < 2 ^ k) by (apply Z.pow_pos_nonneg; lia).
  split; [by apply Z.div_pos|]. eapply Z.le_lt_trans; [|done]. apply Z.div_le_upper_bound; nia.
Qed.

Lemma murmur_final_range h : 0 <= h < 2 ^ 64 -> 0 <= murmur_final h < 2 ^ 64.
Proof.
  intros Hh. unfold murmur_final. cbn zeta.
  apply lxor_range; [lia|apply u64_range|apply shiftr_range; [done|apply u64_range]].
Qed.

Lemma murmur_words_range n data h :
  0 <= h < 2 ^ 64 -> 0 <= (murmur_words n data h).1 < 2 ^ 64.
Proof.
  revert data h. induction n as [|n IH]; intros data h Hh; cbn; [done|].
  apply IH, u64_range.
Qed.

(** A little-endian integer is the exclusive or of its shifted bytes. *)
Lemma le_val_lxor b bs : 0 <= b < 2 ^ 8 -> le_val (b :: bs) = Z.lxor b (Z.shiftl (le_val bs) 8).
Proof.
  intros Hb. cbn [le_val]. rewrite Z.shiftl_mul_pow2, (Z.mul_comm _ (le_val bs)) by lia.
  apply Z.add_nocarry_lxor. apply Z.bits_inj'. intros n Hn. rewrite Z.land_spec, Z.bits_0.
  destruct (Z.lt_ge_cases n 8).
  - rewrite Z.mul_pow2_bits_low by done. apply andb_false_r.
  - rewrite (Z.bits_above_log2 b); [done|lia|].
    destruct (decide (b = 0)) as [->|]; [cbn; lia|].
    apply Z.lt_le_trans with 8; [apply Z.log2_lt_pow2; lia|lia].
Qed.

Lemma u64_shl_byte b sh : 0 <= b < 2 ^ 8 -> 0 <= sh <= 56 -> u64 (Z.shiftl b sh) = Z.shiftl b sh.
Proof.
  intros Hb Hsh. rewrite Z.shiftl_mul_pow2 by lia. apply u64_small. split; [nia|].
  assert (2 ^ 64 = 2 ^ sh * 2 ^ (64 - sh)) as -> by (rewrite <- Z.pow_add_r by lia; f_equal; lia).
  assert (2 ^ 8 <= 2 ^ (64 - sh)) by (apply Z.pow_le_mono_r; lia).
  assert (0 < 2 ^ sh) by (apply Z.pow_pos_nonneg; lia). nia.
Qed.

(** Equality of exclusive ors up to order. *)
Ltac lxor_ac := apply Z.bits_inj'; intros ? _; rewrite !Z.lxor_spec; btauto.

(** The fall-through switch mixes in the remaining bytes as one integer. *)
Lemma murmur_tail_eq h data :
  bytes_ok data -> (length data < 8)%nat ->
  murmur_tail h data (Z.of_nat (length data))
  = match data with [] => h | _ => u64 (Z.lxor h (le_val data) * murmur_m) end.
Proof.
  intros Hok Hlen. unfold murmur_tail. cbn zeta.
  do 8 (destruct data as [|? data];
    [unfold bytes_ok in Hok; repeat match goal with H : Forall _ (_ :: _) |- _ =>
              apply Forall_cons in H; destruct H end; cbn beta in *;
     cbn [length] in *; zbool; try reflexivity; f_equal; f_equal;
     unfold data2; cbn [lookup list_lookup default from_option id];
     rewrite ?u64_shl_byte by (done || lia);
     rewrite !le_val_lxor by done; cbn [le_val];
     rewrite ?Z.shiftl_lxor, ?Z.shiftl_shiftl, Z.shiftl_0_l, Z.lxor_0_r by lia;
     repeat match goal with |- context [8 + ?k] => let v := eval vm_compute in (8 + k) in change (8 + k) with v end; lxor_ac
    |]); cbn in Hlen; lia.
Qed.

Lemma murmur_words_blocks n data h fuel :
  n = (length data / 8)%nat -> (length data < fuel)%nat -> bytes_ok data ->
  let '(h', rest) := murmur_words n data h in
  murmur_tail h' rest (Z.of_nat (length data mod 8)) = murmur_blocks fuel data h.
Proof.
  revert data h fuel. induction n as [|n IH]; intros data h fuel Hn Hf Hok.
  - assert (length data < 8)%nat as Hlt by (apply Nat.div_small_iff; lia).
    destruct fuel as [|fuel]; [lia|]. cbn [murmur_words murmur_blocks].
    rewrite (proj2 (Nat.leb_gt _ _)) by done. rewrite Nat.mod_small by done.
    by apply murmur_tail_eq.
  - assert (8 <= length data)%nat as Hge.
    { destruct (decide (length data < 8)%nat); [|lia]. rewrite Nat.div_small in Hn; lia. }
    destruct fuel as [|fuel]; [lia|]. cbn [murmur_words murmur_blocks].
    rewrite (proj2 (Nat.leb_le _ _)) by done.
    pose proof (IH (drop 8 data) (murmur_mix h (le_val (take 8 data))) fuel) as IH'.
    rewrite length_drop in IH'.
    assert (length data = (length data - 8) + 1 * 8)%nat as Hl by lia.
    assert (length data mod 8 = (length data - 8) mod 8)%nat as ->.
    { rewrite Hl at 1. apply Nat.Div0.mod_add. }
    apply IH'; [|lia|by apply Forall_drop].
    rewrite Hl, Nat.div_add in Hn by lia. lia.
Qed.

Lemma str_hash_u64 key : 0 <= str_hash key < 2 ^ 64.
Proof.
  unfold str_hash, murmurHash64A. cbn zeta.
  set (h0 := Z.lxor _ _). assert (0 <= h0 < 2 ^ 64) as Hh0.
  { apply lxor_range; [lia|lia|apply u64_range]. }
  pose proof (murmur_words_range (Z.to_nat (Z.of_nat (length key) / 8)) key h0 Hh0) as Hw.
  destruct (murmur_words _ _ _) as [h rest]. cbn in Hw. apply murmur_final_range.
  unfold murmur_tail. cbn zeta. zcase; [apply u64_range|].
  repeat case_match; repeat (apply lxor_range; [lia| |apply u64_range]); done.
Qed.

(** ** Properties *)

(** C39: [murmurHash64A] (word loop plus fall-through switch) computes the
    reference hash over 8-byte blocks for every key and seed. *)
Theorem murmurHash64A_ref key seed :
  bytes_ok key -> murmurHash64A key seed = murmur_ref key seed.
Proof.
  intros Hok. unfold murmurHash64A, murmur_ref. cbn zeta.
  pose proof (murmur_words_blocks (length key / 8) key
    (Z.lxor seed (u64 (Z.of_nat (length key) * murmur_m))) (S (length key)) eq_refl) as H.
  replace (Z.to_nat (Z.of_nat (length key) / 8)) with (length key / 8)%nat
    by (by rewrite <- (Nat2Z.inj_div _ 8), Nat2Z.id).
  replace (Z.land (Z.of_nat (length key)) 7) with (Z.of_nat (length key mod 8)).
  - destruct (murmur_words _ _ _) as [h rest]. f_equal. by apply H; [lia|].
  - rewrite Nat2Z.inj_mod. change 7 with (Z.ones 3). by rewrite Z.land_ones.
Qed.

(** A hash code is a 64-bit value, so the bucket index [hcode & mask] of a
    table of [2^k] slots is below [2^k], and the HyperLogLog register index
    [hash >> 50] is below 16384. *)
Theorem str_hash_range key k :
  0 <= k -> 0 <= str_hash key < 2 ^ 64 /\ 0 <= Z.land (str_hash key) (2 ^ k - 1) < 2 ^ k /\
  0 <= Z.shiftr (str_hash key) 50 < 16384.
Proof.
  intros Hk. pose proof (str_hash_u64 key) as Hr.
  split; [done|]. split.
  - rewrite Z.sub_1_r, <- Z.ones_equiv, Z.land_ones by done.
    apply Z.mod_pos_bound. by apply Z.pow_pos_nonneg.
  - rewrite Z.shiftr_div_pow2 by lia. split; [apply Z.div_pos; lia|].
    apply Z.div_lt_upper_bound; lia.
Qed.

(** ** Witnesses *)

Lemma murmurHash64A_ref_witness :
  murmurHash64A [104; 101; 108; 108; 111; 32; 119; 111; 114; 108; 100] 0xadc83b19
  = murmur_ref [104; 101; 108; 108; 111; 32; 119; 111; 114; 108; 100] 0xadc83b19.
Proof. apply murmurHash64A_ref. repeat constructor; lia. Defined.

Lemma str_hash_range_witness :
  0 <= str_hash [107] < 2 ^ 64 /\ 0 <= Z.land (str_hash [107]) (2 ^ 2 - 1) < 2 ^ 2 /\
  0 <= Z.shiftr (str_hash [107]) 50 < 16384.
Proof. apply (str_hash_range [107] 2). lia. Defined.

(** Two values of the hash, by evaluation. *)
Example str_hash_k1 : str_hash [107; 49] = 1839897347950569632.
Proof. vm_compute. reflexivity. Qed.

Example str_hash_hello :
  str_hash [104; 101; 108; 108; 111; 32; 119; 111; 114; 108; 100] = 12184977182547125431.
Proof. vm_compute. reflexivity. Qed.
