(* ===== verification/Buffers.v ===== *)
(** * Byte buffers and reply helpers: [src/src/buffer_funcs.cpp],
    [src/src/out_helpers.cpp], [out_helpers.h]

    A [std::vector<uint8_t>] is the list of its bytes.  A reply is written by
    the [out_*] helpers as a sequence of tagged items after the response code. *)

From S2P Require Import Prelude.

(** ** [buffer_funcs.cpp] *)

Definition buf_append (buf data : list Z) (len : Z) : list Z := buf ++ take (Z.to_nat len) data.

(** [erase(begin, begin + len)] past the end is undefined. *)
Definition buf_consume (buf : list Z) (len : Z) : result (list Z) :=
  if len <=? Z.of_nat (length buf) then Ok (drop (Z.to_nat len) buf) else Fault OutOfBounds.

Definition buf_append_u8 (buf : list Z) (data : Z) : list Z := buf ++ [data].

Definition buf_append_u32 (buf : list Z) (data : Z) : list Z := buf_append buf (le_bytes 4 data) 4.

(** A [double] is its 64-bit pattern. *)
Definition buf_append_double (buf : list Z) (data : Z) : list Z := buf_append buf (le_bytes 8 data) 8.

(** [resize(size() - 4)]: with fewer than four bytes the new size wraps. *)
Definition buf_rem_last_res_code (buf : list Z) : result (list Z) :=
  if 4 <=? Z.of_nat (length buf) then Ok (take (length buf - 4) buf) else Fault Overflow.

(** ** [out_helpers.h] *)

Inductive Tags := TAG_INT | TAG_STR | TAG_ARR | TAG_NULL | TAG_ERROR | TAG_DOUBLE.

Definition tag_byte (t : Tags) : Z :=
  match t with
  | TAG_INT => 0 | TAG_STR => 1 | TAG_ARR => 2 | TAG_NULL => 3 | TAG_ERROR => 4 | TAG_DOUBLE => 5
  end.

Inductive ResponseStatusCodes := RES_OK | RES_ERR | RES_NX.

Definition res_code (r : ResponseStatusCodes) : Z :=
  match r with RES_OK => 0 | RES_ERR => 1 | RES_NX => 2 end.

#[export] Instance Tags_eq_dec : EqDecision Tags.
Proof. solve_decision. Defined.
#[export] Instance ResponseStatusCodes_eq_dec : EqDecision ResponseStatusCodes.
Proof. solve_decision. Defined.

(** ** [out_helpers.cpp]: [out] is [conn->outgoing] *)

Definition out_arr (out : list Z) (len : Z) : list Z :=
  buf_append_u32 (buf_append_u8 out (tag_byte TAG_ARR)) (u32 len).

Definition out_int (out : list Z) (nr : Z) : list Z :=
  buf_append_u32 (buf_append_u8 out (tag_byte TAG_INT)) (u32 nr).

Definition out_double (out : list Z) (dbl : Z) : list Z :=
  buf_append_double (buf_append_u8 out (tag_byte TAG_DOUBLE)) dbl.

Definition out_str (out str : list Z) (size : Z) : list Z :=
  let size := u32 size in
  buf_append (buf_append_u32 (buf_append_u8 out (tag_byte TAG_STR)) size) str size.

Definition out_null (out : list Z) : list Z := buf_append_u8 out (tag_byte TAG_NULL).

Definition out_not_found (out : list Z) : result (list Z) :=
  out ← buf_rem_last_res_code out;
  Ok (buf_append_u8 (buf_append_u32 out (res_code RES_NX)) (tag_byte TAG_NULL)).

(** [err_mes] is a C string literal: its length is [strlen]. *)
Definition out_err (out err_mes : list Z) : result (list Z) :=
  let size := Z.of_nat (length err_mes) in
  out ← buf_rem_last_res_code out;
  let out := buf_append_u32 out (res_code RES_ERR) in
  let out := buf_append_u32 (buf_append_u8 out (tag_byte TAG_ERROR)) (u32 size) in
  Ok (buf_append out err_mes size).

(** Returns the position of the length that is patched later. *)
Definition out_unknown_arr (out : list Z) : list Z * Z :=
  let out := buf_append_u32 (buf_append_u8 out (tag_byte TAG_ARR)) 0 in
  (out, Z.of_nat (length out) - 4).

(** ** Reply items

    What a sequence of [out_*] calls writes, as data. *)
Inductive item :=
  | IInt (z : Z)
  | IStr (bs : list Z)
  | IArr (n : Z)
  | INull
  | IErr (bs : list Z)
  | IDbl (bits : Z).

Definition item_bytes (i : item) : list Z :=
  match i with
  | IInt z => tag_byte TAG_INT :: le_bytes 4 z
  | IStr bs => tag_byte TAG_STR :: le_bytes 4 (Z.of_nat (length bs)) ++ bs
  | IArr n => tag_byte TAG_ARR :: le_bytes 4 n
  | INull => [tag_byte TAG_NULL]
  | IErr bs => tag_byte TAG_ERROR :: le_bytes 4 (Z.of_nat (length bs)) ++ bs
  | IDbl d => tag_byte TAG_DOUBLE :: le_bytes 8 d
  end.

Definition items_bytes (its : list item) : list Z := concat (item_bytes <$> its).

(** The body of a response: a two-element array of the code and the value. *)
Definition response_body (code : ResponseStatusCodes) (its : list item) : list Z :=
  item_bytes (IArr 2) ++ item_bytes (IInt (res_code code)) ++ items_bytes its.

(** The values an item can carry on the wire. *)
Definition item_ok (i : item) : Prop :=
  match i with
  | IInt z | IArr z => 0 <= z < 2 ^ 32
  | IStr bs | IErr bs => bytes_ok bs /\ Z.of_nat (length bs) < 2 ^ 32
  | INull => True
  | IDbl d => 0 <= d < 2 ^ 64
  end.

(** ** Lemmas *)

Lemma buf_append_all buf data : buf_append buf data (Z.of_nat (length data)) = buf ++ data.
Proof. unfold buf_append. by rewrite Nat2Z.id, take_ge. Qed.

Lemma buf_append_u32_eq buf z : buf_append_u32 buf z = buf ++ le_bytes 4 z.
Proof. unfold buf_append_u32. apply (buf_append_all buf (le_bytes 4 z)). Qed.

Lemma buf_append_double_eq buf z : buf_append_double buf z = buf ++ le_bytes 8 z.
Proof. unfold buf_append_double. apply (buf_append_all buf (le_bytes 8 z)). Qed.

Lemma out_arr_eq out n : 0 <= n < 2 ^ 32 -> out_arr out n = out ++ item_bytes (IArr n).
Proof. intros. unfold out_arr. nowrap. rewrite buf_append_u32_eq. unfold buf_append_u8. by rewrite <- app_assoc. Qed.

Lemma out_int_eq out n : 0 <= n < 2 ^ 32 -> out_int out n = out ++ item_bytes (IInt n).
Proof. intros. unfold out_int. nowrap. rewrite buf_append_u32_eq. unfold buf_append_u8. by rewrite <- app_assoc. Qed.

Lemma out_double_eq out d : out_double out d = out ++ item_bytes (IDbl d).
Proof. unfold out_double. rewrite buf_append_double_eq. unfold buf_append_u8. by rewrite <- app_assoc. Qed.

Lemma out_null_eq out : out_null out = out ++ item_bytes INull.
Proof. done. Qed.

Lemma out_str_eq out bs :
  Z.of_nat (length bs) < 2 ^ 32 ->
  out_str out bs (Z.of_nat (length bs)) = out ++ item_bytes (IStr bs).
Proof.
  intros. unfold out_str. cbn zeta. nowrap. rewrite buf_append_all, buf_append_u32_eq.
  unfold buf_append_u8. by rewrite <- !app_assoc.
Qed.

Lemma rem_last_res_code pre code :
  buf_rem_last_res_code (pre ++ le_bytes 4 code) = Ok pre.
Proof.
  unfold buf_rem_last_res_code. rewrite length_app, le_bytes_length. zbool.
  by rewrite Nat.add_sub, take_app_length.
Qed.

Lemma out_err_eq pre code msg :
  Z.of_nat (length msg) < 2 ^ 32 ->
  out_err (pre ++ le_bytes 4 code) msg
  = Ok (pre ++ le_bytes 4 (res_code RES_ERR) ++ item_bytes (IErr msg)).
Proof.
  intros. unfold out_err. cbn zeta. rewrite rem_last_res_code. cbn [mbind result_bind]. nowrap.
  rewrite buf_append_all, !buf_append_u32_eq. unfold buf_append_u8. by rewrite <- !app_assoc.
Qed.

Lemma out_not_found_eq pre code :
  out_not_found (pre ++ le_bytes 4 code)
  = Ok (pre ++ le_bytes 4 (res_code RES_NX) ++ item_bytes INull).
Proof.
  unfold out_not_found. rewrite rem_last_res_code. cbn [mbind result_bind].
  rewrite buf_append_u32_eq. unfold buf_append_u8. by rewrite <- app_assoc.
Qed.

Lemma items_bytes_app its1 its2 : items_bytes (its1 ++ its2) = items_bytes its1 ++ items_bytes its2.
Proof. unfold items_bytes. by rewrite fmap_app, concat_app. Qed.

Lemma items_bytes_cons i its : items_bytes (i :: its) = item_bytes i ++ items_bytes its.
Proof. done. Qed.
