(* ===== verification/Request.v ===== *)
(** * Request processing: [parse_cmd], [before_res_build], [after_res_build],
    [try_one_req] and the drain loop of [handle_read] in [src/src/server.cpp]

    The command interpreter [out_buffer] is a parameter here: the framing is
    correct whatever it does with the parsed command. *)

From S2P Require Import Prelude Dstr Buffers.

(** ** Definitions *)

Definition MAX_MESSAGE_LEN : Z := Z.shiftl 32 20.

(** [memcpy(&x, buf, n); buf += n]: reading past the vector is undefined. *)
Definition rd (n : Z) (b : list Z) : result (list Z * list Z) :=
  if n <=? Z.of_nat (length b)
  then Ok (take (Z.to_nat n) b, drop (Z.to_nat n) b) else Fault OutOfBounds.

(** [while (cmd.size() < nstr)]: nothing bounds the reads by the length of the
    message, only by the buffer. *)
Fixpoint parse_tokens (fuel : nat) (nstr : Z) (b : list Z) (cmd : list dstr) : result (list dstr) :=
  if Z.of_nat (length cmd) <? nstr then
    match fuel with
    | O => Fault OutOfFuel
    | S fuel =>
        '(_, b) ← rd 1 b;
        '(l, b) ← rd 4 b;
        let t_len := le_val l in
        match dstr_init true t_len with
        | inl _ => Fault NullDeref
        | inr token =>
            '(_, token) ← dstr_append true token b t_len;
            parse_tokens fuel nstr (drop (Z.to_nat t_len) b) (cmd ++ [token])
        end
    end
  else Ok cmd.

(** A turn of the loop reads at least five bytes, so the fuel is enough. *)
Definition parse_cmd (b : list Z) : result (list dstr) :=
  '(_, b) ← rd 1 b;
  '(n, b) ← rd 4 b;
  parse_tokens (S (length b)) (le_val n) b [].

Definition before_res_build (out : list Z) : list Z * Z :=
  let header := u32 (Z.of_nat (length out)) in
  let out := buf_append_u32 out 0 in
  let out := buf_append_u32 (buf_append_u8 out (tag_byte TAG_ARR)) 2 in
  let out := buf_append_u32 (buf_append_u8 out (tag_byte TAG_INT)) (res_code RES_OK) in
  (out, header).

Definition after_res_build (out : list Z) (header : Z) : result (list Z) :=
  let mes_len := u64 (Z.of_nat (length out) - header - 4) in
  if MAX_MESSAGE_LEN <? mes_len then Ok out
  else if header + 4 <=? Z.of_nat (length out)
  then Ok (list_inserts (Z.to_nat header) (le_bytes 4 mes_len) out) else Fault OutOfBounds.

(** The fields of [Conn] that request processing uses. *)
Record ConnBufs := mkConnBufs { incoming : list Z; outgoing : list Z }.

Section requests.
Context {St : Type}.
Variable out_buffer : list Z -> list dstr -> St -> result (list Z * St).

Definition try_one_req (conn : ConnBufs) (st : St) : result (bool * ConnBufs * St) :=
  if Z.of_nat (length (incoming conn)) <? 4 then Ok (false, conn, st)
  else
    let total_len := le_val (take 4 (incoming conn)) in
    if Z.of_nat (length (incoming conn)) <? u64 (total_len + 4) then Ok (false, conn, st)
    else
      cmd ← parse_cmd (drop 4 (incoming conn));
      let '(out, header_pos) := before_res_build (outgoing conn) in
      '(out, st) ← out_buffer out cmd st;
      out ← after_res_build out header_pos;
      inc ← buf_consume (incoming conn) (u64 (4 + total_len));
      Ok (true, mkConnBufs inc out, st).

(** [while (try_one_req(conn)) {}] *)
Fixpoint drain (fuel : nat) (conn : ConnBufs) (st : St) : result (ConnBufs * St) :=
  match fuel with
  | O => Fault OutOfFuel
  | S fuel =>
      '(again, conn, st) ← try_one_req conn st;
      if (again : bool) then drain fuel conn st else Ok (conn, st)
  end.

(** The part of [handle_read] after a successful [read]: append, then process
    every complete request.  A request takes at least four bytes. *)
Definition handle_read_data (conn : ConnBufs) (data : list Z) (st : St) : result (ConnBufs * St) :=
  let inc := buf_append (incoming conn) data (Z.of_nat (length data)) in
  drain (S (length inc)) (mkConnBufs inc (outgoing conn)) st.

(** Several [read]s of one connection, one after the other. *)
Fixpoint read_chunks (conn : ConnBufs) (chunks : list (list Z)) (st : St) : result (ConnBufs * St) :=
  match chunks with
  | [] => Ok (conn, st)
  | data :: chunks => '(conn, st) ← handle_read_data conn data st; read_chunks conn chunks st
  end.
End requests.

(** ** The wire format of a request *)

Definition token_bytes (t : list Z) : list Z :=
  tag_byte TAG_STR :: le_bytes 4 (Z.of_nat (length t)) ++ t.

Definition request_body (query : list (list Z)) : list Z :=
  tag_byte TAG_ARR :: le_bytes 4 (Z.of_nat (length query)) ++ concat (token_bytes <$> query).

Definition request_frame (query : list (list Z)) : list Z :=
  le_bytes 4 (Z.of_nat (length (request_body query))) ++ request_body query.

(** Requests whose body fits the 32-bit length field and the string limit. *)
Definition request_ok (query : list (list Z)) : Prop :=
  Z.of_nat (length (request_body query)) <= 2 ^ 29.

(** What [try_one_req] does with a parsed command. *)
Definition answer {St} (out_buffer : list Z -> list dstr -> St -> result (list Z * St))
  (out : list Z) (cmd : list dstr) (st : St) : result (list Z * St) :=
  let '(out, header_pos) := before_res_build out in
  '(out, st) ← out_buffer out cmd st;
  out ← after_res_build out header_pos;
  Ok (out, st).

(** Answering a sequence of commands in order. *)
Fixpoint serve {St} (out_buffer : list Z -> list dstr -> St -> result (list Z * St))
  (cmds : list (list dstr)) (out : list Z) (st : St) : result (list Z * St) :=
  match cmds with
  | [] => Ok (out, st)
  | cmd :: cmds => '(out, st) ← answer out_buffer out cmd st; serve out_buffer cmds out st
  end.

(** ** Lemmas *)

Lemma rd_app n (a b : list Z) :
  n = Z.of_nat (length a) -> rd n (a ++ b) = Ok (a, b).
Proof.
  intros ->. unfold rd. rewrite length_app. zbool.
  by rewrite Nat2Z.id, take_app_length, drop_app_length.
Qed.

Lemma rd_cons x (b : list Z) : rd 1 (x :: b) = Ok ([x], b).
Proof. apply (rd_app 1 [x] b). done. Qed.

Lemma rd_le4 z (b : list Z) : rd 4 (le_bytes 4 z ++ b) = Ok (le_bytes 4 z, b).
Proof. apply rd_app. done. Qed.

Lemma le_val_4 z : 0 <= z < 2 ^ 32 -> le_val (le_bytes 4 z) = z.
Proof. intros. by apply le_val_bytes_small. Qed.

Lemma token_bytes_app t rest :
  token_bytes t ++ rest = tag_byte TAG_STR :: le_bytes 4 (Z.of_nat (length t)) ++ t ++ rest.
Proof. unfold token_bytes. by rewrite <- app_comm_cons, <- app_assoc. Qed.

Lemma length_token_bytes t : length (token_bytes t) = (5 + length t)%nat.
Proof. unfold token_bytes. cbn [length]. by rewrite length_app, le_bytes_length. Qed.

Lemma length_concat_tokens query : (length query <= length (concat (token_bytes <$> query)))%nat.
Proof.
  induction query as [|t q IH]; [done|].
  cbn [fmap list_fmap concat length]. rewrite length_app, length_token_bytes. lia.
Qed.

Lemma token_length_le query t :
  t ∈ query -> (length t <= length (concat (token_bytes <$> query)))%nat.
Proof.
  induction query as [|t' q IH]; [set_solver|].
  intros [->|Ht]%elem_of_cons; cbn [fmap list_fmap concat];
    rewrite length_app, length_token_bytes; [lia|].
  specialize (IH Ht). lia.
Qed.

Lemma parse_tokens_ok query ds fuel nstr rest cmd :
  Forall (fun t => Z.of_nat (length t) <= 2 ^ 29) query -> mapM dstr_copy query = Ok ds ->
  (length query <= fuel)%nat -> Z.of_nat (length cmd) + Z.of_nat (length query) = nstr ->
  parse_tokens fuel nstr (concat (token_bytes <$> query) ++ rest) cmd = Ok (cmd ++ ds).
Proof.
  revert ds fuel cmd. induction query as [|t query IH]; intros ds fuel cmd Hall Hm Hf Hn.
  - cbn in Hm. inv_ok. rewrite app_nil_r. destruct fuel; cbn; zbool; done.
  - apply Forall_cons in Hall as [Ht Hall]. cbn in Hm. inv_ok.
    destruct fuel as [|fuel]; cbn in Hf; [lia|]. cbn [parse_tokens length] in *. zbool.
    cbn [fmap list_fmap concat]. rewrite <- app_assoc, token_bytes_app.
    rewrite rd_cons. cbn [mbind result_bind]. rewrite rd_le4.
    cbn [mbind result_bind]. rewrite le_val_4 by lia.
    match goal with H : dstr_copy t = Ok _ |- _ => unfold dstr_copy in H; revert H end.
    case_match; [done|]. rewrite append_prefix. intros Hc. inv_ok.
    match goal with H : dstr_append _ _ _ _ = _ |- _ => rewrite H end.
    cbn [mbind result_bind]. rewrite Nat2Z.id, drop_app_length.
    rewrite (IH _ _ _ Hall ltac:(eassumption)) by (rewrite ?length_app; cbn [length]; lia).
    by rewrite <- app_assoc.
Qed.

Lemma request_body_app query rest :
  request_body query ++ rest = tag_byte TAG_ARR ::
    le_bytes 4 (Z.of_nat (length query)) ++ concat (token_bytes <$> query) ++ rest.
Proof. unfold request_body. by rewrite <- app_comm_cons, <- app_assoc. Qed.

Lemma length_request_body query :
  length (request_body query) = (5 + length (concat (token_bytes <$> query)))%nat.
Proof. unfold request_body. cbn [length]. by rewrite length_app, le_bytes_length. Qed.

Lemma copies_exist query :
  request_ok query -> exists ds, mapM dstr_copy query = Ok ds /\ Forall2 dstr_rep ds query.
Proof.
  unfold request_ok. rewrite length_request_body. intros Hok.
  assert (Hall : Forall (fun t => Z.of_nat (length t) + Z.of_nat (length t) <= MAX_STR_SIZE) query).
  { apply Forall_forall. intros t Ht%token_length_le. rewrite max_str_size_eq. lia. }
  clear Hok. induction Hall as [|t query Ht _ (ds & Hds & HF)].
  - exists []. by split; [|constructor].
  - destruct (copy_ok t Ht) as (d & Hd & Hr). exists (d :: ds).
    cbn. rewrite Hd, Hds. by split; [|constructor].
Qed.

Lemma parse_cmd_ok query ds rest :
  request_ok query -> mapM dstr_copy query = Ok ds ->
  parse_cmd (request_body query ++ rest) = Ok ds.
Proof.
  unfold request_ok. rewrite length_request_body. intros Hok Hds.
  pose proof (length_concat_tokens query) as Hq.
  unfold parse_cmd. rewrite request_body_app, rd_cons. cbn [mbind result_bind].
  rewrite rd_le4. cbn [mbind result_bind]. rewrite le_val_4 by lia.
  apply (parse_tokens_ok _ _ _ _ _ []); [|done|rewrite length_app; lia|cbn; lia].
  apply Forall_forall. intros t Ht%token_length_le. lia.
Qed.

Lemma frame_take4 query rest :
  request_ok query ->
  le_val (take 4 (request_frame query ++ rest)) = Z.of_nat (length (request_body query)).
Proof.
  unfold request_ok, request_frame. intros Hok. rewrite <- app_assoc.
  rewrite take_app_le, take_ge by (rewrite le_bytes_length; lia). apply le_val_4. lia.
Qed.

Lemma length_request_frame query :
  length (request_frame query) = (4 + length (request_body query))%nat.
Proof. unfold request_frame. by rewrite length_app, le_bytes_length. Qed.

Lemma request_ok_small query : request_ok query -> Z.of_nat (length (request_frame query)) < 2 ^ 30.
Proof. unfold request_ok. rewrite length_request_frame. lia. Qed.

Section request_lemmas.
Context {St : Type}.
Variable out_buffer : list Z -> list dstr -> St -> result (list Z * St).

(** A complete request at the front of the buffer is answered and consumed. *)
Lemma try_one_req_complete query ds rest out st :
  request_ok query -> mapM dstr_copy query = Ok ds ->
  try_one_req out_buffer (mkConnBufs (request_frame query ++ rest) out) st
  = ('(out, st) ← answer out_buffer out ds st; Ok (true, mkConnBufs rest out, st)).
Proof.
  intros Hok Hds. unfold try_one_req. cbn [incoming outgoing].
  rewrite frame_take4 by done. rewrite length_app, length_request_frame.
  pose proof Hok as Hsmall. unfold request_ok in Hsmall. nowrap. zbool.
  replace (drop 4 (request_frame query ++ rest)) with (request_body query ++ rest).
  2: { unfold request_frame. rewrite <- app_assoc.
       change 4%nat with (length (le_bytes 4 (Z.of_nat (length (request_body query))))).
       by rewrite drop_app_length. }
  rewrite (parse_cmd_ok query ds) by done. cbn [mbind result_bind]. unfold answer.
  destruct (before_res_build out) as [out0 header].
  destruct (out_buffer out0 ds st) as [[out1 st1]|]; [|done]. cbn [mbind result_bind].
  destruct (after_res_build out1 header) as [out2|]; [|done]. cbn [mbind result_bind].
  unfold buf_consume. rewrite length_app, length_request_frame. zbool. cbn [mbind result_bind].
  replace (Z.to_nat (4 + Z.of_nat (length (request_body query))))
    with (length (request_frame query)) by (rewrite length_request_frame; lia).
  by rewrite drop_app_length.
Qed.

(** A proper prefix of a request is left alone. *)
Lemma try_one_req_partial query p q out st :
  request_ok query -> p ++ q = request_frame query -> q <> [] ->
  try_one_req out_buffer (mkConnBufs p out) st = Ok (false, mkConnBufs p out, st).
Proof.
  intros Hok Hpq Hq. unfold try_one_req. cbn [incoming outgoing]. zcase; [done|].
  assert (Hlen : length (request_frame query) = (length p + length q)%nat)
    by (by rewrite <- Hpq, length_app).
  assert (take 4 p = take 4 (request_frame query ++ [])) as ->.
  { rewrite app_nil_r, <- Hpq, take_app_le by lia. done. }
  rewrite frame_take4 by done. pose proof Hok as Hsmall. unfold request_ok in Hsmall.
  nowrap. rewrite length_request_frame in Hlen.
  assert (length q <> 0)%nat by (by destruct q). by zbool.
Qed.

(** Draining complete requests followed by an incomplete one. *)
Lemma drain_frames queries dss p q query fuel out st :
  Forall request_ok queries -> mapM (mapM dstr_copy) queries = Ok dss ->
  request_ok query -> p ++ q = request_frame query -> q <> [] ->
  (length (concat (request_frame <$> queries) ++ p) < fuel)%nat ->
  drain out_buffer fuel (mkConnBufs (concat (request_frame <$> queries) ++ p) out) st
  = ('(out, st) ← serve out_buffer dss out st; Ok (mkConnBufs p out, st)).
Proof.
  intros Hall. revert dss fuel out st.
  induction Hall as [|qy queries Hqy Hall IH]; intros dss fuel out st Hm Hqok Hpq Hq Hf.
  - cbn in Hm. inv_ok. cbn [fmap list_fmap concat app serve] in *.
    destruct fuel as [|fuel]; [lia|]. cbn [drain].
    rewrite (try_one_req_partial query p q) by done. done.
  - cbn in Hm. inv_ok. cbn [fmap list_fmap concat serve] in *.
    destruct fuel as [|fuel]; [lia|]. cbn [drain]. rewrite <- app_assoc in *.
    rewrite (try_one_req_complete qy x) by done.
    destruct (answer out_buffer out x st) as [[out1 st1]|]; [|done]. cbn [mbind result_bind].
    apply IH; try done. rewrite length_app, length_request_frame in Hf. lia.
Qed.

Lemma serve_app dss1 dss2 out st :
  serve out_buffer (dss1 ++ dss2) out st
  = ('(out, st) ← serve out_buffer dss1 out st; serve out_buffer dss2 out st).
Proof.
  revert out st. induction dss1 as [|ds dss1 IH]; intros out st; cbn [app serve]; [done|].
  destruct (answer out_buffer out ds st) as [[out1 st1]|]; [apply IH|done].
Qed.

(** A property of the state that every command keeps. *)
Lemma handle_read_data_inv (P : St -> Prop) conn data st conn' st' :
  (forall out cmd st out' st', P st -> out_buffer out cmd st = Ok (out', st') -> P st') ->
  P st -> handle_read_data out_buffer conn data st = Ok (conn', st') -> P st'.
Proof.
  intros Hstep HP. unfold handle_read_data. generalize (S (length (buf_append (incoming conn) data (Z.of_nat (length data))))).
  generalize (mkConnBufs (buf_append (incoming conn) data (Z.of_nat (length data))) (outgoing conn)).
  intros c n. revert c st HP. induction n as [|n IH]; intros c st HP E; [done|]. cbn [drain] in E.
  apply bind_ok in E as ([[again c1] st1] & E1 & E). assert (P st1) as HP1.
  { revert E1. unfold try_one_req. do 2 (destruct (_ <? _); [by intros [= <- <- <-]|]). intros E1.
    apply bind_ok in E1 as (cmd & _ & E1).
    destruct (before_res_build _) as [o h]. apply bind_ok in E1 as ([o1 st2] & E2 & E1).
    apply bind_ok in E1 as (o2 & _ & E1). apply bind_ok in E1 as (inc & _ & E1). simplify_eq. by eapply Hstep. }
  destruct again; [by eapply IH|by simplify_eq].
Qed.

End request_lemmas.

(** [p] is what has arrived of the first of [queries]. *)
Definition begun (p : list Z) (queries : list (list (list Z))) : Prop :=
  match queries with [] => p = [] | query :: _ => (length p < length (request_frame query))%nat end.

(** Any cut of a stream of requests falls inside one request. *)
Lemma cut_frames queries a b :
  a ++ b = concat (request_frame <$> queries) ->
  exists qs1 qs2 p, queries = qs1 ++ qs2 /\ a = concat (request_frame <$> qs1) ++ p /\
    p ++ b = concat (request_frame <$> qs2) /\ begun p qs2.
Proof.
  revert a. induction queries as [|query queries IH]; intros a Hab.
  - cbn in Hab. apply app_nil in Hab as [-> ->]. by exists [], [], [].
  - cbn [fmap list_fmap concat] in Hab.
    destruct (decide (length (request_frame query) <= length a)%nat) as [Hle|Hgt].
    + assert (a = request_frame query ++ drop (length (request_frame query)) a) as Ha.
      { apply (f_equal (take (length (request_frame query)))) in Hab.
        rewrite take_app_length, take_app_le in Hab by done. rewrite <- Hab at 1.
        by rewrite take_drop. }
      rewrite Ha, <- app_assoc in Hab. apply app_inv_head in Hab.
      destruct (IH _ Hab) as (qs1 & qs2 & p & -> & Hd & Hp & Hr).
      exists (query :: qs1), qs2, p. split_and!; [done| |done..].
      rewrite Ha, Hd. cbn [fmap list_fmap concat]. by rewrite app_assoc.
    + exists [], (query :: queries), a. split_and!; [done|done|done|]. cbn. lia.
Qed.

(** A request that has begun is a proper prefix of a request. *)
Lemma begun_partial queries p b :
  Forall request_ok queries -> p ++ b = concat (request_frame <$> queries) -> begun p queries ->
  exists q query, request_ok query /\ p ++ q = request_frame query /\ q <> [].
Proof.
  intros Hall Hp Hb. destruct queries as [|query queries]; cbn in Hb.
  { subst p. exists (request_frame []), []. split_and!; [vm_compute; discriminate|done|done]. }
  apply Forall_cons in Hall as [Hq _]. exists (drop (length p) (request_frame query)), query.
  split_and!; [done| |].
  - cbn [fmap list_fmap concat] in Hp. apply (f_equal (take (length p))) in Hp.
    rewrite take_app_length, take_app_le in Hp by lia. rewrite Hp at 1. apply take_drop.
  - intros Hd. apply (f_equal length) in Hd. rewrite length_drop in Hd. cbn in Hd. lia.
Qed.

Lemma commands_exist queries :
  Forall request_ok queries ->
  exists dss, mapM (mapM dstr_copy) queries = Ok dss /\ Forall2 (Forall2 dstr_rep) dss queries.
Proof.
  induction 1 as [|q qs Hq _ (dss & Hd & HF)]; [exists []; by split; [|constructor]|].
  destruct (copies_exist q Hq) as (ds & Hds & Hr). exists (ds :: dss).
  cbn. rewrite Hds, Hd. by split; [|constructor].
Qed.

Section chunks.
Context {St : Type}.
Variable out_buffer : list Z -> list dstr -> St -> result (list Z * St).

(** One [read] of a stream of requests. *)
Lemma read_chunk queries p a b out st :
  Forall request_ok queries -> (p ++ a) ++ b = concat (request_frame <$> queries) ->
  exists qs1 qs2 p' dss, queries = qs1 ++ qs2 /\ Forall2 (Forall2 dstr_rep) dss qs1 /\
    p' ++ b = concat (request_frame <$> qs2) /\ begun p' qs2 /\
    handle_read_data out_buffer (mkConnBufs p out) a st
    = ('(out, st) ← serve out_buffer dss out st; Ok (mkConnBufs p' out, st)).
Proof.
  intros Hall Hab. destruct (cut_frames _ _ _ Hab) as (qs1 & qs2 & p' & -> & Hp & Hp' & Hb).
  apply Forall_app in Hall as [Hall1 Hall2].
  destruct (commands_exist qs1 Hall1) as (dss & Hd & HF). exists qs1, qs2, p', dss. split_and!; try done.
  destruct (begun_partial qs2 p' b Hall2 Hp' Hb) as (q & query & Hqok & Hpq & Hq).
  unfold handle_read_data. cbn [incoming outgoing]. rewrite buf_append_all, Hp.
  apply (drain_frames out_buffer qs1 dss p' q query); done || lia.
Qed.

(** Any number of [read]s. *)
Lemma read_chunks_ok queries chunks p out st :
  Forall request_ok queries -> p ++ concat chunks = concat (request_frame <$> queries) -> begun p queries ->
  exists dss, Forall2 (Forall2 dstr_rep) dss queries /\
    read_chunks out_buffer (mkConnBufs p out) chunks st
    = ('(out, st) ← serve out_buffer dss out st; Ok (mkConnBufs [] out, st)).
Proof.
  revert queries p out st. induction chunks as [|a chunks IH]; intros queries p out st Hall Hp Hb.
  - cbn [concat] in Hp. rewrite app_nil_r in Hp. destruct queries as [|query queries]; cbn in Hb.
    + exists []. split; [constructor|]. by subst p.
    + subst p. cbn [fmap list_fmap concat] in Hb. rewrite length_app in Hb. lia.
  - cbn [concat] in Hp. rewrite app_assoc in Hp.
    destruct (read_chunk queries p a (concat chunks) out st Hall Hp)
      as (qs1 & qs2 & p' & dss1 & -> & HF1 & Hp' & Hb' & E).
    apply Forall_app in Hall as [Hall1 Hall2]. cbn [read_chunks]. rewrite E.
    destruct (serve out_buffer dss1 out st) as [[out1 st1]|f] eqn:Es.
    + destruct (IH qs2 p' out1 st1 Hall2 Hp' Hb') as (dss2 & HF2 & E2).
      exists (dss1 ++ dss2). split; [by apply Forall2_app|]. rewrite serve_app, Es. cbn [mbind result_bind].
      exact E2.
    + destruct (commands_exist qs2 Hall2) as (dss2 & _ & HF2). exists (dss1 ++ dss2).
      split; [by apply Forall2_app|]. by rewrite serve_app, Es.
Qed.

(** The response header that [answer] fills in. *)
Lemma answer_exact out st cmd body st' :
  out_buffer (fst (before_res_build out)) cmd st = Ok (out ++ le_bytes 4 0 ++ body, st') ->
  Z.of_nat (length out) < 2 ^ 32 -> Z.of_nat (length body) <= MAX_MESSAGE_LEN ->
  answer out_buffer out cmd st
  = Ok (out ++ le_bytes 4 (Z.of_nat (length body)) ++ body, st').
Proof.
  intros Hb Hout Hbody. change MAX_MESSAGE_LEN with (2 ^ 25) in *. unfold answer.
  destruct (before_res_build out) as [out0 header] eqn:E. cbn [fst] in Hb.
  unfold before_res_build in E. injection E as _ <-. rewrite Hb. cbn [mbind result_bind].
  unfold after_res_build. change MAX_MESSAGE_LEN with (2 ^ 25). nowrap.
  rewrite !length_app, le_bytes_length. cbn zeta.
  replace (Z.of_nat (length out + (4 + length body)) - Z.of_nat (length out) - 4)
    with (Z.of_nat (length body)) by lia. nowrap. zbool. cbn [mbind result_bind].
  rewrite inserts_split by (rewrite !length_app, !le_bytes_length, Nat2Z.id; lia).
  rewrite Nat2Z.id, take_app_length, le_bytes_length. f_equal. f_equal. f_equal. f_equal.
  rewrite drop_app_ge by lia. rewrite drop_app_ge by (rewrite le_bytes_length; lia).
  rewrite le_bytes_length. replace (_ - _ - _)%nat with 0%nat by lia. by rewrite drop_0.
Qed.
End chunks.

(** The loops of request processing have enough fuel. *)
Lemma rd_shrinks n b x b' : 0 <= n -> rd n b = Ok (x, b') -> length b = (Z.to_nat n + length b')%nat.
Proof.
  unfold rd. intros Hn. zcase; [|done]. intros [= <- <-]. rewrite length_drop. lia.
Qed.

Lemma append_no_fuel ok d toadd n : dstr_append ok d toadd n <> Fault OutOfFuel.
Proof.
  unfold dstr_append. cbn zeta. repeat case_match; try done; unfold check, write_at;
    repeat case_match; cbn; repeat case_match; done.
Qed.

Lemma parse_tokens_no_fuel fuel nstr b cmd :
  (length b < fuel)%nat -> parse_tokens fuel nstr b cmd <> Fault OutOfFuel.
Proof.
  revert b cmd. induction fuel as [|fuel IH]; intros b cmd Hf; [lia|].
  cbn [parse_tokens]. zcase; [|done].
  destruct (rd 1 b) as [[x b1]|] eqn:E1; [|by unfold rd in E1; case_match; simplify_eq].
  cbn [mbind result_bind].
  destruct (rd 4 b1) as [[l b2]|] eqn:E2; [|by unfold rd in E2; case_match; simplify_eq].
  cbn [mbind result_bind]. apply rd_shrinks in E1; [|lia]. apply rd_shrinks in E2; [|lia].
  destruct (dstr_init true (le_val l)) as [|token]; [done|].
  destruct (dstr_append true token b2 (le_val l)) as [[e d]|f] eqn:E3.
  - cbn [mbind result_bind]. apply IH. rewrite length_drop. lia.
  - cbn [mbind result_bind]. intros [= ->]. by apply append_no_fuel in E3.
Qed.

Lemma parse_cmd_no_fuel b : parse_cmd b <> Fault OutOfFuel.
Proof.
  unfold parse_cmd.
  destruct (rd 1 b) as [[x b1]|] eqn:E1; [|by unfold rd in E1; case_match; simplify_eq].
  cbn [mbind result_bind].
  destruct (rd 4 b1) as [[l b2]|] eqn:E2; [|by unfold rd in E2; case_match; simplify_eq].
  cbn [mbind result_bind]. apply parse_tokens_no_fuel. lia.
Qed.

Lemma after_no_fuel out header : after_res_build out header <> Fault OutOfFuel.
Proof. unfold after_res_build. cbn zeta. by repeat case_match. Qed.

(** ** Properties *)

Section request_properties.
Context {St : Type}.
Variable out_buffer : list Z -> list dstr -> St -> result (list Z * St).

(** C8: framing is independent of how the bytes arrive.  For any sequence of
    well-formed requests, cut into any number of pieces anywhere, reading the
    pieces one after the other answers every request exactly once, in order,
    with the arguments the client sent, and leaves the input buffer empty. *)
Theorem requests_any_cut queries chunks out st :
  Forall request_ok queries -> concat chunks = concat (request_frame <$> queries) ->
  exists dss, Forall2 (Forall2 dstr_rep) dss queries /\
    read_chunks out_buffer (mkConnBufs [] out) chunks st
    = ('(out, st) ← serve out_buffer dss out st; Ok (mkConnBufs [] out, st)).
Proof.
  intros Hall Hc. apply (read_chunks_ok out_buffer queries chunks []); [done|done|].
  destruct queries as [|query queries]; [done|]. cbn. rewrite length_request_frame. lia.
Qed.

(** The response header. When the command interpreter only writes after
    the reserved header, [after_res_build] stores the exact length of what
    follows it, and earlier responses in the buffer are untouched. *)
Theorem response_header_exact out st cmd body st' :
  out_buffer (fst (before_res_build out)) cmd st = Ok (out ++ le_bytes 4 0 ++ body, st') ->
  Z.of_nat (length out) < 2 ^ 32 -> Z.of_nat (length body) <= MAX_MESSAGE_LEN ->
  answer out_buffer out cmd st
  = Ok (out ++ le_bytes 4 (Z.of_nat (length body)) ++ body, st').
Proof. apply answer_exact. Qed.

Lemma try_one_req_shrinks conn st conn' st' :
  bytes_ok (incoming conn) ->
  try_one_req out_buffer conn st = Ok (true, conn', st') ->
  bytes_ok (incoming conn') /\ (length (incoming conn') + 4 <= length (incoming conn))%nat.
Proof.
  intros Hok. unfold try_one_req. zcase; [done|].
  pose proof (le_val_range (take 4 (incoming conn)) (Forall_take _ _ _ Hok)) as Hr.
  rewrite length_take, Nat.min_l in Hr by lia. change (8 * Z.of_nat 4) with 32 in Hr.
  zcase; [done|]. destruct (before_res_build (outgoing conn)) as [out0 header].
  intros Ht. inv_ok. unfold buf_consume in *. case_match; [|done]. inv_ok.
  cbn [incoming]. split; [by apply Forall_drop|].
  rewrite length_drop, u64_small by lia. lia.
Qed.

(** [while (try_one_req(conn)) {}] as the language defines it, without a bound:
    [loops conn st k r] when the loop, started in [conn] and [st], processes [k]
    requests and ends with [r], which is a fault when the last call faults. *)
Inductive loops : ConnBufs -> St -> nat -> result (ConnBufs * St) -> Prop :=
  | loops_stop conn st conn' st' :
      try_one_req out_buffer conn st = Ok (false, conn', st') -> loops conn st 0 (Ok (conn', st'))
  | loops_fault conn st f : try_one_req out_buffer conn st = Fault f -> loops conn st 0 (Fault f)
  | loops_turn conn st conn' st' k r :
      try_one_req out_buffer conn st = Ok (true, conn', st') -> loops conn' st' k r -> loops conn st (S k) r.

(** The model of the loop, with its fuel, is the loop. *)
Lemma drain_loops fuel conn st :
  bytes_ok (incoming conn) -> (length (incoming conn) < fuel)%nat ->
  exists k, (4 * k <= length (incoming conn))%nat /\ loops conn st k (drain out_buffer fuel conn st).
Proof.
  revert conn st. induction fuel as [|fuel IH]; intros conn st Hb Hf; [lia|]. cbn [drain].
  destruct (try_one_req out_buffer conn st) as [[[again c'] s']|f] eqn:E; cbn [mbind result_bind].
  2: { exists 0%nat. split; [lia|by constructor]. }
  destruct again; [|exists 0%nat; split; [lia|by constructor]].
  destruct (try_one_req_shrinks _ _ _ _ Hb E) as [Hb' Hlt]. destruct (IH c' s' Hb') as (k & Hk & Hl); [lia|].
  exists (S k). split; [lia|by econstructor].
Qed.

(** C37: the request loop terminates on every input.  Whatever bytes have
    arrived, in whatever pieces, and whatever the interpreter of commands answers,
    the loop of [handle_read] ends, in the modelled result, after at most a
    quarter as many calls of the interpreter as there are bytes in the buffer;
    and parsing a request terminates on every input, with a command or a fault. *)
Theorem handle_read_terminates conn data st :
  bytes_ok (incoming conn) -> bytes_ok data ->
  (exists k, (4 * k <= length (incoming conn) + length data)%nat /\
    loops (mkConnBufs (incoming conn ++ data) (outgoing conn)) st k (handle_read_data out_buffer conn data st)) /\
  forall b, parse_cmd b <> Fault OutOfFuel.
Proof.
  intros Hinc Hdata. split; [|apply parse_cmd_no_fuel]. unfold handle_read_data. rewrite buf_append_all, <- length_app.
  apply (drain_loops _ (mkConnBufs (incoming conn ++ data) (outgoing conn))); cbn; [by apply Forall_app|lia].
Qed.
End request_properties.

(** (No bounds on the parsed lengths): [parse_cmd] trusts the counts in
    the message.  A complete frame that announces more strings than it holds
    makes it read past the input buffer. *)
Theorem parse_cmd_overread n rest :
  0 < n < 2 ^ 32 -> Z.of_nat (length rest) < 5 ->
  parse_cmd (tag_byte TAG_ARR :: le_bytes 4 n ++ rest) = Fault OutOfBounds.
Proof.
  intros Hn Hr. unfold parse_cmd. rewrite rd_cons. cbn [mbind result_bind].
  rewrite rd_le4. cbn [mbind result_bind]. rewrite le_val_4 by lia.
  destruct rest as [|x rest]; cbn [length parse_tokens] in *; zbool; [done|].
  rewrite rd_cons. cbn [mbind result_bind]. unfold rd. zbool. done.
Qed.

(** ** Witnesses *)

(** A command interpreter that answers every command with [null]. *)
Definition null_buffer (out : list Z) (cmd : list dstr) (st : nat) : result (list Z * nat) :=
  Ok (out_null out, S st).

(** The request "get k". *)
Definition get_k : list (list Z) := [[103; 101; 116]; [107]].

Lemma requests_any_cut_witness :
  exists dss, Forall2 (Forall2 dstr_rep) dss [get_k; get_k] /\
    read_chunks null_buffer (mkConnBufs [] [])
      [take 7 (request_frame get_k); drop 7 (request_frame get_k) ++ take 1 (request_frame get_k);
       drop 1 (request_frame get_k)] 0%nat
    = ('(out, st) ← serve null_buffer dss [] 0%nat; Ok (mkConnBufs [] out, st)).
Proof.
  apply (requests_any_cut null_buffer [get_k; get_k]).
  - repeat constructor; vm_compute; discriminate.
  - reflexivity.
Defined.

Lemma response_header_exact_witness :
  answer null_buffer [1; 2] [] 0%nat
  = Ok ([1; 2] ++ le_bytes 4 11 ++ [2; 2; 0; 0; 0; 0; 0; 0; 0; 0; 3], 1%nat).
Proof.
  apply (response_header_exact null_buffer [1; 2] 0%nat []
           [2; 2; 0; 0; 0; 0; 0; 0; 0; 0; 3] 1%nat);
    [reflexivity|cbn; lia|vm_compute; discriminate].
Defined.

Lemma parse_cmd_overread_witness :
  parse_cmd (tag_byte TAG_ARR :: le_bytes 4 2 ++ [1; 0]) = Fault OutOfBounds.
Proof. apply (parse_cmd_overread 2 [1; 0]); cbn; lia. Defined.

Lemma handle_read_terminates_witness :
  exists k, (4 * k <= 13)%nat /\
    loops null_buffer (mkConnBufs [9; 0; 0; 0; 2; 7; 0; 0; 0; 1; 0; 0; 0] []) 0%nat k
      (handle_read_data null_buffer (mkConnBufs [] []) [9; 0; 0; 0; 2; 7; 0; 0; 0; 1; 0; 0; 0] 0%nat).
Proof.
  apply (handle_read_terminates null_buffer (mkConnBufs [] []) [9; 0; 0; 0; 2; 7; 0; 0; 0; 1; 0; 0; 0]); [constructor|].
  repeat constructor; lia.
Defined.
