(* ===== verification/Client.v ===== *)
(** * The command-line client: [src/src/client.cpp]

    The socket is modelled by the bytes on the wire; how many bytes each
    [read]/[write] moves is an arbitrary function of the bytes still wanted. *)

From S2P Require Import Prelude Dstr Buffers Request.

(** ** Definitions *)

Definition CLIENT_MAX_MESSAGE_LEN : Z := 4096.

(** [k n] is what [read(fd, buf, n)] would like to return; it returns at least
    one byte unless the stream is at its end. *)
Fixpoint read_all (fuel : nat) (k : nat -> nat) (wire : list Z) (n : nat)
  : option (list Z * list Z) :=
  match n, fuel with
  | O, _ => Some ([], wire)
  | _, O => None
  | _, S fuel =>
      let rec_len := Nat.min (Nat.max 1 (k n)) (Nat.min n (length wire)) in
      if (rec_len =? 0)%nat then None
      else '(bs, wire') ← read_all fuel k (drop rec_len wire) (n - rec_len);
           Some (take rec_len wire ++ bs, wire')
  end.

(** [k n] is what [write(fd, buf, n)] returns; the pair is the return value and
    the bytes that reached the wire. *)
Fixpoint write_all (fuel : nat) (k : nat -> Z) (buf : list Z) : Z * list Z :=
  match buf, fuel with
  | [], _ => (0, [])
  | _, O => (-1, [])
  | _, S fuel =>
      let sent_len := Z.min (k (length buf)) (Z.of_nat (length buf)) in
      if sent_len <=? 0 then (-1, [])
      else let '(ret, sent) := write_all fuel k (drop (Z.to_nat sent_len) buf) in
           (ret, take (Z.to_nat sent_len) buf ++ sent)
  end.

(** The buffer built by [handle_write]; [None] is the "too large" error. *)
Definition request_bytes (query : list (list Z)) : option (list Z) :=
  let total_size := foldl (fun acc token => u32 (acc + 5 + Z.of_nat (length token))) 5 query in
  if CLIENT_MAX_MESSAGE_LEN <? total_size then None
  else
    let buf := buf_append_u32 [] total_size in
    let buf := buf_append_u8 buf (tag_byte TAG_ARR) in
    let buf := buf_append_u32 buf (u32 (Z.of_nat (length query))) in
    Some (foldl (fun buf token =>
            let len := u32 (Z.of_nat (length token)) in
            let buf := buf_append_u8 buf (tag_byte TAG_STR) in
            let buf := buf_append_u32 buf len in
            buf_append buf token len) buf query).

Definition client_handle_write (k : nat -> Z) (query : list (list Z)) : Z * list Z :=
  match request_bytes query with
  | None => (-1, [])
  | Some buf => write_all (length buf) k buf
  end.

(** What [print_res] prints. *)
Inductive printed :=
  | PArr (n : Z)
  | PStr (err : bool) (text : list Z)
  | PDbl (bits : Z)
  | PInt (z : Z)
  | PNull.

(** [memcpy(&x, &buf[curr], n)] *)
Definition peek (buf : list Z) (curr n : Z) : result (list Z) :=
  '(bs, _) ← rd n (drop (Z.to_nat curr) buf); Ok bs.

(** [printf("%s")] of a block: up to the terminating NUL. *)
Fixpoint printf_s (block : list cell) : result (list Z) :=
  match block with
  | [] => Fault OutOfBounds
  | None :: _ => Fault Uninitialised
  | Some b :: block => if b =? 0 then Ok [] else bs ← printf_s block; Ok (b :: bs)
  end.

(** The items of a response, printed one after the other.  The buffer of a
    string is allocated with [dstr_init], which writes one NUL, and filled with
    [memcpy]; [printf] then reads it up to a NUL. *)
Fixpoint print_res (fuel : nat) (buf : list Z) (curr total_len : Z) : result (list printed) :=
  if u32 (4 + total_len) <=? curr then Ok []
  else match fuel with
  | O => Fault OutOfFuel
  | S fuel =>
      t ← peek buf curr 1;
      let tag := le_val t in
      let curr := curr + 1 in
      '(out, curr) ←
        (if tag =? tag_byte TAG_ARR then
           n ← peek buf curr 4; Ok ([PArr (le_val n)], curr + 4)
         else if (tag =? tag_byte TAG_STR) || (tag =? tag_byte TAG_ERROR) then
           n ← peek buf curr 4;
           let str_size := le_val n in
           let curr := curr + 4 in
           match dstr_init true str_size with
           | inl _ => Fault NullDeref
           | inr str =>
               bs ← peek buf curr str_size;
               block ← write_at 0 bs (d_buf str);
               text ← printf_s block;
               Ok ([PStr (negb (tag =? tag_byte TAG_STR)) text], curr + str_size)
           end
         else if tag =? tag_byte TAG_DOUBLE then
           d ← peek buf curr 8; Ok ([PDbl (le_val d)], curr + 8)
         else if tag =? tag_byte TAG_INT then
           n ← peek buf curr 4; Ok ([PInt (le_val n)], curr + 4)
         else if tag =? tag_byte TAG_NULL then Ok ([PNull], curr)
         else Ok ([], curr));
      rest ← print_res fuel buf curr total_len;
      Ok (out ++ rest)
  end.

(** [handle_read]: the response code (read, not used) and the printed items;
    [None] is the error return. *)
Definition client_handle_read (k : nat -> nat) (wire : list Z)
  : result (option (Z * list printed * list Z)) :=
  match read_all 4 k wire 4 with
  | None => Ok None
  | Some (hdr, wire) =>
      let total_len := le_val hdr in
      let n := Z.to_nat total_len in
      (* [buf.resize(4 + total_len)] is computed in 32 bits *)
      _ ← check (4 + total_len <=? u32 (4 + total_len)) OutOfBounds;
      match read_all n k wire n with
      | None => Ok None
      | Some (body, wire) =>
          let buf := hdr ++ body in
          c ← peek buf 10 4;
          evs ← print_res (length buf) buf 14 total_len;
          Ok (Some (le_val c, evs, wire))
      end
  end.

(** ** Lemmas *)

Lemma request_size query acc :
  0 <= acc -> acc + Z.of_nat (length (concat (token_bytes <$> query))) < 2 ^ 32 ->
  foldl (fun acc token => u32 (acc + 5 + Z.of_nat (length token))) acc query
  = acc + Z.of_nat (length (concat (token_bytes <$> query))).
Proof.
  revert acc. induction query as [|t query IH]; intros acc Hacc Hlt.
  - cbn. lia.
  - cbn [foldl fmap list_fmap concat] in *. rewrite length_app, length_token_bytes in *.
    nowrap. rewrite IH; lia.
Qed.

Lemma request_tokens query buf :
  Forall (fun t => Z.of_nat (length t) < 2 ^ 32) query ->
  foldl (fun buf token =>
    let len := u32 (Z.of_nat (length token)) in
    let buf := buf_append_u8 buf (tag_byte TAG_STR) in
    let buf := buf_append_u32 buf len in
    buf_append buf token len) buf query
  = buf ++ concat (token_bytes <$> query).
Proof.
  revert buf. induction query as [|t query IH]; intros buf Hall.
  - cbn. by rewrite app_nil_r.
  - apply Forall_cons in Hall as [Ht Hall]. cbn [foldl fmap list_fmap concat].
    rewrite IH by done. cbn zeta. nowrap. rewrite buf_append_all, buf_append_u32_eq.
    unfold buf_append_u8. rewrite token_bytes_app. by rewrite <- !app_assoc.
Qed.

Lemma request_bytes_eq query :
  Z.of_nat (length (request_body query)) < 2 ^ 32 ->
  request_bytes query
  = if CLIENT_MAX_MESSAGE_LEN <? Z.of_nat (length (request_body query)) then None
    else Some (request_frame query).
Proof.
  rewrite length_request_body. intros Hlt. unfold request_bytes.
  rewrite request_size by lia. rewrite request_tokens.
  2: { apply Forall_forall. intros t Ht%token_length_le. lia. }
  replace (5 + Z.of_nat (length (concat (token_bytes <$> query))))
    with (Z.of_nat (5 + length (concat (token_bytes <$> query)))) by lia.
  case_match; [done|]. f_equal. pose proof (length_concat_tokens query).
  rewrite !buf_append_u32_eq. nowrap. unfold request_frame. rewrite length_request_body.
  unfold request_body, buf_append_u8. cbn [app]. by rewrite <- !app_assoc.
Qed.

(** [read_all] returns exactly [n] bytes, however the stream is cut. *)
Lemma read_all_exact fuel k wire n :
  (n <= fuel)%nat -> (n <= length wire)%nat -> read_all fuel k wire n = Some (take n wire, drop n wire).
Proof.
  revert wire n. induction fuel as [|fuel IH]; intros wire n Hf Hw.
  - replace n with 0%nat by lia. cbn. by rewrite drop_0.
  - destruct n as [|n]; [cbn; by rewrite drop_0|]. cbn [read_all].
    set (r := Nat.min _ _). assert (1 <= r <= S n)%nat as Hr by lia.
    assert (r <= length wire)%nat by lia.
    rewrite (proj2 (Nat.eqb_neq r 0)) by lia. rewrite IH by (rewrite ?length_drop; lia).
    cbn. rewrite drop_drop, take_take_drop. by replace (r + (S n - r))%nat with (S n) by lia.
Qed.

Lemma read_all_app fuel k a b :
  (length a <= fuel)%nat -> read_all fuel k (a ++ b) (length a) = Some (a, b).
Proof.
  intros. rewrite read_all_exact by (rewrite ?length_app; lia).
  by rewrite take_app_length, drop_app_length.
Qed.

(** [write_all] delivers the whole buffer when [write] never fails. *)
Lemma write_all_exact fuel k buf :
  (length buf <= fuel)%nat -> (forall n, 0 < k n) -> write_all fuel k buf = (0, buf).
Proof.
  revert buf. induction fuel as [|fuel IH]; intros buf Hf Hk.
  - destruct buf; cbn in *; [done|lia].
  - destruct buf as [|x buf]; [done|]. cbn [write_all]. set (l := x :: buf) in *.
    specialize (Hk (length l)) as Hkl. set (r := Z.min _ _).
    assert (0 < Z.of_nat (length l)) by (cbn; lia). zbool.
    rewrite IH by (rewrite ?length_drop; (done || lia)). by rewrite take_drop.
Qed.

(** The block [print_res] hands to [printf] for a string of the reply. *)
Definition str_block (bs : list Z) : list cell :=
  (Some <$> bs) ++ [if decide (bs = []) then Some 0 else None].

(** The text of a string of the reply, up to a NUL of its own; the empty string
    keeps the NUL of [dstr_init], any other one has none behind it. *)
Definition show_text (bs : list Z) : result (list Z) :=
  if decide (bs = [] \/ 0 ∈ bs) then Ok (cstr bs) else Fault Uninitialised.

(** What the client prints for an item. *)
Definition shown (i : item) : result printed :=
  match i with
  | IInt z => Ok (PInt z)
  | IStr bs => text ← show_text bs; Ok (PStr false text)
  | IArr n => Ok (PArr n)
  | INull => Ok PNull
  | IErr bs => text ← show_text bs; Ok (PStr true text)
  | IDbl d => Ok (PDbl d)
  end.

(** Strings of a reply that the client can allocate. *)
Definition item_small (i : item) : Prop :=
  match i with
  | IStr bs | IErr bs => Z.of_nat (length bs) <= MAX_STR_SIZE
  | _ => True
  end.

Lemma peek_app buf pre x post curr n :
  buf = pre ++ x ++ post -> curr = Z.of_nat (length pre) -> n = Z.of_nat (length x) ->
  peek buf curr n = Ok x.
Proof.
  intros -> -> ->. unfold peek. rewrite Nat2Z.id, drop_app_length. by rewrite rd_app.
Qed.

Lemma str_block_eq bs d :
  dstr_init true (Z.of_nat (length bs)) = inr d -> write_at 0 bs (d_buf d) = Ok (str_block bs).
Proof.
  unfold dstr_init. case_match; [done|]. intros [= <-]. cbn [d_buf].
  rewrite Nat2Z.id. etrans; [apply (write_at_app [] (Some 0 :: replicate (length bs) None) bs 0);
    [done|cbn; rewrite length_replicate; lia]|]. cbn [app]. unfold str_block. f_equal. f_equal.
  destruct bs as [|b bs]; [done|]. cbn [length drop]. case_decide; [done|].
  rewrite drop_replicate. by replace (S (length bs) - length bs)%nat with 1%nat by lia.
Qed.

Lemma printf_block bs tl :
  printf_s ((Some <$> bs) ++ [tl]) = if decide (0 ∈ bs) then Ok (cstr bs) else bs' ← printf_s [tl]; Ok (bs ++ bs').
Proof.
  induction bs as [|b bs IH]; [rewrite decide_False by apply not_elem_of_nil; cbn [fmap list_fmap app]; destruct (printf_s [tl]); reflexivity|].
  cbn [fmap list_fmap app printf_s cstr]. zcase.
  - rewrite decide_True; [done|]. subst. apply list_elem_of_here.
  - rewrite IH. destruct (decide (0 ∈ bs)) as [Hin|Hn].
    + by rewrite decide_True by (by apply list_elem_of_further).
    + rewrite decide_False by (rewrite elem_of_cons; intros [|]; [lia|done]).
      destruct tl as [x|]; [cbn; destruct (x =? 0)|]; reflexivity.
Qed.

Lemma show_block bs : printf_s (str_block bs) = show_text bs.
Proof.
  unfold str_block, show_text. rewrite printf_block. destruct (decide (bs = [])) as [->|Hne].
  - rewrite decide_False by apply not_elem_of_nil. by rewrite decide_True by (by left).
  - destruct (decide (0 ∈ bs)); [by rewrite decide_True by (by right)|]. rewrite decide_False by (by intros [|]). done.
Qed.

Lemma length_item_bytes i : (0 < length (item_bytes i))%nat.
Proof. destruct i; cbn; lia. Qed.

(** The tag byte of an item and what follows it. *)
Definition item_tag (i : item) : Tags :=
  match i with
  | IInt _ => TAG_INT | IStr _ => TAG_STR | IArr _ => TAG_ARR
  | INull => TAG_NULL | IErr _ => TAG_ERROR | IDbl _ => TAG_DOUBLE
  end.

Definition item_payload (i : item) : list Z :=
  match i with
  | IInt z | IArr z => le_bytes 4 z
  | IStr bs | IErr bs => le_bytes 4 (Z.of_nat (length bs)) ++ bs
  | INull => []
  | IDbl d => le_bytes 8 d
  end.

Lemma item_split i : item_bytes i = [tag_byte (item_tag i)] ++ item_payload i.
Proof. by destruct i. Qed.

(** The branch of [print_res] for strings and errors. *)
Definition print_string (buf : list Z) (curr : Z) (err : bool) : result (list printed * Z) :=
  n ← peek buf curr 4;
  match dstr_init true (le_val n) with
  | inl _ => Fault NullDeref
  | inr str =>
      bs ← peek buf (curr + 4) (le_val n);
      block ← write_at 0 bs (d_buf str);
      text ← printf_s block;
      Ok ([PStr err text], curr + 4 + le_val n)
  end.

Lemma print_string_ok pre bs post curr err :
  curr = Z.of_nat (length pre) -> Z.of_nat (length bs) < 2 ^ 32 -> Z.of_nat (length bs) <= MAX_STR_SIZE ->
  print_string (pre ++ (le_bytes 4 (Z.of_nat (length bs)) ++ bs) ++ post) curr err
  = (text ← show_text bs; Ok ([PStr err text], curr + 4 + Z.of_nat (length bs))).
Proof.
  intros -> Hb Hm. unfold print_string. rewrite <- (app_assoc (le_bytes 4 _)).
  rewrite (peek_app _ pre (le_bytes 4 (Z.of_nat (length bs))) (bs ++ post) _ 4) by (done || by rewrite le_bytes_length).
  cbn [mbind result_bind]. rewrite le_val_4 by lia.
  destruct (dstr_init true (Z.of_nat (length bs))) as [e|d] eqn:E; [unfold dstr_init in E; revert E; by zbool|].
  rewrite (peek_app _ (pre ++ le_bytes 4 (Z.of_nat (length bs))) bs post _ (Z.of_nat (length bs)));
    [|by rewrite <- !app_assoc|len|done].
  cbn [mbind result_bind]. rewrite (str_block_eq _ _ E). cbn [mbind result_bind]. by rewrite show_block.
Qed.

(** One turn of [print_res] on an item. *)
Lemma print_res_item fuel pre i post total_len :
  item_ok i -> item_small i ->
  u32 (4 + total_len) = Z.of_nat (length (pre ++ item_bytes i ++ post)) ->
  print_res (S fuel) (pre ++ item_bytes i ++ post) (Z.of_nat (length pre)) total_len
  = (x ← shown i;
     rest ← print_res fuel (pre ++ item_bytes i ++ post)
              (Z.of_nat (length (pre ++ item_bytes i))) total_len;
     Ok (x :: rest)).
Proof.
  intros Hok Hsm Htot. cbn [print_res]. rewrite Htot.
  rewrite item_split, !length_app in *. cbn [length] in *. zbool.
  set (buf := pre ++ ([tag_byte (item_tag i)] ++ item_payload i) ++ post).
  rewrite (peek_app buf pre [tag_byte (item_tag i)] (item_payload i ++ post)
             (Z.of_nat (length pre)) 1)
    by (first [done|unfold buf; by rewrite <- !app_assoc]).
  cbn [mbind result_bind]. replace (le_val [_]) with (tag_byte (item_tag i)) by (cbn; lia).
  assert (Hpeek : forall x y off n, item_payload i = x ++ y ->
            off = Z.of_nat (length pre) + 1 -> n = Z.of_nat (length x) -> peek buf off n = Ok x).
  { intros x y off n Hi -> ->.
    apply (peek_app _ (pre ++ [tag_byte (item_tag i)]) x (y ++ post)); [|len|done].
    unfold buf. rewrite Hi. by rewrite <- !app_assoc. }
  assert (Hstr : forall bs err, item_payload i = le_bytes 4 (Z.of_nat (length bs)) ++ bs -> Z.of_nat (length bs) < 2 ^ 32 ->
    Z.of_nat (length bs) <= MAX_STR_SIZE -> print_string buf (Z.of_nat (length pre) + 1) err
    = (text ← show_text bs; Ok ([PStr err text], Z.of_nat (length pre + (1 + length (item_payload i)))))).
  { intros bs err Hi Hb Hm. assert (Eb : buf = (pre ++ [tag_byte (item_tag i)]) ++ item_payload i ++ post)
      by (unfold buf; by rewrite <- !app_assoc). rewrite Eb, Hi, print_string_ok by (done || len).
    destruct (show_text bs); [|done]. cbn [mbind result_bind]. repeat f_equal. len. }
  unfold print_string in Hstr.
  destruct i as [z|bs|n| |bs|d]; cbn [item_tag item_ok item_small shown] in *;
    cbn [tag_byte Z.eqb orb Pos.eqb negb].
  - rewrite (Hpeek (le_bytes 4 z) [] _ 4) by (rewrite ?app_nil_r; done).
    cbn [mbind result_bind app]. rewrite le_val_4 by done. repeat f_equal. cbn [item_payload]. len.
  - rewrite (Hstr bs) by (done || apply Hok). by destruct (show_text bs).
  - rewrite (Hpeek (le_bytes 4 n) [] _ 4) by (rewrite ?app_nil_r; done).
    cbn [mbind result_bind app]. rewrite le_val_4 by done. repeat f_equal. cbn [item_payload]. len.
  - cbn [mbind result_bind app]. repeat f_equal. cbn [item_payload length]. lia.
  - rewrite (Hstr bs) by (done || apply Hok). by destruct (show_text bs).
  - rewrite (Hpeek (le_bytes 8 d) [] _ 8) by (rewrite ?app_nil_r; done).
    cbn [mbind result_bind app]. rewrite le_val_bytes_small by done.
    repeat f_equal. cbn [item_payload]. len.
Qed.

Lemma print_res_items its fuel pre total_len :
  Forall item_ok its -> Forall item_small its -> (length its <= fuel)%nat ->
  u32 (4 + total_len) = Z.of_nat (length (pre ++ items_bytes its)) ->
  print_res fuel (pre ++ items_bytes its) (Z.of_nat (length pre)) total_len = mapM shown its.
Proof.
  intros Hok. revert fuel pre. induction Hok as [|i its Hi Hok IH]; intros fuel pre Hsm Hf Htot.
  - unfold items_bytes in *. cbn [fmap list_fmap concat] in *. rewrite app_nil_r in *.
    destruct fuel; cbn [print_res]; rewrite Htot; by zbool.
  - apply Forall_cons in Hsm as [Hsi Hsm]. destruct fuel as [|fuel]; cbn [length] in Hf; [lia|].
    rewrite items_bytes_cons in *. rewrite print_res_item by done.
    rewrite app_assoc in *. rewrite IH by (done || lia). done.
Qed.

Lemma items_count its : (length its <= length (items_bytes its))%nat.
Proof.
  induction its as [|i its IH]; [done|]. rewrite items_bytes_cons, length_app.
  pose proof (length_item_bytes i). cbn [length]. lia.
Qed.

(** Sending one request. *)
Lemma client_writes k query :
  (forall n, 0 < k n) -> Z.of_nat (length (request_body query)) <= CLIENT_MAX_MESSAGE_LEN ->
  client_handle_write k query = (0, request_frame query).
Proof.
  unfold CLIENT_MAX_MESSAGE_LEN. intros Hk Hlen. unfold client_handle_write. rewrite request_bytes_eq by lia.
  unfold CLIENT_MAX_MESSAGE_LEN. zbool. by apply write_all_exact.
Qed.

(** Reading one response. *)
Lemma client_reads k code its more :
  Forall item_ok its -> Forall item_small its ->
  Z.of_nat (length (response_body code its)) + 4 < 2 ^ 32 ->
  client_handle_read k
    (le_bytes 4 (Z.of_nat (length (response_body code its))) ++ response_body code its ++ more)
  = (evs ← mapM shown its; Ok (Some (res_code code, evs, more))).
Proof.
  intros Hok Hsm Hlen. unfold client_handle_read.
  set (body := response_body code its) in *.
  rewrite (read_all_app 4 k (le_bytes 4 (Z.of_nat (length body)))) by done.
  rewrite le_val_4, Nat2Z.id by lia. nowrap. zbool. cbn [check mbind result_bind].
  rewrite read_all_app by done.
  set (pre := le_bytes 4 (Z.of_nat (length body)) ++ item_bytes (IArr 2)
                ++ item_bytes (IInt (res_code code))).
  assert (Hbuf : le_bytes 4 (Z.of_nat (length body)) ++ body = pre ++ items_bytes its).
  { unfold pre, body, response_body. by rewrite <- !app_assoc. }
  assert (Hc : 0 <= res_code code < 2 ^ 32) by (destruct code; cbn; lia).
  rewrite (peek_app _ (le_bytes 4 (Z.of_nat (length body)) ++ item_bytes (IArr 2) ++ [tag_byte TAG_INT])
             (le_bytes 4 (res_code code)) (items_bytes its));
    [|unfold body, response_body; cbn [item_bytes]; by rewrite <- !app_assoc|done|done].
  cbn [mbind result_bind]. rewrite le_val_4 by done.
  replace 14 with (Z.of_nat (length pre)) by done. rewrite Hbuf.
  rewrite print_res_items; [done|done|done| |].
  - rewrite length_app. pose proof (items_count its). lia.
  - rewrite <- Hbuf, length_app, le_bytes_length. rewrite u32_small by lia. lia.
Qed.

(** ** Properties *)

(** C30: what the client sends is what the server parses.  A query whose
    encoding fits the client's limit is put on the wire in full, whatever part
    of it each [write] takes, and the server's [parse_cmd] reads back exactly
    the same arguments from it, also when other data follows. *)
Theorem client_request_roundtrip k query rest :
  (forall n, 0 < k n) -> Z.of_nat (length (request_body query)) <= CLIENT_MAX_MESSAGE_LEN ->
  client_handle_write k query = (0, request_frame query) /\
  exists ds, parse_cmd (drop 4 (request_frame query ++ rest)) = Ok ds /\ Forall2 dstr_rep ds query.
Proof.
  intros Hk Hlen. split; [by apply client_writes|]. unfold CLIENT_MAX_MESSAGE_LEN in Hlen.
  - assert (Hok : request_ok query) by (unfold request_ok; lia).
    destruct (copies_exist query Hok) as (ds & Hds & Hr). exists ds. split; [|done].
    unfold request_frame. rewrite <- app_assoc.
    change 4%nat with (length (le_bytes 4 (Z.of_nat (length (request_body query))))) at 1.
    rewrite drop_app_length. by apply parse_cmd_ok.
Qed.

(** A query whose encoding is over the client's limit is refused and
    nothing is sent. *)
Theorem client_request_too_large k query :
  CLIENT_MAX_MESSAGE_LEN < Z.of_nat (length (request_body query)) < 2 ^ 32 ->
  client_handle_write k query = (-1, []).
Proof.
  intros Hlen. unfold client_handle_write. rewrite request_bytes_eq by lia. by zbool.
Qed.

(** The client decodes a response exactly: from the bytes the server
    produces for a code and a sequence of items it shows those items in order,
    up to the first string without a terminator, and leaves the rest of the
    stream alone, however the stream is cut by [read]. *)
Theorem client_response_roundtrip k code its more :
  Forall item_ok its -> Forall item_small its ->
  Z.of_nat (length (response_body code its)) + 4 < 2 ^ 32 ->
  client_handle_read k
    (le_bytes 4 (Z.of_nat (length (response_body code its))) ++ response_body code its ++ more)
  = (evs ← mapM shown its; Ok (Some (res_code code, evs, more))).
Proof. apply client_reads. Qed.

(** (No terminator): [print_res] allocates the string with [dstr_init] and
    copies the bytes over its only NUL; reading a response that holds a
    non-empty string without a NUL reads uninitialised memory. *)
Theorem print_res_unterminated k code bs more :
  bs <> [] -> Forall (fun b => b <> 0) bs -> item_ok (IStr bs) -> Z.of_nat (length bs) <= MAX_STR_SIZE ->
  client_handle_read k
    (le_bytes 4 (Z.of_nat (length (response_body code [IStr bs]))) ++ response_body code [IStr bs] ++ more)
  = Fault Uninitialised.
Proof.
  intros Hne Hnz Hok Hlen. rewrite client_reads.
  - cbn [mapM shown]. unfold show_text. rewrite decide_False; [done|]. rewrite Forall_forall in Hnz.
    intros [|Hin%Hnz]; done.
  - by constructor.
  - by constructor.
  - unfold response_body. rewrite !length_app, items_bytes_cons, length_app. cbn [item_bytes length].
    rewrite max_str_size_eq in Hlen. rewrite length_app, !le_bytes_length. cbn. lia.
Qed.

(** ** Witnesses *)

Lemma client_request_roundtrip_witness :
  client_handle_write (fun _ => 3) get_k = (0, request_frame get_k) /\
  exists ds, parse_cmd (drop 4 (request_frame get_k ++ [9])) = Ok ds /\ Forall2 dstr_rep ds get_k.
Proof.
  apply (client_request_roundtrip (fun _ => 3) get_k [9]); [done|vm_compute; discriminate].
Defined.

Lemma client_request_too_large_witness :
  client_handle_write (fun _ => 3) [replicate 5000 97] = (-1, []).
Proof.
  apply (client_request_too_large (fun _ => 3) [replicate 5000 97]).
  split; vm_compute; reflexivity.
Defined.

Lemma client_response_roundtrip_witness :
  client_handle_read (fun _ => 2%nat)
    (le_bytes 4 (Z.of_nat (length (response_body RES_OK [IInt 5; INull])))
      ++ response_body RES_OK [IInt 5; INull] ++ [7])
  = Ok (Some (res_code RES_OK, [PInt 5; PNull], [7])).
Proof.
  rewrite (client_response_roundtrip (fun _ => 2%nat) RES_OK [IInt 5; INull] [7]);
    [reflexivity|repeat constructor; lia|repeat constructor|vm_compute; reflexivity].
Defined.

Lemma print_res_unterminated_witness :
  client_handle_read (fun _ => 2%nat)
    (le_bytes 4 (Z.of_nat (length (response_body RES_OK [IStr [118; 49]]))) ++ response_body RES_OK [IStr [118; 49]] ++ [])
  = Fault Uninitialised.
Proof.
  apply (print_res_unterminated (fun _ => 2%nat) RES_OK [118; 49] []);
    [done|repeat constructor; lia|repeat constructor; lia|vm_compute; discriminate].
Defined.
