(* ===== verification/Hashmap.v ===== *)
(** * The chained hash table: [src/src/data_structures/hashmap.cpp], [hashmap.h]

    An [HMap] is a pair of power-of-two tables; growing moves the nodes from
    the older table to the newer one a few at a time.  Chains are linked
    through the [next] field of the nodes, as in the source; the nodes
    themselves are reached through an interface, [NodeStore], so that the same
    table serves the database, the hashes, the sets and the sorted sets. *)

From S2P Require Import Prelude Dstr.

(** ** Data *)

Record HTab := mkHTab { ht_tab : option (list ptr); ht_mask : Z; ht_size : Z }.
Record HMap := mkHMap { hm_older : HTab; hm_newer : HTab; hm_migrate_pos : Z }.

#[export] Instance HTab_eq_dec : EqDecision HTab.
Proof. solve_decision. Defined.
#[export] Instance HMap_eq_dec : EqDecision HMap.
Proof. solve_decision. Defined.

(** [HTab{}] and [HMap{}]. *)
Definition htab_empty : HTab := mkHTab None 0 0.
Definition hmap_empty : HMap := mkHMap htab_empty htab_empty 0.

Definition MAX_LOAD_FACTOR : Z := 8.
Definition REHASHING_WORK : Z := 128.

(** What a search looks at of the node passed as the key. *)
Record HKey := mkHKey { k_hcode : Z; k_key : option dstr }.

(** An [HNode**]: an element of the table or the [next] field of a node. *)
Inductive Slot := SlotTab (pos : Z) | SlotNext (prev : loc).

(** What the table asks of the store of nodes.  [nd_release] is the part of
    [ht_unlink] that disposes of the value of the unlinked node, [nd_bound]
    bounds the number of nodes in the store. *)
Class NodeStore (St : Type) := {
  nd_next : St -> loc -> result ptr;
  nd_set_next : loc -> ptr -> St -> result St;
  nd_hcode : St -> loc -> result Z;
  nd_key : St -> loc -> result dstr;
  nd_release : loc -> St -> result St;
  nd_free : loc -> St -> result St;
  nd_bound : St -> nat
}.

(** [!strcmp(a, b)] on two buffers. *)
Fixpoint strcmp_eq (a b : list cell) : result bool :=
  match a, b with
  | Some x :: a, Some y :: b =>
      if x =? y then if x =? 0 then Ok true else strcmp_eq a b else Ok false
  | [], _ | _, [] => Fault OutOfBounds
  | _, _ => Fault Uninitialised
  end.

(** ** Operations *)

Definition h_init (n : Z) : result HTab :=
  _ ← check ((0 <? n) && (Z.land (u64 (n - 1)) n =? 0)) AssertFailed;
  Ok (mkHTab (Some (replicate (Z.to_nat n) None)) (u64 (n - 1)) 0).

Definition hm_rehash (hmap : HMap) : result HMap :=
  let older := hm_newer hmap in
  newer ← h_init (u64 (2 * u64 (ht_mask older + 1)));
  Ok (mkHMap older newer 0).

(** [htab->tab[pos]] *)
Definition tab_get (htab : HTab) (pos : Z) : result ptr :=
  tb ← need (ht_tab htab) NullDeref;
  if 0 <=? pos then need (tb !! Z.to_nat pos) OutOfBounds else Fault OutOfBounds.

Definition tab_set (htab : HTab) (pos : Z) (p : ptr) : result HTab :=
  tb ← need (ht_tab htab) NullDeref;
  if (0 <=? pos) && (pos <? Z.of_nat (length tb))
  then Ok (mkHTab (Some (<[Z.to_nat pos := p]> tb)) (ht_mask htab) (ht_size htab))
  else Fault OutOfBounds.

Section hashmap.
Context {St : Type} `{NS : NodeStore St}.
Implicit Types (st : St) (htab : HTab) (hmap : HMap) (node : loc).

Definition slot_get htab st (slot : Slot) : result ptr :=
  match slot with SlotTab pos => tab_get htab pos | SlotNext l => nd_next st l end.

Definition slot_set htab st (slot : Slot) (p : ptr) : result (HTab * St) :=
  match slot with
  | SlotTab pos => htab ← tab_set htab pos p; Ok (htab, st)
  | SlotNext l => st ← nd_set_next l p st; Ok (htab, st)
  end.

(** The loop of [ht_lookup]. *)
Fixpoint ht_walk (fuel : nat) htab st (key : HKey) (slot : Slot) : result (option Slot) :=
  match fuel with
  | O => Fault OutOfFuel
  | S fuel =>
      p ← slot_get htab st slot;
      match p with
      | None => Ok None
      | Some curr =>
          hcode ← nd_hcode st curr;
          same ← (if hcode =? k_hcode key then
                    k ← need (k_key key) NullDeref;
                    c ← nd_key st curr;
                    strcmp_eq (d_buf k) (d_buf c)
                  else Ok false);
          if (same : bool) then Ok (Some slot) else ht_walk fuel htab st key (SlotNext curr)
      end
  end.

Definition ht_lookup htab st (key : HKey) : result (option Slot) :=
  match ht_tab htab with
  | None => Ok None
  | Some _ => ht_walk (S (nd_bound st)) htab st key (SlotTab (Z.land (k_hcode key) (ht_mask htab)))
  end.

Definition ht_unlink htab st (from : Slot) : result (HTab * St * ptr) :=
  p ← slot_get htab st from;
  match p with
  | None => Ok (htab, st, NULL)
  | Some to_delete =>
      next ← nd_next st to_delete;
      '(htab, st) ← slot_set htab st from next;
      let htab := mkHTab (ht_tab htab) (ht_mask htab) (u64 (ht_size htab - 1)) in
      st ← nd_release to_delete st;
      Ok (htab, st, Some to_delete)
  end.

Definition ht_insert htab st node : result (HTab * St) :=
  hcode ← nd_hcode st node;
  let pos := Z.land hcode (ht_mask htab) in
  next ← tab_get htab pos;
  st ← nd_set_next node next st;
  htab ← tab_set htab pos (Some node);
  Ok (mkHTab (ht_tab htab) (ht_mask htab) (u64 (ht_size htab + 1)), st).

(** The loop of [hm_rehash_help]: an iteration moves one node or advances
    [migrate_pos]. *)
Fixpoint rehash_loop (fuel : nat) (nwork : Z) hmap st : result (HMap * St) :=
  match fuel with
  | O => Fault OutOfFuel
  | S fuel =>
      if (nwork <? REHASHING_WORK) && (0 <? ht_size (hm_older hmap)) then
        let slot := SlotTab (hm_migrate_pos hmap) in
        p ← slot_get (hm_older hmap) st slot;
        match p with
        | None =>
            rehash_loop fuel nwork
              (mkHMap (hm_older hmap) (hm_newer hmap) (u64 (hm_migrate_pos hmap + 1))) st
        | Some _ =>
            '(older, st, node) ← ht_unlink (hm_older hmap) st slot;
            node ← need node NullDeref;
            '(newer, st) ← ht_insert (hm_newer hmap) st node;
            rehash_loop fuel (nwork + 1) (mkHMap older newer (hm_migrate_pos hmap)) st
        end
      else Ok (hmap, st)
  end.

Definition hm_rehash_help hmap st : result (HMap * St) :=
  let buckets := match ht_tab (hm_older hmap) with Some tb => length tb | None => O end in
  '(hmap, st) ← rehash_loop (Z.to_nat REHASHING_WORK + buckets + 2) 0 hmap st;
  match ht_tab (hm_older hmap) with
  | Some _ =>
      if ht_size (hm_older hmap) =? 0
      then Ok (mkHMap htab_empty (hm_newer hmap) (hm_migrate_pos hmap), st)
      else Ok (hmap, st)
  | None => Ok (hmap, st)
  end.

(** The keys along a chain. *)
Fixpoint chain_keys (fuel : nat) st (curr : ptr) : result (list dstr) :=
  match curr with
  | None => Ok []
  | Some l =>
      match fuel with
      | O => Fault OutOfFuel
      | S fuel =>
          k ← nd_key st l;
          next ← nd_next st l;
          ks ← chain_keys fuel st next;
          Ok (k :: ks)
      end
  end.

(** The buckets [i], [i + 1], ... of [h_foreach]. *)
Fixpoint foreach_loop (n : nat) (i : Z) htab st : result (list dstr) :=
  match n with
  | O => Ok []
  | S n =>
      ks ← match ht_tab htab with
           | None => Ok []
           | Some _ => p ← tab_get htab i; chain_keys (nd_bound st) st p
           end;
      rest ← foreach_loop n (i + 1) htab st;
      Ok (ks ++ rest)
  end.

Definition h_foreach htab st : result (list dstr) :=
  foreach_loop (S (Z.to_nat (ht_mask htab))) 0 htab st.

Definition hm_lookup hmap st (key : HKey) : result ptr :=
  slot ← ht_lookup (hm_older hmap) st key;
  match slot with
  | Some slot => slot_get (hm_older hmap) st slot
  | None =>
      slot ← ht_lookup (hm_newer hmap) st key;
      match slot with
      | Some slot => slot_get (hm_newer hmap) st slot
      | None => Ok NULL
      end
  end.

(** [free(del)]; freeing [NULL] does nothing. *)
Definition free_node (del : ptr) (do_free : bool) st : result St :=
  match del with
  | Some l => if do_free then nd_free l st else Ok st
  | None => Ok st
  end.

Definition hm_delete hmap st (key : HKey) (do_free : bool) : result (HMap * St * Z) :=
  slot ← ht_lookup (hm_older hmap) st key;
  match slot with
  | Some slot =>
      '(older, st, del) ← ht_unlink (hm_older hmap) st slot;
      st ← free_node del do_free st;
      Ok (mkHMap older (hm_newer hmap) (hm_migrate_pos hmap), st, 1)
  | None =>
      slot ← ht_lookup (hm_newer hmap) st key;
      match slot with
      | Some slot =>
          '(newer, st, del) ← ht_unlink (hm_newer hmap) st slot;
          st ← free_node del do_free st;
          Ok (mkHMap (hm_older hmap) newer (hm_migrate_pos hmap), st, 1)
      | None => Ok (hmap, st, 0)
      end
  end.

Definition hm_insert hmap st node : result (HMap * St) :=
  newer ← match ht_tab (hm_newer hmap) with
          | None => h_init 4
          | Some _ => Ok (hm_newer hmap)
          end;
  '(newer, st) ← ht_insert newer st node;
  let hmap := mkHMap (hm_older hmap) newer (hm_migrate_pos hmap) in
  hmap ← match ht_tab (hm_older hmap) with
         | None =>
             let treshold := u64 (u64 (ht_mask (hm_newer hmap) + 1) * MAX_LOAD_FACTOR) in
             if treshold <=? ht_size (hm_newer hmap) then hm_rehash hmap else Ok hmap
         | Some _ => Ok hmap
         end;
  hm_rehash_help hmap st.

Definition hm_clear (hmap : HMap) : HMap := hmap_empty.

Definition hm_size (hmap : HMap) : Z := u64 (ht_size (hm_newer hmap) + ht_size (hm_older hmap)).

Definition hm_keys hmap st : result (list dstr) :=
  ks ← h_foreach (hm_newer hmap) st;
  ks' ← h_foreach (hm_older hmap) st;
  Ok (ks ++ ks').
End hashmap.

(** ** The contract between the table and the nodes

    [ident st l]: the hash code and the key of a node, as the table compares
    them. *)
Definition ident {St} `{NodeStore St} (st : St) (l : loc) : option (Z * list Z) :=
  match nd_hcode st l, nd_key st l with
  | Ok h, Ok d => match dstr_bytes d with Ok bs => Some (h, cstr bs) | Fault _ => None end
  | _, _ => None
  end.

(** [keeps_by obs glob D st st']: the nodes of [D] have the same hash code, key
    and observable content, and the rest of the store has not changed. *)
Record keeps_by {St} `{NodeStore St} {O G : Type} (obs : St -> loc -> O) (glob : St -> G)
    (D : list loc) (st st' : St) : Prop := mkKeeps {
  kp_hcode : forall l, l ∈ D -> nd_hcode st' l = nd_hcode st l;
  kp_key : forall l, l ∈ D -> nd_key st' l = nd_key st l;
  kp_obs : forall l, l ∈ D -> obs st' l = obs st l;
  kp_glob : glob st' = glob st
}.

(** What the nodes promise to the table.  [nd_ok st D]: the nodes of [D] are
    live and disposing of the value of one of them leaves the others alone;
    [nd_obs] is the part of a node and [nd_glob] the part of the store that the
    table and the disposal of values leave alone. *)
Class NodeStoreOk (St : Type) `{NodeStore St} := {
  nd_ok : St -> list loc -> Prop;
  nd_data : Type;
  nd_obs : St -> loc -> nd_data;
  nd_rest : Type;
  nd_glob : St -> nd_rest;
  nd_ok_incl : forall st D D', nd_ok st D -> D' ⊆ D -> nd_ok st D';
  nd_ok_view : forall st D l, nd_ok st D -> l ∈ D ->
    exists p h d bs, nd_next st l = Ok p /\ nd_hcode st l = Ok h /\ 0 <= h < 2 ^ 64 /\
      nd_key st l = Ok d /\ dstr_rep d bs;
  nd_ok_next : forall st D l p, nd_ok st D -> l ∈ D ->
    exists st', nd_set_next l p st = Ok st' /\ nd_ok st' D /\ keeps_by nd_obs nd_glob D st st' /\
      nd_next st' l = Ok p /\ forall l', l' ∈ D -> l' <> l -> nd_next st' l' = nd_next st l';
  nd_ok_release : forall st D l, nd_ok st D -> l ∈ D ->
    exists st', nd_release l st = Ok st' /\ nd_ok st' D /\ keeps_by nd_obs nd_glob D st st' /\
      forall l', l' ∈ D -> nd_next st' l' = nd_next st l';
  nd_ok_free : forall st D l D', nd_ok st D -> l ∈ D -> D' ⊆ D -> l ∉ D' ->
    exists st', nd_free l st = Ok st' /\ nd_ok st' D' /\ keeps_by nd_obs nd_glob D' st st' /\
      forall l', l' ∈ D' -> nd_next st' l' = nd_next st l';
  nd_ok_bound : forall st D, nd_ok st D -> NoDup D -> (length D <= nd_bound st)%nat
}.

Definition keeps {St} `{NodeStoreOk St} (D : list loc) (st st' : St) : Prop :=
  keeps_by nd_obs nd_glob D st st'.

(** ** Lists of buckets *)

Section buckets.
Context {A : Type}.
Implicit Types (bs : list (list A)).

Lemma concat_insert bs i b b' :
  bs !! i = Some b -> concat (<[i := b']> bs) ++ b ≡ₚ b' ++ concat bs.
Proof.
  intros Hi. rewrite <- (take_drop_middle bs i b Hi) at 2.
  rewrite insert_take_drop by (by apply lookup_lt_Some in Hi).
  rewrite !concat_app. cbn [concat]. rewrite <- !app_assoc.
  rewrite (Permutation_app_comm (concat (take i bs)) (b' ++ _)).
  rewrite (Permutation_app_comm (concat (take i bs)) (b ++ _)). rewrite <- !app_assoc.
  apply Permutation_app_head. rewrite Permutation_app_comm. rewrite <- !app_assoc.
  apply Permutation_app_head. apply Permutation_app_comm.
Qed.

Lemma concat_push bs i b x :
  bs !! i = Some b -> concat (<[i := x :: b]> bs) ≡ₚ x :: concat bs.
Proof.
  intros Hi. apply (Permutation_app_inv_r b). rewrite (concat_insert bs i b) by done.
  cbn. apply perm_skip. apply Permutation_app_comm.
Qed.

Lemma concat_remove bs i pre x post :
  bs !! i = Some (pre ++ x :: post) -> x :: concat (<[i := pre ++ post]> bs) ≡ₚ concat bs.
Proof.
  intros Hi. apply (Permutation_app_inv_r (pre ++ x :: post)). cbn.
  rewrite (concat_insert bs i (pre ++ x :: post)) by done.
  rewrite Permutation_app_comm. rewrite (Permutation_app_comm pre (x :: post)). cbn.
  rewrite Permutation_app_comm. cbn. rewrite (Permutation_app_comm (concat bs)).
  cbn. apply perm_skip. by rewrite (Permutation_app_comm pre post).
Qed.

Lemma elem_of_bucket bs i b x : bs !! i = Some b -> x ∈ b -> x ∈ concat bs.
Proof. intros Hi Hx. apply list_elem_of_In, in_concat. exists b.
  split; apply list_elem_of_In; [by eapply list_elem_of_lookup_2|done]. Qed.

Lemma elem_of_concat_inv bs x : x ∈ concat bs -> exists i b, bs !! i = Some b /\ x ∈ b.
Proof.
  intros (b & Hb & Hx)%list_elem_of_In%in_concat. apply list_elem_of_In in Hb, Hx.
  apply list_elem_of_lookup in Hb as [i Hi]. by exists i, b.
Qed.

Lemma NoDup_bucket bs i b : NoDup (concat bs) -> bs !! i = Some b -> NoDup b.
Proof.
  intros Hnd Hi. rewrite <- (take_drop_middle bs i b Hi), concat_app in Hnd. cbn in Hnd.
  apply NoDup_app in Hnd as (_ & _ & Hnd). by apply NoDup_app in Hnd as (? & _ & _).
Qed.

Lemma concat_replicate_nil n : concat (replicate n (@nil A)) = [].
Proof. induction n; cbn; auto. Qed.

Lemma bucket_unique bs i j b c x :
  NoDup (concat bs) -> bs !! i = Some b -> bs !! j = Some c -> x ∈ b -> x ∈ c -> i = j.
Proof.
  intros Hnd Hi Hj Hb Hc. destruct (decide (i = j)) as [|Hne]; [done|exfalso].
  apply list_elem_of_split in Hb as (pre & post & ->).
  rewrite <- (concat_remove bs i pre x post Hi) in Hnd. apply NoDup_cons in Hnd as [Hnd _].
  apply Hnd. eapply (elem_of_bucket _ j); [|done]. by rewrite list_lookup_insert_ne.
Qed.
End buckets.

(** The byte strings compared by [strcmp]. *)
Lemma strcmp_cells a b ra rb :
  strcmp_eq ((Some <$> a) ++ Some 0 :: ra) ((Some <$> b) ++ Some 0 :: rb)
  = Ok (bool_decide (cstr a = cstr b)).
Proof.
  revert b. induction a as [|x a IH]; intros [|y b]; cbn.
  - done.
  - by destruct y.
  - destruct (Z.eqb_spec x 0) as [->|Hx]; cbn; [done|done].
  - destruct (Z.eqb_spec x y) as [<-|Hxy].
    + zcase; [by subst|]. rewrite IH. f_equal. apply bool_decide_ext. split; [by intros ->|by intros [=]].
    + f_equal. symmetry. apply bool_decide_eq_false. repeat zcase; congruence.
Qed.

Lemma strcmp_rep d d' bs bs' :
  dstr_rep d bs -> dstr_rep d' bs' ->
  strcmp_eq (d_buf d) (d_buf d') = Ok (bool_decide (cstr bs = cstr bs')).
Proof. intros [_ _ _ _ [r ->]] [_ _ _ _ [r' ->]]. apply strcmp_cells. Qed.

(** ** Representation *)

Section representation.
Context {St : Type} `{NO : NodeStoreOk St}.
Implicit Types (st : St) (htab : HTab) (hmap : HMap) (D ns : list loc) (bs : list (list loc)).

(** The nodes of a chain, in order. *)
Fixpoint chain st (p : ptr) (ls : list loc) : Prop :=
  match ls with
  | [] => p = NULL
  | l :: ls => p = Some l /\ exists q, nd_next st l = Ok q /\ chain st q ls
  end.

(** [tab_rep st htab bs]: the table is allocated with a power-of-two number
    of buckets that hold the chains [bs], each node is in the bucket of its
    hash code, and [size] counts the nodes; or the table is [HTab{}]. *)
Record tab_rep st htab bs : Prop := mkTabRep {
  tr_tab :
    match ht_tab htab with
    | None => bs = [] /\ ht_mask htab = 0
    | Some tb =>
        length tb = length bs /\
        (exists k, 0 <= k <= 60 /\ ht_mask htab = 2 ^ k - 1 /\ Z.of_nat (length tb) = 2 ^ k) /\
        (forall i p b, tb !! i = Some p -> bs !! i = Some b -> chain st p b)
    end;
  tr_size : ht_size htab = Z.of_nat (length (concat bs));
  tr_home : forall i b l, bs !! i = Some b -> l ∈ b ->
    exists h ks, ident st l = Some (h, ks) /\ Z.of_nat i = Z.land h (ht_mask htab)
}.

(** [hm_buckets]: both tables, with the migrated part of the older one empty. *)
Record hm_buckets st hmap (ob nb : list (list loc)) : Prop := mkBuckets {
  hb_older : tab_rep st (hm_older hmap) ob;
  hb_newer : tab_rep st (hm_newer hmap) nb;
  hb_both : ht_tab (hm_newer hmap) = None -> ht_tab (hm_older hmap) = None;
  hb_pos : ht_tab (hm_older hmap) <> None ->
    0 <= hm_migrate_pos hmap <= 2 ^ 60 /\
    forall i b, Z.of_nat i < hm_migrate_pos hmap -> ob !! i = Some b -> b = [];
  hb_nodup : NoDup (concat ob ++ concat nb)
}.

(** The abstract state of a map: the nodes it holds, in any order. *)
Definition hm_rep st hmap ns : Prop :=
  exists ob nb, hm_buckets st hmap ob nb /\ ns ≡ₚ concat ob ++ concat nb.

(** [evolves D T st st']: [st'] keeps the nodes of [D] and has changed the
    [next] fields of nodes of [T] only. *)
Record evolves D (T : list loc) st st' : Prop := mkEvolves {
  ev_ok : nd_ok st' D;
  ev_keeps : keeps D st st';
  ev_next : forall l, l ∈ D -> l ∉ T -> nd_next st' l = nd_next st l
}.

(** ** Lemmas *)

Lemma evolves_refl D T st : nd_ok st D -> evolves D T st st.
Proof. by split. Qed.

Lemma evolves_trans D T st1 st2 st3 :
  evolves D T st1 st2 -> evolves D T st2 st3 -> evolves D T st1 st3.
Proof.
  intros [_ Hk Hn] [Hok Hk' Hn']. split; [done| |].
  - destruct Hk as [K1 K2 K3 K4], Hk' as [K1' K2' K3' K4']. split; [| | |congruence];
      intros l Hl; [rewrite K1', K1|rewrite K2', K2|rewrite K3', K3]; done.
  - intros l Hl HT. by rewrite Hn', Hn.
Qed.

Lemma evolves_weaken D T T' st st' : evolves D T st st' -> T ⊆ T' -> evolves D T' st st'.
Proof. intros [Hok Hk Hn] HT. split; [done|done|]. intros l Hl HnT. apply Hn; set_solver. Qed.

Lemma evolves_mono D D' T st st' : evolves D T st st' -> D' ⊆ D -> evolves D' T st st'.
Proof.
  intros [Hok [K1 K2 K3 K4] Hn] HD. split; [by eapply nd_ok_incl|split; auto|auto].
Qed.

Lemma ident_keeps D st st' l : keeps D st st' -> l ∈ D -> ident st' l = ident st l.
Proof. intros [K1 K2 _ _] Hl. unfold ident. by rewrite K1, K2. Qed.

Lemma ident_spec st l h d kb :
  nd_hcode st l = Ok h -> nd_key st l = Ok d -> dstr_rep d kb -> ident st l = Some (h, cstr kb).
Proof. intros Hh Hk Hr. unfold ident. by rewrite Hh, Hk, (rep_bytes _ _ Hr). Qed.

Lemma chain_ext st st' p ls :
  (forall l, l ∈ ls -> nd_next st' l = nd_next st l) -> chain st p ls -> chain st' p ls.
Proof.
  revert p. induction ls as [|l ls IH]; intros p Hn; cbn; [done|].
  intros (-> & q & Hq & Hc). split; [done|]. exists q. split.
  - rewrite Hn; [done|apply list_elem_of_here].
  - apply IH; [|done]. intros. by apply Hn, list_elem_of_further.
Qed.

Lemma chain_snoc_inv st p pre l post :
  chain st p (pre ++ l :: post) -> exists q, nd_next st l = Ok q /\ chain st q post.
Proof.
  revert p. induction pre as [|x pre IH]; cbn.
  - intros p (_ & q & ? & ?). by exists q.
  - intros p (_ & q & _ & Hc). by eapply IH.
Qed.

(** The [next] field of the node before [l] is set to what follows [l]. *)
Lemma chain_unlink st st' p pre x l post q :
  chain st p (pre ++ x :: l :: post) -> NoDup (pre ++ x :: l :: post) ->
  nd_next st l = Ok q -> nd_next st' x = Ok q ->
  (forall y, y ∈ pre ++ l :: post -> nd_next st' y = nd_next st y) ->
  chain st' p (pre ++ x :: post).
Proof.
  revert p. induction pre as [|y pre IH]; intros p; cbn.
  - intros (-> & r & _ & Hc) _ Hq Hx Hn. split; [done|]. exists q. split; [done|].
    destruct Hc as (_ & q' & Hq' & Hc). assert (q' = q) as -> by congruence. eapply chain_ext; [|exact Hc].
    intros z Hz. apply Hn. by apply list_elem_of_further.
  - intros (-> & r & Hr & Hc) Hnd Hq Hx Hn. split; [done|]. exists r.
    apply NoDup_cons in Hnd as [_ Hnd]. split; [rewrite Hn; [done|apply list_elem_of_here]|].
    eapply IH; try done. intros z Hz. apply Hn. by apply list_elem_of_further.
Qed.

Lemma tab_frame st st' htab bs :
  (forall l, l ∈ concat bs -> ident st' l = ident st l /\ nd_next st' l = nd_next st l) ->
  tab_rep st htab bs -> tab_rep st' htab bs.
Proof.
  intros Hs' [Ht Hs Hh]. split; [|done|].
  - destruct (ht_tab htab) as [tb|]; [|done]. destruct Ht as (? & ? & Hc).
    split_and!; [done|done|]. intros i p b Hp Hb. eapply chain_ext; [|by eapply Hc].
    intros. apply Hs'. by eapply elem_of_bucket.
  - intros i b l Hb Hl. destruct (Hh i b l Hb Hl) as (h & ks & Hid & ?).
    exists h, ks. split; [|done]. rewrite <- Hid. apply Hs'. by eapply elem_of_bucket.
Qed.

(** A map does not notice changes that spare its nodes. *)
Lemma hm_rep_frame st st' hmap ns :
  (forall l, l ∈ ns -> ident st' l = ident st l /\ nd_next st' l = nd_next st l) ->
  hm_rep st hmap ns -> hm_rep st' hmap ns.
Proof.
  intros Hs (ob & nb & [Ho Hn Hb Hm Hnd] & Hp). exists ob, nb. split; [|done]. split; try done.
  - eapply tab_frame; [|done]. intros l Hl. apply Hs. rewrite Hp. set_solver.
  - eapply tab_frame; [|done]. intros l Hl. apply Hs. rewrite Hp. set_solver.
Qed.

Lemma tab_evolves D T st st' htab bs :
  evolves D T st st' -> concat bs ⊆ D -> (forall l, l ∈ concat bs -> l ∉ T) ->
  tab_rep st htab bs -> tab_rep st' htab bs.
Proof.
  intros [Hok Hk Hn] Hsub HT. eapply tab_frame. intros l Hl. split.
  - eapply ident_keeps; [exact Hk|by apply Hsub].
  - apply Hn; [by apply Hsub|by apply HT].
Qed.

(** The slot a search that passed over [pre] stands at. *)
Definition slot_after (slot : Slot) (pre : list loc) : Slot :=
  match last pre with None => slot | Some x => SlotNext x end.

Lemma slot_after_cons slot x pre : slot_after (SlotNext x) pre = slot_after slot (x :: pre).
Proof. unfold slot_after. rewrite last_cons. by destruct (last pre). Qed.

Lemma slot_after_get htab st slot p pre l post :
  slot_get htab st slot = Ok p -> chain st p (pre ++ l :: post) ->
  slot_get htab st (slot_after slot pre) = Ok (Some l).
Proof.
  revert slot p. induction pre as [|x pre IH]; intros slot p Hs; cbn [app chain].
  - intros (-> & _). done.
  - intros (-> & q & Hq & Hc). rewrite <- slot_after_cons. by eapply IH.
Qed.

Lemma walk_ok fuel htab st D key d kb slot p ls :
  nd_ok st D -> k_key key = Some d -> dstr_rep d kb ->
  slot_get htab st slot = Ok p -> chain st p ls -> ls ⊆ D -> (length ls < fuel)%nat ->
  (exists pre l post, ls = pre ++ l :: post /\ ident st l = Some (k_hcode key, cstr kb) /\
     ht_walk fuel htab st key slot = Ok (Some (slot_after slot pre))) \/
  (forall l, l ∈ ls -> ident st l <> Some (k_hcode key, cstr kb)) /\
    ht_walk fuel htab st key slot = Ok None.
Proof.
  intros Hok Hkey Hrep. revert fuel slot p. induction ls as [|l ls IH];
    intros fuel slot p Hs Hc Hsub Hf; (destruct fuel as [|fuel]; [lia|]); cbn [ht_walk];
    rewrite Hs; cbn [mbind result_bind].
  - cbn in Hc. subst p. right. split; [|done]. by intros ? ?%elem_of_nil.
  - destruct Hc as (-> & q & Hq & Hc). destruct (nd_ok_view st D l) as (p & h & dl & bl & Hp & Hh & Hr & Hk & Hdl);
      [done|set_solver|]. pose proof (ident_spec _ _ _ _ _ Hh Hk Hdl) as Hid.
    rewrite Hh. cbn [mbind result_bind].
    assert (Hgo : ident st l <> Some (k_hcode key, cstr kb) ->
      (exists pre l' post, l :: ls = pre ++ l' :: post /\ ident st l' = Some (k_hcode key, cstr kb) /\
         ht_walk fuel htab st key (SlotNext l) = Ok (Some (slot_after slot pre))) \/
      (forall l', l' ∈ l :: ls -> ident st l' <> Some (k_hcode key, cstr kb)) /\
        ht_walk fuel htab st key (SlotNext l) = Ok None).
    { intros Hno. destruct (IH fuel (SlotNext l) q) as [(pre & l' & post & -> & Hid' & E)|[Hall E]];
        [done|done|set_solver|cbn in Hf; lia| |].
      - left. exists (l :: pre), l', post. split; [done|]. split; [done|].
        by rewrite <- slot_after_cons.
      - right. split; [|done]. intros l' [->|?]%elem_of_cons; [done|by apply Hall]. }
    destruct (Z.eqb_spec h (k_hcode key)) as [->|Hne].
    + rewrite Hkey. cbn [need mbind result_bind]. rewrite Hk. cbn [mbind result_bind].
      rewrite (strcmp_rep _ _ _ _ Hrep Hdl). cbn [mbind result_bind]. case_bool_decide as E.
      * left. exists [], l, ls. split; [done|]. by rewrite E.
      * apply Hgo. rewrite Hid. congruence.
    + cbn [mbind result_bind]. apply Hgo. rewrite Hid. congruence.
Qed.

Lemma land_mask h k : 0 <= k -> Z.land h (2 ^ k - 1) = h mod 2 ^ k.
Proof. intros. rewrite <- Z.land_ones by done. by rewrite Z.ones_equiv. Qed.

(** The bucket of a hash code exists. *)
Lemma tab_bucket st htab bs tb h :
  tab_rep st htab bs -> ht_tab htab = Some tb ->
  exists i p b, Z.of_nat i = Z.land h (ht_mask htab) /\ tb !! i = Some p /\ bs !! i = Some b /\
    chain st p b /\ tab_get htab (Z.land h (ht_mask htab)) = Ok p.
Proof.
  intros [Ht _ _] E. rewrite E in Ht. destruct Ht as (Hlen & (k & Hk & Hm & Hl) & Hc).
  rewrite Hm, land_mask by lia.
  pose proof (Z.mod_pos_bound h (2 ^ k) ltac:(apply Z.pow_pos_nonneg; lia)) as Hb.
  set (i := Z.to_nat (h mod 2 ^ k)).
  destruct (lookup_lt_is_Some_2 tb i) as [p Hp]; [lia|].
  destruct (lookup_lt_is_Some_2 bs i) as [b Hbb]; [lia|].
  exists i, p, b. split_and!; [lia|done|done|by eapply Hc|].
  unfold tab_get. rewrite E. cbn [need mbind result_bind]. zbool.
  fold i. by rewrite Hp.
Qed.

(** [ht_lookup]: the slot of a node with the key, or none when there is none. *)
Lemma ht_lookup_ok st D htab bs key d kb :
  tab_rep st htab bs -> nd_ok st D -> concat bs ⊆ D -> NoDup (concat bs) ->
  k_key key = Some d -> dstr_rep d kb ->
  (exists i pre l post, bs !! i = Some (pre ++ l :: post) /\
     ident st l = Some (k_hcode key, cstr kb) /\
     ht_lookup htab st key = Ok (Some (slot_after (SlotTab (Z.of_nat i)) pre)) /\
     slot_get htab st (slot_after (SlotTab (Z.of_nat i)) pre) = Ok (Some l)) \/
  (forall l, l ∈ concat bs -> ident st l <> Some (k_hcode key, cstr kb)) /\
    ht_lookup htab st key = Ok None.
Proof.
  intros Ht Hok Hsub Hnd Hkey Hrep. unfold ht_lookup.
  destruct (ht_tab htab) as [tb|] eqn:E.
  2: { right. split; [|done]. destruct Ht as [Ht _ _]. rewrite E in Ht.
       destruct Ht as [-> _]. by intros l ?%elem_of_nil. }
  destruct (tab_bucket st htab bs tb (k_hcode key) Ht E) as (i & p & b & Hi & Hp & Hb & Hc & Hg).
  assert (Hsb : b ⊆ D) by (intros x Hx; apply Hsub; by eapply elem_of_bucket).
  destruct (walk_ok (S (nd_bound st)) htab st D key d kb
    (SlotTab (Z.land (k_hcode key) (ht_mask htab))) p b)
    as [(pre & l & post & -> & Hid & Hw)|[Hall Hw]]; try done.
  - enough (length b <= nd_bound st)%nat by lia. apply nd_ok_bound; [by eapply nd_ok_incl|].
    by eapply NoDup_bucket.
  - left. exists i, pre, l, post. rewrite Hi. split_and!; [done..|].
    by eapply slot_after_get.
  - right. split; [|done]. intros l Hl Hid. apply elem_of_concat_inv in Hl as (j & c & Hj & Hl).
    destruct (tr_home _ _ _ Ht j c l Hj Hl) as (h & ks & Hid' & Hjh).
    rewrite Hid in Hid'. injection Hid' as <- <-.
    assert (j = i) as -> by lia. rewrite Hb in Hj. injection Hj as ->. by apply (Hall l Hl).
Qed.

Lemma tab_set_ok htab tb i p :
  ht_tab htab = Some tb -> (i < length tb)%nat ->
  tab_set htab (Z.of_nat i) p = Ok (mkHTab (Some (<[i := p]> tb)) (ht_mask htab) (ht_size htab)).
Proof.
  intros E Hi. unfold tab_set. rewrite E. cbn [need mbind result_bind]. zbool. cbn [andb].
  by rewrite Nat2Z.id.
Qed.

(** Replacing the chain of a bucket while the other chains stay. *)
Lemma tab_rep_update st st' D htab tb bs i b p size :
  tab_rep st htab bs -> ht_tab htab = Some tb -> (i < length tb)%nat ->
  keeps D st st' -> concat bs ⊆ D ->
  (forall j c l, j <> i -> bs !! j = Some c -> l ∈ c -> nd_next st' l = nd_next st l) ->
  chain st' p b -> size = Z.of_nat (length (concat (<[i := b]> bs))) ->
  (forall l, l ∈ b -> exists h ks, ident st' l = Some (h, ks) /\ Z.of_nat i = Z.land h (ht_mask htab)) ->
  tab_rep st' (mkHTab (Some (<[i := p]> tb)) (ht_mask htab) size) (<[i := b]> bs).
Proof.
  intros [Ht Hs Hh] E Hi Hk Hsub Hn Hc Hsz Hhome. rewrite E in Ht. destruct Ht as (Hlen & Hpow & Hcs).
  split; cbn [ht_tab ht_mask ht_size]; [|done|].
  - rewrite !length_insert. split_and!; [done..|]. intros j q c Hq Hcc.
    destruct (decide (i = j)) as [<-|Hne].
    + rewrite list_lookup_insert_eq in Hq by lia.
      rewrite list_lookup_insert_eq in Hcc by lia. by simplify_eq.
    + rewrite list_lookup_insert_ne in Hq by done.
      rewrite list_lookup_insert_ne in Hcc by done.
      eapply chain_ext; [|by eapply Hcs]. intros l Hl. by eapply Hn.
  - intros j c l Hj Hl. destruct (decide (i = j)) as [<-|Hne].
    + rewrite list_lookup_insert_eq in Hj by lia. simplify_eq. by apply Hhome.
    + rewrite list_lookup_insert_ne in Hj by done.
      destruct (Hh j c l Hj Hl) as (h & ks & ? & ?). exists h, ks.
      rewrite (ident_keeps D st); [done|done|]. apply Hsub. by eapply elem_of_bucket.
Qed.

Lemma ht_insert_ok st D htab bs node :
  tab_rep st htab bs -> ht_tab htab <> None -> nd_ok st D -> concat bs ⊆ D -> node ∈ D ->
  node ∉ concat bs -> Z.of_nat (length (concat bs)) + 1 < 2 ^ 64 ->
  exists htab' st' i b, ht_insert htab st node = Ok (htab', st') /\ bs !! i = Some b /\
    tab_rep st' htab' (<[i := node :: b]> bs) /\ evolves D [node] st st' /\
    ht_mask htab' = ht_mask htab /\ ht_tab htab' <> None.
Proof.
  intros Ht Htab Hok Hsub Hnode Hnew Hsz. destruct (ht_tab htab) as [tb|] eqn:E; [|done].
  destruct (nd_ok_view st D node) as (p0 & h & dn & kb & _ & Hh & Hr & Hk & Hdl); [done..|].
  pose proof (ident_spec _ _ _ _ _ Hh Hk Hdl) as Hid.
  destruct (tab_bucket st htab bs tb h Ht E) as (i & p & b & Hi & Hp & Hb & Hc & Hg).
  destruct (nd_ok_next st D node p) as (st' & Hset & Hok' & Hkeep & Hnx & Hoth); [done..|].
  assert (Hev : evolves D [node] st st').
  { split; [done|done|]. intros l Hl Hne. apply Hoth; [done|]. set_solver. }
  unfold ht_insert. rewrite Hh. cbn [mbind result_bind]. rewrite Hg. cbn [mbind result_bind].
  rewrite Hset. cbn [mbind result_bind]. rewrite <- Hi.
  pose proof (lookup_lt_Some _ _ _ Hp) as Hlt. rewrite (tab_set_ok _ tb) by done.
  cbn [mbind result_bind ht_tab ht_mask ht_size].
  eexists _, st', i, b. split; [reflexivity|]. split; [done|]. split; [|done].
  pose proof (tr_size _ _ _ Ht) as Hs.
  apply (tab_rep_update st st' D); try done.
  - intros j c l _ Hj Hl. apply Hoth; [apply Hsub; by eapply elem_of_bucket|].
    intros ->. apply Hnew. by eapply elem_of_bucket.
  - cbn. split; [done|]. exists p. split; [done|]. eapply chain_ext; [|done].
    intros l Hl. apply Hoth; [apply Hsub; by eapply elem_of_bucket|].
    intros ->. apply Hnew. by eapply elem_of_bucket.
  - rewrite (Permutation_length (concat_push bs i b node Hb)). cbn [length].
    rewrite Hs. nowrap. lia.
  - intros l [->|Hl]%elem_of_cons.
    + exists h, (cstr kb). by rewrite (ident_keeps D st).
    + destruct (tr_home _ _ _ Ht i b l Hb Hl) as (h' & ks & ? & ?). exists h', ks.
      rewrite (ident_keeps D st); [done|done|]. apply Hsub. by eapply elem_of_bucket.
Qed.

(** The assignment [*from = to_delete->next]. *)
Lemma slot_set_ok st D htab tb bs i pre l post :
  tab_rep st htab bs -> ht_tab htab = Some tb -> nd_ok st D -> concat bs ⊆ D ->
  NoDup (concat bs) -> bs !! i = Some (pre ++ l :: post) ->
  exists q st' tb', nd_next st l = Ok q /\
    slot_set htab st (slot_after (SlotTab (Z.of_nat i)) pre) q
      = Ok (mkHTab (Some tb') (ht_mask htab) (ht_size htab), st') /\
    evolves D pre st st' /\
    tab_rep st' (mkHTab (Some tb') (ht_mask htab) (Z.of_nat (length (concat bs)) - 1))
      (<[i := pre ++ post]> bs).
Proof.
  intros Ht E Hok Hsub Hnd Hb.
  assert (Hsb : pre ++ l :: post ⊆ D) by (intros x Hx; apply Hsub; by eapply elem_of_bucket).
  pose proof (NoDup_bucket _ _ _ Hnd Hb) as Hndb.
  pose proof Ht as [Htb _ _]. rewrite E in Htb. destruct Htb as (Hlen & _ & Hcs).
  pose proof (lookup_lt_Some _ _ _ Hb) as Hlt. rewrite <- Hlen in Hlt.
  destruct (lookup_lt_is_Some_2 tb i Hlt) as [p Hp]. pose proof (Hcs _ _ _ Hp Hb) as Hc.
  destruct (chain_snoc_inv _ _ _ _ _ Hc) as (q & Hq & Hcq). exists q.
  pose proof (Permutation_length (concat_remove bs i pre l post Hb)) as Hlc. cbn [length] in Hlc.
  assert (Hhome : forall st', keeps D st st' -> forall x, x ∈ pre ++ post ->
    exists h ks, ident st' x = Some (h, ks) /\ Z.of_nat i = Z.land h (ht_mask htab)).
  { intros st' Hk x Hx. destruct (tr_home _ _ _ Ht i _ x Hb) as (h & ks & ? & ?); [set_solver|].
    exists h, ks. rewrite (ident_keeps D st); [done|done|]. apply Hsb. set_solver. }
  destruct pre as [|x pre _] using rev_ind.
  - cbn [app slot_after last slot_set] in *. rewrite (tab_set_ok _ tb) by done.
    exists st, (<[i := q]> tb). split; [done|]. split; [done|]. split; [by apply evolves_refl|].
    apply (tab_rep_update st st D); [done..|lia|by apply Hhome].
  - unfold slot_after. rewrite last_snoc. cbn [slot_set].
    rewrite <- !app_assoc in *. cbn [app] in *.
    destruct (nd_ok_next st D x q) as (st' & Hset & Hok' & Hkeep & Hnx & Hoth);
      [done|set_solver|]. exists st', tb. split; [done|]. rewrite Hset.
    split; [cbn [mbind result_bind]; by rewrite <- E; destruct htab|].
    assert (Hev : evolves D [x] st st').
    { split; [done|done|]. intros y Hy Hne. apply Hoth; [done|set_solver]. }
    split; [eapply evolves_weaken; [done|set_solver]|].
    assert (Hx : forall y, y ∈ pre ++ l :: post -> y <> x).
    { intros y Hy ->. rewrite <- Permutation_middle in Hndb.
      apply NoDup_cons in Hndb as [Hndb _]. by apply Hndb. }
    assert (Hcp : chain st' p (pre ++ x :: post)).
    { eapply chain_unlink; try done. intros y Hy. apply Hoth; [apply Hsb; set_solver|by apply Hx]. }
    rewrite <- (list_insert_id tb i p Hp). apply (tab_rep_update st st' D); [done..| |done|lia|].
    + intros j c y Hne Hj Hy. apply Hoth; [apply Hsub; by eapply elem_of_bucket|]. intros ->.
      apply Hne. eapply (bucket_unique bs j i _ _ x); [done|done|exact Hb|done|set_solver].
    + by apply Hhome.
Qed.

Lemma ht_unlink_ok st D htab bs i pre l post :
  tab_rep st htab bs -> nd_ok st D -> concat bs ⊆ D -> NoDup (concat bs) ->
  bs !! i = Some (pre ++ l :: post) -> Z.of_nat (length (concat bs)) < 2 ^ 60 ->
  exists htab' st', ht_unlink htab st (slot_after (SlotTab (Z.of_nat i)) pre) = Ok (htab', st', Some l) /\
    tab_rep st' htab' (<[i := pre ++ post]> bs) /\ evolves D pre st st' /\
    ht_mask htab' = ht_mask htab /\ ht_tab htab' <> None.
Proof.
  intros Ht Hok Hsub Hnd Hb Hsz. destruct (ht_tab htab) as [tb|] eqn:E.
  2: { destruct Ht as [Ht _ _]. rewrite E in Ht. by destruct Ht as [-> _]. }
  destruct (slot_set_ok st D htab tb bs i pre l post) as (q & st1 & tb' & Hq & Hset & Hev & Ht1); [done..|].
  assert (Hl : l ∈ concat bs) by (eapply elem_of_bucket; [done|set_solver]).
  destruct (nd_ok_release st1 D l) as (st' & Hrel & Hok' & Hk' & Hn'); [apply Hev|by apply Hsub|].
  assert (Hget : slot_get htab st (slot_after (SlotTab (Z.of_nat i)) pre) = Ok (Some l)).
  { pose proof Ht as [Htb _ _]. rewrite E in Htb. destruct Htb as (Hlen & _ & Hcs).
    pose proof (lookup_lt_Some _ _ _ Hb) as Hlt. rewrite <- Hlen in Hlt.
    destruct (lookup_lt_is_Some_2 tb i Hlt) as [p Hp].
    eapply slot_after_get; [|by eapply Hcs]. cbn. unfold tab_get. rewrite E. cbn.
    zbool. by rewrite Nat2Z.id, Hp. }
  pose proof (Permutation_length (concat_remove bs i pre l post Hb)) as Hlc. cbn [length] in Hlc.
  pose proof (tr_size _ _ _ Ht) as Hs.
  unfold ht_unlink. rewrite Hget. cbn [mbind result_bind]. rewrite Hq. cbn [mbind result_bind].
  rewrite Hset. cbn [mbind result_bind ht_tab ht_mask ht_size]. rewrite Hrel. cbn [mbind result_bind].
  eexists _, st'. split; [reflexivity|]. rewrite Hs. nowrap.
  assert (Hevr : evolves D pre st1 st') by (split; [done|done|auto]).
  split; [|split; [by eapply evolves_trans|done]].
  eapply (tab_evolves D [] st1).
  - split; [done|done|auto].
  - rewrite <- Hsub. rewrite <- (concat_remove bs i pre l post Hb). set_solver.
  - by intros ? _ ?%elem_of_nil.
  - done.
Qed.

Lemma NoDup_app_l {A} (l k : list A) : NoDup (l ++ k) -> NoDup l.
Proof. by intros (? & _ & _)%NoDup_app. Qed.
Lemma NoDup_app_r {A} (l k : list A) : NoDup (l ++ k) -> NoDup k.
Proof. by intros (_ & _ & ?)%NoDup_app. Qed.

(** One node moves from the bucket at [migrate_pos] to the newer table. *)
Lemma rehash_move st D hmap ob nb i l post :
  hm_buckets st hmap ob nb -> nd_ok st D -> concat ob ++ concat nb ⊆ D ->
  Z.of_nat (length (concat ob ++ concat nb)) < 2 ^ 60 ->
  hm_migrate_pos hmap = Z.of_nat i -> ob !! i = Some (l :: post) ->
  exists older st1 newer st2 ob' nb',
    ht_unlink (hm_older hmap) st (SlotTab (Z.of_nat i)) = Ok (older, st1, Some l) /\
    ht_insert (hm_newer hmap) st1 l = Ok (newer, st2) /\
    hm_buckets st2 (mkHMap older newer (hm_migrate_pos hmap)) ob' nb' /\
    evolves D (concat ob) st st2 /\ length ob' = length ob /\
    l :: concat ob' ≡ₚ concat ob /\ concat nb' ≡ₚ l :: concat nb /\ ht_tab older <> None.
Proof.
  intros [Ho Hn Hboth Hpos Hnd] Hok Hsub Hsz Hmp Hb.
  rewrite length_app in Hsz. pose proof (concat_remove ob i [] l post Hb) as Hperm. cbn [app] in Hperm.
  assert (Hlo : l ∈ concat ob) by (rewrite <- Hperm; set_solver).
  assert (Hln : l ∉ concat nb) by (apply NoDup_app in Hnd as (_ & Hd & _); by apply Hd).
  destruct (ht_unlink_ok st D (hm_older hmap) ob i [] l post) as (older & st1 & Hu & Ho1 & Hev1 & Hm1 & Ht1);
    [done|done|set_solver|by eapply NoDup_app_l|done|lia|].
  cbn [app slot_after last] in Hu, Ho1.
  assert (Hn1 : tab_rep st1 (hm_newer hmap) nb).
  { eapply tab_evolves; [exact Hev1|set_solver| |done]. by intros ? _ ?%elem_of_nil. }
  destruct (ht_insert_ok st1 D (hm_newer hmap) nb l) as (newer & st2 & j & b & Hi & Hj & Hn2 & Hev2 & Hm2 & Ht2);
    [done| |apply Hev1|set_solver|set_solver|done|lia|].
  { intros E. apply Hboth in E. destruct Ho as [Hto _ _]. rewrite E in Hto. by destruct Hto as [-> _]. }
  pose proof (concat_push nb j b l Hj) as Hperm2.
  exists older, st1, newer, st2, (<[i := post]> ob), (<[j := l :: b]> nb).
  assert (Hevs : evolves D (concat ob) st st2).
  { eapply evolves_trans; (eapply evolves_weaken; [done|set_solver]). }
  split_and!; try done; [|by rewrite length_insert].
  assert (Hnd' : NoDup (l :: concat (<[i := post]> ob) ++ concat nb)).
  { change (NoDup ((l :: concat (<[i := post]> ob)) ++ concat nb)). by rewrite Hperm. }
  split; cbn [hm_older hm_newer hm_migrate_pos]; [|done|done| |].
  - eapply tab_evolves; [exact Hev2| | |done].
    + rewrite <- Hsub. rewrite <- Hperm. set_solver.
    + intros x Hx ->%list_elem_of_singleton. apply NoDup_cons in Hnd' as [Hnd' _]. set_solver.
  - intros _. assert (Hold : ht_tab (hm_older hmap) <> None).
    { intros E. destruct Ho as [Hto _ _]. rewrite E in Hto. by destruct Hto as [-> _]. }
    destruct (Hpos Hold) as [? Hemp]. split; [done|]. intros k c Hk Hc.
    rewrite list_lookup_insert_ne in Hc by lia. by eapply Hemp.
  - rewrite Hperm2. by rewrite <- Permutation_middle.
Qed.

(** While nodes are left in the older table, [migrate_pos] is in range. *)
Lemma migrate_in_range st hmap ob nb :
  hm_buckets st hmap ob nb -> 0 < ht_size (hm_older hmap) ->
  exists i b, hm_migrate_pos hmap = Z.of_nat i /\ ob !! i = Some b /\
    Z.of_nat i < 2 ^ 60 /\
    exists p, slot_get (hm_older hmap) st (SlotTab (hm_migrate_pos hmap)) = Ok p /\ chain st p b.
Proof.
  intros [Ho Hn Hboth Hpos Hnd] Hsz. pose proof (tr_size _ _ _ Ho) as Hs.
  pose proof Ho as [Ht _ _]. destruct (ht_tab (hm_older hmap)) as [tb|] eqn:E.
  2: { destruct Ht as [-> _]. cbn in Hs. lia. }
  destruct Ht as (Hlen & (k & Hk & Hm & Hlk) & Hcs). destruct (Hpos ltac:(done)) as [Hmp Hemp].
  assert (2 ^ k <= 2 ^ 60) by (apply Z.pow_le_mono_r; lia).
  assert (Hlt : hm_migrate_pos hmap < Z.of_nat (length ob)).
  { destruct (Z.lt_ge_cases (hm_migrate_pos hmap) (Z.of_nat (length ob))) as [?|Hge]; [done|].
    assert (concat ob = []) as Hnil; [|rewrite Hnil in Hs; cbn in Hs; lia].
    destruct (concat ob) as [|x r] eqn:Ec; [done|].
    destruct (elem_of_concat_inv ob x) as (j & c & Hj & Hx); [rewrite Ec; set_solver|].
    pose proof (lookup_lt_Some _ _ _ Hj). rewrite (Hemp j c) in Hx; [|lia|done].
    by apply elem_of_nil in Hx. }
  set (i := Z.to_nat (hm_migrate_pos hmap)).
  destruct (lookup_lt_is_Some_2 ob i) as [b Hb]; [lia|].
  destruct (lookup_lt_is_Some_2 tb i) as [p Hp]; [lia|].
  exists i, b. split_and!; [lia|done|lia|]. exists p. split; [|by eapply Hcs].
  cbn. unfold tab_get. rewrite E. cbn. zbool. fold i. by rewrite Hp.
Qed.

(** [rehash_loop] never runs out of fuel; it moves as many nodes as it is
    allowed to. *)
Lemma rehash_loop_ok fuel nwork hmap st D ob nb :
  hm_buckets st hmap ob nb -> nd_ok st D -> concat ob ++ concat nb ⊆ D ->
  Z.of_nat (length (concat ob ++ concat nb)) < 2 ^ 60 -> 0 <= nwork <= REHASHING_WORK ->
  (Z.to_nat (REHASHING_WORK - nwork) + (length ob - Z.to_nat (hm_migrate_pos hmap)) < fuel)%nat ->
  exists hmap' st' ob' nb', rehash_loop fuel nwork hmap st = Ok (hmap', st') /\
    hm_buckets st' hmap' ob' nb' /\ evolves D (concat ob) st st' /\
    concat ob' ++ concat nb' ≡ₚ concat ob ++ concat nb /\
    ht_size (hm_older hmap') = Z.max 0 (ht_size (hm_older hmap) - (REHASHING_WORK - nwork)).
Proof.
  revert nwork hmap st ob nb. induction fuel as [|fuel IH];
    intros nwork hmap st ob nb Hbk Hok Hsub Hsz Hnw Hf; [lia|].
  cbn [rehash_loop]. pose proof (tr_size _ _ _ (hb_older _ _ _ _ Hbk)) as Hs.
  destruct (Z.ltb_spec nwork REHASHING_WORK) as [Hlt|Hge]; cbn [andb].
  2: { exists hmap, st, ob, nb. split_and!; [done|done|by apply evolves_refl|done|lia]. }
  destruct (Z.ltb_spec 0 (ht_size (hm_older hmap))) as [Hpos|Hz].
  2: { exists hmap, st, ob, nb. split_and!; [done|done|by apply evolves_refl|done|lia]. }
  destruct (migrate_in_range _ _ _ _ Hbk Hpos) as (i & b & Hi & Hb & Hib & p & Hg & Hc).
  pose proof (lookup_lt_Some _ _ _ Hb) as Hlti.
  rewrite Hg. cbn [mbind result_bind]. destruct b as [|l post].
  - cbn in Hc. subst p. rewrite Hi, u64_small by lia.
    destruct (IH nwork (mkHMap (hm_older hmap) (hm_newer hmap) (Z.of_nat i + 1)) st ob nb)
      as (hmap' & st' & ob' & nb' & E & H1 & H2 & H3 & H4); try done; [|cbn; lia|].
    + destruct Hbk as [H1 H2 H3 H4 H5]. split; cbn; try done. intros Hne. split; [lia|].
      intros j c Hj Hc. destruct (decide (j = i)) as [->|]; [by simplify_eq|].
      apply (proj2 (H4 Hne) j); [lia|done].
    + exists hmap', st', ob', nb'. by split_and!.
  - destruct Hc as (-> & _).
    destruct (rehash_move st D hmap ob nb i l post) as
      (older & st1 & newer & st2 & ob' & nb' & Hu & Hins & Hbk' & Hev & Hlo & Hp1 & Hp2 & _); [done..|].
    rewrite Hi, Hu. cbn [mbind result_bind need]. rewrite Hins. cbn [mbind result_bind].
    assert (Hall : concat ob' ++ concat nb' ≡ₚ concat ob ++ concat nb).
    { rewrite Hp2, <- Permutation_middle. change (l :: concat ob' ++ concat nb) with ((l :: concat ob') ++ concat nb).
      by rewrite Hp1. }
    destruct (IH (nwork + 1) (mkHMap older newer (hm_migrate_pos hmap)) st2 ob' nb')
      as (hmap' & st' & ob'' & nb'' & E & H1 & H2 & H3 & H4);
      [done|apply Hev|by rewrite Hall|by rewrite Hall|lia|cbn; lia|].
    rewrite Hi in E. exists hmap', st', ob'', nb''. split_and!; [done|done| |by rewrite H3|].
    + eapply evolves_trans; [done|]. eapply evolves_weaken; [done|]. rewrite <- Hp1. set_solver.
    + rewrite H4. rewrite (tr_size _ _ _ (hb_older _ _ _ _ Hbk')).
      apply Permutation_length in Hp1. cbn in Hp1. lia.
Qed.

Lemma hm_rehash_help_ok hmap st D ob nb :
  hm_buckets st hmap ob nb -> nd_ok st D -> concat ob ++ concat nb ⊆ D ->
  Z.of_nat (length (concat ob ++ concat nb)) < 2 ^ 60 ->
  exists hmap' st' ob' nb', hm_rehash_help hmap st = Ok (hmap', st') /\
    hm_buckets st' hmap' ob' nb' /\ evolves D (concat ob) st st' /\
    concat ob' ++ concat nb' ≡ₚ concat ob ++ concat nb /\
    ht_size (hm_older hmap') = Z.max 0 (ht_size (hm_older hmap) - REHASHING_WORK) /\
    (ht_size (hm_older hmap') = 0 -> hm_older hmap' = htab_empty).
Proof.
  intros Hbk Hok Hsub Hsz. unfold hm_rehash_help.
  destruct (rehash_loop_ok (Z.to_nat REHASHING_WORK + match ht_tab (hm_older hmap) with
     Some tb => length tb | None => 0%nat end + 2) 0 hmap st D ob nb)
    as (hmap' & st' & ob' & nb' & -> & Hbk' & Hev & Hp & Hsz'); try done.
  { pose proof (tr_tab _ _ _ (hb_older _ _ _ _ Hbk)) as Ht.
    destruct (ht_tab (hm_older hmap)) as [tb|]; [destruct Ht as (-> & _)|destruct Ht as (-> & _)];
      cbn [length]; lia. }
  cbn [mbind result_bind]. rewrite Z.sub_0_r in Hsz'.
  pose proof (tr_tab _ _ _ (hb_older _ _ _ _ Hbk')) as Ht.
  pose proof (tr_size _ _ _ (hb_older _ _ _ _ Hbk')) as Hs.
  destruct (ht_tab (hm_older hmap')) as [tb|] eqn:E.
  - zcase; [|exists hmap', st', ob', nb'; by split_and!].
    assert (concat ob' = []) as Hnil by (apply length_zero_iff_nil; lia).
    exists (mkHMap htab_empty (hm_newer hmap') (hm_migrate_pos hmap')), st', [], nb'.
    split_and!; [done| |done|rewrite <- Hp, Hnil; done|cbn; lia|done].
    destruct Hbk' as [_ H2 _ _ H5]. split; cbn; try done. by rewrite Hnil in H5.
  - exists hmap', st', ob', nb'. split_and!; try done. intros Hz.
    destruct (hm_older hmap') as [t m s] eqn:Eo. cbn in *. destruct Ht as [_ ->].
    by rewrite E, Hz.
Qed.

Lemma h_init_ok st k :
  0 <= k <= 60 ->
  exists htab, h_init (2 ^ k) = Ok htab /\ tab_rep st htab (replicate (Z.to_nat (2 ^ k)) []) /\
    ht_tab htab <> None /\ ht_mask htab = 2 ^ k - 1.
Proof.
  intros Hk. unfold h_init.
  assert (0 < 2 ^ k <= 2 ^ 60) by (split; [apply Z.pow_pos_nonneg; lia|apply Z.pow_le_mono_r; lia]).
  nowrap. rewrite Z.land_comm, land_mask, Z_mod_same_full by lia. zbool. cbn [andb Z.eqb check mbind result_bind].
  eexists. split; [reflexivity|]. split; [|done]. split; cbn [ht_tab ht_mask ht_size].
  - rewrite !length_replicate. split_and!; [done|exists k; lia|].
    intros i p b [-> _]%lookup_replicate [-> _]%lookup_replicate. done.
  - by rewrite concat_replicate_nil.
  - intros i b l [-> _]%lookup_replicate ?%elem_of_nil. done.
Qed.

(** The newer table of [hm_insert] after its first statement. *)
Lemma hm_fresh_ok st hmap ob nb :
  hm_buckets st hmap ob nb ->
  exists newer nb', match ht_tab (hm_newer hmap) with
      None => h_init 4 | Some _ => Ok (hm_newer hmap) end = Ok newer /\
    ht_tab newer <> None /\ concat nb' = concat nb /\
    hm_buckets st (mkHMap (hm_older hmap) newer (hm_migrate_pos hmap)) ob nb'.
Proof.
  intros [Ho Hn Hb Hp Hnd]. destruct (ht_tab (hm_newer hmap)) as [tb|] eqn:E.
  - exists (hm_newer hmap), nb. split_and!; [done|congruence|done|]. split; cbn; try done. congruence.
  - destruct (h_init_ok st 2) as (t & Ht & Hr & Hne & _); [lia|]. exists t, (replicate 4 []).
    destruct Hn as [Hn _ _]. rewrite E in Hn. destruct Hn as [-> _].
    split_and!; [done|done|done|]. split; cbn; try done.
Qed.

(** [hm_rehash] when there is no older table. *)
Lemma hm_rehash_ok st hmap nb :
  hm_buckets st hmap [] nb -> ht_tab (hm_older hmap) = None -> ht_tab (hm_newer hmap) <> None ->
  Z.of_nat (length (concat nb)) < 2 ^ 60 ->
  u64 (u64 (ht_mask (hm_newer hmap) + 1) * MAX_LOAD_FACTOR) <= ht_size (hm_newer hmap) ->
  exists hmap' nb', hm_rehash hmap = Ok hmap' /\ hm_buckets st hmap' nb nb' /\ concat nb' = [] /\
    ht_mask (hm_newer hmap') + 1 = 2 * (ht_mask (hm_newer hmap) + 1).
Proof.
  intros [_ Hn _ _ Hnd] Eo En Hsz. pose proof (tr_size _ _ _ Hn) as Hs.
  pose proof (tr_tab _ _ _ Hn) as Ht. destruct (ht_tab (hm_newer hmap)) as [tb|] eqn:E; [|done].
  destruct Ht as (Hlen & (k & Hk & Hm & Hl) & _).
  assert (0 < 2 ^ k <= 2 ^ 60) by (split; [apply Z.pow_pos_nonneg; lia|apply Z.pow_le_mono_r; lia]).
  unfold MAX_LOAD_FACTOR, hm_rehash. cbn zeta. rewrite Hm. replace (2 ^ k - 1 + 1) with (2 ^ k) by lia.
  nowrap. intros Hload. replace (2 * 2 ^ k) with (2 ^ (k + 1)) by (rewrite Z.pow_add_r; lia).
  assert (k < 60) by (apply (Z.pow_lt_mono_r_iff 2 k 60); [lia|lia|rewrite Hs in Hload; lia]).
  destruct (h_init_ok st (k + 1)) as (t & Hi & Hr & Hne & Hmask); [lia|].
  assert (2 ^ (k + 1) <= 2 ^ 60) by (apply Z.pow_le_mono_r; lia).
  rewrite Hi. cbn [mbind result_bind]. eexists _, _. split; [reflexivity|].
  split; [|split; [apply concat_replicate_nil|cbn; rewrite Hmask, Z.pow_add_r; lia]].
  split; cbn; try done.
  - intros _. split; [lia|]. intros; lia.
  - rewrite concat_replicate_nil, app_nil_r. by apply NoDup_app_r in Hnd.
Qed.

(** The load-factor test of [hm_insert]. *)
Lemma hm_grow_ok st hmap ob nb :
  hm_buckets st hmap ob nb -> ht_tab (hm_newer hmap) <> None ->
  Z.of_nat (length (concat ob ++ concat nb)) < 2 ^ 60 ->
  exists hmap' ob' nb',
    match ht_tab (hm_older hmap) with
    | None => if u64 (u64 (ht_mask (hm_newer hmap) + 1) * MAX_LOAD_FACTOR) <=? ht_size (hm_newer hmap)
              then hm_rehash hmap else Ok hmap
    | Some _ => Ok hmap
    end = Ok hmap' /\ hm_buckets st hmap' ob' nb' /\
    concat ob' ++ concat nb' ≡ₚ concat ob ++ concat nb.
Proof.
  intros Hbk Hne Hlen. destruct (ht_tab (hm_older hmap)) as [tb|] eqn:E; [by eexists _, ob, nb|].
  assert (ob = []) as -> by (pose proof (tr_tab _ _ _ (hb_older _ _ _ _ Hbk)) as Ho; rewrite E in Ho; apply Ho).
  zcase; [|by eexists _, [], nb].
  destruct (hm_rehash_ok st _ _ Hbk) as (h2 & nb3 & -> & Hb2 & Hc & _); try done.
  exists h2, nb, nb3. by rewrite Hc, app_nil_r.
Qed.

Lemma hm_insert_ok st D hmap ns node :
  hm_rep st hmap ns -> nd_ok st D -> node :: ns ⊆ D -> node ∉ ns ->
  Z.of_nat (length ns) + 1 < 2 ^ 60 ->
  exists hmap' st', hm_insert hmap st node = Ok (hmap', st') /\ hm_rep st' hmap' (node :: ns) /\
    evolves D (node :: ns) st st'.
Proof.
  intros (ob & nb & Hbk & Hp) Hok Hsub Hnew Hsz. unfold hm_insert.
  destruct (hm_fresh_ok _ _ _ _ Hbk) as (newer & nb1 & -> & Hne & Hc & Hbk1).
  cbn [mbind result_bind]. rewrite <- Hc in Hp. clear Hbk nb Hc.
  destruct Hbk1 as [Ho Hn Hb Hmp Hnd]. cbn [hm_older hm_newer hm_migrate_pos] in *.
  assert (Hlen : (length ns = length (concat ob) + length (concat nb1))%nat)
    by (rewrite Hp; apply length_app).
  assert (Hnode : node ∈ D) by (apply Hsub, list_elem_of_here).
  assert (Hno : (concat ob ⊆ D) /\ (concat nb1 ⊆ D) /\ (node ∉ concat ob) /\ (node ∉ concat nb1)).
  { rewrite Hp in Hnew. clear -Hsub Hnew Hp.
    assert (concat ob ++ concat nb1 ⊆ D) by (rewrite <- Hp; set_solver). set_solver. }
  destruct Hno as (Hso & Hsn & Hno & Hnn).
  destruct (ht_insert_ok st D newer nb1 node) as (t & st1 & i & b & -> & Hi & Ht1 & Hev1 & Hm1 & Hne1);
    [done..|lia|].
  cbn [mbind result_bind]. pose proof (concat_push nb1 i b node Hi) as Hpush.
  set (nb2 := <[i := node :: b]> nb1) in *.
  assert (Hall : concat ob ++ concat nb2 ≡ₚ node :: ns).
  { rewrite Hpush, <- Permutation_middle. by rewrite Hp. }
  assert (Hbk1 : hm_buckets st1 (mkHMap (hm_older hmap) t (hm_migrate_pos hmap)) ob nb2).
  { split; cbn; try done.
    - eapply tab_evolves; [exact Hev1|done| |done].
      by intros x Hx ->%list_elem_of_singleton.
    - rewrite Hall. apply NoDup_cons. split; [done|]. by rewrite Hp. }
  assert (Hlen2 : Z.of_nat (length (concat ob ++ concat nb2)) < 2 ^ 60)
    by (rewrite Hall; cbn [length]; lia).
  destruct (hm_grow_ok st1 _ ob nb2 Hbk1 Hne1 Hlen2) as (hmap2 & ob3 & nb3 & Hgrow & Hbk3 & Hp3).
  cbn [hm_older hm_newer] in Hgrow |- *. rewrite Hgrow. clear Hgrow. cbn [mbind result_bind].
  destruct (hm_rehash_help_ok hmap2 st1 D ob3 nb3) as (hmap' & st' & ob' & nb' & E & Hbk' & Hev & Hp' & _);
    [done|apply Hev1|by rewrite Hp3, Hall|by rewrite Hp3|].
  exists hmap', st'. split; [done|]. split.
  - exists ob', nb'. split; [done|]. by rewrite Hp', Hp3, Hall.
  - eapply evolves_trans; (eapply evolves_weaken; [done|]).
    + clear. set_solver.
    + rewrite <- Hall, <- Hp3. clear. set_solver.
Qed.

(** ** Searching and deleting *)

Section search.
Context (key : HKey) (d : dstr) (kb : list Z).
Context (Hkey : k_key key = Some d) (Hrep : dstr_rep d kb).

Lemma hm_lookup_ok st D hmap ns :
  hm_rep st hmap ns -> nd_ok st D -> ns ⊆ D ->
  (exists l, hm_lookup hmap st key = Ok (Some l) /\ l ∈ ns /\ ident st l = Some (k_hcode key, cstr kb)) \/
  (hm_lookup hmap st key = Ok NULL /\ forall l, l ∈ ns -> ident st l <> Some (k_hcode key, cstr kb)).
Proof.
  intros (ob & nb & [Ho Hn _ _ Hnd] & Hp) Hok Hsub. rewrite Hp in Hsub.
  assert (Hs : (concat ob ⊆ D) /\ (concat nb ⊆ D)) by (clear -Hsub; set_solver). destruct Hs as [Hso Hsn].
  unfold hm_lookup.
  destruct (ht_lookup_ok st D _ ob key d kb Ho Hok Hso (NoDup_app_l _ _ Hnd) Hkey Hrep)
    as [(i & pre & l & post & Hi & Hid & -> & Hg)|[Hno ->]]; cbn [mbind result_bind].
  { left. exists l. split_and!; [done| |done]. rewrite Hp. apply elem_of_app. left.
    eapply elem_of_bucket; [done|]. clear. set_solver. }
  destruct (ht_lookup_ok st D _ nb key d kb Hn Hok Hsn (NoDup_app_r _ _ Hnd) Hkey Hrep)
    as [(i & pre & l & post & Hi & Hid & -> & Hg)|[Hno' ->]]; cbn [mbind result_bind].
  { left. exists l. split_and!; [done| |done]. rewrite Hp. apply elem_of_app. right.
    eapply elem_of_bucket; [done|]. clear. set_solver. }
  right. split; [done|]. intros l. rewrite Hp. intros [?|?]%elem_of_app; auto.
Qed.

(** The rest of [hm_delete] after the slot was found in one of the tables. *)
Lemma unlink_free_ok st D htab bs i pre l post do_free :
  tab_rep st htab bs -> nd_ok st D -> concat bs ⊆ D -> NoDup (concat bs) ->
  bs !! i = Some (pre ++ l :: post) -> Z.of_nat (length (concat bs)) < 2 ^ 60 ->
  exists htab' st1 st', ht_unlink htab st (slot_after (SlotTab (Z.of_nat i)) pre) = Ok (htab', st1, Some l) /\
    free_node (Some l) do_free st1 = Ok st' /\ ht_tab htab' <> None /\
    tab_rep st' htab' (<[i := pre ++ post]> bs) /\
    forall D', D' ⊆ D -> l ∉ D' -> evolves D' pre st st'.
Proof.
  intros Ht Hok Hsub Hnd Hb Hsz.
  destruct (ht_unlink_ok st D htab bs i pre l post) as (htab' & st1 & Hu & Ht1 & Hev & _ & Hne); [done..|].
  pose proof (concat_remove bs i pre l post Hb) as Hperm.
  assert (Hsub' : concat (<[i := pre ++ post]> bs) ⊆ D).
  { rewrite <- Hsub, <- Hperm. clear. set_solver. }
  assert (Hl : l ∉ concat (<[i := pre ++ post]> bs)).
  { rewrite <- Hperm in Hnd. by apply NoDup_cons in Hnd as [? _]. }
  assert (Hmono : forall D', D' ⊆ D -> evolves D' pre st st1).
  { intros D' HD. by eapply evolves_mono. }
  exists htab', st1. cbn [free_node]. destruct do_free.
  2: { exists st1. split_and!; try done. auto. }
  assert (HlD : l ∈ D) by (apply Hsub; rewrite <- Hperm; apply list_elem_of_here).
  assert (Hfree : exists st', nd_free l st1 = Ok st' /\
    forall D', D' ⊆ D -> l ∉ D' -> evolves D' [] st1 st').
  { destruct (nd_ok_free st1 D l [] (ev_ok _ _ _ _ Hev) HlD) as (st' & E & _);
      [by intros ? ?%elem_of_nil|by intros ?%elem_of_nil|]. exists st'. split; [done|].
    intros D' HD Hl'. destruct (nd_ok_free st1 D l D' (ev_ok _ _ _ _ Hev) HlD HD Hl')
      as (st'' & E' & ? & ? & ?). assert (st'' = st') as -> by congruence.
    split; auto. }
  destruct Hfree as (st' & -> & Hfree). exists st'. split_and!; try done.
  - eapply tab_evolves; [by apply Hfree|done|by intros ? _ ?%elem_of_nil|done].
  - intros D' HD Hl'. eapply evolves_trans; [by apply Hmono|].
    eapply evolves_weaken; [by apply Hfree|]. by intros ? ?%elem_of_nil.
Qed.

(** A map after a node left one of its tables. *)
Lemma delete_older st st' hmap ob nb older i pre l post :
  hm_buckets st hmap ob nb -> ob !! i = Some (pre ++ l :: post) -> ht_tab older <> None ->
  tab_rep st' older (<[i := pre ++ post]> ob) ->
  (l ∉ concat nb -> evolves (concat nb) pre st st') ->
  l :: concat (<[i := pre ++ post]> ob) ++ concat nb ≡ₚ concat ob ++ concat nb /\
  hm_buckets st' (mkHMap older (hm_newer hmap) (hm_migrate_pos hmap)) (<[i := pre ++ post]> ob) nb.
Proof.
  intros [Ho Hn Hb Hmp Hnd] Hi Hne Ht' Hev. pose proof (concat_remove ob i pre l post Hi) as Hperm.
  assert (Hall : l :: concat (<[i := pre ++ post]> ob) ++ concat nb ≡ₚ concat ob ++ concat nb)
    by (by rewrite <- Hperm).
  assert (Hdisj : forall x, x ∈ pre ++ l :: post -> x ∉ concat nb).
  { intros x Hx. apply NoDup_app in Hnd as (_ & Hd & _). apply Hd. by eapply elem_of_bucket. }
  assert (Hold : ht_tab (hm_older hmap) <> None).
  { intros E. pose proof (tr_tab _ _ _ Ho) as Ht. rewrite E in Ht. by destruct Ht as [-> _]. }
  split; [done|]. split; cbn; [done| |intros E; by apply Hb in E| |].
  - eapply (tab_evolves (concat nb) pre st); [apply Hev|done| |done].
    + apply Hdisj. clear. set_solver.
    + intros x Hx Hxp. apply (Hdisj x); [|done]. clear -Hxp. set_solver.
  - intros _. destruct (Hmp Hold) as [? Hemp]. split; [done|]. intros j c Hj Hc.
    destruct (decide (j = i)) as [->|]; [|rewrite list_lookup_insert_ne in Hc by done; by eapply Hemp].
    pose proof (Hemp i _ Hj Hi). by destruct pre.
  - rewrite <- Hall in Hnd. by apply NoDup_cons in Hnd as [_ ?].
Qed.

Lemma delete_newer st st' hmap ob nb newer i pre l post :
  hm_buckets st hmap ob nb -> nb !! i = Some (pre ++ l :: post) -> ht_tab newer <> None ->
  tab_rep st' newer (<[i := pre ++ post]> nb) ->
  (l ∉ concat ob -> evolves (concat ob) pre st st') ->
  l :: concat ob ++ concat (<[i := pre ++ post]> nb) ≡ₚ concat ob ++ concat nb /\
  hm_buckets st' (mkHMap (hm_older hmap) newer (hm_migrate_pos hmap)) ob (<[i := pre ++ post]> nb).
Proof.
  intros [Ho Hn Hb Hmp Hnd] Hi Hne Ht' Hev. pose proof (concat_remove nb i pre l post Hi) as Hperm.
  assert (Hall : l :: concat ob ++ concat (<[i := pre ++ post]> nb) ≡ₚ concat ob ++ concat nb)
    by (by rewrite <- Hperm, <- Permutation_middle).
  assert (Hdisj : forall x, x ∈ pre ++ l :: post -> x ∉ concat ob).
  { intros x Hx Hxo. apply NoDup_app in Hnd as (_ & Hd & _). apply (Hd x Hxo). by eapply elem_of_bucket. }
  split; [done|]. split; cbn; [|done|done|done|].
  - eapply (tab_evolves (concat ob) pre st); [apply Hev|done| |done].
    + apply Hdisj. clear. set_solver.
    + intros x Hx Hxp. apply (Hdisj x); [|done]. clear -Hxp. set_solver.
  - rewrite <- Hall in Hnd. by apply NoDup_cons in Hnd as [_ ?].
Qed.

Lemma hm_delete_ok st D hmap ns do_free :
  hm_rep st hmap ns -> nd_ok st D -> ns ⊆ D -> Z.of_nat (length ns) < 2 ^ 60 ->
  (exists hmap' st' l ns', hm_delete hmap st key do_free = Ok (hmap', st', 1) /\ ns ≡ₚ l :: ns' /\
     ident st l = Some (k_hcode key, cstr kb) /\ hm_rep st' hmap' ns' /\
     forall D', D' ⊆ D -> l ∉ D' -> evolves D' ns st st') \/
  (hm_delete hmap st key do_free = Ok (hmap, st, 0) /\
     forall l, l ∈ ns -> ident st l <> Some (k_hcode key, cstr kb)).
Proof.
  intros (ob & nb & Hbk & Hp) Hok Hsub Hsz. pose proof Hbk as [Ho Hn _ _ Hnd]. rewrite Hp in Hsub.
  assert (Hs : (concat ob ⊆ D) /\ (concat nb ⊆ D)) by (clear -Hsub; set_solver). destruct Hs as [Hso Hsn].
  assert (Hlen : (length ns = length (concat ob) + length (concat nb))%nat)
    by (rewrite Hp; apply length_app).
  pose proof (NoDup_app_l _ _ Hnd) as Hndo. pose proof (NoDup_app_r _ _ Hnd) as Hndn.
  unfold hm_delete.
  destruct (ht_lookup_ok st D _ ob key d kb Ho Hok Hso Hndo Hkey Hrep)
    as [(i & pre & l & post & Hi & Hid & -> & Hg)|[Hno ->]]; cbn [mbind result_bind].
  { left. destruct (unlink_free_ok st D (hm_older hmap) ob i pre l post do_free)
      as (older & st1 & st' & -> & Hf & Hne & Ht' & Hev); [done..|lia|].
    cbn [mbind result_bind]. rewrite Hf. cbn [mbind result_bind].
    destruct (delete_older _ st' hmap ob nb older i pre l post Hbk Hi Hne Ht') as [Hperm Hbk'].
    { intros Hl. apply Hev; [|done]. done. }
    eexists _, st', l, _. split_and!; [reflexivity|by rewrite Hp, <- Hperm|done|by eexists _, _|].
    intros D' HD Hl. eapply evolves_weaken; [by apply Hev|]. rewrite Hp.
    intros x Hx. apply elem_of_app. left. eapply elem_of_bucket; [done|]. clear -Hx. set_solver. }
  destruct (ht_lookup_ok st D _ nb key d kb Hn Hok Hsn Hndn Hkey Hrep)
    as [(i & pre & l & post & Hi & Hid & -> & Hg)|[Hno' ->]]; cbn [mbind result_bind].
  { left. destruct (unlink_free_ok st D (hm_newer hmap) nb i pre l post do_free)
      as (newer & st1 & st' & -> & Hf & Hne & Ht' & Hev); [done..|lia|].
    cbn [mbind result_bind]. rewrite Hf. cbn [mbind result_bind].
    destruct (delete_newer _ st' hmap ob nb newer i pre l post Hbk Hi Hne Ht') as [Hperm Hbk'].
    { intros Hl. apply Hev; [|done]. done. }
    eexists _, st', l, _. split_and!; [reflexivity|by rewrite Hp, <- Hperm|done|by eexists _, _|].
    intros D' HD Hl. eapply evolves_weaken; [by apply Hev|]. rewrite Hp.
    intros x Hx. apply elem_of_app. right. eapply elem_of_bucket; [done|]. clear -Hx. set_solver. }
  right. split; [done|]. intros l. rewrite Hp. intros [?|?]%elem_of_app; auto.
Qed.
End search.

(** ** Enumerating the keys *)

Lemma chain_keys_ok st D p ls fuel :
  nd_ok st D -> ls ⊆ D -> chain st p ls -> (length ls <= fuel)%nat ->
  exists ks, chain_keys fuel st p = Ok ks /\ Forall2 (fun l k => nd_key st l = Ok k) ls ks.
Proof.
  intros Hok. revert p fuel. induction ls as [|l ls IH]; intros p fuel Hsub Hc Hf.
  - cbn in Hc. subst p. exists []. split; [by destruct fuel|constructor].
  - destruct Hc as (-> & q & Hq & Hc). cbn in Hf. destruct fuel as [|fuel]; [lia|].
    destruct (nd_ok_view st D l) as (? & ? & k & ? & _ & _ & _ & Hk & _);
      [done|apply Hsub, list_elem_of_here|].
    destruct (IH q fuel) as (ks & E & Hks); [clear -Hsub; set_solver|done|lia|].
    exists (k :: ks). split; [|by constructor]. cbn. rewrite Hk. cbn. rewrite Hq. cbn. by rewrite E.
Qed.

Lemma foreach_loop_ok st D htab tb bs n i :
  tab_rep st htab bs -> ht_tab htab = Some tb -> nd_ok st D -> concat bs ⊆ D -> NoDup (concat bs) ->
  (i + n = length bs)%nat ->
  exists ks, foreach_loop n (Z.of_nat i) htab st = Ok ks /\
    Forall2 (fun l k => nd_key st l = Ok k) (concat (drop i bs)) ks.
Proof.
  intros Ht E Hok Hsub Hnd. pose proof (tr_tab _ _ _ Ht) as Htb. rewrite E in Htb.
  destruct Htb as (Hlen & _ & Hcs). revert i. induction n as [|n IH]; intros i Hin.
  - exists []. rewrite drop_ge by lia. split; [done|constructor].
  - destruct (lookup_lt_is_Some_2 tb i) as [p Hp]; [lia|].
    destruct (lookup_lt_is_Some_2 bs i) as [b Hb]; [lia|].
    destruct (IH (S i)) as (ks & Ek & Hks); [lia|].
    assert (Hsb : b ⊆ D) by (intros x Hx; apply Hsub; by eapply elem_of_bucket).
    destruct (chain_keys_ok st D p b (nd_bound st)) as (kb & Eb & Hkb); [done|done|by eapply Hcs| |].
    { apply nd_ok_bound; [by eapply nd_ok_incl|]. by eapply NoDup_bucket. }
    exists (kb ++ ks). rewrite (drop_S _ _ _ Hb). cbn [concat]. split; [|by apply Forall2_app].
    cbn [foreach_loop]. rewrite E. unfold tab_get. rewrite E. cbn [need mbind result_bind]. zbool.
    rewrite Nat2Z.id, Hp. cbn [need mbind result_bind]. rewrite Eb. cbn [mbind result_bind].
    replace (Z.of_nat i + 1) with (Z.of_nat (S i)) by lia. by rewrite Ek.
Qed.

Lemma h_foreach_ok st D htab bs :
  tab_rep st htab bs -> nd_ok st D -> concat bs ⊆ D -> NoDup (concat bs) ->
  exists ks, h_foreach htab st = Ok ks /\ Forall2 (fun l k => nd_key st l = Ok k) (concat bs) ks.
Proof.
  intros Ht Hok Hsub Hnd. unfold h_foreach. pose proof (tr_tab _ _ _ Ht) as Htb.
  destruct (ht_tab htab) as [tb|] eqn:E.
  - destruct Htb as (Hlen & (k & Hk0 & Hm & Hk) & _). pose proof (Z.pow_pos_nonneg 2 k).
    destruct (foreach_loop_ok st D htab tb bs (S (Z.to_nat (ht_mask htab))) 0) as (ks & Ek & Hks);
      try done; [lia|]. rewrite drop_0 in Hks. by exists ks.
  - destruct Htb as [-> ->]. exists []. cbn. rewrite E. by split; [|constructor].
Qed.

Lemma hm_keys_ok st D hmap ns :
  hm_rep st hmap ns -> nd_ok st D -> ns ⊆ D -> Z.of_nat (length ns) < 2 ^ 64 ->
  hm_size hmap = Z.of_nat (length ns) /\
  exists ls ks, hm_keys hmap st = Ok ks /\ ls ≡ₚ ns /\ Forall2 (fun l k => nd_key st l = Ok k) ls ks.
Proof.
  intros (ob & nb & [Ho Hn _ _ Hnd] & Hp) Hok Hsub Hsz. rewrite Hp in Hsub, Hsz |- *.
  assert (Hs : (concat ob ⊆ D) /\ (concat nb ⊆ D)) by (clear -Hsub; set_solver). destruct Hs as [Hso Hsn].
  rewrite length_app in *. split.
  - unfold hm_size. rewrite (tr_size _ _ _ Ho), (tr_size _ _ _ Hn). nowrap. lia.
  - destruct (h_foreach_ok st D (hm_newer hmap) nb) as (kn & En & Hkn); [done..|by eapply NoDup_app_r|].
    destruct (h_foreach_ok st D (hm_older hmap) ob) as (ko & Eo & Hko); [done..|by eapply NoDup_app_l|].
    exists (concat nb ++ concat ob), (kn ++ ko). unfold hm_keys. rewrite En. cbn [mbind result_bind].
    rewrite Eo. split_and!; [done|rewrite Hp; apply Permutation_app_comm|by apply Forall2_app].
Qed.

Lemma hm_empty_rep st : hm_rep st hmap_empty [].
Proof.
  exists [], []. split; [|done]. split; cbn; [by split|by split|done|done|constructor].
Qed.

(** ** The map as a finite map

    [hm_map st hmap M]: the nodes of the map are the values of [M], each under
    its hash code and key. *)
Abbreviation keymap := (gmap (Z * list Z) loc).

Definition vals (M : keymap) : list loc := (map_to_list M).*2.

Definition hm_map st hmap (M : keymap) : Prop :=
  hm_rep st hmap (vals M) /\ forall q l, M !! q = Some l -> ident st l = Some q.

Lemma elem_of_vals (M : keymap) l : l ∈ vals M <-> exists q, M !! q = Some l.
Proof.
  unfold vals. rewrite list_elem_of_fmap. split.
  - intros ([q l'] & -> & Hq%elem_of_map_to_list). by exists q.
  - intros [q Hq]. exists (q, l). split; [done|]. by apply elem_of_map_to_list.
Qed.

Lemma length_vals (M : keymap) : length (vals M) = size M.
Proof. unfold vals. by rewrite length_fmap, length_map_to_list. Qed.

Lemma vals_insert (M : keymap) q l : M !! q = None -> vals (<[q := l]> M) ≡ₚ l :: vals M.
Proof. intros Hq. unfold vals. by rewrite map_to_list_insert. Qed.

Lemma vals_delete (M : keymap) q l : M !! q = Some l -> vals M ≡ₚ l :: vals (delete q M).
Proof. intros Hq. rewrite <- (vals_insert _ q l) by apply lookup_delete_eq. by rewrite insert_delete_id. Qed.

(** A node with another identity than every entry is not in the map. *)
Lemma ident_fresh st hmap M q l :
  hm_map st hmap M -> ident st l = Some q -> M !! q = None -> l ∉ vals M.
Proof. intros [_ Hid] Hl Hq [q' Hq']%elem_of_vals. pose proof (Hid _ _ Hq'). congruence. Qed.

Lemma hm_map_frame st st' hmap M :
  (forall l, l ∈ vals M -> ident st' l = ident st l /\ nd_next st' l = nd_next st l) ->
  hm_map st hmap M -> hm_map st' hmap M.
Proof.
  intros Hs [Hr Hid]. split; [by eapply hm_rep_frame|]. intros q l Hq. rewrite <- (Hid q l Hq).
  apply Hs, elem_of_vals. by exists q.
Qed.

Lemma hm_map_lookup st hmap M l q :
  hm_map st hmap M -> l ∈ vals M -> ident st l = Some q -> M !! q = Some l.
Proof. intros [_ Hid] [q' Hq']%elem_of_vals Hl. pose proof (Hid _ _ Hq'). congruence. Qed.
(** *** The operations on the finite map *)

Lemma hm_map_insert st D hmap M node q :
  hm_map st hmap M -> nd_ok st D -> node :: vals M ⊆ D -> ident st node = Some q ->
  M !! q = None -> Z.of_nat (size M) + 1 < 2 ^ 60 ->
  exists hmap' st', hm_insert hmap st node = Ok (hmap', st') /\
    hm_map st' hmap' (<[q := node]> M) /\ evolves D (node :: vals M) st st'.
Proof.
  intros Hmap Hok Hsub Hid Hq Hsz. pose proof (ident_fresh _ _ _ _ _ Hmap Hid Hq) as Hnew.
  destruct Hmap as [Hrep Hall].
  destruct (hm_insert_ok st D hmap (vals M) node) as (hmap' & st' & E & Hrep' & Hev);
    [done..|by rewrite length_vals|].
  exists hmap', st'. split_and!; [done| |done]. split.
  - destruct Hrep' as (ob & nb & Hb & Hp). exists ob, nb. split; [done|]. by rewrite vals_insert.
  - intros q' l Hl. rewrite (ident_keeps D st); [|apply Hev|].
    + apply lookup_insert_Some in Hl as [[<- <-]|[_ Hl]]; [done|by apply Hall].
    + apply Hsub. apply elem_of_cons. apply lookup_insert_Some in Hl as [[_ <-]|[_ Hl]]; [by left|].
      right. apply elem_of_vals. by exists q'.
Qed.

Lemma hm_map_find st D hmap M key d kb :
  hm_map st hmap M -> nd_ok st D -> vals M ⊆ D -> k_key key = Some d -> dstr_rep d kb ->
  hm_lookup hmap st key = Ok (M !! (k_hcode key, cstr kb)).
Proof.
  intros Hmap Hok Hsub Hk Hd. pose proof Hmap as [Hrep Hall].
  destruct (hm_lookup_ok key d kb Hk Hd st D hmap (vals M)) as [(l & -> & Hl & Hid)|[-> Hno]]; [done..| |].
  - by rewrite (hm_map_lookup _ _ _ _ _ Hmap Hl Hid).
  - destruct (M !! _) as [l|] eqn:E; [|done]. exfalso. apply (Hno l); [|by apply Hall].
    apply elem_of_vals. by eexists.
Qed.

Lemma hm_map_delete st D hmap M key d kb do_free :
  hm_map st hmap M -> nd_ok st D -> vals M ⊆ D -> k_key key = Some d -> dstr_rep d kb ->
  Z.of_nat (size M) < 2 ^ 60 ->
  match M !! (k_hcode key, cstr kb) with
  | Some l => exists hmap' st', hm_delete hmap st key do_free = Ok (hmap', st', 1) /\
      hm_map st' hmap' (delete (k_hcode key, cstr kb) M) /\
      forall D', D' ⊆ D -> l ∉ D' -> evolves D' (vals M) st st'
  | None => hm_delete hmap st key do_free = Ok (hmap, st, 0)
  end.
Proof.
  intros Hmap Hok Hsub Hk Hd Hsz. pose proof Hmap as [Hrep Hall].
  destruct (hm_delete_ok key d kb Hk Hd st D hmap (vals M) do_free)
    as [(hmap' & st' & l & ns' & -> & Hp & Hid & Hrep' & Hev)|[-> Hno]];
    [done|done|done|by rewrite length_vals| |].
  - assert (Hl : l ∈ vals M) by (rewrite Hp; apply list_elem_of_here).
    pose proof (hm_map_lookup _ _ _ _ _ Hmap Hl Hid) as Hq. rewrite Hq. exists hmap', st'.
    assert (Hns : ns' ≡ₚ vals (delete (k_hcode key, cstr kb) M)).
    { apply (Permutation_cons_inv (a := l)). rewrite <- Hp. by apply vals_delete. }
    split; [done|]. split; [split|done].
    + destruct Hrep' as (ob & nb & Hb & Hpp). exists ob, nb. by rewrite <- Hns.
    + intros q l' Hl'. apply lookup_delete_Some in Hl' as [Hne Hl'].
      assert (l' <> l) by (intros ->; pose proof (Hall _ _ Hl'); congruence).
      assert (Hin : l' ∈ vals M) by (apply elem_of_vals; eauto).
      destruct (Hev [l']) as [_ Hke _];
        [by intros x ->%list_elem_of_singleton; apply Hsub|by intros ?%list_elem_of_singleton|].
      rewrite (ident_keeps [l'] st); [by apply Hall|done|apply list_elem_of_here].
  - destruct (M !! _) as [l|] eqn:E; [|done]. exfalso. apply (Hno l); [|by apply Hall].
    apply elem_of_vals. by eexists.
Qed.

End representation.

(** ** Invariants of the node store

    A property of the store that every primitive on nodes keeps is kept by
    every operation of the table. *)
Section store_invariant.
Context {St : Type} `{NS : NodeStore St}.
Variable P : St -> Prop.
Hypothesis P_next : forall l p st st', P st -> nd_set_next l p st = Ok st' -> P st'.
Hypothesis P_release : forall l st st', P st -> nd_release l st = Ok st' -> P st'.
Hypothesis P_free : forall l st st', P st -> nd_free l st = Ok st' -> P st'.

Lemma slot_set_inv htab st slot p htab' st' : P st -> slot_set htab st slot p = Ok (htab', st') -> P st'.
Proof. intros HP E. destruct slot; cbn in E; inv_ok; eauto. Qed.

Lemma ht_unlink_inv htab st slot htab' st' p : P st -> ht_unlink htab st slot = Ok (htab', st', p) -> P st'.
Proof.
  intros HP E. unfold ht_unlink in E. inv_ok. case_match; inv_ok; [|done].
  eapply P_release; [|done]. by eapply slot_set_inv.
Qed.

Lemma ht_insert_inv htab st l htab' st' : P st -> ht_insert htab st l = Ok (htab', st') -> P st'.
Proof. intros HP E. unfold ht_insert in E. inv_ok. eauto. Qed.

Lemma rehash_loop_inv fuel n hmap st hmap' st' :
  P st -> rehash_loop fuel n hmap st = Ok (hmap', st') -> P st'.
Proof.
  revert n hmap st. induction fuel as [|fuel IH]; intros n hmap st HP E; [done|]. cbn [rehash_loop] in E.
  case_match; [|by inv_ok]. apply bind_ok in E as (p & _ & E). destruct p; [|by eapply IH].
  inv_ok. eapply IH; [|done]. eapply ht_insert_inv; [|done]. by eapply ht_unlink_inv.
Qed.

Lemma hm_rehash_help_inv hmap st hmap' st' : P st -> hm_rehash_help hmap st = Ok (hmap', st') -> P st'.
Proof.
  unfold hm_rehash_help. generalize (Z.to_nat REHASHING_WORK) as n. intros n HP E.
  apply bind_ok in E as ([hm2 st2] & E2 & E). pose proof (rehash_loop_inv _ _ _ _ _ _ HP E2) as HP2.
  destruct (ht_tab (hm_older hm2)); [destruct (_ =? _)|]; by injection E as <- <-.
Qed.

Lemma hm_insert_inv hmap st l hmap' st' : P st -> hm_insert hmap st l = Ok (hmap', st') -> P st'.
Proof.
  intros HP E. unfold hm_insert in E. apply bind_ok in E as (newer & _ & E).
  apply bind_ok in E as ([nw st1] & E1 & E). apply bind_ok in E as (hm & _ & E).
  eapply hm_rehash_help_inv; [|exact E]. by eapply ht_insert_inv.
Qed.

Lemma free_node_inv del b st st' : P st -> free_node del b st = Ok st' -> P st'.
Proof. intros HP E. unfold free_node in E. repeat case_match; inv_ok; eauto. Qed.

Lemma hm_delete_inv hmap st key b hmap' st' n : P st -> hm_delete hmap st key b = Ok (hmap', st', n) -> P st'.
Proof.
  intros HP E. unfold hm_delete in E. apply bind_ok in E as (s & _ & E).
  destruct s as [s|]; [|apply bind_ok in E as (s & _ & E); destruct s as [s|]]; inv_ok; try done;
    (eapply free_node_inv; [|done]; by eapply ht_unlink_inv).
Qed.
End store_invariant.

(** ** A store of bare nodes

    The table can be used with nodes that own nothing but their key. *)
Record BareNode := mkBare { bn_next : ptr; bn_hcode : Z; bn_key : dstr }.

#[export] Instance bare_store : NodeStore (gmap loc BareNode) := {
  nd_next st l := bn_next <$> deref st (Some l);
  nd_set_next l p st := update st (Some l) (fun n => mkBare p (bn_hcode n) (bn_key n));
  nd_hcode st l := bn_hcode <$> deref st (Some l);
  nd_key st l := bn_key <$> deref st (Some l);
  nd_release l st := Ok st;
  nd_free l st := _ ← deref st (Some l); Ok (delete l st);
  nd_bound st := size st
}.

Definition bare_ok (st : gmap loc BareNode) (D : list loc) : Prop :=
  forall l, l ∈ D -> exists n bs, st !! l = Some n /\ 0 <= bn_hcode n < 2 ^ 64 /\ dstr_rep (bn_key n) bs.

#[export] Instance bare_store_ok : NodeStoreOk (gmap loc BareNode).
Proof.
  refine {| nd_ok := bare_ok; nd_obs := fun _ _ => tt; nd_glob := fun _ => tt |}.
  - intros st D D' H Hs l Hl. by apply H, Hs.
  - intros st D l H Hl. destruct (H l Hl) as (n & bs & Hn & ? & ?). cbn. rewrite Hn. cbn. eauto 10.
  - intros st D l p H Hl. destruct (H l Hl) as (n & bs & Hn & Hh & Hk).
    eexists. split; [by apply update_some|].
    assert (Hne : forall l', l' <> l -> <[l := mkBare p (bn_hcode n) (bn_key n)]> st !! l' = st !! l')
      by (intros; by rewrite lookup_insert_ne).
    split_and!; cbn; [| |by rewrite lookup_insert_eq|intros l' _ Hl'; by rewrite Hne].
    + intros l' Hl'. destruct (decide (l' = l)) as [->|]; [|rewrite Hne by done; by apply H].
      rewrite lookup_insert_eq. eauto.
    + split; try done; intros l' Hl'; cbn; (destruct (decide (l' = l)) as [->|]; [|by rewrite Hne]);
        by rewrite lookup_insert_eq, Hn.
  - intros st D l H Hl. exists st. by split_and!.
  - intros st D l D' H Hl Hs Hn. destruct (H l Hl) as (n & bs & Hl' & _).
    exists (delete l st). cbn. rewrite Hl'. split; [done|].
    assert (Hne : forall l', l' ∈ D' -> delete l st !! l' = st !! l').
    { intros l' Hd. rewrite lookup_delete_ne; [done|]. by intros ->. }
    split_and!.
    + intros l' Hd. rewrite Hne by done. by apply H, Hs.
    + split; try done; intros l' Hd; cbn; by rewrite Hne.
    + intros l' Hd. cbn. by rewrite Hne.
  - intros st D H Hnd. apply keys_bound; [|done]. intros l Hl. destruct (H l Hl) as (n & _ & Hn & _). eauto.
Defined.

(** ** Properties *)

(** C2: [hm_insert] of a node whose key is not in the map never faults and
    the loops terminate, whatever the state of the incremental resizing; the
    map then holds exactly the old entries and the new one, and neither the
    hash codes nor the keys of any node have changed. *)
Theorem hm_insert_refines {St} `{NodeStoreOk St} (st : St) D hmap M node q :
  hm_map st hmap M -> nd_ok st D -> node :: vals M ⊆ D -> ident st node = Some q ->
  M !! q = None -> Z.of_nat (size M) + 1 < 2 ^ 60 ->
  exists hmap' st', hm_insert hmap st node = Ok (hmap', st') /\
    hm_map st' hmap' (<[q := node]> M) /\ nd_ok st' D /\ keeps D st st'.
Proof.
  intros. destruct (hm_map_insert st D hmap M node q) as (hmap' & st' & E & Hm & [Ho Hk _]); [done..|].
  exists hmap', st'. by split_and!.
Qed.

(** C3: [hm_lookup] is the lookup of the finite map the tables stand for, in
    every state of the incremental resizing: it finds the node with the hash
    code and the C-string key of the search, and [NULL] exactly when there is
    none. *)
Theorem hm_lookup_refines {St} `{NodeStoreOk St} (st : St) D hmap M key d kb :
  hm_map st hmap M -> nd_ok st D -> vals M ⊆ D -> k_key key = Some d -> dstr_rep d kb ->
  hm_lookup hmap st key = Ok (M !! (k_hcode key, cstr kb)).
Proof. apply hm_map_find. Qed.

(** C4: [hm_delete] removes exactly the entry of the key and returns 1, or
    returns 0 and changes nothing when there is none; the other entries stay
    reachable, with or without the node being freed. *)
Theorem hm_delete_refines {St} `{NodeStoreOk St} (st : St) D hmap M key d kb do_free :
  hm_map st hmap M -> nd_ok st D -> vals M ⊆ D -> k_key key = Some d -> dstr_rep d kb ->
  Z.of_nat (size M) < 2 ^ 60 ->
  match M !! (k_hcode key, cstr kb) with
  | Some l => exists hmap' st', hm_delete hmap st key do_free = Ok (hmap', st', 1) /\
      hm_map st' hmap' (delete (k_hcode key, cstr kb) M) /\
      forall D', D' ⊆ D -> l ∉ D' -> nd_ok st' D' /\ keeps D' st st'
  | None => hm_delete hmap st key do_free = Ok (hmap, st, 0)
  end.
Proof.
  intros. pose proof (hm_map_delete st D hmap M key d kb do_free) as Hd. case_match; [|by apply Hd].
  destruct Hd as (hmap' & st' & E & Hm & Hev); [done..|]. exists hmap', st'. split; [done|]. split; [done|].
  intros D' HD Hl. destruct (Hev D' HD Hl) as [? ? _]. done.
Qed.

(** [hm_size] is the number of entries and [hm_keys] lists the key of
    every entry exactly once, also while the entries are spread over two
    tables. *)
Theorem hm_keys_exact {St} `{NodeStoreOk St} (st : St) D hmap M :
  hm_map st hmap M -> nd_ok st D -> vals M ⊆ D -> Z.of_nat (size M) < 2 ^ 64 ->
  hm_size hmap = Z.of_nat (size M) /\
  exists ls ks, hm_keys hmap st = Ok ks /\ ls ≡ₚ vals M /\
    Forall2 (fun l k => nd_key st l = Ok k) ls ks.
Proof.
  intros [Hrep _] Hok Hsub Hsz.
  destruct (hm_keys_ok st D hmap (vals M)) as [Hs Hks]; [done..|by rewrite length_vals|].
  by rewrite Hs, length_vals.
Qed.

(** C35: one [hm_rehash_help] moves 128 nodes, or all that are left, out of the
    older table, and releases that table as soon as it is empty; the nodes of
    the map stay the same. *)
Theorem rehash_progress {St} `{NodeStoreOk St} (st : St) D hmap ob nb :
  hm_buckets st hmap ob nb -> nd_ok st D -> concat ob ++ concat nb ⊆ D ->
  Z.of_nat (length (concat ob ++ concat nb)) < 2 ^ 60 ->
  exists hmap' st', hm_rehash_help hmap st = Ok (hmap', st') /\
    hm_rep st' hmap' (concat ob ++ concat nb) /\
    ht_size (hm_older hmap') = Z.max 0 (ht_size (hm_older hmap) - REHASHING_WORK) /\
    (ht_size (hm_older hmap') = 0 -> hm_older hmap' = htab_empty).
Proof.
  intros Hb Hok Hsub Hsz.
  destruct (hm_rehash_help_ok hmap st D ob nb) as (hmap' & st' & ob' & nb' & E & Hb' & _ & Hp & Hs & He); [done..|].
  exists hmap', st'. split_and!; try done. exists ob', nb'. by rewrite Hp.
Qed.

(** ** Witnesses *)

(** A string without spare room. *)
Definition exact_dstr (bs : list Z) : dstr :=
  mkDstr (Z.of_nat (length bs)) 0 ((Some <$> bs) ++ [Some 0]).

Lemma exact_dstr_rep bs : Z.of_nat (length bs) < 2 ^ 62 -> dstr_rep (exact_dstr bs) bs.
Proof. intros. split; cbn; [done|lia|lia|len|by eexists]. Qed.

(** Two nodes with colliding buckets; the first one is inserted. *)
Definition two_nodes : gmap loc BareNode :=
  {[ 1%positive := mkBare None 5 (exact_dstr [97]); 2%positive := mkBare None 9 (exact_dstr [98]) ]}.
Definition one_entry : HMap * gmap loc BareNode :=
  match hm_insert hmap_empty two_nodes 1 with Ok r => r | Fault _ => (hmap_empty, two_nodes) end.
Definition entry_a : gmap (Z * list Z) loc := {[ (5, [97]) := 1%positive ]}.

Lemma two_nodes_ok : nd_ok two_nodes [1%positive; 2%positive].
Proof.
  intros l Hl. cbn in Hl.
  apply elem_of_cons in Hl as [-> | ->%list_elem_of_singleton]; eexists _, _;
    (split; [reflexivity|]); (split; [done|by apply exact_dstr_rep]).
Qed.

Lemma one_entry_ok :
  hm_map one_entry.2 one_entry.1 entry_a /\ nd_ok one_entry.2 [1%positive; 2%positive].
Proof.
  destruct (hm_insert_ok two_nodes [1%positive; 2%positive] hmap_empty [] 1) as (h & st & E & Hr & Hev);
    [apply hm_empty_rep|apply two_nodes_ok|by_compute|by_compute|done|].
  unfold one_entry. rewrite E. cbn [fst snd]. split; [|apply Hev]. split; [exact Hr|].
  unfold entry_a. intros q l [<- <-]%lookup_singleton_Some.
  rewrite (ident_keeps [1%positive; 2%positive] two_nodes); [reflexivity|apply Hev|by_compute].
Qed.

Lemma hm_insert_refines_witness :
  exists hmap' st', hm_insert one_entry.1 one_entry.2 2 = Ok (hmap', st') /\
    hm_map st' hmap' (<[(9, [98]) := 2%positive]> entry_a) /\
    nd_ok st' [1%positive; 2%positive] /\ keeps [1%positive; 2%positive] one_entry.2 st'.
Proof.
  apply (hm_insert_refines one_entry.2 [1%positive; 2%positive] one_entry.1 entry_a 2 (9, [98]));
    [apply one_entry_ok|apply one_entry_ok|by_compute|by vm_compute|by vm_compute|by vm_compute].
Defined.

Lemma hm_lookup_refines_witness :
  hm_lookup one_entry.1 one_entry.2 (mkHKey 5 (Some (exact_dstr [97]))) = Ok (Some 1%positive).
Proof.
  apply (hm_lookup_refines one_entry.2 [1%positive] one_entry.1 entry_a
           (mkHKey 5 (Some (exact_dstr [97]))) (exact_dstr [97]) [97]);
    [apply one_entry_ok| |by_compute|reflexivity|by apply exact_dstr_rep].
  eapply nd_ok_incl; [apply one_entry_ok|by_compute].
Defined.

Lemma hm_delete_refines_witness :
  exists hmap' st', hm_delete one_entry.1 one_entry.2 (mkHKey 5 (Some (exact_dstr [97]))) true
      = Ok (hmap', st', 1) /\ hm_map st' hmap' (delete (5, [97]) entry_a) /\
    forall D', D' ⊆ [1%positive; 2%positive] -> 1%positive ∉ D' -> nd_ok st' D' /\ keeps D' one_entry.2 st'.
Proof.
  apply (hm_delete_refines one_entry.2 [1%positive; 2%positive] one_entry.1 entry_a
           (mkHKey 5 (Some (exact_dstr [97]))) (exact_dstr [97]) [97] true);
    [apply one_entry_ok|apply one_entry_ok|by_compute|reflexivity|by apply exact_dstr_rep|by vm_compute].
Defined.

Lemma hm_keys_exact_witness :
  hm_size one_entry.1 = 1 /\
  exists ls ks, hm_keys one_entry.1 one_entry.2 = Ok ks /\ ls ≡ₚ [1%positive] /\
    Forall2 (fun l k => nd_key one_entry.2 l = Ok k) ls ks.
Proof.
  apply (hm_keys_exact one_entry.2 [1%positive; 2%positive] one_entry.1 entry_a);
    [apply one_entry_ok|apply one_entry_ok|by_compute|by vm_compute].
Defined.

(** The two nodes in the older of two tables. *)
Definition resizing : HMap :=
  mkHMap (mkHTab (Some [None; Some 1%positive; None; None]) 3 1)
         (mkHTab (Some (replicate 8 None)) 7 0) 0.

Lemma resizing_buckets : hm_buckets two_nodes resizing [[]; [1%positive]; []; []] (replicate 8 []).
Proof.
  split; cbn [resizing hm_older hm_newer hm_migrate_pos ht_tab].
  - split; cbn [ht_tab ht_mask ht_size]; [|done|].
    + split_and!; [done|by exists 2|]. intros i p b Hp Hb.
      do 4 (destruct i as [|i]; [injection Hp as <-; injection Hb as <-; cbn; eauto|]). done.
    + intros i b l Hb Hl. do 4 (destruct i as [|i];
        [injection Hb as <-; first [by apply elem_of_nil in Hl
           |apply list_elem_of_singleton in Hl as ->; by exists 5, [97]]|]). done.
  - split; cbn [ht_tab ht_mask ht_size]; [|done|].
    + split_and!; [done|by exists 3|]. by intros i p b [-> _]%lookup_replicate [-> _]%lookup_replicate.
    + by intros i b l [-> _]%lookup_replicate ?%elem_of_nil.
  - done.
  - intros _. split; [done|]. intros; lia.
  - by_compute.
Qed.

Lemma rehash_progress_witness :
  exists hmap' st', hm_rehash_help resizing two_nodes = Ok (hmap', st') /\
    hm_rep st' hmap' [1%positive] /\ ht_size (hm_older hmap') = 0 /\
    (ht_size (hm_older hmap') = 0 -> hm_older hmap' = htab_empty).
Proof.
  apply (rehash_progress two_nodes [1%positive; 2%positive] resizing [[]; [1%positive]; []; []] (replicate 8 []));
    [apply resizing_buckets|apply two_nodes_ok|by_compute|done].
Defined.
