(* ===== verification/Avl.v ===== *)
(** * The AVL tree: [src/src/data_structures/avl_tree.cpp], [avl_tree.h]

    The nodes are linked by parent and child pointers in a store; every
    operation is modelled on the store, assignment by assignment.  A tree in
    the store is described by a labelled tree, a position inside it by a
    zipper, and the rebalancing walk is shown to refine a function on them. *)

From S2P Require Import Prelude.

(** ** Data *)

Record AVLNode := mkAVL {
  avl_parent : ptr;
  avl_left : ptr;
  avl_right : ptr;
  avl_hgt : Z;
  avl_cnt : Z
}.

#[export] Instance AVLNode_eq_dec : EqDecision AVLNode.
Proof. solve_decision. Defined.

Abbreviation avl_store := (gmap loc AVLNode) (only parsing).

Definition set_parent (p : ptr) (n : AVLNode) : AVLNode :=
  mkAVL p (avl_left n) (avl_right n) (avl_hgt n) (avl_cnt n).
Definition set_left (p : ptr) (n : AVLNode) : AVLNode :=
  mkAVL (avl_parent n) p (avl_right n) (avl_hgt n) (avl_cnt n).
Definition set_right (p : ptr) (n : AVLNode) : AVLNode :=
  mkAVL (avl_parent n) (avl_left n) p (avl_hgt n) (avl_cnt n).
Definition set_stats (hgt cnt : Z) (n : AVLNode) : AVLNode :=
  mkAVL (avl_parent n) (avl_left n) (avl_right n) hgt cnt.

(** ** Operations *)

Definition avl_size (h : avl_store) (node : ptr) : result Z :=
  match node with None => Ok 0 | Some _ => n ← deref h node; Ok (avl_cnt n) end.

(** [avl_init]: what a new node holds. *)
Definition avl_init : AVLNode := mkAVL NULL NULL NULL 1 1.

(** The recursion follows child pointers; a path that does not repeat a node
    is at most as long as the number of nodes. *)
Fixpoint avl_height_rec (fuel : nat) (h : avl_store) (node : ptr) : result Z :=
  match node with
  | None => Ok 0
  | Some _ =>
      match fuel with
      | O => Fault OutOfFuel
      | S fuel =>
          n ← deref h node;
          l ← avl_height_rec fuel h (avl_left n);
          r ← avl_height_rec fuel h (avl_right n);
          Ok (u32 (1 + Z.max l r))
      end
  end.

Definition avl_height (h : avl_store) (node : ptr) : result Z := avl_height_rec (size h) h node.

Definition update_node (h : avl_store) (node : ptr) : result avl_store :=
  n ← deref h node;
  l ← avl_height h (avl_left n);
  r ← avl_height h (avl_right n);
  h ← update h node (set_stats (u32 (1 + Z.max l r)) (avl_cnt n));
  ls ← avl_size h (avl_left n);
  rs ← avl_size h (avl_right n);
  update h node (set_stats (u32 (1 + Z.max l r)) (u32 (1 + ls + rs))).

Definition rotate_left (h : avl_store) (curr_root : ptr) : result (avl_store * ptr) :=
  c ← deref h curr_root;
  let new_root := avl_right c in
  n ← deref h new_root;
  let inner := avl_left n in
  h ← update h curr_root (set_right inner);
  h ← update h new_root (set_left curr_root);
  c ← deref h curr_root;
  h ← update h new_root (set_parent (avl_parent c));
  h ← update h curr_root (set_parent new_root);
  h ← (if inner is Some _ then update h inner (set_parent curr_root) else Ok h);
  h ← update_node h curr_root;
  h ← update_node h new_root;
  Ok (h, new_root).

Definition rotate_right (h : avl_store) (curr_root : ptr) : result (avl_store * ptr) :=
  c ← deref h curr_root;
  let new_root := avl_left c in
  n ← deref h new_root;
  let inner := avl_right n in
  h ← update h curr_root (set_left inner);
  h ← update h new_root (set_right curr_root);
  c ← deref h curr_root;
  h ← update h new_root (set_parent (avl_parent c));
  h ← update h curr_root (set_parent new_root);
  h ← (if inner is Some _ then update h inner (set_parent curr_root) else Ok h);
  h ← update_node h curr_root;
  h ← update_node h new_root;
  Ok (h, new_root).

(** The two symmetric rebalancing branches of [avl_fix]. *)
Definition fix_left (h : avl_store) (node : ptr) : result (avl_store * ptr) :=
  n ← deref h node;
  l ← deref h (avl_left n);
  a ← avl_height h (avl_left l);
  b ← avl_height h (avl_right l);
  h ← (if a <? b then
         '(h, l) ← rotate_left h (avl_left n);
         update h node (set_left l)
       else Ok h);
  rotate_right h node.

Definition fix_right (h : avl_store) (node : ptr) : result (avl_store * ptr) :=
  n ← deref h node;
  r ← deref h (avl_right n);
  a ← avl_height h (avl_right r);
  b ← avl_height h (avl_left r);
  h ← (if a <? b then
         '(h, r) ← rotate_right h (avl_right n);
         update h node (set_right r)
       else Ok h);
  rotate_left h node.

(** One pass of the loop of [avl_fix] up to the assignment through [from];
    [from] is a child field of the parent, or the variable [node] itself. *)
Definition fix_step (h : avl_store) (node : ptr) : result (avl_store * ptr * ptr) :=
  n ← deref h node;
  let parent := avl_parent n in
  from_left ← match parent with
              | Some _ => p ← deref h parent; Ok (bool_decide (avl_left p = node))
              | None => Ok false
              end;
  left ← avl_height h (avl_left n);
  right ← avl_height h (avl_right n);
  h ← update_node h node;
  '(h, node) ← (if left =? u32 (right + 2) then fix_left h node
                else if right =? u32 (left + 2) then fix_right h node
                else Ok (h, node));
  h ← match parent with
      | Some _ => update h parent (if (from_left : bool) then set_left node else set_right node)
      | None => Ok h
      end;
  Ok (h, node, parent).

Fixpoint avl_fix_loop (fuel : nat) (h : avl_store) (node : ptr) : result (avl_store * ptr) :=
  match fuel with
  | O => Fault OutOfFuel
  | S fuel =>
      '(h, node, parent) ← fix_step h node;
      match parent with
      | None => Ok (h, node)
      | Some _ => avl_fix_loop fuel h parent
      end
  end.

Definition avl_fix (h : avl_store) (node : ptr) : result (avl_store * ptr) :=
  avl_fix_loop (size h) h node.

Definition del_simple (h : avl_store) (to_delete : ptr) : result (avl_store * ptr) :=
  n ← deref h to_delete;
  _ ← check (bool_decide (avl_left n = NULL) || bool_decide (avl_right n = NULL)) AssertFailed;
  let parent := avl_parent n in
  let child := if avl_left n is Some _ then avl_left n else avl_right n in
  h ← (if child is Some _ then update h child (set_parent parent) else Ok h);
  match parent with
  | None => Ok (h, child)
  | Some _ =>
      p ← deref h parent;
      h ← update h parent (if bool_decide (avl_left p = to_delete)
                           then set_left child else set_right child);
      avl_fix h parent
  end.

(** [while (victim->left) victim = victim->left;] *)
Fixpoint leftmost (fuel : nat) (h : avl_store) (victim : ptr) : result ptr :=
  match fuel with
  | O => Fault OutOfFuel
  | S fuel =>
      v ← deref h victim;
      if avl_left v is Some _ then leftmost fuel h (avl_left v) else Ok victim
  end.

(** The part of [avl_del] that puts [victim] in the place of [to_delete]. *)
Definition replace_node (h : avl_store) (root to_delete victim : ptr) : result (avl_store * ptr) :=
  n ← deref h to_delete;
  h ← update h victim (fun _ => n);
  v ← deref h victim;
  h ← (if avl_left v is Some _ then update h (avl_left v) (set_parent victim) else Ok h);
  v ← deref h victim;
  h ← (if avl_right v is Some _ then update h (avl_right v) (set_parent victim) else Ok h);
  v ← deref h victim;
  let parent := avl_parent v in
  match parent with
  | Some _ =>
      p ← deref h parent;
      h ← update h parent (if bool_decide (avl_left p = to_delete)
                           then set_left victim else set_right victim);
      Ok (h, root)
  | None => Ok (h, victim)
  end.

Definition avl_del (h : avl_store) (to_delete : ptr) : result (avl_store * ptr) :=
  n ← deref h to_delete;
  if bool_decide (avl_left n = NULL) || bool_decide (avl_right n = NULL) then del_simple h to_delete
  else
    victim ← leftmost (size h) h (avl_right n);
    '(h, root) ← del_simple h victim;
    '(h, root) ← replace_node h root to_delete victim;
    avl_fix h root.

(** ** Labelled trees *)

Inductive tree := Leaf | Node (l : tree) (x : loc) (r : tree).

Definition root_of (t : tree) : ptr := match t with Leaf => NULL | Node _ x _ => Some x end.

Fixpoint hgt (t : tree) : Z :=
  match t with Leaf => 0 | Node l _ r => 1 + Z.max (hgt l) (hgt r) end.

Fixpoint cnt (t : tree) : Z :=
  match t with Leaf => 0 | Node l _ r => 1 + cnt l + cnt r end.

Fixpoint inorder (t : tree) : list loc :=
  match t with Leaf => [] | Node l x r => inorder l ++ x :: inorder r end.

Fixpoint balanced (t : tree) : Prop :=
  match t with
  | Leaf => True
  | Node l _ r => -1 <= hgt l - hgt r <= 1 /\ balanced l /\ balanced r
  end.

Definition lft (t : tree) : tree := match t with Leaf => Leaf | Node l _ _ => l end.
Definition rgt (t : tree) : tree := match t with Leaf => Leaf | Node _ _ r => r end.

Definition rotl (t : tree) : tree :=
  match t with Node a x (Node b y c) => Node (Node a x b) y c | _ => t end.
Definition rotr (t : tree) : tree :=
  match t with Node (Node a x b) y c => Node a x (Node b y c) | _ => t end.

Definition rebalance (t : tree) : tree :=
  match t with
  | Leaf => Leaf
  | Node l x r =>
      if hgt l =? hgt r + 2 then rotr (Node (if hgt (lft l) <? hgt (rgt l) then rotl l else l) x r)
      else if hgt r =? hgt l + 2 then rotl (Node l x (if hgt (rgt r) <? hgt (lft r) then rotr r else r))
      else t
  end.

(** A position in a tree: the frames from it up to the root. *)
Inductive frame := FL (x : loc) (r : tree) | FR (l : tree) (x : loc).

Definition plug (f : frame) (t : tree) : tree :=
  match f with FL x r => Node t x r | FR l x => Node l x t end.

Fixpoint zip (t : tree) (fs : list frame) : tree :=
  match fs with [] => t | f :: fs => zip (plug f t) fs end.

(** What [avl_fix] computes. *)
Fixpoint fix_up (t : tree) (fs : list frame) : tree :=
  match fs with [] => rebalance t | f :: fs => fix_up (plug f (rebalance t)) fs end.

Definition flabel (f : frame) : loc := match f with FL x _ => x | FR _ x => x end.
Definition fside (f : frame) : tree := match f with FL _ r => r | FR l _ => l end.
Definition flabels (f : frame) : list loc := flabel f :: inorder (fside f).
Definition cparent (fs : list frame) : ptr := match fs with [] => NULL | f :: _ => Some (flabel f) end.
Definition clabels (fs : list frame) : list loc := concat (flabels <$> fs).

(** *** Facts about labelled trees *)

#[local] Arguments Z.add : simpl never.
#[local] Arguments Z.sub : simpl never.
#[local] Arguments Z.max : simpl never.

Lemma cnt_length t : cnt t = Z.of_nat (length (inorder t)).
Proof. induction t as [|l IHl x r IHr]; cbn; [done|]. rewrite length_app. cbn. lia. Qed.

Lemma hgt_range t : 0 <= hgt t <= cnt t.
Proof. induction t; cbn; lia. Qed.

Lemma inorder_rotl t : inorder (rotl t) = inorder t.
Proof. destruct t as [|a x [|b y c]]; cbn; [done|done|]. by rewrite <- !app_assoc. Qed.

Lemma inorder_rotr t : inorder (rotr t) = inorder t.
Proof. destruct t as [|[|a x b] y c]; cbn; [done|done|]. by rewrite <- !app_assoc. Qed.

Lemma inorder_rebalance t : inorder (rebalance t) = inorder t.
Proof.
  destruct t as [|l x r]; [done|]. unfold rebalance. repeat case_match; try done.
  all: rewrite ?inorder_rotl, ?inorder_rotr; cbn; by rewrite ?inorder_rotl, ?inorder_rotr.
Qed.

Lemma inorder_plug f t t' : inorder t = inorder t' -> inorder (plug f t) = inorder (plug f t').
Proof. intros E. destruct f; cbn; by rewrite E. Qed.

Lemma inorder_zip t t' fs : inorder t = inorder t' -> inorder (zip t fs) = inorder (zip t' fs).
Proof. revert t t'. induction fs as [|f fs IH]; intros t t' E; cbn; [done|]. by apply IH, inorder_plug. Qed.

Lemma inorder_fix_up t fs : inorder (fix_up t fs) = inorder (zip t fs).
Proof.
  revert t. induction fs as [|f fs IH]; intros t; cbn; [apply inorder_rebalance|].
  rewrite IH. apply inorder_zip, inorder_plug, inorder_rebalance.
Qed.

Lemma inorder_plug_perm f t : inorder (plug f t) ≡ₚ inorder t ++ flabels f.
Proof.
  destruct f as [|l x]; cbn; [done|].
  rewrite <- (Permutation_middle (inorder l) (inorder t) x).
  rewrite <- (Permutation_middle (inorder t) (inorder l) x). apply perm_skip, Permutation_app_comm.
Qed.

Lemma inorder_zip_perm t fs : inorder (zip t fs) ≡ₚ inorder t ++ clabels fs.
Proof.
  revert t. induction fs as [|f fs IH]; intros t; cbn; [by rewrite app_nil_r|].
  rewrite IH, inorder_plug_perm. by rewrite <- app_assoc.
Qed.

(** The text before and after a position. *)
Lemma inorder_zip_split fs : exists a b, forall t, inorder (zip t fs) = a ++ inorder t ++ b.
Proof.
  induction fs as [|f fs (a & b & IH)]; [exists [], []; intros; cbn; by rewrite app_nil_r|].
  destruct f as [x r|l x]; cbn.
  - exists a, (x :: inorder r ++ b). intros t. rewrite IH. cbn. by rewrite <- app_assoc.
  - exists (a ++ inorder l ++ [x]), b. intros t. rewrite IH. cbn. by rewrite <- !app_assoc.
Qed.

(** Closes the arithmetic of heights, one conjunct at a time. *)
Ltac bal := destruct_and?; split_and?; try done; try lia; intros; exfalso; lia.

Lemma rebalance_balanced l x r :
  balanced l -> balanced r -> -2 <= hgt l - hgt r <= 2 ->
  balanced (rebalance (Node l x r)) /\
  hgt (Node l x r) - 1 <= hgt (rebalance (Node l x r)) <= hgt (Node l x r) /\
  (-1 <= hgt l - hgt r <= 1 -> rebalance (Node l x r) = Node l x r).
Proof.
  intros Hl Hr Hd. unfold rebalance.
  pose proof (hgt_range l). pose proof (hgt_range r).
  destruct (Z.eqb_spec (hgt l) (hgt r + 2)); [|destruct (Z.eqb_spec (hgt r) (hgt l + 2))].
  - destruct l as [|ll lx lr]; [cbn in *; lia|]. cbn [lft rgt]. cbn in Hl.
    pose proof (hgt_range ll). zcase; cbn in *; [|bal].
    destruct lr as [|lrl lrx lrr]; cbn in *; [lia|]. bal.
  - destruct r as [|rl rx rr]; [cbn in *; lia|]. cbn [lft rgt]. cbn in Hr.
    pose proof (hgt_range rr). zcase; cbn in *; [|bal].
    destruct rl as [|rll rlx rlr]; cbn in *; [lia|]. bal.
  - cbn in *. bal.
Qed.

Lemma balanced_focus t fs : balanced (zip t fs) -> balanced t.
Proof.
  revert t. induction fs as [|f fs IH]; intros t; cbn; [done|].
  intros H%IH. destruct f; cbn in H; tauto.
Qed.

(** The walk restores the balance when the subtree it starts from differs from
    a balanced one by at most one in height. *)
Lemma fix_up_balanced l x r t0 fs :
  balanced l -> balanced r -> -2 <= hgt l - hgt r <= 2 ->
  balanced (zip t0 fs) -> -1 <= hgt (rebalance (Node l x r)) - hgt t0 <= 1 ->
  balanced (fix_up (Node l x r) fs).
Proof.
  revert l x r t0. induction fs as [|f fs IH]; intros l x r t0 Hl Hr Hd Hz Hh;
    destruct (rebalance_balanced l x r Hl Hr Hd) as (Hb & _ & _); cbn [fix_up]; [done|].
  cbn [zip] in Hz. pose proof (balanced_focus _ _ Hz) as Hp.
  destruct f as [y s|s y]; cbn [plug] in *; destruct Hp as (Hdp & Ht0 & Hs).
  - destruct (rebalance_balanced (rebalance (Node l x r)) y s Hb Hs) as (_ & Hh2 & Heq); [lia|].
    eapply IH; [done|done|lia|exact Hz|]. cbn [hgt] in Hh2 |- *.
    destruct (decide (-1 <= hgt (rebalance (Node l x r)) - hgt s <= 1)) as [Hc|Hc]; [|lia].
    rewrite (Heq Hc). cbn [hgt]. lia.
  - destruct (rebalance_balanced s y (rebalance (Node l x r)) Ht0 Hb) as (_ & Hh2 & Heq); [lia|].
    eapply IH; [done|done|lia|exact Hz|]. cbn [hgt] in Hh2 |- *.
    destruct (decide (-1 <= hgt s - hgt (rebalance (Node l x r)) <= 1)) as [Hc|Hc]; [|lia].
    rewrite (Heq Hc). cbn [hgt]. lia.
Qed.

(** ** Trees in the store

    [tree_at h p t]: the nodes of [t] are linked in [h] as [t] says, with the
    parent pointer of the root [p] and every height and size field exact. *)
Fixpoint tree_at (h : gmap loc AVLNode) (p : ptr) (t : tree) : Prop :=
  match t with
  | Leaf => True
  | Node l x r =>
      h !! x = Some (mkAVL p (root_of l) (root_of r) (hgt t) (cnt t)) /\
      tree_at h (Some x) l /\ tree_at h (Some x) r
  end.

(** The same for a root whose [height] and [size] are not up to date. *)
Definition node_at (h : gmap loc AVLNode) (p : ptr) (l : tree) (x : loc) (r : tree) : Prop :=
  exists a b, h !! x = Some (mkAVL p (root_of l) (root_of r) a b) /\
    tree_at h (Some x) l /\ tree_at h (Some x) r.

(** The nodes above a position, whose [height] and [size] are not up to date;
    [c] is the pointer to the position. *)
Definition frame_at (h : gmap loc AVLNode) (p c : ptr) (f : frame) : Prop :=
  match f with
  | FL x r => (exists a b, h !! x = Some (mkAVL p c (root_of r) a b)) /\ tree_at h (Some x) r
  | FR l x => (exists a b, h !! x = Some (mkAVL p (root_of l) c a b)) /\ tree_at h (Some x) l
  end.

Fixpoint ctx_at (h : gmap loc AVLNode) (c : ptr) (fs : list frame) : Prop :=
  match fs with
  | [] => True
  | f :: fs => frame_at h (cparent fs) c f /\ ctx_at h (Some (flabel f)) fs
  end.

(** The nodes above a position with every field exact. *)
Fixpoint ctx_full (h : gmap loc AVLNode) (t : tree) (fs : list frame) : Prop :=
  match fs with
  | [] => True
  | f :: fs =>
      h !! flabel f = Some (mkAVL (cparent fs) (root_of (lft (plug f t))) (root_of (rgt (plug f t)))
                              (hgt (plug f t)) (cnt (plug f t))) /\
      tree_at h (Some (flabel f)) (fside f) /\ ctx_full h (plug f t) fs
  end.

Lemma tree_at_ext h h' p t :
  (forall x, x ∈ inorder t -> h' !! x = h !! x) -> tree_at h p t -> tree_at h' p t.
Proof.
  revert p. induction t as [|l IHl x r IHr]; intros p Hx; cbn [tree_at inorder]; [done|].
  intros (H & Hl & Hr). split; [|split].
  - rewrite Hx; [done|]. cbn. set_solver.
  - apply IHl; [|done]. intros y Hy. apply Hx. cbn. set_solver.
  - apply IHr; [|done]. intros y Hy. apply Hx. cbn. set_solver.
Qed.

Lemma tree_at_live h p t x : tree_at h p t -> x ∈ inorder t -> is_Some (h !! x).
Proof.
  revert p. induction t as [|l IHl y r IHr]; intros p; cbn; [by intros _ ?%elem_of_nil|].
  intros (H & Hl & Hr) [?|[->|?]%elem_of_cons]%elem_of_app; eauto.
Qed.

Lemma frame_at_ext h h' p c f :
  (forall x, x ∈ flabels f -> h' !! x = h !! x) -> frame_at h p c f -> frame_at h' p c f.
Proof.
  intros Hx. destruct f as [x r|l x]; cbn in *; intros [(a & b & H) Ht];
    (split; [exists a, b; rewrite Hx; [done|apply list_elem_of_here]|]);
    (eapply tree_at_ext; [|done]); intros y Hy; apply Hx; by apply list_elem_of_further.
Qed.

Lemma ctx_at_ext h h' c fs :
  (forall x, x ∈ clabels fs -> h' !! x = h !! x) -> ctx_at h c fs -> ctx_at h' c fs.
Proof.
  revert c. induction fs as [|f fs IH]; intros c Hx; cbn [ctx_at]; [done|].
  intros [Hf Hc]. split.
  - eapply frame_at_ext; [|done]. intros x Hy. apply Hx. cbn. set_solver.
  - apply IH; [|done]. intros x Hy. apply Hx. cbn. set_solver.
Qed.

Lemma ctx_full_ext h h' t fs :
  (forall x, x ∈ clabels fs -> h' !! x = h !! x) -> ctx_full h t fs -> ctx_full h' t fs.
Proof.
  revert t. induction fs as [|f fs IH]; intros t Hx; cbn [ctx_full]; [done|].
  assert (Hf : forall y, y ∈ flabels f -> h' !! y = h !! y) by (intros y Hy; apply Hx; cbn; set_solver).
  intros (Hn & Hs & Hc). split_and!.
  - rewrite Hf; [done|]. apply list_elem_of_here.
  - eapply tree_at_ext; [|done]. intros y Hy. apply Hf. by apply list_elem_of_further.
  - apply IH; [|done]. intros x Hy. apply Hx. cbn. set_solver.
Qed.

Lemma ctx_full_at h t fs : ctx_full h t fs -> ctx_at h (root_of t) fs.
Proof.
  revert t. induction fs as [|f fs IH]; intros t; cbn [ctx_full ctx_at]; [done|].
  intros (Hn & Hs & Hc). split.
  - destruct f; cbn in *; eauto.
  - apply IH in Hc. by destruct f.
Qed.

(** The context and the subtree of a position make the whole tree. *)
Lemma tree_at_zip h t fs :
  tree_at h NULL (zip t fs) <-> tree_at h (cparent fs) t /\ ctx_full h t fs.
Proof.
  revert t. induction fs as [|f fs IH]; intros t; cbn [zip ctx_full]; [cbn; tauto|].
  rewrite IH. destruct f; cbn; tauto.
Qed.

Lemma clabels_live h c fs x : ctx_at h c fs -> x ∈ clabels fs -> is_Some (h !! x).
Proof.
  revert c. induction fs as [|f fs IH]; intros c; cbn; [by intros _ ?%elem_of_nil|].
  intros [Hf Hc] Hx. destruct f as [y r|l y]; cbn in Hf, Hx; destruct Hf as [(a & b & Hy) Ht];
    apply elem_of_cons in Hx as [->|[Hx|Hx]%elem_of_app]; eauto using tree_at_live.
Qed.

(** ** Steps on the store *)

(** Rewrites a lookup in a store given by its updates. *)
Ltac lk := rewrite ?lookup_insert_ne by congruence;
  first [rewrite lookup_insert_eq; reflexivity | eassumption].
(** One [deref] or [update] of an operation. *)
Ltac hstep := first [erewrite deref_some by lk | erewrite update_some by lk]; cbn [mbind result_bind].

Definition no_overflow (t : tree) : Prop := cnt t < 2 ^ 32.

Lemma avl_height_rec_ok fuel h p t :
  tree_at h p t -> cnt t < 2 ^ 32 -> hgt t <= Z.of_nat fuel ->
  avl_height_rec fuel h (root_of t) = Ok (hgt t).
Proof.
  revert fuel p. induction t as [|l IHl x r IHr]; intros fuel p Ht Hc Hf; [by destruct fuel|].
  cbn in Hc, Hf. pose proof (hgt_range l). pose proof (hgt_range r).
  pose proof (cnt_length l). pose proof (cnt_length r).
  destruct fuel as [|fuel]; [lia|]. destruct Ht as (Hx & Hl & Hr). cbn [avl_height_rec root_of].
  rewrite (deref_some _ _ _ Hx). cbn [mbind result_bind avl_left avl_right].
  rewrite (IHl _ _ Hl) by lia. cbn [mbind result_bind]. rewrite (IHr _ _ Hr) by lia.
  cbn [mbind result_bind hgt]. by nowrap.
Qed.

Lemma avl_height_ok h p t :
  tree_at h p t -> NoDup (inorder t) -> cnt t < 2 ^ 32 -> avl_height h (root_of t) = Ok (hgt t).
Proof.
  intros Ht Hnd Hc. apply avl_height_rec_ok with (p := p); [done|done|].
  pose proof (hgt_range t). rewrite cnt_length in *.
  pose proof (keys_bound h (inorder t)) as Hb. etrans; [apply hgt_range|]. rewrite cnt_length.
  apply inj_le, Hb; [|done]. intros. by eapply tree_at_live.
Qed.

Lemma avl_size_ok h p t : tree_at h p t -> avl_size h (root_of t) = Ok (cnt t).
Proof. destruct t as [|l x r]; cbn [tree_at]; [done|]. intros (Hx & _). cbn [root_of avl_size]. by hstep. Qed.

Lemma NoDup_node l x r :
  NoDup (inorder (Node l x r)) <->
  NoDup (inorder l) /\ NoDup (inorder r) /\ (x ∉ inorder l) /\ (x ∉ inorder r) /\
  (forall y, y ∈ inorder l -> y ∉ inorder r).
Proof.
  cbn. rewrite NoDup_app, NoDup_cons. split.
  - intros (Hl & Hlr & Hx & Hr). split_and!; try done; set_solver.
  - intros (Hl & Hr & Hxl & Hxr & Hlr). split_and!; try done. set_solver.
Qed.

Lemma update_node_ok h p l x r :
  node_at h p l x r -> NoDup (inorder (Node l x r)) -> cnt (Node l x r) < 2 ^ 32 ->
  update_node h (Some x)
    = Ok (<[x := mkAVL p (root_of l) (root_of r) (hgt (Node l x r)) (cnt (Node l x r))]> h).
Proof.
  intros (a & b & Hx & Hl & Hr) (Hndl & Hndr & Hxl & Hxr & _)%NoDup_node Hc. cbn in Hc.
  pose proof (hgt_range l). pose proof (hgt_range r).
  unfold update_node. hstep. cbn [avl_left avl_right avl_cnt].
  rewrite (avl_height_ok h (Some x) l) by (done || lia). cbn [mbind result_bind].
  rewrite (avl_height_ok h (Some x) r) by (done || lia). cbn [mbind result_bind]. hstep.
  rewrite (avl_size_ok _ (Some x) l).
  2: { eapply tree_at_ext; [|exact Hl]. intros y Hy. rewrite lookup_insert_ne; [done|]. by intros ->. }
  cbn [mbind result_bind]. rewrite (avl_size_ok _ (Some x) r).
  2: { eapply tree_at_ext; [|exact Hr]. intros y Hy. rewrite lookup_insert_ne; [done|]. by intros ->. }
  cbn [mbind result_bind]. hstep. rewrite insert_insert_eq. unfold set_stats. cbn.
  cbn [hgt cnt]. by nowrap.
Qed.

(** [if (inner) inner->parent = q;] *)
Lemma reparent_ok h p q t :
  tree_at h p t -> NoDup (inorder t) ->
  exists h', (if root_of t is Some _ then update h (root_of t) (set_parent q) else Ok h) = Ok h' /\
    tree_at h' q t /\ forall z, root_of t <> Some z -> h' !! z = h !! z.
Proof.
  destruct t as [|l x r]; cbn [root_of tree_at].
  { intros _ _. by exists h. }
  intros (Hx & Hl & Hr) (_ & _ & Hxl & Hxr & _)%NoDup_node. hstep. eexists. split; [reflexivity|].
  split_and!.
  - by rewrite lookup_insert_eq.
  - eapply tree_at_ext; [|exact Hl]. intros y Hy. rewrite lookup_insert_ne; [done|]. by intros ->.
  - eapply tree_at_ext; [|exact Hr]. intros y Hy. rewrite lookup_insert_ne; [done|]. by intros ->.
  - intros z Hz. rewrite lookup_insert_ne; [done|]. congruence.
Qed.

Lemma root_elem t x : root_of t = Some x -> x ∈ inorder t.
Proof. destruct t; cbn; [done|]. intros [= ->]. set_solver. Qed.

Lemma tree_at_node h p l x r :
  node_at h p l x r -> NoDup (inorder (Node l x r)) ->
  tree_at (<[x := mkAVL p (root_of l) (root_of r) (hgt (Node l x r)) (cnt (Node l x r))]> h) p (Node l x r).
Proof.
  intros (a & b & Hx & Hl & Hr) (_ & _ & Hxl & Hxr & _)%NoDup_node. cbn [tree_at].
  rewrite lookup_insert_eq. split_and!; [done| |].
  - eapply tree_at_ext; [|exact Hl]. intros y Hy. rewrite lookup_insert_ne; [done|]. by intros ->.
  - eapply tree_at_ext; [|exact Hr]. intros y Hy. rewrite lookup_insert_ne; [done|]. by intros ->.
Qed.

Lemma tree_at_node_at h p l x r : tree_at h p (Node l x r) -> node_at h p l x r.
Proof. intros (Hx & Hl & Hr). by eexists _, _. Qed.

(** The node of a tree whose two subtrees were changed elsewhere. *)
Lemma node_at_ext h h' p l x r :
  (forall y, y ∈ inorder (Node l x r) -> h' !! y = h !! y) -> node_at h p l x r -> node_at h' p l x r.
Proof.
  intros Hy (a & b & Hx & Hl & Hr). exists a, b. split; [|split].
  - rewrite Hy; [done|]. cbn. set_solver.
  - eapply tree_at_ext; [|done]. intros z Hz. apply Hy. cbn. set_solver.
  - eapply tree_at_ext; [|done]. intros z Hz. apply Hy. cbn. set_solver.
Qed.

(** The labels around a rotation are apart. *)
Lemma apart_rotation a x b y c :
  NoDup (inorder (Node a x (Node b y c))) ->
  x <> y /\ NoDup (inorder (Node a x b)) /\ NoDup (inorder (Node b y c)) /\
  NoDup (inorder (Node (Node a x b) y c)) /\
  (x ∉ inorder a) /\ (x ∉ inorder b) /\ (x ∉ inorder c) /\
  (y ∉ inorder a) /\ (y ∉ inorder b) /\ (y ∉ inorder c) /\
  forall z, (z ∈ inorder a -> z ∉ inorder b) /\ (z ∈ inorder c -> z ∉ inorder b).
Proof.
  intros Hnd. pose proof Hnd as (Hnda & Hndr & Hxa & Hxr & Har)%NoDup_node.
  pose proof Hndr as (Hndb & Hndc & Hyb & Hyc & Hbc)%NoDup_node. cbn in Hxr, Har.
  split_and!; try done; [set_solver| | |set_solver|set_solver|set_solver|].
  - apply NoDup_node. split_and!; try done; set_solver.
  - cbn in Hnd |- *. by rewrite <- app_assoc.
  - intros z. split; set_solver.
Qed.

Lemma rotate_left_ok h p a x b y c :
  node_at h p a x (Node b y c) -> NoDup (inorder (Node a x (Node b y c))) ->
  cnt (Node a x (Node b y c)) < 2 ^ 32 ->
  exists h', rotate_left h (Some x) = Ok (h', Some y) /\ tree_at h' p (Node (Node a x b) y c) /\
    forall z, z ∉ inorder (Node a x (Node b y c)) -> h' !! z = h !! z.
Proof.
  intros (ha & hb & Hx & Ha & Hy & Hb & Hc) Hnd Hcnt. cbn [root_of] in Hx.
  apply apart_rotation in Hnd as
    (Hxy & Hnda & Hndb & Hndy & Hxa & Hxb & Hxc & Hya & Hyb & Hyc & Hap).
  pose proof (cnt_length a). pose proof (cnt_length b). pose proof (cnt_length c). cbn [cnt] in Hcnt.
  unfold rotate_left. hstep. cbn [avl_right]. hstep. cbn [avl_left]. do 5 hstep.
  match goal with |- context [update ?H _ (set_parent (Some x))] => set (H4 := H) end.
  assert (Hout : forall z, z <> x -> z <> y -> H4 !! z = h !! z)
    by (intros; subst H4; by rewrite !lookup_insert_ne).
  destruct (reparent_ok H4 (Some y) (Some x) b) as (H5 & E5 & Hb5 & H5o); [|by apply NoDup_node in Hndb as [? _]|].
  { eapply tree_at_ext; [|exact Hb]. intros z Hz. apply Hout; congruence. }
  cbn [set_parent set_left set_right avl_parent avl_left avl_right avl_hgt avl_cnt] in *.
  rewrite E5. cbn [mbind result_bind].
  assert (H5xy : forall z, z ∉ inorder b -> H5 !! z = H4 !! z).
  { intros z Hz. apply H5o. intros E. by apply Hz, root_elem. }
  assert (Hnx : node_at H5 (Some y) a x b).
  { eexists _, _. split; [rewrite H5xy by done; subst H4; lk|]. split; [|done].
    eapply tree_at_ext; [|exact Ha]. intros z Hz. rewrite H5xy by exact (proj1 (Hap z) Hz). apply Hout; congruence. }
  rewrite (update_node_ok H5 (Some y) a x b) by (done || (cbn [cnt]; lia)). cbn [mbind result_bind].
  match goal with |- context [update_node ?H _] => set (H6 := H) end.
  assert (Hny : node_at H6 p (Node a x b) y c).
  { eexists _, _. split; [|split; [by apply tree_at_node|]].
    - subst H6. rewrite lookup_insert_ne by done. rewrite H5xy by done. subst H4. lk.
    - eapply tree_at_ext; [|exact Hc]. intros z Hz. subst H6. rewrite lookup_insert_ne by congruence.
      rewrite H5xy by exact (proj2 (Hap z) Hz). apply Hout; congruence. }
  rewrite (update_node_ok H6 p (Node a x b) y c) by (done || (cbn [cnt]; lia)). cbn [mbind result_bind].
  eexists. split; [reflexivity|]. split; [by apply tree_at_node|].
  intros z Hz. cbn in Hz. rewrite lookup_insert_ne by set_solver. subst H6.
  rewrite lookup_insert_ne by set_solver. rewrite H5xy by set_solver. apply Hout; set_solver.
Qed.

Lemma rotate_right_ok h p a x b y c :
  node_at h p (Node a x b) y c -> NoDup (inorder (Node (Node a x b) y c)) ->
  cnt (Node (Node a x b) y c) < 2 ^ 32 ->
  exists h', rotate_right h (Some y) = Ok (h', Some x) /\ tree_at h' p (Node a x (Node b y c)) /\
    forall z, z ∉ inorder (Node (Node a x b) y c) -> h' !! z = h !! z.
Proof.
  intros (ha & hb & Hy & (Hx & Ha & Hb) & Hc) Hnd Hcnt. cbn [root_of] in Hy.
  assert (Hnd' : NoDup (inorder (Node a x (Node b y c)))) by (cbn in Hnd |- *; by rewrite <- app_assoc in Hnd).
  pose proof Hnd' as (Hxy & Hnda & Hndb & _ & Hxa & Hxb & Hxc & Hya & Hyb & Hyc & Hap)%apart_rotation.
  pose proof (cnt_length a). pose proof (cnt_length b). pose proof (cnt_length c). cbn [cnt] in Hcnt.
  unfold rotate_right. hstep. cbn [avl_left]. hstep. cbn [avl_right]. do 5 hstep.
  match goal with |- context [update ?H _ (set_parent (Some y))] => set (H4 := H) end.
  assert (Hout : forall z, z <> x -> z <> y -> H4 !! z = h !! z)
    by (intros; subst H4; by rewrite !lookup_insert_ne).
  destruct (reparent_ok H4 (Some x) (Some y) b) as (H5 & E5 & Hb5 & H5o); [|by apply NoDup_node in Hndb as [? _]|].
  { eapply tree_at_ext; [|exact Hb]. intros z Hz. apply Hout; congruence. }
  cbn [set_parent set_left set_right avl_parent avl_left avl_right avl_hgt avl_cnt] in *.
  rewrite E5. cbn [mbind result_bind].
  assert (H5xy : forall z, z ∉ inorder b -> H5 !! z = H4 !! z).
  { intros z Hz. apply H5o. intros E. by apply Hz, root_elem. }
  assert (Hny : node_at H5 (Some x) b y c).
  { eexists _, _. split; [rewrite H5xy by done; subst H4; lk|]. split; [done|].
    eapply tree_at_ext; [|exact Hc]. intros z Hz. rewrite H5xy by exact (proj2 (Hap z) Hz). apply Hout; congruence. }
  rewrite (update_node_ok H5 (Some x) b y c) by (done || (cbn [cnt]; lia)). cbn [mbind result_bind].
  match goal with |- context [update_node ?H _] => set (H6 := H) end.
  assert (Hnx : node_at H6 p a x (Node b y c)).
  { eexists _, _. split; [|split; [|by apply tree_at_node]].
    - subst H6. rewrite lookup_insert_ne by done. rewrite H5xy by done. subst H4. lk.
    - eapply tree_at_ext; [|exact Ha]. intros z Hz. subst H6. rewrite lookup_insert_ne by congruence.
      rewrite H5xy by exact (proj1 (Hap z) Hz). apply Hout; congruence. }
  rewrite (update_node_ok H6 p a x (Node b y c)) by (done || (cbn [cnt]; lia)). cbn [mbind result_bind].
  eexists. split; [reflexivity|]. split; [by apply tree_at_node|].
  intros z Hz. cbn in Hz. rewrite lookup_insert_ne by set_solver. subst H6.
  rewrite lookup_insert_ne by set_solver. rewrite H5xy by set_solver. apply Hout; set_solver.
Qed.

(** *** The rebalancing walk *)

(** A step that turns the subtree [t] into [t'] and touches nothing else. *)
Definition turns (h : gmap loc AVLNode) (p : ptr) (t t' : tree) (r : result (gmap loc AVLNode * ptr)) : Prop :=
  exists h', r = Ok (h', root_of t') /\ tree_at h' p t' /\ forall z, z ∉ inorder t -> h' !! z = h !! z.

(** The child of a node is replaced by a tree with other links. *)
Lemma node_at_set_left h h1 p l l' x r :
  node_at h p l x r -> tree_at h1 (Some x) l' -> NoDup (inorder (Node l x r)) ->
  inorder l' = inorder l -> (forall z, z ∉ inorder l -> h1 !! z = h !! z) ->
  exists h2, update h1 (Some x) (set_left (root_of l')) = Ok h2 /\ node_at h2 p l' x r /\
    forall z, z ∉ inorder (Node l x r) -> h2 !! z = h !! z.
Proof.
  intros (a & b & Hx & Hl & Hr) Hl' (_ & _ & Hxl & Hxr & Hlr)%NoDup_node Hin Hout.
  assert (Hx1 : h1 !! x = Some (mkAVL p (root_of l) (root_of r) a b)) by (by rewrite Hout).
  hstep. eexists. split; [reflexivity|]. split.
  - exists a, b. split; [by rewrite lookup_insert_eq|]. split.
    + eapply tree_at_ext; [|exact Hl']. intros z Hz. rewrite lookup_insert_ne; [done|].
      intros ->. rewrite Hin in Hz. done.
    + eapply tree_at_ext; [|exact Hr]. intros z Hz. rewrite lookup_insert_ne by congruence.
      apply Hout. intros ?. by apply (Hlr z).
  - intros z Hz. cbn in Hz. rewrite lookup_insert_ne by set_solver. apply Hout. set_solver.
Qed.

Lemma node_at_set_right h h1 p l x r r' :
  node_at h p l x r -> tree_at h1 (Some x) r' -> NoDup (inorder (Node l x r)) ->
  inorder r' = inorder r -> (forall z, z ∉ inorder r -> h1 !! z = h !! z) ->
  exists h2, update h1 (Some x) (set_right (root_of r')) = Ok h2 /\ node_at h2 p l x r' /\
    forall z, z ∉ inorder (Node l x r) -> h2 !! z = h !! z.
Proof.
  intros (a & b & Hx & Hl & Hr) Hr' (_ & _ & Hxl & Hxr & Hlr)%NoDup_node Hin Hout.
  assert (Hx1 : h1 !! x = Some (mkAVL p (root_of l) (root_of r) a b)) by (by rewrite Hout).
  hstep. eexists. split; [reflexivity|]. split.
  - exists a, b. split; [by rewrite lookup_insert_eq|]. split.
    + eapply tree_at_ext; [|exact Hl]. intros z Hz. rewrite lookup_insert_ne by congruence.
      apply Hout. by apply Hlr.
    + eapply tree_at_ext; [|exact Hr']. intros z Hz. rewrite lookup_insert_ne; [done|].
      intros ->. rewrite Hin in Hz. done.
  - intros z Hz. cbn in Hz. rewrite lookup_insert_ne by set_solver. apply Hout. set_solver.
Qed.

Lemma fix_left_ok h p ll lx lr x r :
  let l := Node ll lx lr in let t := Node l x r in
  tree_at h p t -> NoDup (inorder t) -> cnt t < 2 ^ 32 ->
  turns h p t (rotr (Node (if hgt ll <? hgt lr then rotl l else l) x r)) (fix_left h (Some x)).
Proof.
  intros l t Ht Hnd Hc. pose proof Ht as (Hx & (Hlx & Hll & Hlr) & Hr).
  pose proof Hnd as (Hndl & _ & _)%NoDup_node. pose proof Hndl as (Hndll & Hndlr & _)%NoDup_node.
  assert (Hcl : cnt l < 2 ^ 32 /\ cnt ll < 2 ^ 32 /\ cnt lr < 2 ^ 32).
  { pose proof (cnt_length ll). pose proof (cnt_length lr). pose proof (cnt_length r).
    subst l t. cbn [cnt] in *. lia. }
  unfold fix_left. change (root_of l) with (Some lx) in Hx. hstep. cbn [avl_left]. hstep. cbn [avl_left avl_right].
  rewrite (avl_height_ok h (Some lx) ll) by (done || lia). cbn [mbind result_bind].
  rewrite (avl_height_ok h (Some lx) lr) by (done || lia). cbn [mbind result_bind].
  destruct (Z.ltb_spec (hgt ll) (hgt lr)) as [Hlt|Hge].
  - destruct lr as [|b y c]; [pose proof (hgt_range ll); cbn in Hlt; lia|].
    destruct (rotate_left_ok h (Some x) ll lx b y c) as (h1 & -> & Ht1 & Ho1);
      [by apply tree_at_node_at|done|apply Hcl|]. cbn [mbind result_bind].
    destruct (node_at_set_left h h1 p l (Node (Node ll lx b) y c) x r) as (h2 & E & Hn2 & Ho2);
      [by apply tree_at_node_at|done|done|subst l; cbn; by rewrite <- !app_assoc|done|].
    cbn [root_of] in E. rewrite E. cbn [mbind result_bind].
    assert (Hin : inorder (Node (Node (Node ll lx b) y c) x r) = inorder t)
      by (change (Node (Node ll lx b) y c) with (rotl l); subst t; cbn [inorder]; by rewrite inorder_rotl).
    destruct (rotate_right_ok h2 p (Node ll lx b) y c x r) as (h3 & -> & Ht3 & Ho3);
      [done|by rewrite Hin|subst t l; cbn [cnt] in *; lia|].
    exists h3. split; [done|]. split; [done|]. intros z Hz. rewrite Ho3 by (by rewrite Hin). by apply Ho2.
  - cbn [mbind result_bind]. destruct (rotate_right_ok h p ll lx lr x r) as (h3 & -> & Ht3 & Ho3);
      [by apply tree_at_node_at|done|done|]. by exists h3.
Qed.

Lemma fix_right_ok h p l x rl rx rr :
  let r := Node rl rx rr in let t := Node l x r in
  tree_at h p t -> NoDup (inorder t) -> cnt t < 2 ^ 32 ->
  turns h p t (rotl (Node l x (if hgt rr <? hgt rl then rotr r else r))) (fix_right h (Some x)).
Proof.
  intros r t Ht Hnd Hc. pose proof Ht as (Hx & Hl & (Hrx & Hrl & Hrr)).
  pose proof Hnd as (_ & Hndr & _)%NoDup_node. pose proof Hndr as (Hndrl & Hndrr & _)%NoDup_node.
  assert (Hcr : cnt r < 2 ^ 32 /\ cnt rl < 2 ^ 32 /\ cnt rr < 2 ^ 32).
  { pose proof (cnt_length rl). pose proof (cnt_length rr). pose proof (cnt_length l).
    subst r t. cbn [cnt] in *. lia. }
  unfold fix_right. change (root_of r) with (Some rx) in Hx. hstep. cbn [avl_right]. hstep. cbn [avl_left avl_right].
  rewrite (avl_height_ok h (Some rx) rr) by (done || lia). cbn [mbind result_bind].
  rewrite (avl_height_ok h (Some rx) rl) by (done || lia). cbn [mbind result_bind].
  destruct (Z.ltb_spec (hgt rr) (hgt rl)) as [Hlt|Hge].
  - destruct rl as [|a y b]; [pose proof (hgt_range rr); cbn in Hlt; lia|].
    destruct (rotate_right_ok h (Some x) a y b rx rr) as (h1 & -> & Ht1 & Ho1);
      [by apply tree_at_node_at|done|apply Hcr|]. cbn [mbind result_bind].
    destruct (node_at_set_right h h1 p l x r (Node a y (Node b rx rr))) as (h2 & E & Hn2 & Ho2);
      [by apply tree_at_node_at|done|done|subst r; cbn; by rewrite <- !app_assoc|done|].
    cbn [root_of] in E. rewrite E. cbn [mbind result_bind].
    assert (Hin : inorder (Node l x (Node a y (Node b rx rr))) = inorder t)
      by (change (Node a y (Node b rx rr)) with (rotr r); subst t; cbn [inorder]; by rewrite inorder_rotr).
    destruct (rotate_left_ok h2 p l x a y (Node b rx rr)) as (h3 & -> & Ht3 & Ho3);
      [done|by rewrite Hin|subst t r; cbn [cnt] in *; lia|].
    exists h3. split; [done|]. split; [done|]. intros z Hz. rewrite Ho3 by (by rewrite Hin). by apply Ho2.
  - cbn [mbind result_bind]. destruct (rotate_left_ok h p l x rl rx rr) as (h3 & -> & Ht3 & Ho3);
      [by apply tree_at_node_at|done|done|]. by exists h3.
Qed.

(** The branches of [avl_fix] on a node whose fields are up to date. *)
Lemma rebalance_ok h p l x r :
  tree_at h p (Node l x r) -> NoDup (inorder (Node l x r)) -> cnt (Node l x r) < 2 ^ 31 ->
  turns h p (Node l x r) (rebalance (Node l x r))
    (if hgt l =? u32 (hgt r + 2) then fix_left h (Some x)
     else if hgt r =? u32 (hgt l + 2) then fix_right h (Some x) else Ok (h, Some x)).
Proof.
  intros Ht Hnd Hc. pose proof (hgt_range l). pose proof (hgt_range r).
  assert (Hcc : 1 + cnt l + cnt r < 2 ^ 31) by done. unfold rebalance. nowrap.
  destruct (Z.eqb_spec (hgt l) (hgt r + 2)); [|destruct (Z.eqb_spec (hgt r) (hgt l + 2))].
  - destruct l as [|ll lx lr]; [cbn in *; lia|]. apply fix_left_ok; [done|done|lia].
  - destruct r as [|rl rx rr]; [cbn in *; lia|]. apply fix_right_ok; [done|done|lia].
  - by exists h.
Qed.

(** [from] is computed before the rotations, the assignment through it comes
    after them. *)
Lemma ctx_set h x fs :
  ctx_at h (Some x) fs -> x ∉ clabels fs -> NoDup (clabels fs) ->
  exists b, match cparent fs with
      | Some _ => p ← deref h (cparent fs); Ok (bool_decide (avl_left p = Some x))
      | None => Ok false end = Ok b /\
    forall h1 c, (forall z, z ∈ clabels fs -> h1 !! z = h !! z) ->
    exists h', match cparent fs with
      | Some _ => update h1 (cparent fs) (if (b : bool) then set_left c else set_right c)
      | None => Ok h1 end = Ok h' /\ ctx_at h' c fs /\
    forall z, z ∉ clabels fs -> h' !! z = h1 !! z.
Proof.
  destruct fs as [|f fs]; cbn [cparent ctx_at].
  { intros _ _ _. exists false. split; [done|]. intros h1 c _. by exists h1. }
  change (clabels (f :: fs)) with (flabels f ++ clabels fs).
  intros [Hf Hc] Hx (Hndf & Hff & _)%NoDup_app.
  assert (Hf1 : flabel f ∉ inorder (fside f)) by (by apply NoDup_cons in Hndf as [? _]).
  assert (Hf2 : flabel f ∉ clabels fs) by apply Hff, list_elem_of_here.
  assert (Hgo : forall h1 n, (forall z, z ∈ flabels f ++ clabels fs -> h1 !! z = h !! z) ->
    (forall p t, tree_at h p t -> t = fside f -> tree_at (<[flabel f := n]> h1) p t) /\
    ctx_at (<[flabel f := n]> h1) (Some (flabel f)) fs /\
    forall z, z ∉ flabels f ++ clabels fs -> <[flabel f := n]> h1 !! z = h1 !! z).
  { intros h1 n H1. split_and!.
    - intros p t Ht ->. eapply tree_at_ext; [|exact Ht]. intros z Hz.
      rewrite lookup_insert_ne by (intros <-; by apply Hf1). apply H1. unfold flabels. set_solver.
    - eapply ctx_at_ext; [|exact Hc]. intros z Hz.
      rewrite lookup_insert_ne by (intros <-; by apply Hf2). apply H1. set_solver.
    - intros z Hz. rewrite lookup_insert_ne; [done|]. intros <-. apply Hz. unfold flabels. set_solver. }
  destruct f as [y r|l y]; cbn [flabel fside frame_at] in *; destruct Hf as [(a & b & Hy) Ht].
  - exists true. hstep. rewrite bool_decide_true by done. split; [done|]. intros h1 c H1.
    assert (Hy1 : h1 !! y = Some (mkAVL (cparent fs) (Some x) (root_of r) a b))
      by (rewrite H1; [done|cbn; set_solver]).
    hstep. eexists. split; [reflexivity|].
    destruct (Hgo h1 (set_left c (mkAVL (cparent fs) (Some x) (root_of r) a b)) H1) as (G1 & G2 & G3).
    split; [|done]. split; [|done]. split; [eexists _, _; by rewrite lookup_insert_eq|by apply G1].
  - exists false. hstep. cbn [avl_left]. rewrite bool_decide_false.
    2: { intros E. apply Hx. apply root_elem in E. cbn. set_solver. }
    split; [done|]. intros h1 c H1.
    assert (Hy1 : h1 !! y = Some (mkAVL (cparent fs) (root_of l) (Some x) a b))
      by (rewrite H1; [done|cbn; set_solver]).
    hstep. eexists. split; [reflexivity|].
    destruct (Hgo h1 (set_right c (mkAVL (cparent fs) (root_of l) (Some x) a b)) H1) as (G1 & G2 & G3).
    split; [|done]. split; [|done]. split; [eexists _, _; by rewrite lookup_insert_eq|by apply G1].
Qed.

Lemma fix_step_ok h l x r fs :
  node_at h (cparent fs) l x r -> ctx_at h (Some x) fs ->
  NoDup (inorder (Node l x r) ++ clabels fs) -> cnt (Node l x r) < 2 ^ 31 ->
  exists h', fix_step h (Some x) = Ok (h', root_of (rebalance (Node l x r)), cparent fs) /\
    tree_at h' (cparent fs) (rebalance (Node l x r)) /\
    ctx_at h' (root_of (rebalance (Node l x r))) fs /\
    forall z, z ∉ inorder (Node l x r) ++ clabels fs -> h' !! z = h !! z.
Proof.
  intros Hn Hctx Hnd Hc. pose proof Hnd as (Hndt & Hdisj & Hndc)%NoDup_app.
  pose proof Hndt as (Hndl & Hndr & _)%NoDup_node. pose proof Hn as (a & b & Hx & Hl & Hr).
  assert (Hxc : x ∉ clabels fs) by (apply Hdisj; cbn; set_solver).
  destruct (ctx_set h x fs Hctx Hxc Hndc) as (fl & Hfl & Hset).
  pose proof (hgt_range l). pose proof (hgt_range r). assert (Hcc : 1 + cnt l + cnt r < 2 ^ 31) by done.
  unfold fix_step. hstep. cbn [avl_parent avl_left avl_right]. rewrite Hfl. cbn [mbind result_bind].
  rewrite (avl_height_ok h (Some x) l) by (done || lia). cbn [mbind result_bind].
  rewrite (avl_height_ok h (Some x) r) by (done || lia). cbn [mbind result_bind].
  rewrite (update_node_ok h (cparent fs) l x r) by (done || lia). cbn [mbind result_bind].
  destruct (rebalance_ok _ _ l x r (tree_at_node _ _ _ _ _ Hn Hndt) Hndt Hc) as (h1 & E & Ht1 & Ho1).
  rewrite E. cbn [mbind result_bind].
  assert (Hxi : x ∈ inorder (Node l x r)) by (cbn; set_solver).
  assert (Hout : forall z, z ∉ inorder (Node l x r) -> h1 !! z = h !! z).
  { intros z Hz. rewrite Ho1 by done. rewrite lookup_insert_ne; [done|]. congruence. }
  destruct (Hset h1 (root_of (rebalance (Node l x r)))) as (h' & -> & Hc' & Ho').
  { intros z Hz. apply Hout. intros Hz'. by apply (Hdisj z). }
  exists h'. split; [done|]. split; [|split; [done|]].
  - eapply tree_at_ext; [|exact Ht1]. intros z Hz. apply Ho'.
    rewrite inorder_rebalance in Hz. by apply Hdisj.
  - intros z [Hz Hz']%not_elem_of_app. by rewrite Ho', Hout.
Qed.

Lemma cnt_zip t fs : cnt (zip t fs) = cnt t + Z.of_nat (length (clabels fs)).
Proof.
  rewrite !cnt_length. rewrite (Permutation_length (inorder_zip_perm t fs)), length_app. lia.
Qed.

Lemma length_clabels fs : (length fs <= length (clabels fs))%nat.
Proof.
  induction fs as [|f fs IH]; [done|]. change (clabels (f :: fs)) with (flabels f ++ clabels fs).
  rewrite length_app. cbn [length flabels]. lia.
Qed.

(** The next position of the walk: the parent, with the subtree below it. *)
Lemma node_at_plug h p t f :
  tree_at h (Some (flabel f)) t -> frame_at h p (root_of t) f ->
  exists l r, plug f t = Node l (flabel f) r /\ node_at h p l (flabel f) r.
Proof.
  intros Ht Hf. destruct f as [y s|s y]; cbn [plug flabel frame_at] in *;
    destruct Hf as [(a & b & Hy) Hs]; eexists _, _; (split; [reflexivity|]); by exists a, b.
Qed.

Lemma avl_fix_loop_ok fuel h l x r fs :
  node_at h (cparent fs) l x r -> ctx_at h (Some x) fs ->
  NoDup (inorder (Node l x r) ++ clabels fs) -> cnt (zip (Node l x r) fs) < 2 ^ 31 ->
  (length fs < fuel)%nat ->
  turns h NULL (zip (Node l x r) fs) (fix_up (Node l x r) fs) (avl_fix_loop fuel h (Some x)).
Proof.
  revert h l x r fuel. induction fs as [|f fs IH]; intros h l x r fuel Hn Hctx Hnd Hc Hf;
    (destruct fuel as [|fuel]; [lia|]); cbn [avl_fix_loop];
    (destruct (fix_step_ok h l x r _ Hn Hctx Hnd) as (h' & -> & Ht & Hcx & Ho);
      [rewrite cnt_zip in Hc; lia|]); cbn [mbind result_bind cparent].
  - exists h'. split; [done|]. split; [done|]. intros z Hz. apply Ho. cbn [clabels]. by rewrite app_nil_r.
  - cbn [ctx_at cparent] in Hcx, Ht. destruct Hcx as [Hfr Hcx].
    destruct (node_at_plug h' _ _ f Ht Hfr) as (l' & r' & E & Hn'). cbn [fix_up zip] in *. rewrite E.
    assert (Hin : inorder (Node l' (flabel f) r') = inorder (plug f (Node l x r))).
    { rewrite <- E. apply inorder_plug, inorder_rebalance. }
    assert (Hperm : inorder (Node l' (flabel f) r') ++ clabels fs
              ≡ₚ inorder (Node l x r) ++ clabels (f :: fs)).
    { rewrite Hin, inorder_plug_perm. by rewrite <- app_assoc. }
    destruct (IH h' l' (flabel f) r' fuel Hn' Hcx) as (h2 & -> & Ht2 & Ho2);
      [by rewrite Hperm| |cbn in Hf; lia|].
    + rewrite cnt_length. rewrite (inorder_zip _ (plug f (Node l x r)) fs Hin). by rewrite <- cnt_length.
    + exists h2. split; [done|]. split; [done|]. intros z Hz.
      rewrite Ho2 by (by rewrite (inorder_zip _ (plug f (Node l x r)) fs Hin)).
      apply Ho. rewrite <- Hperm. by rewrite Hin, <- inorder_zip_perm.
Qed.

Lemma avl_fix_ok h l x r fs :
  node_at h (cparent fs) l x r -> ctx_at h (Some x) fs ->
  NoDup (inorder (zip (Node l x r) fs)) -> cnt (zip (Node l x r) fs) < 2 ^ 31 ->
  turns h NULL (zip (Node l x r) fs) (fix_up (Node l x r) fs) (avl_fix h (Some x)).
Proof.
  intros Hn Hc Hnd Hcnt. rewrite inorder_zip_perm in Hnd. apply avl_fix_loop_ok; try done.
  pose proof (keys_bound h (inorder (Node l x r) ++ clabels fs)) as Hb.
  rewrite length_app in Hb. pose proof (length_clabels fs). cbn in Hb. rewrite length_app in Hb. cbn in Hb.
  enough (length (inorder l) + S (length (inorder r)) + length (clabels fs) <= size h)%nat by lia.
  apply Hb; [|done]. intros z [Hz|Hz]%elem_of_app; [|by eapply clabels_live].
  destruct Hn as (a & b & Hx & Hl & Hr). apply elem_of_app in Hz as [?|[->|?]%elem_of_cons];
    eauto using tree_at_live.
Qed.

(** ** Removing a node with at most one child *)

Definition del_up (t : tree) (fs : list frame) : tree :=
  match fs with [] => t | f :: fs => fix_up (plug f t) fs end.

Lemma inorder_del_up t fs : inorder (del_up t fs) = inorder (zip t fs).
Proof. destruct fs; cbn; [done|]. apply inorder_fix_up. Qed.

Lemma del_up_balanced t t0 fs :
  balanced (zip t0 fs) -> balanced t -> -1 <= hgt t - hgt t0 <= 1 -> balanced (del_up t fs).
Proof.
  destruct fs as [|f fs]; cbn [zip del_up]; [done|]. intros Hz Ht Hh.
  pose proof (balanced_focus _ _ Hz) as Hp.
  destruct f as [y s|s y]; cbn [plug] in *; destruct Hp as (Hd & Ha & Hb).
  - destruct (rebalance_balanced t y s Ht Hb) as (_ & H1 & H2); [lia|].
    eapply fix_up_balanced; [done|done|lia|exact Hz|]. cbn [hgt] in H1 |- *.
    destruct (decide (-1 <= hgt t - hgt s <= 1)) as [Hc|Hc]; [rewrite (H2 Hc); cbn [hgt]; lia|lia].
  - destruct (rebalance_balanced s y t Ha Ht) as (_ & H1 & H2); [lia|].
    eapply fix_up_balanced; [done|done|lia|exact Hz|]. cbn [hgt] in H1 |- *.
    destruct (decide (-1 <= hgt s - hgt t <= 1)) as [Hc|Hc]; [rewrite (H2 Hc); cbn [hgt]; lia|lia].
Qed.

(** The only child of a node. *)
Definition child_of (l r : tree) : tree := match l with Leaf => r | _ => l end.

Lemma inorder_child l r : l = Leaf \/ r = Leaf -> inorder (child_of l r) = inorder l ++ inorder r.
Proof. intros [-> | ->]; [done|]. destruct l; cbn; by rewrite ?app_nil_r. Qed.

Lemma root_child l r :
  (if root_of l is Some _ then root_of l else root_of r) = root_of (child_of l r).
Proof. by destruct l. Qed.

Lemma del_simple_ok h l x r fs :
  tree_at h NULL (zip (Node l x r) fs) -> l = Leaf \/ r = Leaf ->
  NoDup (inorder (zip (Node l x r) fs)) -> cnt (zip (Node l x r) fs) < 2 ^ 31 ->
  turns h NULL (zip (child_of l r) fs) (del_up (child_of l r) fs) (del_simple h (Some x)).
Proof.
  intros [Ht Hcf]%tree_at_zip Hlr Hnd Hc. pose proof (ctx_full_at _ _ _ Hcf) as Hctx.
  rewrite inorder_zip_perm in Hnd. pose proof Hnd as (Hndt & Hdisj & Hndc)%NoDup_app.
  pose proof Ht as (Hx & Hl & Hr). pose proof Hndt as (Hndl & Hndr & Hxl & Hxr & _)%NoDup_node.
  set (t0 := child_of l r). pose proof (inorder_child l r Hlr) as Hin. fold t0 in Hin.
  assert (Ht0 : tree_at h (Some x) t0) by (subst t0; destruct Hlr as [-> | ->]; [done|by destruct l]).
  assert (Hnd0 : NoDup (inorder t0)) by (subst t0; destruct Hlr as [-> | ->]; [done|by destruct l]).
  assert (Hx0 : x ∉ inorder t0) by (rewrite Hin; set_solver).
  unfold del_simple. hstep. cbn [avl_left avl_right avl_parent].
  assert (bool_decide (root_of l = NULL) || bool_decide (root_of r = NULL) = true) as ->.
  { destruct Hlr as [-> | ->]; cbn; [done|]. by rewrite orb_true_r. }
  cbn [check mbind result_bind]. rewrite root_child. fold t0.
  destruct (reparent_ok h (Some x) (cparent fs) t0 Ht0 Hnd0) as (h1 & -> & Ht1 & Ho1).
  cbn [mbind result_bind].
  assert (Hout1 : forall z, z ∉ inorder t0 -> h1 !! z = h !! z).
  { intros z Hz. apply Ho1. intros E. by apply Hz, root_elem. }
  assert (Hd0 : forall z, z ∈ clabels fs -> z ∉ inorder t0).
  { intros z Hz Hz'. apply (Hdisj z); [|done]. rewrite Hin in Hz'. cbn. set_solver. }
  destruct (ctx_set h x fs) as (b & Hb & Hset); [done| |done|].
  { apply Hdisj. cbn. set_solver. }
  destruct (Hset h1 (root_of t0)) as (h2 & E2 & Hc2 & Ho2).
  { intros z Hz. apply Hout1. auto. }
  destruct fs as [|f fs]; cbn [cparent zip del_up] in *.
  { exists h1. split; [done|]. split; [done|]. done. }
  destruct (deref h1 (Some (flabel f))) as [pn|] eqn:Epn.
  2: { exfalso. destruct Hctx as [Hf _]. cbn in Epn. rewrite Hout1 in Epn by (apply Hd0; cbn; set_solver).
       destruct f; cbn in Hf, Epn; destruct Hf as [(? & ? & E) _]; by rewrite E in Epn. }
  assert (deref h (Some (flabel f)) = Ok pn) as Epn'.
  { rewrite <- Epn. cbn. by rewrite Hout1 by (apply Hd0; cbn; set_solver). }
  rewrite Epn' in Hb. cbn [mbind result_bind] in Hb |- *. injection Hb as <-. rewrite E2.
  cbn [mbind result_bind].
  assert (Ht2 : tree_at h2 (Some (flabel f)) t0).
  { eapply tree_at_ext; [|exact Ht1]. intros z Hz. apply Ho2. intros ?. by apply (Hd0 z). }
  destruct Hc2 as [Hf2 Hc2]. destruct (node_at_plug h2 _ _ f Ht2 Hf2) as (l' & r' & E & Hn').
  assert (Hperm : inorder (zip (plug f t0) fs) ≡ₚ inorder t0 ++ clabels (f :: fs))
    by apply (inorder_zip_perm t0 (f :: fs)).
  rewrite E in *. destruct (avl_fix_ok h2 l' (flabel f) r' fs Hn' Hc2) as (h3 & -> & Ht3 & Ho3).
  - rewrite Hperm. apply NoDup_app. split_and!; [done| |done]. intros z Hz Hz'. by apply (Hd0 z).
  - pose proof (Permutation_length Hperm) as Hpl. rewrite cnt_length, Hpl, length_app, Hin, length_app.
    change (zip (plug f (Node l x r)) fs) with (zip (Node l x r) (f :: fs)) in Hc.
    rewrite cnt_zip in Hc. cbn [cnt] in Hc. rewrite !cnt_length in Hc. lia.
  - exists h3. split; [done|]. split; [done|]. intros z Hz. rewrite Ho3 by done.
    rewrite Hperm in Hz. apply not_elem_of_app in Hz as [Hz1 Hz2]. by rewrite Ho2, Hout1.
Qed.

(** ** Removing any node *)

Lemma zip_app t gs fs : zip t (gs ++ fs) = zip (zip t gs) fs.
Proof. revert t. induction gs as [|g gs IH]; intros t; cbn; [done|]. apply IH. Qed.

Lemma zip_find t x : x ∈ inorder t -> exists l r fs, t = zip (Node l x r) fs.
Proof.
  induction t as [|l IHl y r IHr]; cbn; [by intros ?%elem_of_nil|].
  intros [H|[->|H]%elem_of_cons]%elem_of_app.
  - destruct (IHl H) as (l' & r' & fs & ->). exists l', r', (fs ++ [FL y r]). by rewrite zip_app.
  - by exists l, r, [].
  - destruct (IHr H) as (l' & r' & fs & ->). exists l', r', (fs ++ [FR l y]). by rewrite zip_app.
Qed.

(** The first node of a tree and the loop that finds it. *)
Lemma leftmost_ok t :
  t <> Leaf -> exists v rr gs, t = zip (Node Leaf v rr) gs /\
    inorder t = v :: inorder (zip rr gs) /\
    forall h p fuel, tree_at h p t -> hgt t <= Z.of_nat fuel -> leftmost fuel h (root_of t) = Ok (Some v).
Proof.
  induction t as [|l IHl x r _]; [done|]. intros _. destruct l as [|ll lx lr].
  - exists x, r, []. split; [done|]. split; [done|]. intros h p fuel (Hx & _) Hf.
    pose proof (hgt_range r). cbn in Hf. destruct fuel as [|fuel]; [lia|]. cbn [leftmost root_of]. by hstep.
  - destruct IHl as (v & rr & gs & E & Hin & Hlm); [done|].
    exists v, rr, (gs ++ [FL x r]). rewrite !zip_app. cbn [zip plug]. split; [by rewrite <- E|].
    split; [cbn [inorder]; cbn [inorder] in Hin; by rewrite Hin|].
    intros h p fuel (Hx & Hl & _) Hf. pose proof (hgt_range (Node ll lx lr)). pose proof (hgt_range r).
    set (l := Node ll lx lr) in *. cbn [hgt] in Hf. destruct fuel as [|fuel]; [lia|].
    cbn [leftmost root_of]. hstep. cbn [avl_left]. change (root_of l) with (Some lx). cbn iota.
    apply (Hlm h (Some x)); [done|lia].
Qed.

(** The tree with the label of one node replaced has the same shape. *)
Lemma hgt_zip t t' fs : hgt t = hgt t' -> hgt (zip t fs) = hgt (zip t' fs).
Proof.
  revert t t'. induction fs as [|f fs IH]; intros t t' E; cbn [zip]; [done|].
  apply IH. destruct f; cbn [plug hgt]; by rewrite E.
Qed.

Lemma balanced_zip t t' fs :
  hgt t = hgt t' -> balanced t' -> balanced (zip t fs) -> balanced (zip t' fs).
Proof.
  revert t t'. induction fs as [|f fs IH]; intros t t' E Hb Hz; cbn [zip] in *; [done|].
  pose proof (balanced_focus _ _ Hz) as Hp. eapply IH; [|..|exact Hz];
    destruct f; cbn [plug hgt balanced] in *; rewrite <- ?E; tauto.
Qed.

Lemma cnt_relabel l d r v : cnt (Node l d r) = cnt (Node l v r).
Proof. done. Qed.

Lemma root_zip t t' fs : fs <> [] -> root_of (zip t fs) = root_of (zip t' fs).
Proof.
  destruct fs as [|f fs]; [done|]. intros _. cbn [zip].
  assert (H : root_of (plug f t) = root_of (plug f t')) by (by destruct f).
  revert H. generalize (plug f t), (plug f t'). clear. induction fs as [|f fs IH]; intros a b H; cbn; [done|].
  apply IH. by destruct f.
Qed.

(** Everything above a position stays exact when the subtree is replaced by
    one of the same height and size. *)
Lemma ctx_full_swap h h' d v l r fs :
  ctx_full h (Node l d r) fs -> NoDup (clabels fs) ->
  (forall z, z ∈ clabels fs -> cparent fs <> Some z -> h' !! z = h !! z) ->
  (forall f fs', fs = f :: fs' -> h' !! flabel f
     = Some (mkAVL (cparent fs') (root_of (lft (plug f (Node l v r)))) (root_of (rgt (plug f (Node l v r))))
               (hgt (plug f (Node l d r))) (cnt (plug f (Node l d r))))) ->
  ctx_full h' (Node l v r) fs.
Proof.
  destruct fs as [|f fs]; [done|]. cbn [ctx_full cparent]. intros (Hf & Hs & Hc) Hnd Hout Hnew.
  change (clabels (f :: fs)) with (flabels f ++ clabels fs) in *.
  apply NoDup_app in Hnd as (Hndf & Hd & Hndc). cbn in Hndf. apply NoDup_cons in Hndf as [Hff _].
  split_and!.
  - rewrite (Hnew f fs eq_refl). by destruct f.
  - eapply tree_at_ext; [|exact Hs]. intros z Hz. apply Hout; [cbn; set_solver|congruence].
  - assert (Hc' : ctx_full h' (plug f (Node l d r)) fs).
    { eapply ctx_full_ext; [|exact Hc]. intros z Hz. apply Hout; [set_solver|].
      intros [= <-]. apply (Hd (flabel f)); [cbn; set_solver|done]. }
    clear -Hc'. assert (H : root_of (plug f (Node l d r)) = root_of (plug f (Node l v r)) /\
      hgt (plug f (Node l d r)) = hgt (plug f (Node l v r)) /\
      cnt (plug f (Node l d r)) = cnt (plug f (Node l v r))) by (by destruct f).
    revert H Hc'. generalize (plug f (Node l d r)), (plug f (Node l v r)). clear.
    induction fs as [|g fs IH]; intros a b (E1 & E2 & E3); cbn [ctx_full]; [done|].
    intros (Hg & Hs & Hc). split_and!; [|done|].
    + rewrite Hg. destruct g; cbn [plug lft rgt hgt cnt]; by rewrite E1, E2, E3.
    + eapply IH; [|exact Hc]. destruct g; cbn [plug root_of hgt cnt]; by rewrite E2, E3.
Qed.

(** The parent of [to_delete] is made to point at [victim]. *)
Lemma replace_parent h h3 l d r f fs v :
  ctx_full h (Node l d r) (f :: fs) -> NoDup (clabels (f :: fs)) -> d ∉ clabels (f :: fs) ->
  (forall z, z ∈ clabels (f :: fs) -> h3 !! z = h !! z) ->
  exists p h', deref h3 (Some (flabel f)) = Ok p /\
    update h3 (Some (flabel f)) (if bool_decide (avl_left p = Some d)
                                 then set_left (Some v) else set_right (Some v)) = Ok h' /\
    ctx_full h' (Node l v r) (f :: fs) /\ forall z, z <> flabel f -> h' !! z = h3 !! z.
Proof.
  intros Hcf Hnd Hd H3. pose proof Hcf as (Hf & Hs & Hc).
  assert (Hfc : flabel f ∈ clabels (f :: fs)) by (cbn; set_solver).
  rewrite <- (H3 _ Hfc) in Hf. eexists _, _. split; [by apply deref_some|].
  split; [by apply update_some|].
  split; [|intros z Hz; by rewrite lookup_insert_ne].
  eapply ctx_full_swap; [exact Hcf|done| |].
  - intros z Hz Hzf. cbn in Hzf. rewrite lookup_insert_ne by congruence. by apply H3.
  - intros g fs' [= <- <-]. rewrite lookup_insert_eq. f_equal.
    destruct f as [y s|s y]; cbn [plug lft rgt avl_left root_of]; [by rewrite bool_decide_true|].
    rewrite bool_decide_false; [done|]. intros E. apply Hd. apply root_elem in E. cbn. set_solver.
Qed.

(** [victim] takes the place of [to_delete]. *)
Lemma replace_ok h l d r fs v root :
  tree_at h NULL (zip (Node l d r) fs) -> NoDup (v :: inorder (Node l d r) ++ clabels fs) ->
  is_Some (h !! v) -> root = root_of (zip (Node l d r) fs) ->
  exists h', replace_node h root (Some d) (Some v) = Ok (h', root_of (zip (Node l v r) fs)) /\
    tree_at h' NULL (zip (Node l v r) fs) /\
    forall z, z <> v -> z ∉ inorder (Node l d r) ++ clabels fs -> h' !! z = h !! z.
Proof.
  intros [(Hd & Hl & Hr) Hcf]%tree_at_zip [Hv Hnd]%NoDup_cons [vn Hvn] ->.
  apply NoDup_app in Hnd as (Hndt & Hdisj & Hndc). apply not_elem_of_app in Hv as [Hvt Hvc].
  pose proof Hndt as (Hndl & Hndr & Hdl & Hdr & Hlr)%NoDup_node.
  assert (Hvs : v <> d /\ (v ∉ inorder l) /\ (v ∉ inorder r)) by (cbn in Hvt; set_solver).
  destruct Hvs as (Hvd & Hvl & Hvr).
  unfold replace_node. hstep. hstep. hstep. cbn [avl_left].
  set (h1 := <[v := _]> h).
  destruct (reparent_ok h1 (Some d) (Some v) l) as (h2 & -> & Hl2 & Ho2); [|done|].
  { eapply tree_at_ext; [|exact Hl]. intros z Hz. subst h1. rewrite lookup_insert_ne; congruence. }
  assert (H2 : forall z, z ∉ inorder l -> h2 !! z = h1 !! z).
  { intros z Hz. apply Ho2. intros E. by apply Hz, root_elem. }
  cbn [mbind result_bind]. rewrite (deref_some h2 v (mkAVL (cparent fs) (root_of l) (root_of r) (hgt (Node l d r)) (cnt (Node l d r))))
    by (rewrite H2 by done; subst h1; by rewrite lookup_insert_eq). cbn [mbind result_bind avl_right].
  destruct (reparent_ok h2 (Some d) (Some v) r) as (h3 & -> & Hr3 & Ho3); [|done|].
  { eapply tree_at_ext; [|exact Hr]. intros z Hz. rewrite H2 by (intros ?; by apply (Hlr z)).
    subst h1. rewrite lookup_insert_ne; congruence. }
  assert (H3 : forall z, z ∉ inorder r -> h3 !! z = h2 !! z).
  { intros z Hz. apply Ho3. intros E. by apply Hz, root_elem. }
  assert (Hv3 : h3 !! v = Some (mkAVL (cparent fs) (root_of l) (root_of r) (hgt (Node l d r)) (cnt (Node l d r))))
    by (rewrite H3, H2 by done; subst h1; by rewrite lookup_insert_eq).
  cbn [mbind result_bind]. rewrite (deref_some _ _ _ Hv3). cbn [mbind result_bind avl_parent].
  assert (Ht3 : tree_at h3 (cparent fs) (Node l v r)).
  { split; [done|]. split; [|done]. eapply tree_at_ext; [|exact Hl2]. intros z Hz. apply H3. by apply Hlr. }
  assert (Hout : forall z, z <> v -> z ∉ inorder (Node l d r) -> h3 !! z = h !! z).
  { intros z Hz Hzt. cbn in Hzt. rewrite H3, H2 by set_solver. subst h1. by rewrite lookup_insert_ne. }
  assert (Hctx : forall z, z ∈ clabels fs -> h3 !! z = h !! z).
  { intros z Hz. apply Hout; [congruence|]. intros Hz'. by apply (Hdisj z). }
  destruct fs as [|f fs]; cbn [cparent] in *.
  { exists h3. split; [done|]. split; [done|]. intros z Hz Hz'. apply Hout; set_solver. }
  destruct (replace_parent h h3 l d r f fs v) as (pn & h' & -> & E & Hcf' & Ho'); [done|done| |done|].
  { apply Hdisj. cbn. set_solver. }
  cbn [mbind result_bind]. rewrite E. cbn [mbind result_bind]. exists h'.
  rewrite (root_zip (Node l d r) (Node l v r)) by done. split; [done|].
  assert (Hfc : flabel f ∈ clabels (f :: fs)) by (cbn; set_solver).
  split; [apply tree_at_zip; split; [|done]|].
  - eapply tree_at_ext; [|exact Ht3]. intros z Hz. apply Ho'. intros ->. cbn in Hz.
    apply elem_of_app in Hz as [Hz|[Hz|Hz]%elem_of_cons]; [|congruence|];
      (eapply Hdisj; [|exact Hfc]; cbn; set_solver).
  - intros z Hz [Hz1 Hz2]%not_elem_of_app. rewrite Ho' by congruence. by apply Hout.
Qed.

(** [t'] is [t] without [x], in the same order. *)
Definition without (x : loc) (t t' : tree) : Prop :=
  exists a b, inorder t = a ++ x :: b /\ inorder t' = a ++ b.

Lemma without_perm x t t' : without x t t' -> inorder t ≡ₚ x :: inorder t'.
Proof. intros (a & b & -> & ->). by rewrite Permutation_middle. Qed.

Lemma child_balanced l x r :
  balanced (Node l x r) -> l = Leaf \/ r = Leaf ->
  balanced (child_of l r) /\ hgt (child_of l r) = hgt (Node l x r) - 1.
Proof.
  intros (Hd & Hl & Hr) Hlr. pose proof (hgt_range l). pose proof (hgt_range r).
  destruct Hlr as [-> | ->]; [cbn in *; split; [done|lia]|].
  destruct l; cbn [child_of hgt] in *; (split; [done|lia]).
Qed.

(** What [del_simple] does to the tree. *)
Lemma del_up_without l x r fs :
  l = Leaf \/ r = Leaf -> without x (zip (Node l x r) fs) (del_up (child_of l r) fs).
Proof.
  intros Hlr. destruct (inorder_zip_split fs) as (a & b & Hz). rewrite <- (app_nil_r b) in Hz.
  exists (a ++ inorder l), (inorder r ++ b). rewrite inorder_del_up, !Hz, inorder_child by done.
  cbn [inorder]. rewrite app_nil_r. split; by rewrite <- ?app_assoc.
Qed.

Lemma split_unique {A} (x : A) a b a' b' :
  NoDup (a ++ x :: b) -> a ++ x :: b = a' ++ x :: b' -> a = a' /\ b = b'.
Proof.
  revert a'. induction a as [|y a IH]; intros [|y' a'] Hnd E; cbn in *; simplify_eq; [done|..].
  - exfalso. apply NoDup_cons in Hnd as [Hnd _]. set_solver.
  - exfalso. apply NoDup_cons in Hnd as [Hnd _]. set_solver.
  - apply NoDup_cons in Hnd as [_ Hnd]. destruct (IH a') as [-> ->]; auto.
Qed.

Lemma inorder_relabel l d r v fs a b :
  NoDup (a ++ d :: b) -> inorder (zip (Node l d r) fs) = a ++ d :: b ->
  inorder (zip (Node l v r) fs) = a ++ v :: b.
Proof.
  destruct (inorder_zip_split fs) as (a' & b' & Hz). rewrite !Hz. cbn [inorder].
  rewrite <- app_assoc. cbn [app]. intros Hnd E. rewrite app_assoc in E.
  destruct (split_unique d a b (a' ++ inorder l) (inorder r ++ b') Hnd (eq_sym E)) as [-> ->].
  by rewrite <- !app_assoc.
Qed.

(** The last [avl_fix] of [avl_del], on a balanced tree. *)
Lemma avl_fix_root h t :
  tree_at h NULL t -> NoDup (inorder t) -> balanced t -> cnt t < 2 ^ 31 -> t <> Leaf ->
  turns h NULL t t (avl_fix h (root_of t)).
Proof.
  intros Ht Hnd Hb Hc Hne. destruct t as [|l x r]; [done|].
  destruct (avl_fix_ok h l x r []) as (h' & E & Ht' & Ho); [by apply tree_at_node_at|done..|].
  cbn [fix_up zip] in *. destruct Hb as (Hd & Hl & Hr).
  destruct (rebalance_balanced l x r Hl Hr) as (_ & _ & Heq); [lia|]. rewrite (Heq Hd) in E, Ht'.
  exists h'. by split_and!.
Qed.

(** The node [v], out of the tree, takes the place of [x]. *)
Lemma replace_fix h t x v a b :
  tree_at h NULL t -> balanced t -> inorder t = a ++ x :: b -> NoDup (v :: a ++ x :: b) -> is_Some (h !! v) ->
  Z.of_nat (length (a ++ x :: b)) < 2 ^ 31 ->
  exists h' t', ('(h, root) ← replace_node h (root_of t) (Some x) (Some v); avl_fix h root) = Ok (h', root_of t') /\
    tree_at h' NULL t' /\ balanced t' /\ inorder t' = a ++ v :: b /\ forall z, z ∉ v :: a ++ x :: b -> h' !! z = h !! z.
Proof.
  intros Ht Hb Hin Hnd Hv Hc. destruct (zip_find t x) as (l & r & fs & E); [rewrite Hin; set_solver|].
  assert (Hp : inorder (Node l x r) ++ clabels fs ≡ₚ a ++ x :: b) by (by rewrite <- Hin, E, inorder_zip_perm).
  destruct (replace_ok h l x r fs v (root_of t)) as (h1 & -> & Ht1 & Ho1);
    [by rewrite <- E|by rewrite Hp|done|by rewrite E|].
  cbn [mbind result_bind]. set (t1 := zip (Node l v r) fs) in *.
  assert (Hb1 : balanced t1).
  { rewrite E in Hb. eapply balanced_zip; [|..|exact Hb]; [done|]. by pose proof (balanced_focus _ _ Hb). }
  assert (Hin1 : inorder t1 = a ++ v :: b).
  { apply (inorder_relabel l x r); [|by rewrite <- E]. by apply NoDup_cons in Hnd as [_ ?]. }
  assert (Hpt : inorder t1 ++ [x] ≡ₚ v :: a ++ x :: b).
  { rewrite Hin1, <- app_assoc. cbn. rewrite <- (Permutation_middle a _ v). by rewrite (Permutation_app_comm b [x]). }
  destruct (avl_fix_root h1 t1 Ht1) as (h2 & -> & Ht2 & Ho2).
  - rewrite <- Hpt in Hnd. by apply NoDup_app in Hnd as [? _].
  - done.
  - rewrite cnt_length, Hin1. rewrite !length_app in *. cbn in *. lia.
  - intros E1. by rewrite E1 in Hin1; destruct a.
  - exists h2, t1. split_and!; try done. intros z Hz. rewrite Ho2 by (rewrite Hin1; set_solver).
    apply Ho1; [set_solver|rewrite Hp; set_solver].
Qed.

(** The order of a tree without the successor [v] of [x]. *)
Lemma successor_order l x r v rr gs fs :
  inorder r = v :: inorder (zip rr gs) ->
  exists a b, inorder (zip (Node l x r) fs) = a ++ x :: v :: b /\
    inorder (del_up rr (gs ++ FR l x :: fs)) = a ++ x :: b.
Proof.
  intros Hin. rewrite inorder_del_up, zip_app. cbn [zip plug].
  destruct (inorder_zip_split fs) as (a & b & Hz). exists (a ++ inorder l), (inorder (zip rr gs) ++ b).
  rewrite !Hz. cbn [inorder]. rewrite Hin. cbn. by rewrite <- !app_assoc.
Qed.

(** [avl_del] of a node with two children. *)
Lemma avl_del_inner h l x r fs :
  let t := zip (Node l x r) fs in
  tree_at h NULL t -> NoDup (inorder t) -> balanced t -> cnt t < 2 ^ 31 -> l <> Leaf -> r <> Leaf ->
  exists h' t', avl_del h (Some x) = Ok (h', root_of t') /\ tree_at h' NULL t' /\ balanced t' /\
    without x t t' /\ forall z, z ∉ inorder t -> h' !! z = h !! z.
Proof.
  intros t Ht Hnd Hb Hc Hl Hr. pose proof Ht as [(Hx & Htl & Htr) _]%tree_at_zip.
  destruct (leftmost_ok r Hr) as (v & rr & gs & Er & Hin & Hlm).
  unfold avl_del. hstep. cbn [avl_left avl_right].
  rewrite !bool_decide_false by (by destruct l; destruct r). cbn [orb].
  assert (Hszr : (length (inorder r) <= size h)%nat).
  { apply keys_bound; [intros; by eapply tree_at_live|].
    subst t. rewrite inorder_zip_perm in Hnd. apply NoDup_app in Hnd as (Hnd & _). by apply NoDup_node in Hnd as (_ & ? & _). }
  rewrite (Hlm h (Some x)) by (done || (pose proof (hgt_range r); rewrite cnt_length in *; lia)).
  cbn [mbind result_bind].
  destruct (successor_order l x r v rr gs fs Hin) as (a & b & Hina & Hin1). fold t in Hina.
  set (fs1 := gs ++ FR l x :: fs) in *. assert (Et : t = zip (Node Leaf v rr) fs1).
  { subst t fs1. rewrite zip_app. cbn [zip plug]. by rewrite <- Er. }
  rewrite Et in Ht, Hnd, Hb, Hc.
  destruct (del_simple_ok h Leaf v rr fs1) as (h1 & -> & Ht1 & Ho1); [by auto..|].
  cbn [mbind result_bind child_of] in *. rewrite <- Et, Hina in Hnd. rewrite <- inorder_del_up, Hin1 in Ho1.
  assert (Hnd1 : NoDup (v :: a ++ x :: b)).
  { revert Hnd. by rewrite Permutation_middle, (Permutation_swap x v). }
  assert (Hv1 : h1 !! v = h !! v) by (apply Ho1; by apply NoDup_cons in Hnd1 as [? _]).
  destruct (replace_fix h1 (del_up rr fs1) x v a b Ht1) as (h2 & t2 & -> & Ht2 & Hb2 & Hin2 & Ho2); try done.
  - pose proof (balanced_focus _ _ Hb) as (Hd & _ & Hrr). eapply del_up_balanced; [exact Hb|done|].
    cbn [hgt] in *. pose proof (hgt_range rr). lia.
  - rewrite Hv1. eapply tree_at_live; [exact Ht|]. rewrite <- Et, Hina. set_solver.
  - rewrite <- Et, cnt_length, Hina in Hc. rewrite !length_app in *. cbn [length] in *. lia.
  - exists h2, t2. split_and!; try done; [exists a, (v :: b); by rewrite Hina, Hin2|].
    intros z Hz. rewrite Hina in Hz. rewrite Ho2 by set_solver. apply Ho1. set_solver.
Qed.

(** [avl_fix] on a node that was just linked as a leaf. *)
Lemma avl_fix_leaf_ok h x fs :
  node_at h (cparent fs) Leaf x Leaf -> ctx_at h (Some x) fs -> balanced (zip Leaf fs) ->
  NoDup (inorder (zip (Node Leaf x Leaf) fs)) -> cnt (zip (Node Leaf x Leaf) fs) < 2 ^ 31 ->
  exists h' t, avl_fix h (Some x) = Ok (h', root_of t) /\ tree_at h' NULL t /\ balanced t /\
    inorder t = inorder (zip (Node Leaf x Leaf) fs) /\
    forall z, z ∉ inorder t -> h' !! z = h !! z.
Proof.
  intros Hn Hc Hb Hnd Hcnt. destruct (avl_fix_ok h Leaf x Leaf fs) as (h' & E & Ht & Ho); [done..|].
  exists h', (fix_up (Node Leaf x Leaf) fs). rewrite inorder_fix_up. split_and!; try done.
  by eapply fix_up_balanced; [..|exact Hb|].
Qed.

(** [avl_del] of any node. *)
Lemma avl_del_ok h t x :
  tree_at h NULL t -> NoDup (inorder t) -> balanced t -> cnt t < 2 ^ 31 -> x ∈ inorder t ->
  exists h' t', avl_del h (Some x) = Ok (h', root_of t') /\ tree_at h' NULL t' /\ balanced t' /\
    without x t t' /\ forall z, z ∉ inorder t -> h' !! z = h !! z.
Proof.
  intros Ht Hnd Hb Hc (l & r & fs & ->)%zip_find.
  destruct (decide (root_of l = NULL \/ root_of r = NULL)) as [Hlr|Hlr].
  2: { apply avl_del_inner; try done; intros ->; naive_solver. }
  assert (Hlr' : l = Leaf \/ r = Leaf) by (destruct Hlr; [left; by destruct l|right; by destruct r]).
  destruct (del_simple_ok h l x r fs) as (h' & E & Ht' & Ho); [done..|].
  exists h', (del_up (child_of l r) fs). split_and!; try done.
  - unfold avl_del. apply tree_at_zip in Ht as [(Hx & _) _]. hstep. cbn [avl_left avl_right].
    assert (bool_decide (root_of l = NULL) || bool_decide (root_of r = NULL) = true) as ->; [|done].
    destruct Hlr as [-> | ->]; [done|apply orb_true_r].
  - destruct (child_balanced l x r (balanced_focus _ _ Hb) Hlr').
    eapply del_up_balanced; [exact Hb|done|lia].
  - by apply del_up_without.
  - intros z Hz. apply Ho. rewrite <- inorder_del_up. intros Hz'. apply Hz.
    rewrite (without_perm _ _ _ (del_up_without l x r fs Hlr')). set_solver.
Qed.

(** ** Properties *)

(** C6: [avl_fix] called on a node that was just linked as a leaf of a
    balanced tree terminates without a fault and leaves a balanced tree with
    the same order of nodes, in which every parent pointer, height and subtree
    size is exact; nothing outside the tree is written. *)
Theorem avl_fix_after_insert h x fs :
  node_at h (cparent fs) Leaf x Leaf -> ctx_at h (Some x) fs -> balanced (zip Leaf fs) ->
  NoDup (inorder (zip (Node Leaf x Leaf) fs)) -> cnt (zip (Node Leaf x Leaf) fs) < 2 ^ 31 ->
  exists h' t, avl_fix h (Some x) = Ok (h', root_of t) /\ tree_at h' NULL t /\ balanced t /\
    inorder t = inorder (zip (Node Leaf x Leaf) fs) /\
    forall z, z ∉ inorder t -> h' !! z = h !! z.
Proof. apply avl_fix_leaf_ok. Qed.

(** C24: [avl_del] of any node of a balanced tree (a leaf, one child, two
    children with the successor moved up) terminates without a fault; the tree
    left is balanced with exact parent pointers, heights and sizes, and holds
    the other nodes in the same order; nothing outside the tree is written. *)
Theorem avl_del_correct h t x :
  tree_at h NULL t -> NoDup (inorder t) -> balanced t -> cnt t < 2 ^ 31 -> x ∈ inorder t ->
  exists h' t', avl_del h (Some x) = Ok (h', root_of t') /\ tree_at h' NULL t' /\ balanced t' /\
    without x t t' /\ forall z, z ∉ inorder t -> h' !! z = h !! z.
Proof. apply avl_del_ok. Qed.

(** Balanced trees of height [k] have at least [2^(k/2) - 1] nodes. *)
Lemma balanced_cnt t : balanced t -> 2 ^ (hgt t / 2) <= cnt t + 1.
Proof.
  remember (Z.to_nat (hgt t)) as n eqn:En. revert t En. induction (lt_wf n) as [n _ IH].
  intros [|l x r] En Hb; [done|]. destruct Hb as (Hd & Hl & Hr). cbn [hgt cnt] in *.
  pose proof (hgt_range l). pose proof (hgt_range r).
  set (m := Z.max (hgt l) (hgt r)) in *.
  pose proof (IH (Z.to_nat (hgt l)) ltac:(lia) l eq_refl Hl) as Hcl.
  pose proof (IH (Z.to_nat (hgt r)) ltac:(lia) r eq_refl Hr) as Hcr.
  destruct (decide (m = 0)) as [->|Hm]; [change (2 ^ ((1 + 0) / 2)) with 1; lia|].
  replace ((1 + m) / 2) with (1 + (m - 1) / 2)
    by (replace (1 + m) with (m - 1 + 1 * 2) by lia; rewrite Z.div_add; lia).
  assert (0 <= (m - 1) / 2) by (apply Z.div_pos; lia).
  rewrite Z.pow_add_r by lia. change (2 ^ 1) with 2.
  assert (2 ^ ((m - 1) / 2) <= 2 ^ (hgt l / 2))
    by (apply Z.pow_le_mono_r; [lia|apply Z.div_le_mono; lia]).
  assert (2 ^ ((m - 1) / 2) <= 2 ^ (hgt r / 2))
    by (apply Z.pow_le_mono_r; [lia|apply Z.div_le_mono; lia]).
  lia.
Qed.

(** The height [avl_height] computes is logarithmic in the number of
    nodes, and [avl_size] of the root is that number. *)
Theorem avl_height_log h p t :
  tree_at h p t -> NoDup (inorder t) -> balanced t -> cnt t < 2 ^ 31 ->
  exists k, avl_height h (root_of t) = Ok k /\ 2 ^ (k / 2) <= cnt t + 1 /\
    avl_size h (root_of t) = Ok (Z.of_nat (length (inorder t))).
Proof.
  intros Ht Hnd Hb Hc. exists (hgt t). split; [eapply avl_height_ok; [done|done|lia]|].
  split; [by apply balanced_cnt|]. by rewrite (avl_size_ok h p), cnt_length.
Qed.

(** ** Witnesses *)

(** Nodes 1, 2, 3 in a row to the right, 3 just linked. *)
Definition row3 : gmap loc AVLNode :=
  {[ 1%positive := mkAVL None None (Some 2%positive) 2 2;
     2%positive := mkAVL (Some 1%positive) None (Some 3%positive) 1 1;
     3%positive := mkAVL (Some 2%positive) None None 1 1 ]}.

Definition row3_ctx : list frame := [FR Leaf 2; FR Leaf 1].

Lemma avl_fix_after_insert_witness :
  exists h' t, avl_fix row3 (Some 3%positive) = Ok (h', root_of t) /\ tree_at h' NULL t /\ balanced t /\
    inorder t = [1; 2; 3]%positive /\ forall z, z ∉ inorder t -> h' !! z = row3 !! z.
Proof.
  apply (avl_fix_after_insert row3 3 row3_ctx).
  - by exists 1, 1.
  - cbn. split_and!; try done; by eexists _, _.
  - cbn. lia.
  - by_compute.
  - done.
Defined.

(** A full tree of three nodes; the root is removed. *)
Definition full3 : gmap loc AVLNode :=
  {[ 2%positive := mkAVL None (Some 1%positive) (Some 3%positive) 2 3;
     1%positive := mkAVL (Some 2%positive) None None 1 1;
     3%positive := mkAVL (Some 2%positive) None None 1 1 ]}.
Definition full3_tree : tree := Node (Node Leaf 1 Leaf) 2 (Node Leaf 3 Leaf).

Lemma full3_at : tree_at full3 NULL full3_tree.
Proof. by cbn. Qed.

Lemma avl_del_correct_witness :
  exists h' t', avl_del full3 (Some 2%positive) = Ok (h', root_of t') /\ tree_at h' NULL t' /\
    balanced t' /\ without 2 full3_tree t' /\ forall z, z ∉ inorder full3_tree -> h' !! z = full3 !! z.
Proof.
  apply (avl_del_correct full3 full3_tree 2); [apply full3_at|by_compute|cbn; lia|done|by_compute].
Defined.

Lemma avl_height_log_witness :
  exists k, avl_height full3 (Some 2%positive) = Ok k /\ 2 ^ (k / 2) <= 3 + 1 /\
    avl_size full3 (Some 2%positive) = Ok 3.
Proof.
  apply (avl_height_log full3 NULL full3_tree); [apply full3_at|by_compute|cbn; lia|done].
Defined.
