(* ===== verification/Hll.v ===== *)
(** * HyperLogLog values: [src/src/data_structures/hyperloglog.cpp], [hyperloglog.h]

    A HyperLogLog is kept in the buffer of a [dstr]: a 16-byte header (magic,
    encoding, cached cardinality) followed by the registers.  [buf] is an
    array of [char], which is signed on the platform. *)

From Stdlib Require Import QArith Qround.
From S2P Require Import Prelude Dstr Hash.

Local Close Scope Q_scope.
Local Open Scope Z_scope.

Definition HLL_P : Z := 14.
Definition HLL_Q : Z := 64 - HLL_P.
Definition REGISTER_CNT : Z := 16384.
Definition HLL_HEADER_SIZE_BYTES : Z := 16.
Definition HLL_DENSE_SIZE_BYTES : Z := 6 * REGISTER_CNT / 8.
Definition HLL_SPARSE_MAX_BYTES : Z := 3000.

Inductive HLLEncoding := HLL_DENSE | HLL_SPARSE.

Definition enc_byte (e : HLLEncoding) : Z := match e with HLL_DENSE => 0 | HLL_SPARSE => 1 end.

(** The bytes of ["HYLL"]. *)
Definition HYLL : list Z := [72; 89; 76; 76].

(** [hll->buf[i]], as an unsigned byte and as the [char] it is. *)
Definition buf_get (hll : dstr) (i : Z) : result Z :=
  bs ← read_at i 1 (d_buf hll);
  need (head bs) OutOfBounds.

Definition buf_char (hll : dstr) (i : Z) : result Z :=
  b ← buf_get hll i; Ok (if b <? 128 then b else b - 256).

Definition buf_put (hll : dstr) (i v : Z) : result dstr :=
  b ← write_at i [u8 v] (d_buf hll); Ok (mkDstr (d_size hll) (d_free hll) b).

(** Access to the written bytes at the start of a block. *)
Lemma buf_get_at hll (bs : list Z) (rest : list cell) i b :
  d_buf hll = (Some <$> bs) ++ rest -> 0 <= i -> bs !! Z.to_nat i = Some b -> buf_get hll i = Ok b.
Proof.
  intros Hb Hi Hl. pose proof (lookup_lt_Some _ _ _ Hl). unfold buf_get, read_at.
  rewrite Hb, length_app, length_fmap. zbool. cbn [andb].
  rewrite drop_app_le, <- fmap_drop, (drop_S _ b) by (rewrite ?length_fmap; (done || lia)). done.
Qed.

Lemma buf_put_at hll (bs : list Z) (rest : list cell) i v :
  d_buf hll = (Some <$> bs) ++ rest -> 0 <= i < Z.of_nat (length bs) ->
  buf_put hll i v = Ok (mkDstr (d_size hll) (d_free hll) ((Some <$> <[Z.to_nat i := u8 v]> bs) ++ rest)).
Proof.
  intros Hb Hi. unfold buf_put. rewrite write_at_spec by (rewrite ?Hb, ?length_app, ?length_fmap; cbn; lia).
  cbn [mbind result_bind fmap list_fmap list_inserts]. rewrite Hb, insert_app_l by (rewrite length_fmap; lia).
  by rewrite list_fmap_insert.
Qed.

(** [memmove(buf + dst, buf + src, n)]: bytes that were never written may be
    moved. *)
Definition move_at (dst src n : Z) (b : list cell) : result (list cell) :=
  if (0 <=? dst) && (0 <=? src) && (0 <=? n) && (dst + n <=? Z.of_nat (length b))
     && (src + n <=? Z.of_nat (length b))
  then Ok (list_inserts (Z.to_nat dst) (take (Z.to_nat n) (drop (Z.to_nat src) b)) b)
  else Fault OutOfBounds.

(** ** The header *)

Definition get_enc (hll : dstr) : result Z := buf_get hll 4.

Definition cache_valid (hll : dstr) : result bool := b ← buf_get hll 15; Ok (negb (Z.testbit b 7)).

Definition invalidate_cache (hll : dstr) : result dstr := b ← buf_get hll 15; buf_put hll 15 (Z.lor b 128).

Fixpoint put_bytes (n : nat) (hll : dstr) (i value : Z) : result dstr :=
  match n with
  | O => Ok hll
  | S n => hll ← buf_put hll i (Z.land value 255); put_bytes n hll (i + 1) (Z.shiftr value 8)
  end.

Definition set_cache (hll : dstr) (value : Z) : result dstr :=
  _ ← check (value <? 2 ^ 63) AssertFailed; put_bytes 8 hll 8 value.

Fixpoint get_bytes (n : nat) (hll : dstr) (i shift : Z) : result Z :=
  match n with
  | O => Ok 0
  | S n => b ← buf_get hll i; v ← get_bytes n hll (i + 1) (shift + 8); Ok (Z.lor (Z.shiftl b shift) v)
  end.

Definition get_cache (hll : dstr) : result Z :=
  v ← cache_valid hll; _ ← check v AssertFailed; get_bytes 8 hll 8 0.

(** ** Flags of the sparse encoding *)

Definition is_val (flag : Z) : bool := Z.testbit flag 7.
Definition is_zero (flag : Z) : bool := negb (Z.testbit flag 7) && negb (Z.testbit flag 6).
Definition val_value (flag : Z) : Z := Z.shiftr (Z.land flag 127) 2 + 1.
Definition val_cnt (flag : Z) : Z := Z.land flag 3 + 1.
Definition zero_cnt (flag : Z) : Z := u8 (flag + 1).
Definition xzero_cnt (msb lsb : Z) : Z := Z.lor (Z.shiftl (Z.land msb (Z.lnot 64)) 8) lsb + 1.

(** ** Initialisation *)

(** The common part of [hll_init] and [dense_init]: a zeroed block of [n]
    bytes with the header. *)
Definition hll_header (n : Z) (enc : HLLEncoding) : result dstr :=
  match dstr_init true n with
  | inl _ => Fault NullDeref
  | inr hll =>
      b ← write_at 0 (replicate (Z.to_nat n) 0) (d_buf hll);
      b ← write_at 0 HYLL b;
      let hll := mkDstr (d_size hll) (d_free hll) b in
      hll ← buf_put hll 4 (enc_byte enc);
      b15 ← buf_get hll 15;
      buf_put hll 15 (Z.lor b15 128)
  end.

Definition hll_init : result dstr :=
  hll ← hll_header (HLL_HEADER_SIZE_BYTES + 2) HLL_SPARSE;
  let runlen := REGISTER_CNT - 1 in
  hll ← buf_put hll 16 (Z.lor 64 (Z.shiftr runlen 8));
  hll ← buf_put hll 17 (Z.land runlen 255);
  let hll := mkDstr (HLL_HEADER_SIZE_BYTES + 2) 0 (d_buf hll) in
  buf_put hll (d_size hll) 0.

Definition dense_init : result dstr :=
  let n := HLL_HEADER_SIZE_BYTES + HLL_DENSE_SIZE_BYTES in
  hll ← hll_header n HLL_DENSE;
  let hll := mkDstr n 0 (d_buf hll) in
  buf_put hll (d_size hll) 0.

(** A new value is a consistent string of 18 bytes: the sparse encoding with
    one run of zero registers over all of them. *)
Lemma hll_init_eq :
  hll_init = Ok (mkDstr 18 0 (Some <$> (HYLL ++ [1] ++ replicate 10 0 ++ [128; 127; 255; 0]))).
Proof. reflexivity. Qed.

(** ** The dense encoding *)

(** The byte and the bit where a register starts. *)
Definition reg_byte (reg_no : Z) : Z := u32 (6 * reg_no) / 8 + HLL_HEADER_SIZE_BYTES.
Definition reg_bit (reg_no : Z) : Z := u32 (6 * reg_no) mod 8.

(** [uint32_t buf0 = hll->buf[b0]] extends the sign of the [char]. *)
Definition get_reg (hll : dstr) (reg_no : Z) : result Z :=
  let b0 := reg_byte reg_no in
  let fb := reg_bit reg_no in
  buf0 ← buf_char hll b0;
  buf1 ← buf_char hll (b0 + 1);
  let reg := Z.lor (Z.shiftr (u32 buf0) fb) (u32 (Z.shiftl (u32 buf1) (8 - fb))) in
  Ok (Z.land reg 255).

Definition set_reg (hll : dstr) (reg_no value : Z) : result dstr :=
  let b0 := reg_byte reg_no in
  let fb := reg_bit reg_no in
  buf0 ← buf_char hll b0;
  buf1 ← buf_char hll (b0 + 1);
  let buf0 := Z.land (u32 buf0) (u32 (Z.lnot (Z.shiftl 63 fb))) in
  let buf0 := Z.lor buf0 (u32 (Z.shiftl value fb)) in
  hll ← buf_put hll b0 (Z.land buf0 255);
  let buf1 := Z.land (u32 buf1) (u32 (Z.lnot (Z.shiftr 63 (8 - fb)))) in
  let buf1 := Z.lor buf1 (Z.shiftr value (8 - fb)) in
  buf_put hll (b0 + 1) (Z.land buf1 255).

Definition add_dense (hll : dstr) (reg_no val : Z) : result (dstr * Z) :=
  reg ← get_reg hll reg_no;
  if reg <? val then hll ← set_reg hll reg_no val; hll ← invalidate_cache hll; Ok (hll, 1)
  else Ok (hll, 0).

Fixpoint set_run (n : nat) (hll : dstr) (reg_no val : Z) : result (dstr * Z) :=
  match n with
  | O => Ok (hll, reg_no)
  | S n => hll ← set_reg hll reg_no val; set_run n hll (u32 (reg_no + 1)) val
  end.

(** After the [while (cnt--)] of a VAL flag [cnt] is 2^32 - 1. *)
Fixpoint densify_loop (fuel : nat) (hll dhll : dstr) (flag_no reg_no : Z) : result dstr :=
  if flag_no <? d_size hll then
    match fuel with
    | O => Fault OutOfFuel
    | S fuel =>
        flag ← buf_get hll flag_no;
        if is_val flag then
          '(dhll, reg_no) ← set_run (Z.to_nat (val_cnt flag)) dhll reg_no (val_value flag);
          densify_loop fuel hll dhll (flag_no + 1) (u32 (reg_no + (2 ^ 32 - 1)))
        else if is_zero flag then
          densify_loop fuel hll dhll (flag_no + 1) (u32 (reg_no + zero_cnt flag))
        else
          lsb ← buf_get hll (flag_no + 1);
          densify_loop fuel hll dhll (flag_no + 2) (u32 (reg_no + xzero_cnt flag lsb))
    end
  else Ok dhll.

Definition densify (hll : dstr) : result dstr :=
  enc ← get_enc hll;
  if enc =? enc_byte HLL_DENSE then Ok hll
  else dhll ← dense_init; densify_loop (length (d_buf hll)) hll dhll HLL_HEADER_SIZE_BYTES 0.

(** ** The sparse encoding *)

Inductive flag_kind := KVal | KZero | KXZero | KNone.

(** The variables of [add_sparse] after the search for the flag of [reg_no];
    pointers into the buffer are indices. *)
Record found := mkFound {
  f_start : Z; f_end : Z; f_prev : option Z; f_curr : option Z; f_next : option Z; f_kind : flag_kind
}.

Fixpoint find_flag (fuel : nat) (hll : dstr) (reg_no fn idx start : Z) (prev curr : option Z) : result found :=
  if fn <? d_size hll then
    match fuel with
    | O => Fault OutOfFuel
    | S fuel =>
        flag ← buf_get hll fn;
        let curr := Some fn in
        let start := idx in
        '(kind, idx, fn) ←
          (if is_val flag then Ok (KVal, u32 (idx + val_cnt flag), fn)
           else if is_zero flag then Ok (KZero, u32 (idx + zero_cnt flag), fn)
           else lsb ← buf_get hll (fn + 1); Ok (KXZero, u32 (idx + xzero_cnt flag lsb), fn + 1));
        if reg_no <? idx then
          Ok (mkFound start (u32 (idx - 1)) prev curr (if fn + 1 <? d_size hll then Some (fn + 1) else None) kind)
        else find_flag fuel hll reg_no (fn + 1) idx start (Some fn) curr
    end
  else Ok (mkFound start 0 prev curr None KNone).

(** A run of [count + 1] zero registers. *)
Definition zero_flags (count : Z) : list Z :=
  if 64 <? count then [u8 (Z.lor 64 (Z.shiftr count 8)); Z.land count 255] else [u8 count].

(** The array [tmp] of the general case. *)
Definition split_flags (f : found) (reg_no val pval : Z) : list Z :=
  let left_count := u32 (reg_no - f_start f - 1) in
  let right_count := u32 (f_end f - reg_no - 1) in
  let val_flag v count := u8 (Z.lor (Z.lor 128 (Z.shiftl v 2)) (u8 count)) in
  match f_kind f with
  | KVal =>
      (if f_start f =? reg_no then [] else [val_flag pval left_count])
      ++ [u8 (Z.lor 128 (Z.shiftl val 2))]
      ++ (if f_end f =? reg_no then [] else [val_flag pval right_count])
  | _ =>
      (if reg_no =? f_start f then [] else zero_flags left_count)
      ++ [u8 (Z.lor 128 (Z.shiftl val 2))]
      ++ (if reg_no =? f_end f then [] else zero_flags right_count)
  end.

(** The loop that merges equal VAL flags; [scanlen] counts down from 5. *)
Fixpoint merge_loop (scanlen : nat) (hll : dstr) (p hll_end : Z) : result dstr :=
  match scanlen with
  | O => Ok hll
  | S scanlen =>
      if p <? hll_end then
        flag ← buf_get hll p;
        if is_zero flag then merge_loop scanlen hll (p + 1) hll_end
        else if negb (is_val flag) then merge_loop scanlen hll (p + 2) hll_end
        else
          flag2 ← (if p + 1 <? hll_end then buf_get hll (p + 1) else Ok 0);
          let len := u8 (val_cnt flag + val_cnt flag2) in
          if is_val flag2 && (val_value flag =? val_value flag2) && (len <=? 4) then
            hll ← buf_put hll (p + 1) (Z.lor (Z.lor 128 (Z.shiftl (val_value flag) 2)) len);
            b ← move_at p (p + 1) (hll_end - p) (d_buf hll);
            hll ← buf_put (mkDstr (u64 (d_size hll - 1)) (d_free hll) b) (u64 (d_size hll - 1)) 0;
            merge_loop scanlen (mkDstr (d_size hll) (u64 (d_free hll + 1)) (d_buf hll)) p hll_end
          else merge_loop scanlen hll (p + 1) hll_end
      else Ok hll
  end.

(** The part of [add_sparse] after the early returns: splits the flag at
    [curr] around the register. *)
Definition splice (hll : dstr) (f : found) (curr reg_no val pval : Z) : result dstr :=
  let hll_end := d_size hll in
  let tmp := split_flags f reg_no val pval in
  let old_len := match f_kind f with KXZero => 2 | _ => 1 end in
  let delta := Z.of_nat (length tmp) - old_len in
  b ← match f_next f with
      | Some next => if delta =? 0 then Ok (d_buf hll)
                     else move_at (next + delta) next (hll_end - next) (d_buf hll)
      | None => Ok (d_buf hll)
      end;
  b ← write_at curr tmp b;
  let hll := mkDstr (u64 (d_size hll + delta)) (u64 (d_free hll - delta)) b in
  let p := match f_prev f with Some p => p | None => HLL_HEADER_SIZE_BYTES end in
  hll ← merge_loop 5 hll p (hll_end + delta);
  invalidate_cache hll.

(** [val] is the number of leading zeros plus one; flags hold [val - 1]. *)
Definition add_sparse (hll : dstr) (reg_no val : Z) : result (dstr * Z) :=
  if (32 <? val) || (HLL_SPARSE_MAX_BYTES <? u64 (d_size hll + 5)) then
    hll ← densify hll; add_dense hll reg_no val
  else
    let val := u8 (val - 1) in
    let new_cap := u32 (d_size hll + 3) in
    let new_cap := u32 (new_cap + Z.min new_cap 300) in
    '(_, hll) ← dstr_reserve true hll
                  (u64 ((if HLL_SPARSE_MAX_BYTES <? new_cap then HLL_SPARSE_MAX_BYTES else new_cap) - d_size hll));
    f ← find_flag (length (d_buf hll)) hll reg_no HLL_HEADER_SIZE_BYTES 0 0 None None;
    curr ← need (f_curr f) NullDeref;
    flag ← buf_get hll curr;
    match f_kind f with
    | KVal =>
        if val <=? val_value flag then Ok (hll, 0)
        else if val_cnt flag =? 1 then
          hll ← buf_put hll curr (Z.lor (Z.land flag (Z.lnot (Z.shiftl 31 2))) (Z.shiftl val 2));
          hll ← invalidate_cache hll; Ok (hll, 1)
        else hll ← splice hll f curr reg_no val (val_value flag); Ok (hll, 1)
    | KZero =>
        if zero_cnt flag =? 1 then
          hll ← buf_put hll curr (Z.lor (Z.lor 128 (Z.shiftl val 2)) 1);
          hll ← invalidate_cache hll; Ok (hll, 1)
        else hll ← splice hll f curr reg_no val 0; Ok (hll, 1)
    | _ => hll ← splice hll f curr reg_no val 0; Ok (hll, 1)
    end.

(** ** Adding and merging *)

(** Leading zeros plus one, at most [HLL_Q + 1]. *)
Fixpoint leading (fuel : nat) (zeroes experimental : Z) : Z :=
  match fuel with
  | O => zeroes
  | S fuel =>
      if zeroes <=? HLL_Q then
        if Z.testbit experimental 63 then zeroes else leading fuel (zeroes + 1) (u64 (Z.shiftl experimental 1))
      else zeroes
  end.

Definition hll_add (hll : dstr) (val : list Z) : result (dstr * Z) :=
  let hash := str_hash val in
  let reg_no := Z.shiftr hash HLL_Q in
  let zeroes := leading (Z.to_nat HLL_Q) 1 (u64 (Z.shiftl hash HLL_P)) in
  enc ← get_enc hll;
  '(hll, ret) ← (if enc =? enc_byte HLL_DENSE then add_dense hll reg_no zeroes else add_sparse hll reg_no zeroes);
  enc ← get_enc hll;
  if (enc =? enc_byte HLL_SPARSE) && (HLL_SPARSE_MAX_BYTES <? d_size hll)
  then hll ← densify hll; Ok (hll, ret) else Ok (hll, ret).

Fixpoint merge_regs (n : nat) (dest src : dstr) (reg_no : Z) (changed : bool) : result (dstr * bool) :=
  match n with
  | O => Ok (dest, changed)
  | S n =>
      reg1 ← get_reg dest reg_no;
      reg2 ← get_reg src reg_no;
      dest ← set_reg dest reg_no (Z.max reg1 reg2);
      merge_regs n dest src (reg_no + 1) (changed || (reg1 <? reg2))
  end.

Definition hll_merge (dest src : dstr) : result dstr :=
  '(dest, changed) ← merge_regs (Z.to_nat REGISTER_CNT) dest src 0 false;
  if (changed : bool) then invalidate_cache dest else Ok dest.

(** ** Counting

    A finite [double] or [long double] is a rational; every operation rounds
    its exact result to 53 or 64 significant bits, to nearest and ties to even.
    [logl] is the function of the C library. *)

Definition round_frac (num den : Z) : Z :=
  let q := num / den in
  let r := num mod den in
  if (den <? 2 * r) || ((den =? 2 * r) && Z.odd q) then q + 1 else q.

(** Round [num / den > 0] to [p] significant bits. *)
Definition rnd_pos (p num den : Z) : Q :=
  let e := Z.log2 num - Z.log2 den in
  let e := if Z.shiftl num (Z.max 0 (- e)) <? Z.shiftl den (Z.max 0 e) then e - 1 else e in
  let sh := p - 1 - e in
  let m := round_frac (Z.shiftl num (Z.max 0 sh)) (Z.shiftl den (Z.max 0 (- sh))) in
  if 0 <=? sh then Qred (Qmake m (Z.to_pos (2 ^ sh))) else inject_Z (m * 2 ^ (- sh)).

Definition rnd (p : Z) (x : Q) : Q :=
  match Qnum x with
  | 0 => x
  | Zpos _ => rnd_pos p (Qnum x) (Zpos (Qden x))
  | Zneg _ => Qopp (rnd_pos p (- Qnum x) (Zpos (Qden x)))
  end.

Definition ld_add (x y : Q) : Q := rnd 64 (x + y)%Q.
Definition ld_mul (x y : Q) : Q := rnd 64 (x * y)%Q.
Definition ld_div (x y : Q) : Q := rnd 64 (x / y)%Q.

(** The constant is computed in [double]. *)
Definition BIAS_CORRECTION : Q :=
  (rnd 53 (rnd 53 (7213 # 10000) / rnd 53 (1 + rnd 53 (rnd 53 (1079 # 1000) / inject_Z REGISTER_CNT))))%Q.
Definition pref : Q := (rnd 53 (rnd 53 (BIAS_CORRECTION * inject_Z REGISTER_CNT) * inject_Z REGISTER_CNT))%Q.

(** [1.0l / (1ull << k)]: shifting by 64 or more is undefined. *)
Definition inv_pow2 (k : Z) : result Q :=
  _ ← check (k <? 64) Overflow; Ok (Qmake 1 (Z.to_pos (2 ^ k))).

Fixpoint estimate_regs (n : nat) (hll : dstr) (reg_no : Z) (sum : Q) : result Q :=
  match n with
  | O => Ok sum
  | S n => r ← get_reg hll reg_no; v ← inv_pow2 r; estimate_regs n hll (reg_no + 1) (ld_add sum v)
  end.

Definition estimate_cnt_d (hll : dstr) : result Q :=
  sum ← estimate_regs (Z.to_nat REGISTER_CNT) hll 0 (inject_Z 0);
  Ok (ld_mul pref (ld_div (inject_Z 1) sum)).

Fixpoint estimate_flags (fuel : nat) (hll : dstr) (flag_no : Z) (sum : Q) : result Q :=
  if flag_no <? d_size hll then
    match fuel with
    | O => Fault OutOfFuel
    | S fuel =>
        flag ← buf_get hll flag_no;
        '(val, cnt, flag_no) ←
          (if is_val flag then v ← inv_pow2 (val_value flag); Ok (v, val_cnt flag, flag_no)
           else if is_zero flag then Ok (inject_Z 1, zero_cnt flag, flag_no)
           else lsb ← buf_get hll (flag_no + 1); Ok (inject_Z 1, xzero_cnt flag lsb, flag_no + 1));
        estimate_flags fuel hll (flag_no + 1) (ld_add sum (ld_mul val (inject_Z cnt)))
    end
  else Ok sum.

Definition estimate_cnt_s (hll : dstr) : result Q :=
  sum ← estimate_flags (length (d_buf hll)) hll HLL_HEADER_SIZE_BYTES (inject_Z 0);
  Ok (ld_mul pref (ld_div (inject_Z 1) sum)).

Definition estimate_cnt (hll : dstr) : result Q :=
  enc ← get_enc hll;
  if enc =? enc_byte HLL_DENSE then estimate_cnt_d hll else estimate_cnt_s hll.

Fixpoint zero_regs_dense (n : nat) (hll : dstr) (reg_no cnt : Z) : result Z :=
  match n with
  | O => Ok cnt
  | S n => r ← get_reg hll reg_no; zero_regs_dense n hll (reg_no + 1) (if r =? 0 then cnt + 1 else cnt)
  end.

(** [iszero] is the macro of <math.h>: it tests whether the flag is 0, not
    whether it is a ZERO flag. *)
Fixpoint zero_regs_sparse (fuel : nat) (hll : dstr) (fn cnt : Z) : result Z :=
  if fn <? d_size hll then
    match fuel with
    | O => Fault OutOfFuel
    | S fuel =>
        flag ← buf_get hll fn;
        if flag =? 0 then zero_regs_sparse fuel hll (fn + 1) (u32 (cnt + zero_cnt flag))
        else if is_val flag then zero_regs_sparse fuel hll (fn + 1) cnt
        else lsb ← buf_get hll (fn + 1); zero_regs_sparse fuel hll (fn + 2) (u32 (cnt + xzero_cnt flag lsb))
    end
  else Ok cnt.

Definition cnt_zero_regs (hll : dstr) : result Z :=
  enc ← get_enc hll;
  if enc =? enc_byte HLL_DENSE then zero_regs_dense (Z.to_nat REGISTER_CNT) hll 0 0
  else zero_regs_sparse (length (d_buf hll)) hll HLL_HEADER_SIZE_BYTES 0.

(** The conversion to an integer cuts the fraction off; it is undefined for values
    that [uint64_t] does not have. *)
Definition trunc (x : Q) : Z := Z.quot (Qnum x) (Zpos (Qden x)).

(** The count and the value with the cache filled in. *)
Definition hll_count (logl : Q -> Q) (hll : dstr) : result (Z * dstr) :=
  valid ← cache_valid hll;
  if (valid : bool) then c ← get_cache hll; Ok (c, hll)
  else
    estimate ← estimate_cnt hll;
    estimate ← (if Qle_bool estimate (inject_Z REGISTER_CNT * (5 # 2))%Q then
                  zero_regs ← cnt_zero_regs hll;
                  if zero_regs =? 0 then Ok estimate
                  else Ok (ld_mul (logl (ld_div (inject_Z REGISTER_CNT) (inject_Z zero_regs))) (inject_Z REGISTER_CNT))
                else Ok estimate);
    let c := trunc (ld_add estimate (1 # 2)%Q) in
    _ ← check ((0 <=? c) && (c <? 2 ^ 64)) Overflow;
    hll ← set_cache hll c;
    Ok (c, hll).
