(* ===== verification/Node.v ===== *)
(** * Database nodes and the store they live in: [hashmap.h], [hashmap.cpp]
    (node part), [zset.h], [common.h], and the disposal of values
    ([zset_clear], [hn_unlink_sync])

    All objects the program allocates for values live in one record, [Mem],
    with one finite map per kind of object.  A [ZNode] embeds an [AVLNode] and
    an [HNode]; the three share their address, so [container_of] is the
    identity.  [Mem] implements the interfaces the hash table and the heap
    ask for. *)

From S2P Require Import Prelude Dstr Dlist Heap Hash Hashmap Avl Hll.

(** ** Data *)

Inductive EntryTypes := T_STR | T_ZSET | T_HSET | T_LIST | T_SET | T_BITMAP | T_HLL.

#[export] Instance EntryTypes_eq_dec : EqDecision EntryTypes.
Proof. solve_decision. Defined.

(** A field that [new_node] leaves as [malloc] gave it is [None]. *)
Record HNode := mkHNode {
  h_next : ptr;
  h_hcode : Z;
  h_key : dstr;
  h_type : EntryTypes;
  h_heap_idx : option Z;
  h_list : option DList;
  h_hmap : option HMap;
  h_set : option HMap;
  h_zset : option loc;
  h_val : option dstr;
  h_bitmap : option dstr;
  h_hll : option dstr
}.

Record ZSet := mkZSet { z_avl_root : ptr; z_hmap : HMap }.
Record ZNode := mkZNode { zn_score : Z; zn_key : dstr }.

(** [m_queue]: the nodes handed to the thread pool, [m_fresh]: an address
    above every address in use. *)
Record Mem := mkMem {
  m_hnodes : gmap loc HNode;
  m_zsets : gmap loc ZSet;
  m_avl : gmap loc AVLNode;
  m_znodes : gmap loc ZNode;
  m_dnodes : gmap loc (DListNode dstr);
  m_queue : list loc;
  m_fresh : loc
}.

Definition mem_empty : Mem := mkMem ∅ ∅ ∅ ∅ ∅ [] 1.

(** *** Field updates *)

Definition with_hnodes (f : gmap loc HNode) (m : Mem) : Mem :=
  mkMem f (m_zsets m) (m_avl m) (m_znodes m) (m_dnodes m) (m_queue m) (m_fresh m).
Definition with_zsets (f : gmap loc ZSet) (m : Mem) : Mem :=
  mkMem (m_hnodes m) f (m_avl m) (m_znodes m) (m_dnodes m) (m_queue m) (m_fresh m).
Definition with_avl (f : gmap loc AVLNode) (m : Mem) : Mem :=
  mkMem (m_hnodes m) (m_zsets m) f (m_znodes m) (m_dnodes m) (m_queue m) (m_fresh m).
Definition with_znodes (f : gmap loc ZNode) (m : Mem) : Mem :=
  mkMem (m_hnodes m) (m_zsets m) (m_avl m) f (m_dnodes m) (m_queue m) (m_fresh m).
Definition with_dnodes (f : gmap loc (DListNode dstr)) (m : Mem) : Mem :=
  mkMem (m_hnodes m) (m_zsets m) (m_avl m) (m_znodes m) f (m_queue m) (m_fresh m).
Definition with_queue (q : list loc) (m : Mem) : Mem :=
  mkMem (m_hnodes m) (m_zsets m) (m_avl m) (m_znodes m) (m_dnodes m) q (m_fresh m).
Definition with_fresh (l : loc) (m : Mem) : Mem :=
  mkMem (m_hnodes m) (m_zsets m) (m_avl m) (m_znodes m) (m_dnodes m) (m_queue m) l.

Definition set_h_next (p : ptr) (n : HNode) : HNode :=
  mkHNode p (h_hcode n) (h_key n) (h_type n) (h_heap_idx n) (h_list n) (h_hmap n) (h_set n)
    (h_zset n) (h_val n) (h_bitmap n) (h_hll n).
Definition set_h_heap_idx (i : Z) (n : HNode) : HNode :=
  mkHNode (h_next n) (h_hcode n) (h_key n) (h_type n) (Some i) (h_list n) (h_hmap n) (h_set n)
    (h_zset n) (h_val n) (h_bitmap n) (h_hll n).
Definition set_h_list (v : DList) (n : HNode) : HNode :=
  mkHNode (h_next n) (h_hcode n) (h_key n) (h_type n) (h_heap_idx n) (Some v) (h_hmap n) (h_set n)
    (h_zset n) (h_val n) (h_bitmap n) (h_hll n).
Definition set_h_hmap (v : HMap) (n : HNode) : HNode :=
  mkHNode (h_next n) (h_hcode n) (h_key n) (h_type n) (h_heap_idx n) (h_list n) (Some v) (h_set n)
    (h_zset n) (h_val n) (h_bitmap n) (h_hll n).
Definition set_h_set (v : HMap) (n : HNode) : HNode :=
  mkHNode (h_next n) (h_hcode n) (h_key n) (h_type n) (h_heap_idx n) (h_list n) (h_hmap n) (Some v)
    (h_zset n) (h_val n) (h_bitmap n) (h_hll n).
Definition set_h_zset (v : loc) (n : HNode) : HNode :=
  mkHNode (h_next n) (h_hcode n) (h_key n) (h_type n) (h_heap_idx n) (h_list n) (h_hmap n) (h_set n)
    (Some v) (h_val n) (h_bitmap n) (h_hll n).
Definition set_h_val (v : dstr) (n : HNode) : HNode :=
  mkHNode (h_next n) (h_hcode n) (h_key n) (h_type n) (h_heap_idx n) (h_list n) (h_hmap n) (h_set n)
    (h_zset n) (Some v) (h_bitmap n) (h_hll n).
Definition set_h_bitmap (v : dstr) (n : HNode) : HNode :=
  mkHNode (h_next n) (h_hcode n) (h_key n) (h_type n) (h_heap_idx n) (h_list n) (h_hmap n) (h_set n)
    (h_zset n) (h_val n) (Some v) (h_hll n).
Definition set_h_hll (v : dstr) (n : HNode) : HNode :=
  mkHNode (h_next n) (h_hcode n) (h_key n) (h_type n) (h_heap_idx n) (h_list n) (h_hmap n) (h_set n)
    (h_zset n) (h_val n) (h_bitmap n) (Some v).

(** [node->field] and [node->field = ...] of a database node. *)
Definition hget (m : Mem) (p : ptr) : result HNode := deref (m_hnodes m) p.
Definition hput (m : Mem) (p : ptr) (f : HNode -> HNode) : result Mem :=
  h ← update (m_hnodes m) p f; Ok (with_hnodes h m).

(** ** Disposing of values *)

(** [free] of a [ZNode]. *)
Definition free_znode (l : loc) (m : Mem) : result Mem :=
  _ ← deref (m_znodes m) (Some l);
  Ok (mkMem (delete l (m_hnodes m)) (m_zsets m) (delete l (m_avl m)) (delete l (m_znodes m))
        (m_dnodes m) (m_queue m) (m_fresh m)).

Fixpoint del_avl_tree (fuel : nat) (m : Mem) (node : ptr) : result Mem :=
  match node with
  | None => Ok m
  | Some l =>
      match fuel with
      | O => Fault OutOfFuel
      | S fuel =>
          n ← deref (m_avl m) node;
          m ← del_avl_tree fuel m (avl_left n);
          n ← deref (m_avl m) node;
          m ← del_avl_tree fuel m (avl_right n);
          free_znode l m
      end
  end.

Definition zset_clear (m : Mem) (zset : ptr) : result Mem :=
  zs ← update (m_zsets m) zset (fun z => mkZSet (z_avl_root z) (hm_clear (z_hmap z)));
  let m := with_zsets zs m in
  z ← deref (m_zsets m) zset;
  m ← del_avl_tree (size (m_avl m)) m (z_avl_root z);
  zs ← update (m_zsets m) zset (fun z => mkZSet NULL (z_hmap z));
  Ok (with_zsets zs m).

Definition hn_unlink_sync (m : Mem) (hnode : ptr) : result Mem :=
  n ← hget m hnode;
  m ← (if decide (h_type n = T_ZSET) then
         z ← need (h_zset n) Uninitialised; zset_clear m (Some z)
       else Ok m);
  n ← hget m hnode;
  if decide (h_type n = T_HSET) then
    hm ← need (h_hmap n) Uninitialised; hput m hnode (set_h_hmap (hm_clear hm))
  else Ok m.

(** [threadpool_produce(&global_data.threadpool, &hn_del_wrapper, node)] *)
Definition threadpool_produce (m : Mem) (node : loc) : Mem := with_queue (m_queue m ++ [node]) m.

Definition LARGE_SIZE_TRESHOLD : Z := 1000.

(** The part of [ht_unlink] after the node is out of the chain. *)
Definition release_node (to_delete : loc) (m : Mem) : result Mem :=
  n ← hget m (Some to_delete);
  size ← (if decide (h_type n = T_ZSET) then
            zl ← need (h_zset n) Uninitialised;
            z ← deref (m_zsets m) (Some zl);
            Ok (Z.max 0 (hm_size (z_hmap z)))
          else Ok 0);
  size ← (if decide (h_type n = T_HSET) then
            hm ← need (h_hmap n) Uninitialised;
            Ok (Z.max size (hm_size hm))
          else Ok size);
  if LARGE_SIZE_TRESHOLD <=? size then Ok (threadpool_produce m to_delete)
  else hn_unlink_sync m (Some to_delete).

(** ** The interfaces of the hash table and of the heap *)

#[export] Instance mem_nodes : NodeStore Mem := {
  nd_next m l := h_next <$> hget m (Some l);
  nd_set_next l p m := hput m (Some l) (set_h_next p);
  nd_hcode m l := h_hcode <$> hget m (Some l);
  nd_key m l := h_key <$> hget m (Some l);
  nd_release := release_node;
  nd_free l m := _ ← hget m (Some l); Ok (with_hnodes (delete l (m_hnodes m)) m);
  nd_bound m := size (m_hnodes m)
}.

#[export] Instance mem_heap_idx : PosStore Mem := {
  pos_get m l := n ← hget m (Some l); need (h_heap_idx n) Uninitialised;
  pos_set l v m := hput m (Some l) (set_h_heap_idx v)
}.

(** ** Allocation *)

(** What [new_node] builds, with the address of the [ZSet] it allocates. *)
Definition node_init (key : list Z) (type : EntryTypes) (zset : loc) : result HNode :=
  k ← dstr_copy key;
  let n := mkHNode NULL (str_hash key) k type None None None None None None None None in
  match type with
  | T_STR => match dstr_init true 0 with inr v => Ok (set_h_val v n) | inl _ => Fault NullDeref end
  | T_ZSET => Ok (set_h_zset zset n)
  | T_HSET => Ok (set_h_hmap hmap_empty n)
  | T_LIST => Ok (set_h_list (mkDList NULL NULL 0) n)
  | T_SET => Ok (set_h_set hmap_empty n)
  | T_BITMAP => match dstr_init true 0 with inr v => Ok (set_h_bitmap v n) | inl _ => Fault NullDeref end
  | T_HLL => v ← hll_init; Ok (set_h_hll v n)
  end.

Definition new_node (m : Mem) (key : list Z) (type : EntryTypes) : result (Mem * loc) :=
  let l := m_fresh m in
  let z := Pos.succ l in
  n ← node_init key type z;
  let zsets := if decide (type = T_ZSET) then <[z := mkZSet NULL hmap_empty]> (m_zsets m) else m_zsets m in
  Ok (mkMem (<[l := n]> (m_hnodes m)) zsets (m_avl m) (m_znodes m) (m_dnodes m) (m_queue m)
        (Pos.succ z), l).

(** The [HNode tmp] the callers search with: a copy of the key and its hash. *)
Definition tmp_key (key : list Z) : result HKey :=
  k ← dstr_copy key; Ok (mkHKey (str_hash key) (Some k)).

(** A node of the database passed as the key of a search. *)
Definition node_key (m : Mem) (p : ptr) : result HKey :=
  n ← hget m p; Ok (mkHKey (h_hcode n) (Some (h_key n))).

(** ** Freeing the tree of a sorted set *)

(** [m'] is [m] without the [ZNode]s of [xs]. *)
Record freed (xs : list loc) (m m' : Mem) : Prop := mkFreed {
  fr_gone : forall x, x ∈ xs -> m_hnodes m' !! x = None /\ m_avl m' !! x = None /\ m_znodes m' !! x = None;
  fr_kept : forall x, x ∉ xs -> m_hnodes m' !! x = m_hnodes m !! x /\ m_avl m' !! x = m_avl m !! x /\
    m_znodes m' !! x = m_znodes m !! x;
  fr_zsets : m_zsets m' = m_zsets m;
  fr_dnodes : m_dnodes m' = m_dnodes m;
  fr_queue : m_queue m' = m_queue m;
  fr_fresh : m_fresh m' = m_fresh m
}.

Lemma freed_app xs ys m m1 m2 : freed xs m m1 -> freed ys m1 m2 -> freed (xs ++ ys) m m2.
Proof.
  intros [G1 K1 Z1 D1 Q1 F1] [G2 K2 Z2 D2 Q2 F2]. split; [| |congruence..].
  - intros x Hx. destruct (decide (x ∈ ys)) as [Hy|Hy]; [by apply G2|].
    destruct (K2 x Hy) as (-> & -> & ->). apply G1. set_solver.
  - intros x [Hx Hy]%not_elem_of_app. destruct (K2 x Hy) as (-> & -> & ->). by apply K1.
Qed.

Lemma freed_perm xs ys m m' : xs ≡ₚ ys -> freed xs m m' -> freed ys m m'.
Proof. intros Hp [G K Z D Q F]. split; [| |done..]; intros x; rewrite <- Hp; auto. Qed.

Lemma free_znode_ok l m :
  is_Some (m_znodes m !! l) -> exists m', free_znode l m = Ok m' /\ freed [l] m m'.
Proof.
  intros [zn Hl]. unfold free_znode. rewrite (deref_some _ _ _ Hl). eexists. split; [reflexivity|].
  split; cbn; try done.
  - intros x ->%list_elem_of_singleton. by rewrite !lookup_delete_eq.
  - intros x Hx. assert (l <> x) by set_solver. by rewrite !lookup_delete_ne.
Qed.

Lemma del_avl_tree_ok fuel m p t :
  tree_at (m_avl m) p t -> NoDup (inorder t) -> (forall x, x ∈ inorder t -> is_Some (m_znodes m !! x)) ->
  hgt t <= Z.of_nat fuel ->
  exists m', del_avl_tree fuel m (root_of t) = Ok m' /\ freed (inorder t) m m'.
Proof.
  revert fuel m p. induction t as [|l IHl x r IHr]; intros fuel m p Ht Hnd Hlive Hf.
  { exists m. split; [by destruct fuel|]. split; try done. by intros x ?%elem_of_nil. }
  pose proof Ht as (Hx & Hl & Hr). pose proof Hnd as (Hndl & Hndr & Hxl & Hxr & Hlr)%NoDup_node.
  cbn [hgt] in Hf. pose proof (hgt_range l). pose proof (hgt_range r).
  destruct fuel as [|fuel]; [lia|]. cbn [del_avl_tree root_of]. rewrite (deref_some _ _ _ Hx).
  cbn [mbind result_bind avl_left].
  destruct (IHl fuel m (Some x) Hl Hndl) as (m1 & -> & F1); [|lia|].
  { intros y Hy. apply Hlive. cbn. set_solver. }
  cbn [mbind result_bind]. assert (Hx1 : m_avl m1 !! x = m_avl m !! x) by (by apply (fr_kept _ _ _ F1)).
  rewrite Hx in Hx1. rewrite (deref_some _ _ _ Hx1). cbn [mbind result_bind avl_right].
  destruct (IHr fuel m1 (Some x)) as (m2 & -> & F2); [|done| |lia|].
  { eapply tree_at_ext; [|exact Hr]. intros y Hy. apply (fr_kept _ _ _ F1). intros ?. by apply (Hlr y). }
  { intros y Hy. destruct (fr_kept _ _ _ F1 y) as (_ & _ & ->); [intros ?; by apply (Hlr y)|].
    apply Hlive. cbn. set_solver. }
  cbn [mbind result_bind]. destruct (free_znode_ok x m2) as (m3 & -> & F3).
  { destruct (fr_kept _ _ _ F2 x Hxr) as (_ & _ & ->). destruct (fr_kept _ _ _ F1 x Hxl) as (_ & _ & ->).
    apply Hlive. cbn. set_solver. }
  exists m3. split; [done|]. eapply freed_perm; [|eapply freed_app; [|exact F3]; eapply freed_app; done].
  cbn. rewrite <- app_assoc. apply Permutation_app_head. by rewrite Permutation_app_comm.
Qed.

(** A sorted set that can be disposed of: its tree is well-formed and made of
    live [ZNode]s. *)
Definition zset_at (m : Mem) (z : loc) (t : tree) : Prop :=
  exists hm, m_zsets m !! z = Some (mkZSet (root_of t) hm) /\ tree_at (m_avl m) NULL t /\
    NoDup (inorder t) /\ forall x, x ∈ inorder t -> is_Some (m_znodes m !! x).

Lemma zset_clear_ok m z t :
  zset_at m z t ->
  exists m' m1, zset_clear m (Some z) = Ok m' /\ freed (inorder t) m m1 /\
    m' = with_zsets (<[z := mkZSet NULL hmap_empty]> (m_zsets m)) m1.
Proof.
  intros (hm & Hz & Ht & Hnd & Hlive). unfold zset_clear. rewrite (update_some _ _ _ _ Hz).
  cbn [mbind result_bind with_zsets m_zsets m_avl]. cbn [deref need].
  rewrite lookup_insert_eq. cbn [need mbind result_bind z_avl_root z_hmap].
  set (m0 := with_zsets _ m).
  destruct (del_avl_tree_ok (size (m_avl m)) m0 NULL t) as (m1 & E & F); [done|done|done| |].
  { pose proof (hgt_range t). pose proof (keys_bound (m_avl m) (inorder t)) as Hb. rewrite cnt_length in *.
    etrans; [apply H|]. apply inj_le, Hb; [|done]. intros. by eapply tree_at_live. }
  rewrite E. cbn [mbind result_bind]. pose proof (fr_zsets _ _ _ F) as Hzs.
  erewrite update_some by (rewrite Hzs; cbn; apply lookup_insert_eq).
  cbn [mbind result_bind z_avl_root z_hmap]. rewrite Hzs. cbn [m0 with_zsets m_zsets].
  rewrite insert_insert_eq. eexists _, (with_zsets (m_zsets m) m1). split; [reflexivity|].
  split; [|done]. destruct F as [G K Z D Q Fr]. split; cbn; done.
Qed.

(** ** [Mem] keeps its side of the contract *)

(** A node of a table, where the [ZNode]s of sorted sets are owned by one
    node each ([ot], [oz] name the owner of a [ZNode] and of a [ZSet]). *)
Definition node_good (ot oz : loc -> loc) (m : Mem) (D : list loc) (l : loc) : Prop :=
  exists n kb, m_hnodes m !! l = Some n /\ 0 <= h_hcode n < 2 ^ 64 /\ dstr_rep (h_key n) kb /\
    (h_type n = T_HSET -> is_Some (h_hmap n)) /\
    (h_type n = T_ZSET -> exists z t, h_zset n = Some z /\ oz z = l /\ zset_at m z t /\
       forall x, x ∈ inorder t -> (x ∉ D) /\ ot x = l).

(** What disposing of the value of a node leaves: all but the chain and the
    hash map, and of the rest of the store the list nodes. *)
Definition node_core (n : HNode) : HNode :=
  mkHNode NULL (h_hcode n) (h_key n) (h_type n) (h_heap_idx n) (h_list n) None (h_set n)
    (h_zset n) (h_val n) (h_bitmap n) (h_hll n).
Definition mem_obs (m : Mem) (l : loc) : option HNode := node_core <$> m_hnodes m !! l.
Definition mem_glob (m : Mem) : gmap loc (DListNode dstr) * loc := (m_dnodes m, m_fresh m).
Abbreviation mem_keeps := (keeps_by mem_obs mem_glob).

Definition mem_ok (m : Mem) (D : list loc) : Prop :=
  exists ot oz, forall l, l ∈ D -> node_good ot oz m D l.

Lemma zset_at_ext m m' z t :
  m_zsets m' !! z = m_zsets m !! z ->
  (forall x, x ∈ inorder t -> m_avl m' !! x = m_avl m !! x /\ m_znodes m' !! x = m_znodes m !! x) ->
  zset_at m z t -> zset_at m' z t.
Proof.
  intros Hz Hx (hm & Hzs & Ht & Hnd & Hl). exists hm. split_and!; [by rewrite Hz| |done|].
  - eapply tree_at_ext; [|done]. intros x Hi. by apply Hx.
  - intros x Hi. destruct (Hx x Hi) as [_ ->]. by apply Hl.
Qed.

(** A change of one node that spares its core. *)
Lemma insert_keeps m D l n n' :
  m_hnodes m !! l = Some n -> node_core n' = node_core n ->
  mem_keeps D m (with_hnodes (<[l := n']> (m_hnodes m)) m).
Proof.
  intros Hn Hc. split; [| | |done]; intros l' _; cbn; unfold mem_obs; cbn;
    (destruct (decide (l' = l)) as [->|]; [rewrite lookup_insert_eq, Hn|by rewrite lookup_insert_ne]);
    cbn; rewrite ?Hc; try done; destruct n, n'; cbn in *; by simplify_eq.
Qed.

(** Nodes that are not touched at all. *)
Lemma same_keeps m m' D :
  (forall l, l ∈ D -> m_hnodes m' !! l = m_hnodes m !! l) -> mem_glob m' = mem_glob m -> mem_keeps D m m'.
Proof. intros Hs Hg. split; [| | |done]; intros l Hl; cbn; unfold mem_obs; by rewrite Hs. Qed.

(** Changing the [next] field of a node keeps everything else. *)
Lemma put_next_ok m D l p :
  mem_ok m D -> l ∈ D ->
  exists m', hput m (Some l) (set_h_next p) = Ok m' /\ mem_ok m' D /\ mem_keeps D m m' /\
    nd_next m' l = Ok p /\ forall l', l' ∈ D -> l' <> l -> nd_next m' l' = nd_next m l'.
Proof.
  intros (ot & oz & Hok) Hl. destruct (Hok l Hl) as (n & kb & Hn & Hrest).
  unfold hput. rewrite (update_some _ _ _ _ Hn). cbn [mbind result_bind]. eexists. split; [reflexivity|].
  split_and!.
  - exists ot, oz. intros l' Hl'. destruct (Hok l' Hl') as (n' & kb' & Hn' & Hrest').
    destruct (decide (l' = l)) as [->|Hne].
    + exists (set_h_next p n), kb. split; [apply lookup_insert_eq|]. exact Hrest.
    + exists n', kb'. split; [cbn; by rewrite lookup_insert_ne|]. exact Hrest'.
  - by apply (insert_keeps _ _ _ n).
  - cbn. by rewrite lookup_insert_eq.
  - intros l' _ Hne. cbn. by rewrite lookup_insert_ne.
Qed.

(** Disposing of a hash: the map of the node is emptied. *)
Lemma put_hmap_ok m D l hm :
  mem_ok m D -> l ∈ D ->
  exists m', hput m (Some l) (set_h_hmap hm) = Ok m' /\ mem_ok m' D /\ mem_keeps D m m' /\
    forall l', l' ∈ D -> nd_next m' l' = nd_next m l'.
Proof.
  intros (ot & oz & Hok) Hl. destruct (Hok l Hl) as (n & kb & Hn & Hh & Hk & _ & Hz).
  unfold hput. rewrite (update_some _ _ _ _ Hn). cbn [mbind result_bind]. eexists. split; [reflexivity|].
  split_and!.
  - exists ot, oz. intros l' Hl'. destruct (Hok l' Hl') as (n' & kb' & Hn' & Hrest').
    destruct (decide (l' = l)) as [->|Hne].
    + exists (set_h_hmap hm n), kb. split; [apply lookup_insert_eq|].
      split; [done|]. split; [done|]. split; [cbn; eauto|exact Hz].
    + exists n', kb'. split; [cbn; by rewrite lookup_insert_ne|]. exact Hrest'.
  - by apply (insert_keeps _ _ _ n).
  - intros l' _. cbn. destruct (decide (l' = l)) as [->|]; [by rewrite lookup_insert_eq, Hn|by rewrite lookup_insert_ne].
Qed.

(** Disposing of a sorted set: its nodes are freed, its set is emptied. *)
Lemma clear_zset_ok m D l ot oz n z t :
  (forall l, l ∈ D -> node_good ot oz m D l) -> l ∈ D -> m_hnodes m !! l = Some n ->
  h_type n = T_ZSET -> h_zset n = Some z -> oz z = l -> zset_at m z t ->
  (forall x, x ∈ inorder t -> (x ∉ D) /\ ot x = l) ->
  exists m', zset_clear m (Some z) = Ok m' /\ mem_ok m' D /\ mem_glob m' = mem_glob m /\
    forall l', l' ∈ D -> m_hnodes m' !! l' = m_hnodes m !! l'.
Proof.
  intros Hok Hl Hn Hty Hzn Hoz Hz Hown.
  destruct (zset_clear_ok m z t Hz) as (m' & m1 & E & F & ->).
  assert (Hkeep : forall l', l' ∈ D -> m_hnodes m1 !! l' = m_hnodes m !! l').
  { intros l' Hl'. apply (fr_kept _ _ _ F). intros Hx. by apply (Hown l' Hx). }
  eexists. split; [exact E|].
  split; [|split; [unfold mem_glob; cbn; by rewrite (fr_dnodes _ _ _ F), (fr_fresh _ _ _ F)|done]].
  exists ot, oz. intros l' Hl'. destruct (Hok l' Hl') as (n' & kb' & Hn' & Hh' & Hk' & Hhs & Hzs).
  exists n', kb'. split; [cbn; by rewrite Hkeep|]. do 3 (split; [done|]).
  intros Hty'. destruct (Hzs Hty') as (z' & t' & Hz' & Hoz' & Hzat & Hown').
  destruct (decide (l' = l)) as [->|Hne].
  - assert (n' = n) as -> by congruence. assert (z' = z) as -> by congruence.
    exists z, Leaf. split; [done|]. split; [done|]. split; [|by intros x ?%elem_of_nil].
    exists hmap_empty. cbn. rewrite lookup_insert_eq. split_and!; try done; [constructor|].
    by intros x ?%elem_of_nil.
  - exists z', t'. split_and!; try done. assert (z' <> z) by congruence.
    eapply zset_at_ext; [cbn; by rewrite lookup_insert_ne| |exact Hzat].
    intros x Hx. cbn. destruct (fr_kept _ _ _ F x) as (_ & -> & ->); [|done].
    intros Hx'. apply Hne. destruct (Hown' x Hx) as [_ <-]. by destruct (Hown x Hx') as [_ <-].
Qed.

Lemma queue_ok m D l : mem_ok m D -> mem_ok (threadpool_produce m l) D.
Proof. done. Qed.

Lemma release_ok m D l :
  mem_ok m D -> l ∈ D ->
  exists m', release_node l m = Ok m' /\ mem_ok m' D /\ mem_keeps D m m' /\
    forall l', l' ∈ D -> nd_next m' l' = nd_next m l'.
Proof.
  intros Hmem Hl. pose proof Hmem as (ot & oz & Hok).
  destruct (Hok l Hl) as (n & kb & Hn & Hh & Hk & Hhs & Hzs).
  assert (Hget : hget m (Some l) = Ok n) by (by apply deref_some).
  unfold release_node. rewrite Hget. cbn [mbind result_bind].
  destruct (decide (h_type n = T_ZSET)) as [Hty|Hnz].
  - destruct (Hzs Hty) as (z & t & Hz & Hoz & Hzat & Hown). rewrite Hz. cbn [need mbind result_bind].
    pose proof Hzat as (hm & Hzl & _). rewrite (deref_some _ _ _ Hzl). cbn [mbind result_bind].
    rewrite decide_False by congruence. cbn [mbind result_bind].
    destruct (_ <=? _); [exists (threadpool_produce m l); split_and!; try done; by apply same_keeps|].
    destruct (clear_zset_ok m D l ot oz n z t) as (m' & E & Hmem' & Hglob & Hsame); [done..|].
    assert (Hget' : hget m' (Some l) = Ok n) by (apply deref_some; by rewrite Hsame).
    unfold hn_unlink_sync. rewrite Hget. cbn [mbind result_bind]. rewrite decide_True by done.
    rewrite Hz. cbn [need mbind result_bind]. rewrite E. cbn [mbind result_bind]. rewrite Hget'.
    cbn [mbind result_bind]. rewrite decide_False by congruence.
    exists m'. split; [done|]. split; [done|]. split; [by apply same_keeps|].
    intros l' Hl'. cbn. by rewrite Hsame.
  - cbn [mbind result_bind]. destruct (decide (h_type n = T_HSET)) as [Hty|Hnh].
    + destruct (Hhs Hty) as [hm Hhm]. rewrite Hhm. cbn [need mbind result_bind].
      destruct (_ <=? _); [exists (threadpool_produce m l); split_and!; try done; by apply same_keeps|].
      destruct (put_hmap_ok m D l (hm_clear hm) Hmem Hl) as (m' & E & H1 & H2 & H3).
      unfold hn_unlink_sync. rewrite Hget. cbn [mbind result_bind]. rewrite decide_False by done.
      cbn [mbind result_bind]. rewrite Hget. cbn [mbind result_bind]. rewrite decide_True by done.
      rewrite Hhm. cbn [need mbind result_bind]. exists m'. by split_and!.
    + cbn [mbind result_bind]. change (LARGE_SIZE_TRESHOLD <=? 0) with false. cbn iota.
      unfold hn_unlink_sync. rewrite Hget. cbn [mbind result_bind]. rewrite decide_False by done.
      cbn [mbind result_bind]. rewrite Hget. cbn [mbind result_bind]. rewrite decide_False by done.
      exists m. by split_and!.
Qed.

Lemma free_ok m D l D' :
  mem_ok m D -> l ∈ D -> D' ⊆ D -> l ∉ D' ->
  exists m', nd_free l m = Ok m' /\ mem_ok m' D' /\ mem_keeps D' m m' /\
    forall l', l' ∈ D' -> nd_next m' l' = nd_next m l'.
Proof.
  intros (ot & oz & Hok) Hl Hsub Hnot. destruct (Hok l Hl) as (n & kb & Hn & _).
  cbn. rewrite Hn. cbn. eexists. split; [reflexivity|].
  assert (Hne : forall l', l' ∈ D' -> delete l (m_hnodes m) !! l' = m_hnodes m !! l').
  { intros l' Hl'. rewrite lookup_delete_ne; [done|]. by intros ->. }
  split_and!.
  - exists ot, oz. intros l' Hl'. destruct (Hok l' (Hsub _ Hl')) as (n' & kb' & Hn' & Hh & Hk & Hhs & Hzs).
    exists n', kb'. split; [cbn; by rewrite Hne|]. do 3 (split; [done|]).
    intros Hty. destruct (Hzs Hty) as (z & t & ? & ? & ? & Hown). exists z, t. split_and!; try done.
    intros x Hx. destruct (Hown x Hx) as [Hnd ?]. split; [|done]. intros HD. by apply Hnd, Hsub.
  - by apply same_keeps.
  - intros l' Hl'. cbn. by rewrite Hne.
Qed.

#[export] Instance mem_nodes_ok : NodeStoreOk Mem.
Proof.
  refine {| nd_ok := mem_ok; nd_obs := mem_obs; nd_glob := mem_glob |}.
  - intros m D D' (ot & oz & Hok) Hsub. exists ot, oz. intros l Hl.
    destruct (Hok l (Hsub _ Hl)) as (n & kb & Hn & Hh & Hk & Hhs & Hzs). exists n, kb. do 4 (split; [done|]).
    intros Hty. destruct (Hzs Hty) as (z & t & ? & ? & ? & Hown). exists z, t. split_and!; try done.
    intros x Hx. destruct (Hown x Hx) as [Hnd ?]. split; [|done]. intros HD. by apply Hnd, Hsub.
  - intros m D l (ot & oz & Hok) Hl. destruct (Hok l Hl) as (n & kb & Hn & Hh & Hk & _).
    exists (h_next n), (h_hcode n), (h_key n), kb. cbn. by rewrite Hn.
  - intros m D l p. apply put_next_ok.
  - intros m D l. apply release_ok.
  - intros m D l D'. apply free_ok.
  - intros m D (ot & oz & Hok) Hnd. apply keys_bound; [|done]. intros l Hl.
    destruct (Hok l Hl) as (n & _ & Hn & _). eauto.
Defined.

(** *** Tables of plain nodes

    The fields of a hash, the members of a set and of a sorted set are nodes of
    type [T_STR]; disposing of their value does nothing.  A table of such nodes
    leaves the whole rest of the store alone, the nodes [F] of other tables
    included. *)
Definition plain_node (m : Mem) (l : loc) : Prop :=
  exists n kb, m_hnodes m !! l = Some n /\ 0 <= h_hcode n < 2 ^ 64 /\ dstr_rep (h_key n) kb /\ h_type n = T_STR.

Definition members_ok (F : list loc) (m : Mem) (D : list loc) : Prop :=
  forall l, l ∈ D -> (l ∉ F) /\ plain_node m l.

Definition member_obs (m : Mem) (l : loc) : option HNode := set_h_next NULL <$> m_hnodes m !! l.
Definition member_glob (F : list loc) (m : Mem) :=
  (m_zsets m, m_avl m, m_znodes m, m_dnodes m, m_queue m, m_fresh m, (fun f => m_hnodes m !! f) <$> F).

Lemma plain_release m l : plain_node m l -> release_node l m = Ok m.
Proof.
  intros (n & kb & Hn & _ & _ & Hty). unfold release_node, hn_unlink_sync, hget.
  rewrite (deref_some _ _ _ Hn). cbn [mbind result_bind]. rewrite decide_False by congruence.
  cbn [mbind result_bind]. rewrite decide_False by congruence. cbn [mbind result_bind].
  change (LARGE_SIZE_TRESHOLD <=? 0) with false. cbn iota. rewrite (deref_some _ _ _ Hn).
  cbn [mbind result_bind]. rewrite decide_False by congruence. cbn [mbind result_bind].
  rewrite ?(deref_some _ _ _ Hn). cbn [mbind result_bind]. by rewrite decide_False by congruence.
Qed.

Lemma member_keeps F m h D :
  (forall l, l ∈ D -> set_h_next NULL <$> h !! l = set_h_next NULL <$> m_hnodes m !! l) ->
  (forall f, f ∈ F -> h !! f = m_hnodes m !! f) ->
  keeps_by member_obs (member_glob F) D m (with_hnodes h m).
Proof.
  intros HD HF. split.
  - intros l Hl. specialize (HD l Hl). cbn. unfold hget. cbn.
    destruct (h !! l) as [[]|], (m_hnodes m !! l) as [[]|]; cbn in *; by simplify_eq.
  - intros l Hl. specialize (HD l Hl). cbn. unfold hget. cbn.
    destruct (h !! l) as [[]|], (m_hnodes m !! l) as [[]|]; cbn in *; by simplify_eq.
  - intros l Hl. apply HD, Hl.
  - unfold member_glob. cbn. f_equal. apply list_fmap_ext. intros i f Hf. apply HF.
    by eapply list_elem_of_lookup_2.
Qed.

Definition members_laws (F : list loc) : NodeStoreOk Mem.
Proof.
  refine {| nd_ok := members_ok F; nd_obs := member_obs; nd_glob := member_glob F |}.
  - intros m D D' H Hs l Hl. by apply H, Hs.
  - intros m D l H Hl. destruct (H l Hl) as (_ & n & kb & Hn & ? & ? & _). cbn. rewrite Hn. cbn. eauto 10.
  - intros m D l p H Hl. destruct (H l Hl) as (HlF & n & kb & Hn & Hh & Hk & Hty).
    cbn [nd_set_next mem_nodes]. unfold hput. rewrite (update_some _ _ _ _ Hn).
    eexists. split; [reflexivity|].
    assert (Hne : forall l', l' <> l -> <[l := set_h_next p n]> (m_hnodes m) !! l' = m_hnodes m !! l')
      by (intros; by rewrite lookup_insert_ne).
    split_and!; [| |by cbn; rewrite lookup_insert_eq|intros l' _ Hl'; cbn; by rewrite Hne].
    + intros l' Hl'. destruct (H l' Hl') as (HF & n' & kb' & Hn' & Hrest). split; [done|].
      destruct (decide (l' = l)) as [->|]; [|exists n', kb'; cbn; by rewrite Hne].
      exists (set_h_next p n), kb. cbn. by rewrite lookup_insert_eq.
    + apply member_keeps.
      * intros l' _. destruct (decide (l' = l)) as [->|]; [|by rewrite Hne]. by rewrite lookup_insert_eq, Hn.
      * intros f Hf. apply Hne. by intros ->.
  - intros m D l H Hl. exists m. split; [by apply plain_release, H|]. by split_and!.
  - intros m D l D' H Hl Hs Hnot. destruct (H l Hl) as (HlF & n & kb & Hn & _).
    cbn. rewrite Hn. cbn. eexists. split; [reflexivity|].
    assert (Hne : forall l', l' <> l -> delete l (m_hnodes m) !! l' = m_hnodes m !! l')
      by (intros; by rewrite lookup_delete_ne).
    assert (HD : forall l', l' ∈ D' -> l' <> l) by (intros l' Hl' ->; done).
    split_and!; [|apply member_keeps|intros l' Hl'; cbn; by rewrite Hne by auto].
    + intros l' Hl'. destruct (H l' (Hs _ Hl')) as (HF & n' & kb' & Hn' & Hrest). split; [done|].
      exists n', kb'. cbn. by rewrite Hne by auto.
    + intros l' Hl'. by rewrite Hne by auto.
    + intros f Hf. apply Hne. by intros ->.
  - intros m D H Hnd. apply keys_bound; [|done]. intros l Hl. destruct (H l Hl) as (_ & n & kb & Hn & _). eauto.
Defined.

(** The heap may move the [heap_idx] of any live node. *)
#[export] Instance mem_heap_idx_ok : PosStoreOk Mem.
Proof.
  refine {| pos_live := fun m l => is_Some (m_hnodes m !! l) |}.
  intros m l v [n Hn]. cbn. rewrite Hn. cbn.
  eexists. split; [reflexivity|]. cbn. rewrite lookup_insert_eq. cbn. split; [done|]. split.
  - intros l' Hl'. by rewrite lookup_insert_ne.
  - intros l'. destruct (decide (l = l')) as [<-|]; [|by rewrite lookup_insert_ne].
    rewrite lookup_insert_eq, Hn. split; intros; by eexists.
Defined.

(** ** Allocation *)

(** Every address in use is below [m_fresh]. *)
Definition fresh_ok (m : Mem) : Prop :=
  forall l, (m_fresh m <= l)%positive ->
    m_hnodes m !! l = None /\ m_zsets m !! l = None /\ m_avl m !! l = None /\
    m_znodes m !! l = None /\ m_dnodes m !! l = None.

(** A key of at most half the maximal size is copied exactly. *)
Definition short_key (key : list Z) : Prop := 2 * Z.of_nat (length key) <= MAX_STR_SIZE.

#[export] Instance short_key_dec key : Decision (short_key key).
Proof. unfold short_key. apply _. Defined.

Lemma copy_rep bs : short_key bs -> exists d, dstr_copy bs = Ok d /\ dstr_rep d bs.
Proof. unfold short_key. intros Hlen. apply copy_ok. lia. Qed.

Lemma tmp_key_ok key :
  short_key key -> exists d, tmp_key key = Ok (mkHKey (str_hash key) (Some d)) /\ dstr_rep d key.
Proof. intros (d & E & Hr)%copy_rep. exists d. unfold tmp_key. by rewrite E. Qed.

(** What [new_node] initialises for each type. *)
Lemma node_init_ok key type z :
  short_key key ->
  exists n, node_init key type z = Ok n /\ h_next n = NULL /\ h_hcode n = str_hash key /\
    dstr_rep (h_key n) key /\ h_type n = type /\ h_heap_idx n = None /\
    (type = T_STR -> exists v, h_val n = Some v /\ dstr_rep v [] /\ d_free v = 0) /\
    (type = T_ZSET -> h_zset n = Some z) /\ (type = T_HSET -> h_hmap n = Some hmap_empty) /\
    (type = T_SET -> h_set n = Some hmap_empty) /\
    (type = T_LIST -> h_list n = Some (mkDList NULL NULL 0)) /\
    (type = T_BITMAP -> exists v, h_bitmap n = Some v /\ dstr_rep v [] /\ d_free v = 0).
Proof.
  intros (d & E & Hr)%copy_rep. unfold node_init. rewrite E. cbn [mbind result_bind].
  destruct (init_rep 0 _ ltac:(lia) eq_refl) as (Hv & Hf & _).
  destruct type; try rewrite hll_init_eq; cbn [mbind result_bind];
    eexists; (split; [reflexivity|]); cbn; split_and!; try done; intros _; eexists; by split_and!.
Qed.

Lemma new_node_eq m key type n :
  node_init key type (Pos.succ (m_fresh m)) = Ok n ->
  exists m', new_node m key type = Ok (m', m_fresh m) /\
    m_hnodes m' = <[m_fresh m := n]> (m_hnodes m) /\
    m_zsets m' = (if decide (type = T_ZSET)
                  then <[Pos.succ (m_fresh m) := mkZSet NULL hmap_empty]> (m_zsets m) else m_zsets m) /\
    m_avl m' = m_avl m /\ m_znodes m' = m_znodes m /\ m_dnodes m' = m_dnodes m /\
    m_queue m' = m_queue m /\ m_fresh m' = Pos.succ (Pos.succ (m_fresh m)).
Proof. intros E. unfold new_node. rewrite E. cbn [mbind result_bind]. by eexists. Qed.

Lemma new_node_fresh m key type m' l :
  fresh_ok m -> new_node m key type = Ok (m', l) -> fresh_ok m'.
Proof.
  intros Hf E. unfold new_node in E. inv_ok. intros y Hy. cbn in Hy |- *.
  destruct (Hf y) as (H1 & H2 & H3 & H4 & H5); [lia|].
  rewrite lookup_insert_ne by lia. split_and!; try done.
  case_decide; [|done]. rewrite lookup_insert_ne by lia. done.
Qed.

Lemma new_node_mem_ok m D key type m' l :
  fresh_ok m -> short_key key -> mem_ok m D -> new_node m key type = Ok (m', l) -> mem_ok m' (l :: D).
Proof.
  intros Hf Hs (ot & oz & Hok) E.
  destruct (node_init_ok key type (Pos.succ (m_fresh m)) Hs)
    as (n & En & _ & Hh & Hk & Hty & _ & _ & Hz & Hhm & _).
  destruct (new_node_eq m key type n En) as (m1 & E1 & Hn1 & Hz1 & Ha1 & Hzn1 & _).
  rewrite E1 in E. injection E as <- <-. set (l := m_fresh m) in *.
  destruct (Hf l) as (_ & _ & _ & Hlz & _); [reflexivity|].
  destruct (Hf (Pos.succ l)) as (_ & Hlzs & _); [lia|].
  exists ot, (fun z => if decide (z = Pos.succ l) then l else oz z). intros l' [->|Hl']%elem_of_cons.
  - exists n, key. rewrite Hn1, lookup_insert_eq, Hty, Hh.
    split; [done|]. split; [apply str_hash_u64|]. split; [done|]. split; [intros ->; by rewrite Hhm|].
    intros ->. exists (Pos.succ l), Leaf. rewrite decide_True by done.
    split; [by apply Hz|]. split; [done|]. split; [|by intros x ?%elem_of_nil].
    exists hmap_empty. rewrite Hz1, decide_True, lookup_insert_eq by done. split_and!; try done; [constructor|].
    by intros x ?%elem_of_nil.
  - destruct (Hok l' Hl') as (n' & kb' & Hn' & Hh' & Hk' & Hhs & Hzs).
    assert (l <> l') by (intros <-; destruct (Hf l) as (? & _); [reflexivity|congruence]).
    exists n', kb'. rewrite Hn1, lookup_insert_ne by done. do 4 (split; [done|]).
    intros Hty'. destruct (Hzs Hty') as (z & t & Hzn & Hoz & Hzat & Hown). exists z, t.
    assert (z <> Pos.succ l) by (intros ->; destruct Hzat as (? & ? & _); congruence).
    rewrite decide_False by done. do 2 (split; [done|]). split.
    + eapply zset_at_ext; [|by rewrite Ha1, Hzn1|exact Hzat]. rewrite Hz1.
      case_decide; [by rewrite lookup_insert_ne|done].
    + intros x Hx. destruct (Hown x Hx) as [HxD ?]. split; [|done].
      intros [->|?]%elem_of_cons; [|done]. destruct Hzat as (? & _ & _ & _ & Hl).
      destruct (Hl l Hx). congruence.
Qed.

Lemma new_node_keeps m D key type m' l :
  fresh_ok m -> mem_ok m D -> new_node m key type = Ok (m', l) ->
  (forall l', l' ∈ D -> m_hnodes m' !! l' = m_hnodes m !! l') /\ l ∉ D.
Proof.
  intros Hf (ot & oz & Hok) E. unfold new_node in E. inv_ok.
  assert (Hne : forall l', l' ∈ D -> m_fresh m <> l').
  { intros l' Hl' <-. destruct (Hok _ Hl') as (n & _ & Hn & _).
    destruct (Hf (m_fresh m)) as (? & _); [reflexivity|congruence]. }
  split; [|intros Hl; by apply (Hne _ Hl)]. intros l' Hl'. cbn. by rewrite lookup_insert_ne by auto.
Qed.

(** The identity under which the table finds a new node. *)
Lemma new_node_ident m key type m' l :
  short_key key -> new_node m key type = Ok (m', l) -> ident m' l = Some (str_hash key, cstr key).
Proof.
  intros Hs E. destruct (node_init_ok key type (Pos.succ (m_fresh m)) Hs) as (n & En & _ & Hh & Hk & _).
  destruct (new_node_eq m key type n En) as (m1 & E1 & Hn1 & _). rewrite E1 in E. injection E as <- <-.
  rewrite <- Hh. eapply ident_spec; [| |exact Hk]; cbn; rewrite Hn1, lookup_insert_eq; done.
Qed.

(** *** No operation of the table allocates *)

Lemma update_none {A} (h h' : gmap loc A) p f l :
  update h p f = Ok h' -> h !! l = None -> h' !! l = None.
Proof.
  destruct p as [x|]; [|done]. cbn. intros E Hl. apply bind_ok in E as (a & Ha & E). injection E as <-.
  apply need_ok in Ha. rewrite lookup_insert_ne; [done|]. congruence.
Qed.

Lemma hput_fresh m p f m' : fresh_ok m -> hput m p f = Ok m' -> fresh_ok m'.
Proof.
  intros Hf E. unfold hput in E. apply bind_ok in E as (h & Hu & E). injection E as <-.
  intros l Hl. destruct (Hf l Hl) as (H1 & H2). split; [|done]. by eapply update_none.
Qed.

Lemma del_avl_tree_fresh fuel m p m' : fresh_ok m -> del_avl_tree fuel m p = Ok m' -> fresh_ok m'.
Proof.
  revert m p m'. induction fuel as [|fuel IH]; intros m p m' Hf E; destruct p as [x|]; cbn in E; try done;
    try (by injection E as <-).
  apply bind_ok in E as (n & _ & E). apply bind_ok in E as (m1 & E1 & E). apply bind_ok in E as (n2 & _ & E).
  apply bind_ok in E as (m2 & E2 & E). unfold free_znode in E. apply bind_ok in E as (zn & _ & E).
  injection E as <-. assert (Hf2 : fresh_ok m2) by eauto.
  intros l Hl. destruct (Hf2 l Hl) as (H1 & H2 & H3 & H4 & H5). cbn.
  rewrite !lookup_delete_None. auto 10.
Qed.

Lemma zset_clear_fresh m p m' : fresh_ok m -> zset_clear m p = Ok m' -> fresh_ok m'.
Proof.
  intros Hf E. unfold zset_clear in E. apply bind_ok in E as (zs & Hu & E). apply bind_ok in E as (z & _ & E).
  apply bind_ok in E as (m1 & E1 & E). apply bind_ok in E as (zs2 & Hu2 & E). injection E as <-.
  assert (Hf1 : fresh_ok m1).
  { eapply del_avl_tree_fresh; [|done]. intros l Hl. destruct (Hf l Hl) as (H1 & H2 & H3). cbn.
    split; [done|]. split; [by eapply update_none|done]. }
  intros l Hl. destruct (Hf1 l Hl) as (H1 & H2 & H3). cbn. split; [done|]. split; [by eapply update_none|done].
Qed.

Lemma unlink_sync_fresh m p m' : fresh_ok m -> hn_unlink_sync m p = Ok m' -> fresh_ok m'.
Proof.
  intros Hf E. unfold hn_unlink_sync in E. apply bind_ok in E as (n & _ & E).
  apply bind_ok in E as (m1 & E1 & E). apply bind_ok in E as (n1 & _ & E).
  assert (Hf1 : fresh_ok m1).
  { destruct (decide (h_type n = T_ZSET)); [apply bind_ok in E1 as (z & _ & E1); by eapply zset_clear_fresh|by injection E1 as <-]. }
  case_decide; [apply bind_ok in E as (hm & _ & E); by eapply hput_fresh|by injection E as <-].
Qed.

Lemma release_fresh l m m' : fresh_ok m -> release_node l m = Ok m' -> fresh_ok m'.
Proof.
  intros Hf E. unfold release_node in E. apply bind_ok in E as (n & _ & E). apply bind_ok in E as (s1 & _ & E).
  apply bind_ok in E as (s2 & _ & E). case_match; [by injection E as <-|by eapply unlink_sync_fresh].
Qed.

Lemma next_fresh l p m m' : fresh_ok m -> nd_set_next l p m = Ok m' -> fresh_ok m'.
Proof. apply hput_fresh. Qed.

Lemma free_fresh l m m' : fresh_ok m -> nd_free l m = Ok m' -> fresh_ok m'.
Proof.
  intros Hf E. cbn [nd_free mem_nodes] in E. apply bind_ok in E as (n & _ & E). injection E as <-.
  intros x Hx. destruct (Hf x Hx) as (H1 & H2). split; [|done]. cbn. apply lookup_delete_None. auto.
Qed.

Lemma hm_insert_fresh hm m l hm' m' : fresh_ok m -> hm_insert hm m l = Ok (hm', m') -> fresh_ok m'.
Proof. apply hm_insert_inv; eauto using next_fresh, release_fresh. Qed.

Lemma hm_delete_fresh hm m key b hm' m' n : fresh_ok m -> hm_delete hm m key b = Ok (hm', m', n) -> fresh_ok m'.
Proof. apply hm_delete_inv; eauto using next_fresh, release_fresh, free_fresh. Qed.

(** ** Large values are handed to the thread pool *)

(** Relinking a chain keeps the values of the nodes. *)
Lemma slot_set_values htab m slot p htab' m' l n :
  slot_set htab m slot p = Ok (htab', m') -> m_hnodes m !! l = Some n ->
  exists n', m_hnodes m' !! l = Some n' /\ h_type n' = h_type n /\ h_hmap n' = h_hmap n /\
    h_zset n' = h_zset n.
Proof.
  destruct slot as [pos|x]; cbn [slot_set nd_set_next mem_nodes]; intros E Hn.
  { apply bind_ok in E as (t & _ & E). injection E as <- <-. by exists n. }
  apply bind_ok in E as (m1 & Hput & E). injection E as <- <-.
  apply bind_ok in Hput as (h & Hup & E). injection E as <-.
  cbn [update] in Hup. apply bind_ok in Hup as (nx & Hx & E). apply need_ok in Hx. injection E as <-.
  cbn. destruct (decide (x = l)) as [->|Hne].
  - rewrite lookup_insert_eq. eexists. split; [reflexivity|]. by assert (nx = n) as -> by congruence.
  - rewrite lookup_insert_ne by done. by exists n.
Qed.

(** A hash with so many fields that a worker thread is to dispose of it. *)
Definition large_hash (m : Mem) (l : loc) : Prop :=
  exists n hm, m_hnodes m !! l = Some n /\ h_type n = T_HSET /\ h_hmap n = Some hm /\
    LARGE_SIZE_TRESHOLD <= hm_size hm.

Lemma release_large m l :
  large_hash m l -> release_node l m = Ok (threadpool_produce m l).
Proof.
  intros (n & hm & Hn & Hty & Hhm & Hsz). unfold release_node, hget. rewrite (deref_some _ _ _ Hn).
  cbn [mbind result_bind]. rewrite decide_False by congruence. cbn [mbind result_bind].
  rewrite decide_True by congruence. cbn [mbind result_bind]. rewrite Hhm. cbn [need mbind result_bind]. rewrite (proj2 (Z.leb_le _ _)) by lia. done.
Qed.

Lemma unlink_large htab m slot l htab' m' :
  slot_get htab m slot = Ok (Some l) -> large_hash m l ->
  ht_unlink htab m slot = Ok (htab', m', Some l) ->
  l ∈ m_queue m' /\ is_Some (m_hnodes m' !! l).
Proof.
  intros Hs (n & hm & Hn & Hty & Hhm & Hsz) E. unfold ht_unlink in E. rewrite Hs in E.
  cbn [mbind result_bind] in E. apply bind_ok in E as (next & Hnx & E).
  apply bind_ok in E as ([t1 m1] & Hset & E). destruct (slot_set_values _ _ _ _ _ _ _ _ Hset Hn) as
    (n1 & Hn1 & Hty1 & Hhm1 & _). cbn beta iota in E.
  assert (Hl : large_hash m1 l) by (exists n1, hm; split_and!; congruence).
  cbn [nd_release mem_nodes] in E. rewrite (release_large _ _ Hl) in E. cbn [mbind result_bind] in E.
  injection E as <- <-. cbn. split; [set_solver|eauto].
Qed.

(** The rest of [hm_delete] once the slot of a large hash was found. *)
Lemma unlink_free_large m D htab bs i pre l post :
  tab_rep m htab bs -> mem_ok m D -> concat bs ⊆ D -> NoDup (concat bs) ->
  bs !! i = Some (pre ++ l :: post) -> Z.of_nat (length (concat bs)) < 2 ^ 60 ->
  slot_get htab m (slot_after (SlotTab (Z.of_nat i)) pre) = Ok (Some l) -> large_hash m l ->
  exists htab' m1 m', ht_unlink htab m (slot_after (SlotTab (Z.of_nat i)) pre) = Ok (htab', m1, Some l) /\
    free_node (Some l) true m1 = Ok m' /\ l ∈ m_queue m' /\ hn_unlink_sync m' (Some l) = Fault Dangling.
Proof.
  intros Ht Hok Hsub Hnd Hi Hsz Hg Hl.
  destruct (ht_unlink_ok m D htab bs i pre l post) as (t' & m1 & E & _); [done..|].
  destruct (unlink_large _ _ _ _ _ _ Hg Hl E) as [Hqu [n1 Hn1]].
  exists t', m1. cbn [free_node nd_free mem_nodes]. unfold hget. rewrite (deref_some _ _ _ Hn1).
  eexists. split; [done|]. split; [reflexivity|]. split; [done|].
  unfold hn_unlink_sync, hget. cbn. by rewrite lookup_delete_eq.
Qed.

(** ** Properties *)

(** [zset_clear] on a well-formed sorted set terminates, frees every
    [ZNode] of its tree exactly once, touches no other object and leaves the
    set empty. *)
Theorem zset_clear_frees m z t :
  zset_at m z t ->
  exists m', zset_clear m (Some z) = Ok m' /\ m_zsets m' !! z = Some (mkZSet NULL hmap_empty) /\
    (forall x, x ∈ inorder t -> m_hnodes m' !! x = None /\ m_avl m' !! x = None /\ m_znodes m' !! x = None) /\
    (forall x, x ∉ inorder t -> m_hnodes m' !! x = m_hnodes m !! x /\ m_avl m' !! x = m_avl m !! x /\
       m_znodes m' !! x = m_znodes m !! x).
Proof.
  intros Hz. destruct (zset_clear_ok m z t Hz) as (m' & m1 & E & F & ->). eexists. split; [exact E|].
  cbn. rewrite lookup_insert_eq. split; [done|]. split; [apply F|apply F].
Qed.

(** [new_node] allocates a node no table knows, under the hash and the
    bytes of its key, with the empty value of its type; it does not write
    [heap_idx], so [rem_ttl] of the node reads an indeterminate index. *)
Theorem new_node_correct m D key type :
  fresh_ok m -> short_key key -> mem_ok m D ->
  exists m' l n, new_node m key type = Ok (m', l) /\ fresh_ok m' /\ mem_ok m' (l :: D) /\ (l ∉ D) /\
    ident m' l = Some (str_hash key, cstr key) /\
    m_hnodes m' = <[l := n]> (m_hnodes m) /\ h_type n = type /\
    forall heap, rem_ttl heap m' l = Fault Uninitialised.
Proof.
  intros Hf Hs Hok.
  destruct (node_init_ok key type (Pos.succ (m_fresh m)) Hs) as (n & En & _ & Hh & Hk & Hty & Hi & _).
  destruct (new_node_eq m key type n En) as (m' & E & Hn & _).
  exists m', (m_fresh m), n. split; [done|]. split; [by eapply new_node_fresh|].
  split; [by eapply new_node_mem_ok|]. split; [by eapply new_node_keeps|].
  split; [by eapply new_node_ident|]. split; [done|]. split; [done|].
  intros heap. unfold rem_ttl. cbn. by rewrite Hn, lookup_insert_eq; cbn; rewrite Hi.
Qed.

(** (A worker thread disposes of a node that is already freed): deleting a
    key whose hash has 1000 fields or more with [do_free] queues the node for
    a worker thread and frees it, so the worker's [hn_unlink_sync] follows a
    dangling pointer. *)
Theorem large_delete_dangles m hmap M key d kb l :
  hm_map m hmap M -> nd_ok m (vals M) -> k_key key = Some d -> dstr_rep d kb ->
  Z.of_nat (size M) < 2 ^ 60 -> M !! (k_hcode key, cstr kb) = Some l -> large_hash m l ->
  exists hmap' m', hm_delete hmap m key true = Ok (hmap', m', 1) /\ l ∈ m_queue m' /\
    hn_unlink_sync m' (Some l) = Fault Dangling.
Proof.
  intros Hmap Hok Hk Hd Hsz Hq Hlarge. pose proof Hmap as [(ob & nb & [Ho Hn _ _ Hnd] & Hp) Hall].
  assert (Hs : (concat ob ⊆ vals M) /\ (concat nb ⊆ vals M)) by (rewrite Hp; clear; set_solver).
  destruct Hs as [Hso Hsn]. pose proof (length_vals M) as Hlen. rewrite Hp, length_app in Hlen.
  assert (Huniq : forall l', ident m l' = Some (k_hcode key, cstr kb) -> l' ∈ vals M -> l' = l).
  { intros l' Hid Hin. pose proof (hm_map_lookup _ _ _ _ _ Hmap Hin Hid). congruence. }
  unfold hm_delete.
  destruct (ht_lookup_ok m (vals M) _ ob key d kb Ho Hok Hso (NoDup_app_l _ _ Hnd) Hk Hd)
    as [(i & pre & l' & post & Hi & Hid & -> & Hg)|[Hno ->]]; cbn [mbind result_bind].
  { assert (l' = l) as -> by (apply Huniq; [done|apply Hso; eapply elem_of_bucket; [done|clear; set_solver]]).
    destruct (unlink_free_large m (vals M) (hm_older hmap) ob i pre l post) as (t' & m1 & m' & -> & E & ? & ?);
      [done|done|done|by eapply NoDup_app_l|done|lia|done|done|].
    cbn [mbind result_bind]. rewrite E. by eexists _, m'. }
  destruct (ht_lookup_ok m (vals M) _ nb key d kb Hn Hok Hsn (NoDup_app_r _ _ Hnd) Hk Hd)
    as [(i & pre & l' & post & Hi & Hid & -> & Hg)|[Hno' ->]]; cbn [mbind result_bind].
  { assert (l' = l) as -> by (apply Huniq; [done|apply Hsn; eapply elem_of_bucket; [done|clear; set_solver]]).
    destruct (unlink_free_large m (vals M) (hm_newer hmap) nb i pre l post) as (t' & m1 & m' & -> & E & ? & ?);
      [done|done|done|by eapply NoDup_app_r|done|lia|done|done|].
    cbn [mbind result_bind]. rewrite E. by eexists _, m'. }
  exfalso. assert (Hin : l ∈ vals M) by (apply elem_of_vals; eauto). pose proof (Hall _ _ Hq) as Hid.
  rewrite Hp in Hin. apply elem_of_app in Hin as [Hin|Hin]; [by apply (Hno l)|by apply (Hno' l)].
Qed.

(** ** Witnesses *)

(** A sorted set with one member. *)
Definition zset1_mem : Mem :=
  mkMem ∅ {[ 1%positive := mkZSet (Some 2%positive) hmap_empty ]} {[ 2%positive := avl_init ]}
    {[ 2%positive := mkZNode 0 (exact_dstr [97]) ]} ∅ [] 3.

Lemma zset1_at : zset_at zset1_mem 1 (Node Leaf 2 Leaf).
Proof.
  exists hmap_empty. split; [done|]. split; [done|]. split; [by_compute|].
  intros x ->%list_elem_of_singleton. by eexists.
Qed.

Lemma zset_clear_frees_witness :
  exists m', zset_clear zset1_mem (Some 1%positive) = Ok m' /\
    m_zsets m' !! 1%positive = Some (mkZSet NULL hmap_empty) /\
    (forall x, x ∈ [2%positive] -> m_hnodes m' !! x = None /\ m_avl m' !! x = None /\ m_znodes m' !! x = None) /\
    (forall x, x ∉ [2%positive] -> m_hnodes m' !! x = m_hnodes zset1_mem !! x /\
       m_avl m' !! x = m_avl zset1_mem !! x /\ m_znodes m' !! x = m_znodes zset1_mem !! x).
Proof. apply (zset_clear_frees zset1_mem 1 (Node Leaf 2 Leaf) zset1_at). Defined.

Lemma mem_empty_fresh : fresh_ok mem_empty.
Proof. intros l _. cbn. by rewrite !lookup_empty. Qed.

Lemma mem_empty_ok : mem_ok mem_empty [].
Proof. exists id, id. by intros l ?%elem_of_nil. Qed.

Lemma new_node_correct_witness :
  exists m' l n, new_node mem_empty [107] T_HSET = Ok (m', l) /\ fresh_ok m' /\ mem_ok m' [l] /\ (l ∉ []) /\
    ident m' l = Some (str_hash [107], [107]) /\ m_hnodes m' = <[l := n]> ∅ /\ h_type n = T_HSET /\
    forall heap, rem_ttl heap m' l = Fault Uninitialised.
Proof.
  apply (new_node_correct mem_empty [] [107] T_HSET); [apply mem_empty_fresh|by_compute|apply mem_empty_ok].
Defined.

(** A database whose only key holds a hash of 1000 fields (their table is not
    looked at). *)
Definition big_fields : HMap := mkHMap htab_empty (mkHTab None 0 1000) 0.
Definition big_mem : Mem :=
  mkMem {[ 1%positive := mkHNode None 5 (exact_dstr [97]) T_HSET None None (Some big_fields) None None None None None ]}
    ∅ ∅ ∅ ∅ [] 2.
Definition big_db : HMap * Mem :=
  match hm_insert hmap_empty big_mem 1 with Ok r => r | Fault _ => (hmap_empty, big_mem) end.
Definition big_entry : gmap (Z * list Z) loc := {[ (5, [97]) := 1%positive ]}.

Lemma big_mem_ok : nd_ok big_mem [1%positive].
Proof.
  exists id, id. intros l ->%list_elem_of_singleton. eexists _, [97]. split; [reflexivity|].
  split; [done|]. split; [by apply exact_dstr_rep|]. split; [by eexists|done].
Qed.

Lemma big_db_ok : hm_map big_db.2 big_db.1 big_entry /\ nd_ok big_db.2 (vals big_entry).
Proof.
  destruct (hm_insert_ok big_mem [1%positive] hmap_empty [] 1) as (h & st & E & Hr & Hev);
    [apply hm_empty_rep|apply big_mem_ok|by_compute|by_compute|done|].
  unfold big_db. rewrite E. cbn [fst snd]. split; [|apply Hev]. split; [exact Hr|].
  unfold big_entry. intros q l [<- <-]%lookup_singleton_Some.
  rewrite (ident_keeps [1%positive] big_mem); [reflexivity|apply Hev|by_compute].
Qed.

Lemma large_delete_dangles_witness :
  exists hmap' m', hm_delete big_db.1 big_db.2 (mkHKey 5 (Some (exact_dstr [97]))) true = Ok (hmap', m', 1) /\
    1%positive ∈ m_queue m' /\ hn_unlink_sync m' (Some 1%positive) = Fault Dangling.
Proof.
  apply (large_delete_dangles big_db.2 big_db.1 big_entry (mkHKey 5 (Some (exact_dstr [97])))
           (exact_dstr [97]) [97] 1);
    [apply big_db_ok|apply big_db_ok|reflexivity|by apply exact_dstr_rep|by vm_compute|reflexivity|].
  eexists _, big_fields. split; [vm_compute; reflexivity|]. by vm_compute.
Defined.
