(* ===== verification/Zset.v ===== *)
(** * Sorted sets: [src/src/data_structures/zset.cpp], [zset.h]

    A sorted set keeps its members in an AVL tree ordered by score and key and
    in a hash table by key.  Scores are IEEE doubles, modelled by their 64-bit
    patterns. *)

From stdpp Require Import sorting.
From S2P Require Import Prelude Dstr Hash Hashmap Avl Node.

(** ** Doubles *)

Definition d_mag (x : Z) : Z := Z.land x (2 ^ 63 - 1).
Definition d_nan (x : Z) : bool := 0x7FF0000000000000 <? d_mag x.
(** The order of the non-NaN values; both zeros have key 0. *)
Definition d_ord (x : Z) : Z := if Z.testbit x 63 then - d_mag x else d_mag x.

Definition d_lt (x y : Z) : bool := negb (d_nan x) && negb (d_nan y) && (d_ord x <? d_ord y).
Definition d_neq (x y : Z) : bool := d_nan x || d_nan y || negb (d_ord x =? d_ord y).

(** ** Operations *)

(** The sign of [memcmp] over two byte sequences of the same length. *)
Fixpoint memcmp (a b : list Z) : comparison :=
  match a, b with
  | x :: a, y :: b => match x ?= y with Eq => memcmp a b | c => c end
  | _, _ => Eq
  end.

(** [zless] on the score and the key of a node. *)
Definition zless_vals (nscore : Z) (nkey : list Z) (score : Z) (key : list Z) : bool :=
  if d_neq score nscore then d_lt nscore score
  else
    let n := Nat.min (length key) (length nkey) in
    match memcmp (take n nkey) (take n key) with
    | Lt => true
    | Gt => false
    | Eq => (length nkey <? length key)%nat
    end.

Definition zless (m : Mem) (node : ptr) (score : Z) (key : list Z) : result bool :=
  n ← deref (m_znodes m) node;
  nkey ← dstr_bytes (zn_key n);
  Ok (zless_vals (zn_score n) nkey score key).

(** [new_node] allocates a node that is copied into the [ZNode] and lost. *)
Definition new_znode (m : Mem) (score : Z) (key : list Z) : result (Mem * loc) :=
  let l := m_fresh m in
  hn ← node_init key T_STR l;
  k ← dstr_copy key;
  Ok (mkMem (<[l := hn]> (m_hnodes m)) (m_zsets m) (<[l := avl_init]> (m_avl m))
        (<[l := mkZNode score k]> (m_znodes m)) (m_dnodes m) (m_queue m) (Pos.succ l), l).

Definition zset_lookup (m : Mem) (zset : ZSet) (key : list Z) : result ptr :=
  match z_avl_root zset with
  | None => Ok NULL
  | Some _ => tmp ← tmp_key key; hm_lookup (z_hmap zset) m tmp
  end.

Definition put_zset (m : Mem) (z : loc) (f : ZSet -> ZSet) : result Mem :=
  zs ← update (m_zsets m) (Some z) f; Ok (with_zsets zs m).

Definition zset_delete (m : Mem) (z : loc) (znode : loc) : result Mem :=
  zn ← deref (m_znodes m) (Some znode);
  kb ← dstr_bytes (zn_key zn);
  k ← dstr_copy kb;
  hn ← hget m (Some znode);
  let tmp := mkHKey (h_hcode hn) (Some k) in
  '(h, root) ← avl_del (m_avl m) (Some znode);
  m ← put_zset (with_avl h m) z (fun zs => mkZSet root (z_hmap zs));
  zs ← deref (m_zsets m) (Some z);
  '(hm, m, _) ← hm_delete (z_hmap zs) m tmp false;
  m ← put_zset m z (fun zs => mkZSet (z_avl_root zs) hm);
  free_znode znode m.

(** An [AVLNode **]: the root of the set or a child field of a node. *)
Inductive AvlSlot := RootSlot | LeftOf (l : loc) | RightOf (l : loc).

(** The descent of [zset_insert]: [next] is the value of [*from]. *)
Fixpoint insert_loop (fuel : nat) (m : Mem) (score : Z) (key : list Z) (from : AvlSlot) (next curr : ptr)
  : result (AvlSlot * ptr) :=
  match next with
  | None => Ok (from, curr)
  | Some l =>
      match fuel with
      | O => Fault OutOfFuel
      | S fuel =>
          n ← deref (m_avl m) next;
          less ← zless m next score key;
          if (less : bool) then insert_loop fuel m score key (RightOf l) (avl_right n) next
          else insert_loop fuel m score key (LeftOf l) (avl_left n) next
      end
  end.

(** [*from = node] *)
Definition attach (m : Mem) (z : loc) (from : AvlSlot) (node : ptr) : result Mem :=
  match from with
  | RootSlot => put_zset m z (fun zs => mkZSet node (z_hmap zs))
  | LeftOf l => h ← update (m_avl m) (Some l) (set_left node); Ok (with_avl h m)
  | RightOf l => h ← update (m_avl m) (Some l) (set_right node); Ok (with_avl h m)
  end.

(** The part of [zset_insert] that creates the node and links it into the
    table and the tree. *)
Definition zset_add (m : Mem) (z : loc) (score : Z) (key : list Z) : result Mem :=
  '(m, znode) ← new_znode m score key;
  zs ← deref (m_zsets m) (Some z);
  '(hm, m) ← hm_insert (z_hmap zs) m znode;
  m ← put_zset m z (fun zs => mkZSet (z_avl_root zs) hm);
  zs ← deref (m_zsets m) (Some z);
  '(from, curr) ← insert_loop (size (m_avl m)) m score key RootSlot (z_avl_root zs) NULL;
  m ← attach m z from (Some znode);
  h ← update (m_avl m) (Some znode) (set_parent curr);
  '(h, root) ← avl_fix h (Some znode);
  put_zset (with_avl h m) z (fun zs => mkZSet root (z_hmap zs)).

(** [true] if the member was inserted, [false] if it was updated. *)
Definition zset_insert (m : Mem) (z : loc) (score : Z) (key : list Z) : result (Mem * bool) :=
  zs ← deref (m_zsets m) (Some z);
  node ← zset_lookup m zs key;
  '(m, is_insert) ← match node with
                    | Some n => m ← zset_delete m z n; Ok (m, false)
                    | None => Ok (m, true)
                    end;
  m ← zset_add m z score key;
  Ok (m, is_insert).

Fixpoint lower_bound_loop (fuel : nat) (m : Mem) (score : Z) (key : list Z) (next lb : ptr) : result ptr :=
  match next with
  | None => Ok lb
  | Some l =>
      match fuel with
      | O => Fault OutOfFuel
      | S fuel =>
          n ← deref (m_avl m) next;
          less ← zless m next score key;
          if (less : bool) then lower_bound_loop fuel m score key (avl_right n) lb
          else lower_bound_loop fuel m score key (avl_left n) next
      end
  end.

Definition zset_lower_bound (m : Mem) (zset : ZSet) (score : Z) (key : list Z) : result ptr :=
  lower_bound_loop (size (m_avl m)) m score key (z_avl_root zset) NULL.

(** One pass of the loop of [zset_offset]: the next node and its rank, or the
    end of the walk above the root. *)
Definition offset_step (h : gmap loc AVLNode) (node : ptr) (rank offset : Z) : result (option (ptr * Z)) :=
  n ← deref h node;
  ls ← avl_size h (avl_left n);
  rs ← avl_size h (avl_right n);
  if (offset <? rank) && (s32 (rank - s32 ls) <=? offset) then
    l ← deref h (avl_left n);
    s ← avl_size h (avl_right l);
    Ok (Some (avl_left n, s32 (rank - u32 (1 + s))))
  else if (rank <? offset) && (offset <=? s32 (rank + s32 rs)) then
    r ← deref h (avl_right n);
    s ← avl_size h (avl_left r);
    Ok (Some (avl_right n, s32 (rank + u32 (1 + s))))
  else
    match avl_parent n with
    | None => Ok None
    | Some _ =>
        p ← deref h (avl_parent n);
        if bool_decide (avl_left p = node) then Ok (Some (avl_parent n, s32 (rank + u32 (1 + rs))))
        else Ok (Some (avl_parent n, s32 (rank - u32 (1 + ls))))
    end.

Fixpoint offset_loop (fuel : nat) (h : gmap loc AVLNode) (node : ptr) (rank offset : Z) : result ptr :=
  match fuel with
  | O => Fault OutOfFuel
  | S fuel =>
      if rank =? offset then Ok node
      else
        next ← offset_step h node rank offset;
        match next with
        | None => Ok NULL
        | Some (node, rank) => offset_loop fuel h node rank offset
        end
  end.

(** A walk goes up at most to the root and down at most to a leaf. *)
Definition zset_offset (m : Mem) (znode : loc) (offset : Z) : result ptr :=
  offset_loop (S (2 * size (m_avl m))) (m_avl m) (Some znode) 0 offset.

(** ** Positions in a tree *)

(** The nodes before and after the subtree at a position. *)
Fixpoint pre (fs : list frame) : list loc :=
  match fs with
  | [] => []
  | FL _ _ :: fs => pre fs
  | FR l x :: fs => pre fs ++ inorder l ++ [x]
  end.

Fixpoint post (fs : list frame) : list loc :=
  match fs with
  | [] => []
  | FL x r :: fs => x :: inorder r ++ post fs
  | FR _ _ :: fs => post fs
  end.

Lemma inorder_zip_pre t fs : inorder (zip t fs) = pre fs ++ inorder t ++ post fs.
Proof.
  revert t. induction fs as [|[x r|l x] fs IH]; intros t; cbn; [by rewrite app_nil_r|..];
    rewrite IH; cbn; by rewrite <- ?app_assoc.
Qed.

Lemma hgt_zip_le t fs : hgt t + Z.of_nat (length fs) <= hgt (zip t fs).
Proof.
  revert t. induction fs as [|f fs IH]; intros t; cbn [zip length]; [lia|].
  specialize (IH (plug f t)). destruct f; cbn [plug hgt] in IH |- *; lia.
Qed.

(** Reading a list by a signed index. *)
Definition nth_z (l : list loc) (i : Z) : ptr := if 0 <=? i then l !! Z.to_nat i else None.

Lemma nth_z_range l i : nth_z l i <> None -> 0 <= i < Z.of_nat (length l).
Proof.
  unfold nth_z. zcase; [|done]. destruct (l !! Z.to_nat i) eqn:E; [|done]. intros _.
  apply lookup_lt_Some in E. lia.
Qed.

Lemma nth_z_none l i : ~ (0 <= i < Z.of_nat (length l)) -> nth_z l i = None.
Proof. intros H. unfold nth_z. zcase; [|done]. apply lookup_ge_None_2. lia. Qed.

Lemma nth_z_app_l a b i : i < Z.of_nat (length a) -> nth_z (a ++ b) i = nth_z a i.
Proof. intros H. unfold nth_z. zcase; [|done]. apply lookup_app_l. lia. Qed.

Lemma nth_z_app_r a b i : Z.of_nat (length a) <= i -> nth_z (a ++ b) i = nth_z b (i - Z.of_nat (length a)).
Proof.
  intros H. unfold nth_z. zbool. rewrite lookup_app_r by lia. f_equal. lia.
Qed.

Lemma nth_z_cons x l i : nth_z (x :: l) i = if i =? 0 then Some x else nth_z l (i - 1).
Proof.
  zcase; [by subst|]. unfold nth_z. destruct (Z.leb_spec 0 i), (Z.leb_spec 0 (i - 1)); try lia; [|done].
  replace (Z.to_nat i) with (S (Z.to_nat (i - 1))) by lia. done.
Qed.

(** ** The walk of [zset_offset] *)

Section offset.
Context (h : gmap loc AVLNode) (i0 T : Z).
Context (Hi0 : 0 <= i0 < 2 ^ 30).

Lemma offset_step_eq p l x r j :
  tree_at h p (Node l x r) -> cnt l <= j -> j + cnt r < 2 ^ 30 -> j <> T ->
  offset_step h (Some x) (j - i0) (T - i0)
  = if (j - cnt l <=? T) && (T <? j) then Ok (Some (root_of l, j - 1 - cnt (rgt l) - i0))
    else if (j <? T) && (T <=? j + cnt r) then Ok (Some (root_of r, j + 1 + cnt (lft r) - i0))
    else match p with
         | None => Ok None
         | Some _ => pn ← deref h p;
             if bool_decide (avl_left pn = Some x) then Ok (Some (p, j + 1 + cnt r - i0))
             else Ok (Some (p, j - 1 - cnt l - i0))
         end.
Proof.
  intros (Hx & Hl & Hr) Hjl Hjr Hne. pose proof (cnt_length l). pose proof (cnt_length r).
  unfold offset_step. rewrite (deref_some _ _ _ Hx). cbn [mbind result_bind avl_left avl_right avl_parent].
  rewrite (avl_size_ok _ _ _ Hl), (avl_size_ok _ _ _ Hr). cbn [mbind result_bind]. nowrap.
  assert ((T - i0 <? j - i0) && (j - i0 - cnt l <=? T - i0) = (j - cnt l <=? T) && (T <? j)) as ->
    by (repeat zcase; (done || lia)).
  assert ((j - i0 <? T - i0) && (T - i0 <=? j - i0 + cnt r) = (j <? T) && (T <=? j + cnt r)) as ->
    by (repeat zcase; (done || lia)).
  destruct (Z.leb_spec (j - cnt l) T), (Z.ltb_spec T j); cbn [andb].
  1: { destruct l as [|ll y lr]; [cbn in *; lia|]. cbn [root_of rgt].
       pose proof (cnt_length ll). pose proof (cnt_length lr). cbn [cnt] in *.
       destruct Hl as (Hy & Hll & Hlr). rewrite (deref_some _ _ _ Hy). cbn [mbind result_bind avl_right].
       rewrite (avl_size_ok _ _ _ Hlr). cbn [mbind result_bind]. nowrap. do 3 f_equal. lia. }
  all: destruct (Z.ltb_spec j T), (Z.leb_spec T (j + cnt r)); cbn [andb]; try lia.
  all: try (destruct p as [p|]; [|done]; destruct (deref h (Some p)) as [pn|]; [|done];
    cbn [mbind result_bind]; case_bool_decide; nowrap; do 3 f_equal; lia).
  destruct r as [|rl y rr]; [cbn in *; lia|]. cbn [root_of lft].
  pose proof (cnt_length rl). pose proof (cnt_length rr). cbn [cnt] in *.
  destruct Hr as (Hy & Hrl & Hrr). rewrite (deref_some _ _ _ Hy). cbn [mbind result_bind avl_left].
  rewrite (avl_size_ok _ _ _ Hrl). cbn [mbind result_bind]. nowrap. do 3 f_equal. lia.
Qed.

(** Going down to a target inside the subtree. *)
Lemma offset_down fuel p t x B :
  tree_at h p t -> root_of t = Some x -> 0 <= B -> B + cnt t < 2 ^ 30 -> B <= T < B + cnt t ->
  hgt t < Z.of_nat fuel ->
  offset_loop fuel h (Some x) (B + cnt (lft t) - i0) (T - i0) = Ok (nth_z (inorder t) (T - B)).
Proof.
  revert fuel p x B. induction t as [|l IHl y r IHr]; intros fuel p x B Ht Hx HB Hn HTB Hf; [done|].
  injection Hx as ->. cbn [cnt hgt lft inorder] in *. pose proof (cnt_length l). pose proof (cnt_length r).
  pose proof (hgt_range l). pose proof (hgt_range r). destruct fuel as [|fuel]; [lia|]. cbn [offset_loop].
  destruct (Z.eqb_spec (B + cnt l - i0) (T - i0)) as [E|Hne].
  { rewrite nth_z_app_r by lia. rewrite nth_z_cons. by zbool. }
  rewrite (offset_step_eq p l x r (B + cnt l)) by (done || lia). pose proof Ht as (_ & Hl & Hr).
  destruct (Z.lt_ge_cases T (B + cnt l)) as [Hlt|Hge]; zbool; cbn [andb mbind result_bind].
  - destruct l as [|ll z lr]; [cbn in *; lia|]. cbn [root_of rgt].
    replace (B + cnt (Node ll z lr) - 1 - cnt lr - i0) with (B + cnt (lft (Node ll z lr)) - i0) by (cbn; lia).
    rewrite (IHl fuel (Some x) z B) by (done || lia). rewrite nth_z_app_l by lia. done.
  - destruct r as [|rl z rr]; [cbn in *; lia|]. cbn [root_of lft].
    rewrite nth_z_app_r, nth_z_cons by lia. zbool.
    replace (B + cnt l + 1 + cnt rl - i0) with ((B + cnt l + 1) + cnt (lft (Node rl z rr)) - i0) by (cbn; lia).
    rewrite (IHr fuel (Some x) z (B + cnt l + 1)) by (done || lia). do 2 f_equal. lia.
Qed.

(** Going up until the target is inside the subtree, or past the root. *)
Lemma offset_up fs l x r fuel :
  let t := zip (Node l x r) fs in
  tree_at h NULL t -> NoDup (inorder t) -> cnt t < 2 ^ 30 ->
  Z.of_nat (length fs) + hgt t < Z.of_nat fuel ->
  offset_loop fuel h (Some x) (Z.of_nat (length (pre fs)) + cnt l - i0) (T - i0)
  = Ok (nth_z (inorder t) T).
Proof.
  revert l x r fuel. induction fs as [|f fs IH]; intros l x r fuel t Ht Hnd Hc Hf; subst t.
  - change (Z.of_nat (length (pre []))) with 0. cbn [zip] in *.
    destruct (decide (0 <= T < cnt (Node l x r))) as [Hin|Hout].
    { pose proof (offset_down fuel NULL (Node l x r) x 0) as Hd. cbn [lft] in Hd.
      rewrite Hd by (done || lia). by rewrite Z.sub_0_r. }
    pose proof (hgt_range (Node l x r)). destruct fuel as [|fuel]; [lia|]. cbn [offset_loop].
    rewrite nth_z_none by (rewrite <- cnt_length; lia). cbn [cnt] in *.
    pose proof (cnt_length l). pose proof (cnt_length r). zbool.
    rewrite (offset_step_eq NULL l x r (0 + cnt l)) by (done || lia).
    repeat zcase; cbn [andb mbind result_bind]; (done || lia).
  - set (t := zip (Node l x r) (f :: fs)) in *. pose proof (inorder_zip_pre (Node l x r) (f :: fs)) as Hin.
    fold t in Hin. pose proof (f_equal length Hin) as Hlen. rewrite !length_app in Hlen.
    pose proof (cnt_length t). pose proof (cnt_length (Node l x r)).
    pose proof (cnt_length l). pose proof (cnt_length r). pose proof (hgt_range (Node l x r)).
    pose proof (hgt_zip_le (Node l x r) (f :: fs)) as Hh. fold t in Hh.
    set (B := Z.of_nat (length (pre (f :: fs)))) in *.
    pose proof Ht as [Htn Hcf]%tree_at_zip.
    destruct (decide (B <= T < B + cnt (Node l x r))) as [HT'|Hout].
    { pose proof (offset_down fuel _ (Node l x r) x B Htn) as Hd. cbn [lft] in Hd.
      rewrite Hd by (done || lia). rewrite Hin. rewrite nth_z_app_r by lia. rewrite nth_z_app_l by lia. done. }
    destruct fuel as [|fuel]; [lia|]. cbn [offset_loop].
    cbn [cnt] in *. zbool. rewrite (offset_step_eq _ l x r (B + cnt l) Htn) by lia.
    assert ((B + cnt l - cnt l <=? T) && (T <? B + cnt l) = false) as -> by (repeat zcase; (done || lia)).
    assert ((B + cnt l <? T) && (T <=? B + cnt l + cnt r) = false) as -> by (repeat zcase; (done || lia)).
    cbn [cparent]. destruct Hcf as (Hp & _). rewrite (deref_some _ _ _ Hp). cbn [mbind result_bind avl_left].
    cbn [length] in Hf. destruct f as [y s|s y]; cbn [plug lft root_of flabel] in *.
    + rewrite bool_decide_true by done. subst B. cbn [pre mbind result_bind].
      replace (Z.of_nat (length (pre fs)) + cnt l + 1 + cnt r - i0)
        with (Z.of_nat (length (pre fs)) + cnt (Node l x r) - i0) by (cbn [cnt]; lia).
      apply (IH (Node l x r) y s fuel Ht Hnd Hc). subst t. cbn [zip plug] in *. lia.
    + rewrite bool_decide_false.
      2: { intros E%root_elem. clear -Hnd E. subst t. cbn [zip plug] in Hnd. rewrite inorder_zip_perm in Hnd.
           apply NoDup_app in Hnd as (Hnd & _). apply NoDup_node in Hnd as (_ & _ & _ & _ & Hd).
           apply (Hd x E). cbn. set_solver. }
      cbn [mbind result_bind]. subst B. cbn [pre] in *. rewrite !length_app in *. cbn [length] in *.
      replace (Z.of_nat (length (pre fs) + (length (inorder s) + 1)) + cnt l - 1 - cnt l - i0)
        with (Z.of_nat (length (pre fs)) + cnt s - i0) by (rewrite (cnt_length s); lia).
      apply (IH s y (Node l x r) fuel Ht Hnd Hc). subst t. cbn [zip plug] in *. lia.
Qed.
End offset.

(** ** Searching the tree *)

(** A node of a list is in the first or in the second part of a split. *)
Lemma split_at {A} (l r a b : list A) x :
  l ++ x :: r = a ++ b ->
  (exists a', a = l ++ x :: a' /\ r = a' ++ b) \/ (exists b', b = b' ++ x :: r /\ l = a ++ b').
Proof.
  intros E. apply app_eq_inv in E as [(k & -> & E)|(k & -> & E)].
  - right. by exists k.
  - destruct k as [|y k]; cbn in E.
    + right. exists []. split; [done|]. by rewrite !app_nil_r.
    + left. injection E as -> ->. by exists k.
Qed.

(** The slot the descent stands at. *)
Definition slot_of (fs : list frame) : AvlSlot :=
  match fs with [] => RootSlot | FL x _ :: _ => LeftOf x | FR _ x :: _ => RightOf x end.

Section search.
Context (m : Mem) (score : Z) (key : list Z) (less : loc -> bool).

(** [less] is what [zless] answers on the nodes of a tree, and the nodes that
    are less come first. *)
Definition splits (t : tree) (a b : list loc) : Prop :=
  inorder t = a ++ b /\ Forall (fun x => less x = true) a /\ Forall (fun x => less x = false) b.

Lemma splits_less l x r a b :
  splits (Node l x r) a b -> less x = true -> exists a', a = inorder l ++ x :: a' /\ splits r a' b.
Proof.
  intros (E & Ha & Hb) Hx. cbn in E. apply split_at in E as [(a' & -> & Er)|(b' & -> & El)].
  - exists a'. split; [done|]. apply Forall_app in Ha as [_ Ha]. apply Forall_cons in Ha as [_ Ha]. done.
  - apply Forall_app in Hb as [_ Hb]. apply Forall_cons in Hb as [Hb _]. congruence.
Qed.

Lemma splits_not_less l x r a b :
  splits (Node l x r) a b -> less x = false -> exists b', b = b' ++ x :: inorder r /\ splits l a b'.
Proof.
  intros (E & Ha & Hb) Hx. cbn in E. apply split_at in E as [(a' & -> & Er)|(b' & -> & El)].
  - apply Forall_app in Ha as [_ Ha]. apply Forall_cons in Ha as [Ha _]. congruence.
  - exists b'. split; [done|]. apply Forall_app in Hb as [Hb _]. done.
Qed.

Lemma lower_bound_ok fuel p t a b lb :
  tree_at (m_avl m) p t -> (forall x, x ∈ inorder t -> zless m (Some x) score key = Ok (less x)) ->
  splits t a b -> hgt t <= Z.of_nat fuel ->
  lower_bound_loop fuel m score key (root_of t) lb = Ok (match head b with Some y => Some y | None => lb end).
Proof.
  revert fuel p a b lb. induction t as [|l IHl x r IHr]; intros fuel p a b lb Ht Hz Hs Hf.
  { destruct Hs as (E & _). symmetry in E. apply app_nil in E as [_ ->]. by destruct fuel. }
  pose proof (hgt_range l). pose proof (hgt_range r). cbn [hgt] in Hf. destruct fuel as [|fuel]; [lia|].
  destruct Ht as (Hx & Hl & Hr). cbn [lower_bound_loop root_of]. rewrite (deref_some _ _ _ Hx).
  cbn [mbind result_bind avl_left avl_right]. rewrite Hz by (cbn; set_solver). cbn [mbind result_bind].
  destruct (less x) eqn:Hlx.
  - destruct (splits_less _ _ _ _ _ Hs Hlx) as (a' & _ & Hs').
    eapply IHr; [done| |done|lia]. intros y Hy. apply Hz. cbn. set_solver.
  - destruct (splits_not_less _ _ _ _ _ Hs Hlx) as (b' & -> & Hs').
    rewrite (IHl fuel (Some x) a b'); [by destruct b'|done| |done|lia].
    intros y Hy. apply Hz. cbn. set_solver.
Qed.

Lemma insert_loop_ok fuel t a b fs :
  tree_at (m_avl m) (cparent fs) t -> (forall x, x ∈ inorder t -> zless m (Some x) score key = Ok (less x)) ->
  splits t a b -> hgt t <= Z.of_nat fuel ->
  exists fs', insert_loop fuel m score key (slot_of fs) (root_of t) (cparent fs) = Ok (slot_of fs', cparent fs') /\
    zip Leaf fs' = zip t fs /\ pre fs' = pre fs ++ a /\ post fs' = b ++ post fs.
Proof.
  revert fuel a b fs. induction t as [|l IHl x r IHr]; intros fuel a b fs Ht Hz Hs Hf.
  { destruct Hs as (E & _). symmetry in E. apply app_nil in E as [-> ->]. exists fs.
    rewrite app_nil_r. by destruct fuel. }
  pose proof (hgt_range l). pose proof (hgt_range r). cbn [hgt] in Hf. destruct fuel as [|fuel]; [lia|].
  destruct Ht as (Hx & Hl & Hr). cbn [insert_loop root_of]. rewrite (deref_some _ _ _ Hx).
  cbn [mbind result_bind avl_left avl_right]. rewrite Hz by (cbn; set_solver). cbn [mbind result_bind].
  destruct (less x) eqn:Hlx.
  - destruct (splits_less _ _ _ _ _ Hs Hlx) as (a' & -> & Hs').
    destruct (IHr fuel a' b (FR l x :: fs)) as (fs' & E & E1 & E2 & E3); [done| |done|lia|].
    { intros y Hy. apply Hz. cbn. set_solver. }
    exists fs'. split; [done|]. split; [done|]. split; [|done]. rewrite E2. cbn. by rewrite <- !app_assoc.
  - destruct (splits_not_less _ _ _ _ _ Hs Hlx) as (b' & -> & Hs').
    destruct (IHl fuel a b' (FL x r :: fs)) as (fs' & E & E1 & E2 & E3); [done| |done|lia|].
    { intros y Hy. apply Hz. cbn. set_solver. }
    exists fs'. split; [done|]. split; [done|]. split; [done|]. rewrite E3. cbn. by rewrite <- !app_assoc.
Qed.
End search.

(** ** The order of members *)

(** Lexicographic order of byte strings. *)
Fixpoint lex_lt (a b : list Z) : bool :=
  match a, b with
  | _, [] => false
  | [], _ :: _ => true
  | x :: a, y :: b => (x <? y) || (x =? y) && lex_lt a b
  end.

Definition member : Type := Z * list Z.
Definition member_lt (p q : member) : bool :=
  (d_ord p.1 <? d_ord q.1) || (d_ord p.1 =? d_ord q.1) && lex_lt p.2 q.2.

Lemma memcmp_lex a b :
  match memcmp (take (Nat.min (length b) (length a)) a) (take (Nat.min (length b) (length a)) b) with
  | Lt => true | Gt => false | Eq => (length a <? length b)%nat end = lex_lt a b.
Proof.
  revert b. induction a as [|x a IH]; intros [|y b]; cbn; [done|done|done|].
  destruct (Z.compare_spec x y) as [->|H|H]; zbool; cbn.
  - apply IH.
  - done.
  - done.
Qed.

(** On scores that are numbers, [zless] is the strict lexicographic order by
    score and key. *)
Lemma zless_vals_lex n nk s k :
  d_nan n = false -> d_nan s = false -> zless_vals n nk s k = member_lt (n, nk) (s, k).
Proof.
  intros Hn Hs. unfold zless_vals, member_lt, d_neq, d_lt. rewrite Hn, Hs. cbn [orb negb andb fst snd].
  destruct (Z.eqb_spec (d_ord s) (d_ord n)) as [E|E]; cbn [negb].
  - rewrite E, Z.ltb_irrefl, Z.eqb_refl. cbn. apply memcmp_lex.
  - zbool. cbn. by rewrite orb_false_r.
Qed.

Lemma lex_lt_trans a b c : lex_lt a b = true -> lex_lt b c = true -> lex_lt a c = true.
Proof.
  revert b c. induction a as [|x a IH]; intros [|y b] [|z c]; cbn; try done.
  rewrite !orb_true_iff, !andb_true_iff, !Z.ltb_lt, !Z.eqb_eq. intros [?|[-> ?]] [?|[-> ?]]; eauto with lia.
Qed.

Lemma member_lt_trans p q r : member_lt p q = true -> member_lt q r = true -> member_lt p r = true.
Proof.
  unfold member_lt. rewrite !orb_true_iff, !andb_true_iff, !Z.ltb_lt, !Z.eqb_eq.
  intros [?|[? ?]] [?|[? ?]]; [left; lia..|right]. split; [lia|]. by eapply lex_lt_trans.
Qed.

Lemma lex_lt_total a b : lex_lt a b = false -> lex_lt b a = false -> a = b.
Proof.
  revert b. induction a as [|x a IH]; intros [|y b]; cbn; try done.
  rewrite !orb_false_iff, !andb_false_iff, !Z.ltb_ge, !Z.eqb_neq. intros [? [?|?]] [? [?|?]]; try lia.
  assert (x = y) as -> by lia. f_equal. by apply IH.
Qed.

(** ** Representation *)

(** The score and the key of a node. *)
Definition member_of (m : Mem) (x : loc) : option member :=
  zn ← m_znodes m !! x;
  match dstr_bytes (zn_key zn) with Ok kb => Some (zn_score zn, kb) | Fault _ => None end.

Definition before (m : Mem) (x y : loc) : Prop :=
  exists p q, member_of m x = Some p /\ member_of m y = Some q /\ member_lt p q = true.

(** A member: its score is a number, and its key is the key the hash table
    knows the node by. *)
Definition good_member (m : Mem) (x : loc) : Prop :=
  exists zn kb, m_znodes m !! x = Some zn /\ dstr_rep (zn_key zn) kb /\ short_key kb /\
    d_nan (zn_score zn) = false /\ ident m x = Some (str_hash kb, cstr kb).

(** [zset_rep m z t M]: the set [z] has the tree [t] and the table of [M]; both
    hold the same nodes, balanced and in order. *)
Record zset_rep (m : Mem) (z : loc) (t : tree) (M : gmap (Z * list Z) loc) : Prop := mkZsetRep {
  zr_set : exists hm, m_zsets m !! z = Some (mkZSet (root_of t) hm) /\ hm_map m hm M;
  zr_tree : tree_at (m_avl m) NULL t;
  zr_balanced : balanced t;
  zr_nodup : NoDup (inorder t);
  zr_vals : vals M ≡ₚ inorder t;
  zr_nodes : forall x, x ∈ inorder t -> plain_node m x;
  zr_members : forall x, x ∈ inorder t -> good_member m x;
  zr_sorted : StronglySorted (before m) (inorder t)
}.

Lemma member_spec m x zn kb :
  m_znodes m !! x = Some zn -> dstr_rep (zn_key zn) kb -> member_of m x = Some (zn_score zn, kb).
Proof. intros Hx Hr. unfold member_of. by rewrite Hx; cbn; rewrite (rep_bytes _ _ Hr). Qed.

(** What [zless] answers on a member. *)
Definition less_than (m : Mem) (q : member) (x : loc) : bool :=
  match member_of m x with Some p => member_lt p q | None => false end.

Lemma zless_ok m x score key :
  good_member m x -> d_nan score = false ->
  zless m (Some x) score key = Ok (less_than m (score, key) x).
Proof.
  intros (zn & kb & Hx & Hr & _ & Hn & _) Hs. unfold zless. rewrite (deref_some _ _ _ Hx).
  cbn [mbind result_bind]. rewrite (rep_bytes _ _ Hr). cbn [mbind result_bind].
  unfold less_than. rewrite (member_spec _ _ _ _ Hx Hr). f_equal. by apply zless_vals_lex.
Qed.

(** In a sorted list the elements below a bound come first. *)
Lemma sorted_splits m q l :
  StronglySorted (before m) l ->
  exists a b, l = a ++ b /\ Forall (fun x => less_than m q x = true) a /\
    Forall (fun x => less_than m q x = false) b.
Proof.
  induction 1 as [|x l Hs (a & b & -> & Ha & Hb) Hx]; [by exists [], []|].
  destruct (less_than m q x) eqn:E; [exists (x :: a), b; by split_and!; [|constructor|]|].
  exists [], (x :: a ++ b). split; [done|]. split; [constructor|]. constructor; [done|].
  destruct a as [|y a]; [done|]. exfalso.
  apply Forall_cons in Ha as [Hy _]. apply Forall_cons in Hx as [(p & p' & Hp & Hp' & Hlt) _].
  unfold less_than in *. rewrite Hp in E. rewrite Hp' in Hy.
  rewrite (member_lt_trans _ _ _ Hlt Hy) in E. done.
Qed.

Lemma sorted_sub {A} (R : A -> A -> Prop) a x b : StronglySorted R (a ++ x :: b) -> StronglySorted R (a ++ b).
Proof.
  induction a as [|y a IH]; cbn; intros Hs; apply StronglySorted_inv in Hs as [Hs Hf]; [done|].
  constructor; [by apply IH|]. apply Forall_app in Hf as [? Hf]. apply Forall_cons in Hf as [_ ?].
  by apply Forall_app.
Qed.

Lemma sorted_ext m m' l :
  (forall x, x ∈ l -> m_znodes m' !! x = m_znodes m !! x) ->
  StronglySorted (before m) l -> StronglySorted (before m') l.
Proof.
  intros He. induction 1 as [|x l Hs IH Hx]; constructor.
  - apply IH. intros y Hy. apply He. by apply list_elem_of_further.
  - rewrite Forall_forall in Hx |- *. intros y Hy. destruct (Hx y Hy) as (p & q & Hp & Hq & Hlt).
    exists p, q. unfold member_of in *. rewrite !He; [done|by apply list_elem_of_further|apply list_elem_of_here].
Qed.

(** The parts of an invariant that speak of a member survive changes
    elsewhere. *)
Lemma good_member_ext m m' x :
  m_znodes m' !! x = m_znodes m !! x -> ident m' x = ident m x -> good_member m x -> good_member m' x.
Proof. intros Hz Hi (zn & kb & Hx & Hrest). exists zn, kb. by rewrite Hz, Hi. Qed.

(** A table of plain nodes leaves every other object alone. *)
Record only_links (D : list loc) (m m' : Mem) : Prop := mkOnlyLinks {
  ol_zsets : m_zsets m' = m_zsets m;
  ol_avl : m_avl m' = m_avl m;
  ol_znodes : m_znodes m' = m_znodes m;
  ol_dnodes : m_dnodes m' = m_dnodes m;
  ol_queue : m_queue m' = m_queue m;
  ol_fresh : m_fresh m' = m_fresh m;
  ol_nodes : forall l, l ∉ D -> m_hnodes m' !! l = m_hnodes m !! l
}.

Lemma members_glob F D T (m m' : Mem) :
  evolves (NO := members_laws F) D T m m' -> member_glob F m' = member_glob F m.
Proof. intros [_ Hk _]. apply (kp_glob _ _ _ _ _ Hk). Qed.

Lemma plain_members F m D :
  (forall x, x ∈ D -> plain_node m x) -> (forall f, f ∈ F -> f ∉ D) -> members_ok F m D.
Proof. intros Hp Hd l Hl. split; [|by apply Hp]. intros Hf. by apply (Hd l). Qed.

Lemma plain_evolve D T (m m' : Mem) :
  evolves (NO := members_laws []) D T m m' ->
  forall l, l ∈ D -> plain_node m' l /\ ident m' l = ident m l /\ member_obs m' l = member_obs m l.
Proof.
  intros [Hok Hk _] l Hl. split_and!; [by apply Hok| |].
  - by eapply (ident_keeps (NO := members_laws [])).
  - by apply (kp_obs _ _ _ _ _ Hk).
Qed.

(** The frame holds for every location outside the table at once. *)
Lemma only_links_intro D (m m' : Mem) :
  (forall F, (forall f, f ∈ F -> f ∉ D) -> member_glob F m' = member_glob F m) -> only_links D m m'.
Proof.
  intros Hg. pose proof (Hg [] (fun f Hf => match elem_of_nil f with conj H _ => False_ind _ (H Hf) end)) as H0.
  unfold member_glob in H0. injection H0 as ??????. split; try done.
  intros l Hl. specialize (Hg [l]). unfold member_glob in Hg. cbn in Hg.
  assert (H' := Hg ltac:(by intros f ->%list_elem_of_singleton)). by injection H'.
Qed.

Lemma plain_insert m D hmap M node q :
  hm_map m hmap M -> (forall x, x ∈ D -> plain_node m x) -> node :: vals M ⊆ D -> ident m node = Some q ->
  M !! q = None -> Z.of_nat (size M) + 1 < 2 ^ 60 ->
  exists hmap' m', hm_insert hmap m node = Ok (hmap', m') /\ hm_map m' hmap' (<[q := node]> M) /\ only_links D m m' /\
    forall l, l ∈ D -> plain_node m' l /\ ident m' l = ident m l /\ member_obs m' l = member_obs m l.
Proof.
  intros Hmap Hp Hsub Hid Hq Hsz.
  assert (H0 : members_ok [] m D) by (apply plain_members; [done|by intros f ?%elem_of_nil]).
  destruct (hm_map_insert (NO := members_laws []) m D hmap M node q Hmap H0 Hsub Hid Hq Hsz)
    as (hmap' & m' & E & Hm' & Hev).
  exists hmap', m'. split; [done|]. split; [done|]. split; [|by eapply plain_evolve].
  apply only_links_intro. intros F HF.
  destruct (hm_map_insert (NO := members_laws F) m D hmap M node q Hmap (plain_members F m D Hp HF) Hsub Hid Hq Hsz)
    as (? & ? & E' & _ & Hev'). rewrite E in E'. injection E' as <- <-. by eapply members_glob.
Qed.

Lemma plain_delete m D hmap M key d kb do_free :
  hm_map m hmap M -> (forall x, x ∈ D -> plain_node m x) -> vals M ⊆ D -> k_key key = Some d ->
  dstr_rep d kb -> Z.of_nat (size M) < 2 ^ 60 ->
  match M !! (k_hcode key, cstr kb) with
  | Some l => exists hmap' m', hm_delete hmap m key do_free = Ok (hmap', m', 1) /\
      hm_map m' hmap' (delete (k_hcode key, cstr kb) M) /\ only_links D m m' /\
      forall x, x ∈ D -> x <> l -> plain_node m' x /\ ident m' x = ident m x /\ member_obs m' x = member_obs m x
  | None => hm_delete hmap m key do_free = Ok (hmap, m, 0)
  end.
Proof.
  intros Hmap Hp Hsub Hk Hd Hsz.
  assert (H0 : members_ok [] m D) by (apply plain_members; [done|by intros f ?%elem_of_nil]).
  pose proof (hm_map_delete (NO := members_laws []) m D hmap M key d kb do_free Hmap H0 Hsub Hk Hd Hsz) as H1.
  destruct (M !! _) as [l|] eqn:Hl; [|done]. destruct H1 as (hmap' & m' & E & Hm' & Hev).
  exists hmap', m'. split; [done|]. split; [done|]. split.
  - apply only_links_intro. intros F HF.
    pose proof (hm_map_delete (NO := members_laws F) m D hmap M key d kb do_free Hmap
      (plain_members F m D Hp HF) Hsub Hk Hd Hsz) as H2.
    rewrite Hl in H2. destruct H2 as (? & ? & E' & _ & Hev'). rewrite E in E'. injection E' as <- <-.
    eapply members_glob, (Hev' []); [by intros ? ?%elem_of_nil|by intros ?%elem_of_nil].
  - intros x Hx Hne. apply (plain_evolve [x] _ _ _ (Hev [x]
      ltac:(by intros ? ->%list_elem_of_singleton) ltac:(by intros ?%list_elem_of_singleton))). apply list_elem_of_here.
Qed.

Lemma ident_hnodes m m' l :
  m_hnodes m' !! l = m_hnodes m !! l -> ident m' l = ident m l /\ nd_next m' l = nd_next m l.
Proof. intros E. unfold ident. cbn. by rewrite E. Qed.

Lemma plain_hnodes m m' l : m_hnodes m' !! l = m_hnodes m !! l -> plain_node m l -> plain_node m' l.
Proof. intros E. unfold plain_node. by rewrite E. Qed.

Lemma rep_member m z t M x :
  zset_rep m z t M -> x ∈ inorder t ->
  exists zn kb n, m_znodes m !! x = Some zn /\ dstr_rep (zn_key zn) kb /\ short_key kb /\
    m_hnodes m !! x = Some n /\ h_hcode n = str_hash kb /\ M !! (str_hash kb, cstr kb) = Some x.
Proof.
  intros HR Hx. destruct (zr_members _ _ _ _ HR x Hx) as (zn & kb & Hz & Hr & Hs & _ & Hid).
  destruct (zr_nodes _ _ _ _ HR x Hx) as (n & kb' & Hn & _ & Hr' & _).
  exists zn, kb, n. destruct (zr_set _ _ _ _ HR) as (hm & _ & Hmap). split_and!; try done.
  - unfold ident in Hid. cbn in Hid. rewrite Hn in Hid. cbn in Hid. rewrite (rep_bytes _ _ Hr') in Hid.
    by injection Hid.
  - eapply hm_map_lookup; [done| |done]. by rewrite (zr_vals _ _ _ _ HR).
Qed.

(** Everything an operation on the set [z] with the nodes [D] leaves alone. *)
Record untouched (D : list loc) (z : loc) (m m' : Mem) : Prop := mkUntouched {
  un_zsets : forall z', z' <> z -> m_zsets m' !! z' = m_zsets m !! z';
  un_nodes : forall l, l ∉ D -> m_hnodes m' !! l = m_hnodes m !! l /\ m_avl m' !! l = m_avl m !! l /\
    m_znodes m' !! l = m_znodes m !! l;
  un_dnodes : m_dnodes m' = m_dnodes m;
  un_queue : m_queue m' = m_queue m
}.

Lemma put_zset_ok m z zs f :
  m_zsets m !! z = Some zs -> put_zset m z f = Ok (with_zsets (<[z := f zs]> (m_zsets m)) m).
Proof. intros Hz. unfold put_zset. by rewrite (update_some _ _ _ _ Hz). Qed.

(** The invariant after the node [x] left the tree and the table and was
    freed. *)
Lemma rep_after_delete m m2 z t t' M x q hm' :
  zset_rep m z t M -> without x t t' -> M !! q = Some x -> balanced t' ->
  tree_at (m_avl m2) NULL t' -> m_znodes m2 = m_znodes m -> hm_map m2 hm' (delete q M) ->
  (forall y, y ∈ inorder t' -> plain_node m2 y /\ ident m2 y = ident m y) ->
  zset_rep (mkMem (delete x (m_hnodes m2)) (<[z := mkZSet (root_of t') hm']> (m_zsets m2))
      (delete x (m_avl m2)) (delete x (m_znodes m2)) (m_dnodes m2) (m_queue m2) (m_fresh m2))
    z t' (delete q M).
Proof.
  intros [_ _ _ Hnd Hv _ Hmem Hsort] Hw Hq Hb' Ht' Hzn Hmap Hpl.
  pose proof (without_perm _ _ _ Hw) as Hperm.
  assert (Hnd' : NoDup (x :: inorder t')) by (by rewrite <- Hperm). apply NoDup_cons in Hnd' as [Hxt' Hnd'].
  pose proof (vals_delete M q x Hq) as Hvd.
  assert (Hv' : vals (delete q M) ≡ₚ inorder t').
  { apply (Permutation_cons_inv (a := x)). by rewrite <- Hvd, Hv, Hperm. }
  assert (Hne : forall y, y ∈ inorder t' -> x <> y) by (intros y Hy ->; done).
  split; try done.
  - exists hm'. cbn. rewrite lookup_insert_eq. split; [done|]. eapply hm_map_frame; [|exact Hmap].
    intros l Hl. rewrite Hv' in Hl. apply ident_hnodes. cbn. by rewrite lookup_delete_ne by auto.
  - cbn. eapply tree_at_ext; [|exact Ht']. intros y Hy. by rewrite lookup_delete_ne by auto.
  - intros y Hy. eapply plain_hnodes; [|by apply Hpl]. cbn. by rewrite lookup_delete_ne by auto.
  - intros y Hy. apply (good_member_ext m); [| |apply Hmem; rewrite Hperm; by apply list_elem_of_further].
    + cbn. rewrite lookup_delete_ne by auto. by rewrite Hzn.
    + rewrite <- (proj2 (Hpl y Hy)). apply ident_hnodes. cbn. by rewrite lookup_delete_ne by auto.
  - eapply (sorted_ext m).
    + intros y Hy. cbn. rewrite lookup_delete_ne by auto. by rewrite Hzn.
    + destruct Hw as (a & b & E & ->). rewrite E in Hsort. by eapply sorted_sub.
Qed.

Lemma zset_delete_ok m z t M x :
  zset_rep m z t M -> x ∈ inorder t -> cnt t < 2 ^ 31 ->
  exists m' t' q, zset_delete m z x = Ok m' /\ zset_rep m' z t' (delete q M) /\ M !! q = Some x /\
    without x t t' /\ untouched (inorder t) z m m' /\ m_fresh m' = m_fresh m /\
    (forall y, y <> x -> m_znodes m' !! y = m_znodes m !! y).
Proof.
  intros HR Hx Hc. destruct (rep_member _ _ _ _ _ HR Hx) as (zn & kb & n & Hz & Hr & Hs & Hn & Hh & Hq).
  pose proof HR as [(hm & Hzs & Hmap) Ht Hb Hnd Hv Hok Hmem Hsort].
  destruct (avl_del_ok (m_avl m) t x Ht Hnd Hb Hc Hx) as (h' & t' & Ed & Ht' & Hb' & Hw & Ho).
  pose proof (without_perm _ _ _ Hw) as Hperm.
  assert (Hnd' : NoDup (x :: inorder t')) by (by rewrite <- Hperm).
  apply NoDup_cons in Hnd' as [Hxt' Hnd'].
  assert (Hsub : forall y, y ∈ inorder t' -> y ∈ inorder t /\ y <> x).
  { intros y Hy. split; [rewrite Hperm; by apply list_elem_of_further|congruence]. }
  destruct (copy_rep kb Hs) as (k & Ek & Hk).
  unfold zset_delete. rewrite (deref_some _ _ _ Hz). cbn [mbind result_bind].
  rewrite (rep_bytes _ _ Hr). cbn [mbind result_bind]. rewrite Ek. cbn [mbind result_bind].
  unfold hget. rewrite (deref_some _ _ _ Hn). cbn [mbind result_bind]. rewrite Ed. cbn [mbind result_bind].
  rewrite (put_zset_ok (with_avl h' m) z _ _ Hzs). cbn [mbind result_bind z_hmap].
  set (m1 := with_zsets _ (with_avl h' m)).
  assert (Hz1 : m_zsets m1 !! z = Some (mkZSet (root_of t') hm)) by (subst m1; apply lookup_insert_eq).
  rewrite (deref_some _ _ _ Hz1). cbn [mbind result_bind z_hmap].
  pose proof (plain_delete m1 (inorder t) hm M (mkHKey (h_hcode n) (Some k)) k kb false) as Hdel.
  cbn [k_hcode] in Hdel. rewrite Hh, Hq in Hdel. destruct Hdel as (hm' & m2 & E2 & Hmap2 & HO & Hk2); try done.
  { eapply hm_map_frame; [|exact Hmap]. intros l _. by apply ident_hnodes. }
  { by rewrite Hv. }
  { rewrite <- length_vals, Hv. rewrite cnt_length in Hc. lia. }
  rewrite Hh, E2. cbn [mbind result_bind].
  rewrite (put_zset_ok m2 z (mkZSet (root_of t') hm)) by (by rewrite (ol_zsets _ _ _ HO)).
  cbn [mbind result_bind z_avl_root]. unfold free_znode. cbn [m_znodes with_zsets].
  rewrite (deref_some _ x zn) by (by rewrite (ol_znodes _ _ _ HO)). cbn [mbind result_bind].
  eexists _, t', _. split; [reflexivity|]. split; [|split; [exact Hq|split; [done|split; [|split]]]].
  - eapply (rep_after_delete m m2 z t t' M x); try done.
    + by rewrite (ol_avl _ _ _ HO).
    + by rewrite (ol_znodes _ _ _ HO).
    + intros y [Hy Hyx]%Hsub. destruct (Hk2 y Hy Hyx) as (H1 & H2 & _). split; [done|].
      rewrite H2. by apply ident_hnodes.
  - split; cbn.
    + intros z' Hz'. rewrite lookup_insert_ne, (ol_zsets _ _ _ HO) by done. subst m1. cbn.
      by rewrite lookup_insert_ne.
    + intros l Hl. assert (l <> x) by (by intros ->). rewrite !lookup_delete_ne by done.
      rewrite (ol_nodes _ _ _ HO), (ol_avl _ _ _ HO), (ol_znodes _ _ _ HO) by done. cbn. by rewrite Ho.
    + by rewrite (ol_dnodes _ _ _ HO).
    + by rewrite (ol_queue _ _ _ HO).
  - cbn. by rewrite (ol_fresh _ _ _ HO).
  - intros y Hy. cbn. rewrite lookup_delete_ne by done. by rewrite (ol_znodes _ _ _ HO).
Qed.

(** ** Inserting a member *)

Lemma new_znode_ok m score key :
  fresh_ok m -> short_key key ->
  exists m' hn k, new_znode m score key = Ok (m', m_fresh m) /\
    m_hnodes m' = <[m_fresh m := hn]> (m_hnodes m) /\ m_zsets m' = m_zsets m /\
    m_avl m' = <[m_fresh m := avl_init]> (m_avl m) /\
    m_znodes m' = <[m_fresh m := mkZNode score k]> (m_znodes m) /\ m_dnodes m' = m_dnodes m /\
    m_queue m' = m_queue m /\ m_fresh m' = Pos.succ (m_fresh m) /\ dstr_rep k key /\
    plain_node m' (m_fresh m) /\ ident m' (m_fresh m) = Some (str_hash key, cstr key) /\ fresh_ok m'.
Proof.
  intros Hf Hs. destruct (node_init_ok key T_STR (m_fresh m) Hs) as (hn & Ei & _ & Hh & Hk & Hty & _).
  destruct (copy_rep key Hs) as (k & Ek & Hkr). unfold new_znode. rewrite Ei. cbn [mbind result_bind].
  rewrite Ek. cbn [mbind result_bind]. eexists _, hn, k. split; [reflexivity|]. cbn.
  split_and!; try done.
  - exists hn, key. cbn. rewrite lookup_insert_eq, Hh. split_and!; try done; apply str_hash_u64.
  - rewrite <- Hh. eapply ident_spec; [| |exact Hk]; cbn; by rewrite lookup_insert_eq.
  - intros l Hl. cbn in Hl |- *. destruct (Hf l) as (H1 & H2 & H3 & H4 & H5); [lia|].
    by rewrite !lookup_insert_ne by lia.
Qed.

(** [*from = &znode->avl_node] *)
Lemma attach_ok m z fs x zs :
  tree_at (m_avl m) NULL (zip Leaf fs) -> NoDup (clabels fs) -> x ∉ clabels fs ->
  m_zsets m !! z = Some zs ->
  exists h' s' r, attach m z (slot_of fs) (Some x) = Ok (with_zsets s' (with_avl h' m)) /\
    ctx_at h' (Some x) fs /\ (forall l, l ∉ clabels fs -> h' !! l = m_avl m !! l) /\
    s' !! z = Some (mkZSet r (z_hmap zs)) /\ forall z', z' <> z -> s' !! z' = m_zsets m !! z'.
Proof.
  intros [_ Hc%ctx_full_at]%tree_at_zip Hnd Hx Hz. destruct fs as [|f fs].
  { cbn [slot_of attach]. rewrite (put_zset_ok _ _ _ _ Hz). exists (m_avl m), (<[z := mkZSet (Some x) (z_hmap zs)]> (m_zsets m)), (Some x).
    split; [reflexivity|]. rewrite lookup_insert_eq. split_and!; try done. intros. by rewrite lookup_insert_ne. }
  change (clabels (f :: fs)) with (flabels f ++ clabels fs) in *.
  apply NoDup_app in Hnd as (Hndf & Hd & _). apply NoDup_cons in Hndf as [Hf1 _].
  assert (Hf2 : flabel f ∉ clabels fs) by apply Hd, list_elem_of_here. cbn [ctx_at root_of] in Hc.
  destruct Hc as [Hf Hc].
  assert (Hrest : forall n, (forall p t, tree_at (m_avl m) p t -> t = fside f -> tree_at (<[flabel f := n]> (m_avl m)) p t) /\
    ctx_at (<[flabel f := n]> (m_avl m)) (Some (flabel f)) fs /\
    forall l, l ∉ flabels f ++ clabels fs -> <[flabel f := n]> (m_avl m) !! l = m_avl m !! l).
  { intros n. split_and!.
    - intros p t Ht ->. eapply tree_at_ext; [|exact Ht]. intros y Hy. rewrite lookup_insert_ne; [done|]. by intros <-.
    - eapply ctx_at_ext; [|exact Hc]. intros y Hy. rewrite lookup_insert_ne; [done|]. by intros <-.
    - intros l Hl. rewrite lookup_insert_ne; [done|]. intros <-. apply Hl. apply elem_of_app. left. apply list_elem_of_here. }
  destruct f as [y r|l y]; cbn [slot_of attach flabel fside frame_at] in *; destruct Hf as [(a & b & Hy) Ht];
    rewrite (update_some _ _ _ _ Hy); cbn [mbind result_bind];
    match goal with |- context [with_avl ?h m] => exists h end;
    exists (m_zsets m), (z_avl_root zs); (split; [reflexivity|]);
    (split; [|split; [apply Hrest|by destruct zs]]); (split; [|apply Hrest]);
    (split; [eexists _, _; apply lookup_insert_eq|by apply Hrest]).
Qed.

Lemma member_lt_total p q : member_lt p q = false -> p.2 <> q.2 -> member_lt q p = true.
Proof.
  unfold member_lt. rewrite orb_false_iff, andb_false_iff, Z.ltb_ge, Z.eqb_neq. intros [Hge Hor] Hne.
  destruct (Z.eq_dec (d_ord p.1) (d_ord q.1)) as [E|E].
  - rewrite E, Z.ltb_irrefl, Z.eqb_refl. cbn. destruct Hor as [|Hl]; [done|].
    destruct (lex_lt q.2 p.2) eqn:Hl'; [done|]. exfalso. by apply Hne, lex_lt_total.
  - rewrite (proj2 (Z.ltb_lt _ _)); [done|lia].
Qed.

Lemma StronglySorted_middle {A} (R : A -> A -> Prop) a x b :
  StronglySorted R (a ++ b) -> Forall (fun y => R y x) a -> Forall (R x) b ->
  StronglySorted R (a ++ x :: b).
Proof.
  induction a as [|y a IH]; cbn; intros Hs Ha Hb; [by constructor|].
  apply StronglySorted_inv in Hs as [Hs Hf]. apply Forall_cons in Ha as [Hy Ha].
  constructor; [by apply IH|]. apply Forall_app in Hf as [? ?]. apply Forall_app. split; [done|by constructor].
Qed.

(** A new member between the ones below it and the others. *)
Lemma sorted_insert m x q a b :
  StronglySorted (before m) (a ++ b) -> member_of m x = Some q ->
  (forall y, y ∈ a ++ b -> exists p, member_of m y = Some p /\ p.2 <> q.2) ->
  Forall (fun y => less_than m q y = true) a -> Forall (fun y => less_than m q y = false) b ->
  StronglySorted (before m) (a ++ x :: b).
Proof.
  intros Hs Hx Hm Ha Hb. apply StronglySorted_middle; [done|..]; rewrite Forall_forall in *.
  - intros y Hy. destruct (Hm y) as (p & Hp & _); [set_solver|]. exists p, q.
    specialize (Ha y Hy). unfold less_than in Ha. by rewrite Hp in Ha.
  - intros y Hy. destruct (Hm y) as (p & Hp & Hne); [set_solver|]. exists q, p.
    specialize (Hb y Hy). unfold less_than in Hb. rewrite Hp in Hb. split_and!; try done. by apply member_lt_total.
Qed.

(** The invariant after a node was linked into the table and the tree. *)
Lemma rep_after_add m' z t t' M x hm' score key kz a b :
  let q := (str_hash key, cstr key) in
  m_zsets m' !! z = Some (mkZSet (root_of t') hm') -> hm_map m' hm' (<[q := x]> M) -> M !! q = None ->
  tree_at (m_avl m') NULL t' -> balanced t' -> inorder t' = a ++ x :: b -> inorder t = a ++ b ->
  NoDup (a ++ x :: b) -> vals M ≡ₚ a ++ b ->
  (forall y, y ∈ x :: a ++ b -> plain_node m' y) -> (forall y, y ∈ a ++ b -> good_member m' y) ->
  (forall y, y ∈ a ++ b -> exists q', M !! q' = Some y /\ ident m' y = Some q') ->
  m_znodes m' !! x = Some (mkZNode score kz) -> dstr_rep kz key -> short_key key -> d_nan score = false ->
  ident m' x = Some q -> StronglySorted (before m') (a ++ b) ->
  Forall (fun y => less_than m' (score, key) y = true) a ->
  Forall (fun y => less_than m' (score, key) y = false) b ->
  zset_rep m' z t' (<[q := x]> M) /\ member_of m' x = Some (score, key).
Proof.
  intros q Hzs Hmap Hq Ht Hb Hin' Hin Hnd Hv Hpl Hgood Hids Hzn Hkz Hs Hnan Hidx Hsort Ha Hbf.
  assert (Hmx : member_of m' x = Some (score, key)) by apply (member_spec _ _ _ _ Hzn Hkz).
  split; [|done]. assert (Hel : forall y, y ∈ a ++ x :: b <-> y ∈ x :: a ++ b) by (intros y; clear; set_solver).
  split; rewrite ?Hin'; try done.
  - by exists hm'.
  - rewrite vals_insert by done. rewrite Hv. by rewrite Permutation_middle.
  - intros y Hy. by apply Hpl, Hel.
  - intros y Hy. apply Hel in Hy. apply elem_of_cons in Hy as [->|Hy]; [|by apply Hgood].
    exists (mkZNode score kz), key. by split_and!.
  - eapply sorted_insert; [done|exact Hmx| |done|done]. intros y Hy.
    destruct (Hgood y Hy) as (zn & kb & Hz & Hr & _ & _ & Hid). exists (zn_score zn, kb).
    split; [by apply member_spec|]. cbn. intros ->. destruct (Hids y Hy) as (q' & Hq' & Hid').
    assert (q' = (str_hash key, cstr key)) as -> by congruence. subst q. congruence.
Qed.

(** The height of a tree is within the fuel of the descents. *)
Lemma tree_fuel h p t : tree_at h p t -> NoDup (inorder t) -> hgt t <= Z.of_nat (size h).
Proof.
  intros Ht Hnd. pose proof (hgt_range t) as [_ Hh]. rewrite cnt_length in Hh. etrans; [exact Hh|]. apply inj_le.
  apply keys_bound; [|done]. intros. by eapply tree_at_live.
Qed.

(** The descent, the link and the rebalancing of [zset_insert]. *)
Lemma zset_link_ok m z t hm x score key a b :
  m_zsets m !! z = Some (mkZSet (root_of t) hm) -> tree_at (m_avl m) NULL t -> balanced t ->
  NoDup (a ++ x :: b) -> m_avl m !! x = Some avl_init -> cnt t + 1 < 2 ^ 31 ->
  (forall y, y ∈ inorder t -> good_member m y) -> d_nan score = false ->
  splits (less_than m (score, key)) t a b ->
  exists h s t',
    ('(from, curr) ← insert_loop (size (m_avl m)) m score key RootSlot (root_of t) NULL;
     m ← attach m z from (Some x);
     h ← update (m_avl m) (Some x) (set_parent curr);
     '(h, root) ← avl_fix h (Some x);
     put_zset (with_avl h m) z (fun zs => mkZSet root (z_hmap zs))) = Ok (with_zsets s (with_avl h m)) /\
    s !! z = Some (mkZSet (root_of t') hm) /\ (forall z', z' <> z -> s !! z' = m_zsets m !! z') /\
    tree_at h NULL t' /\ balanced t' /\ inorder t' = a ++ x :: b /\
    forall l, l ∉ x :: inorder t -> h !! l = m_avl m !! l.
Proof.
  intros Hzs Ht Hb Hnd Hx Hc Hgood Hnan Hspl. pose proof Hspl as (Hin & _ & _).
  assert (Hp : a ++ x :: b ≡ₚ x :: inorder t) by (rewrite Hin; by rewrite Permutation_middle).
  assert (Hnd' : NoDup (x :: inorder t)) by (by rewrite <- Hp). apply NoDup_cons in Hnd' as [Hxt Hndt].
  destruct (insert_loop_ok m score key (less_than m (score, key)) (size (m_avl m)) t a b [])
    as (fs & Ei & Ezip & Epre & Epost); [done|by intros y Hy; apply zless_ok; auto|done|by eapply tree_fuel|].
  cbn [slot_of cparent pre post zip app] in *. rewrite app_nil_r in Epost. rewrite Ei. cbn [mbind result_bind].
  assert (Hcl : clabels fs ≡ₚ inorder t) by (by rewrite <- Ezip, inorder_zip_perm).
  destruct (attach_ok m z fs x (mkZSet (root_of t) hm)) as (h1 & s1 & r & -> & Hctx & Ho1 & Hs1 & Hs1');
    [by rewrite Ezip|by rewrite Hcl|by rewrite Hcl|done|].
  cbn [mbind result_bind with_zsets with_avl m_avl].
  rewrite (update_some h1 x avl_init) by (rewrite Ho1; [done|by rewrite Hcl]). cbn [mbind result_bind].
  set (h2 := <[x := _]> h1).
  assert (Hin' : inorder (zip (Node Leaf x Leaf) fs) = a ++ x :: b) by (rewrite inorder_zip_pre, Epre, Epost; done).
  destruct (avl_fix_leaf_ok h2 x fs) as (h3 & t' & Ef & Ht' & Hb' & Hin3 & Ho3).
  { exists 1, 1. split; [apply lookup_insert_eq|done]. }
  { eapply ctx_at_ext; [|exact Hctx]. intros y Hy. subst h2. rewrite lookup_insert_ne; [done|].
    intros <-. apply Hxt. by rewrite <- Hcl. }
  { by rewrite Ezip. }
  { by rewrite Hin'. }
  { rewrite cnt_length, Hin'. rewrite (Permutation_length Hp). cbn [length]. rewrite cnt_length in Hc. lia. }
  rewrite Ef. cbn [mbind result_bind]. rewrite Hin' in Hin3.
  rewrite (put_zset_ok _ z (mkZSet r hm)) by done. exists h3, (<[z := mkZSet (root_of t') hm]> s1), t'.
  split; [reflexivity|]. rewrite lookup_insert_eq. split_and!; try done.
  - intros z' Hz'. rewrite lookup_insert_ne by done. by apply Hs1'.
  - intros l Hl. rewrite Ho3 by (by rewrite Hin3, Hp). subst h2.
    apply not_elem_of_cons in Hl as [Hlx Hlt]. rewrite lookup_insert_ne by done. apply Ho1. by rewrite Hcl.
Qed.

(** The state after the new node is in the table and before it is linked into
    the tree. *)
Record prepared (m : Mem) (z : loc) (t : tree) (M : gmap (Z * list Z) loc) (score : Z) (key : list Z)
    (m3 : Mem) (hm' : HMap) (kz : dstr) : Prop := mkPrepared {
  pp_fresh : forall y, y ∈ inorder t -> m_fresh m <> y;
  pp_set : m_zsets m3 !! z = Some (mkZSet (root_of t) hm');
  pp_map : hm_map m3 hm' (<[(str_hash key, cstr key) := m_fresh m]> M);
  pp_avl : m_avl m3 = <[m_fresh m := avl_init]> (m_avl m);
  pp_znodes : m_znodes m3 = <[m_fresh m := mkZNode score kz]> (m_znodes m);
  pp_kz : dstr_rep kz key;
  pp_plain : forall y, y ∈ m_fresh m :: inorder t -> plain_node m3 y;
  pp_ident : ident m3 (m_fresh m) = Some (str_hash key, cstr key);
  pp_same : forall y, y ∈ inorder t -> ident m3 y = ident m y;
  pp_frame : untouched (m_fresh m :: inorder t) z m m3;
  pp_next : m_fresh m3 = Pos.succ (m_fresh m)
}.

Lemma zset_prepare_ok m z t M score key :
  zset_rep m z t M -> fresh_ok m -> short_key key -> M !! (str_hash key, cstr key) = None ->
  cnt t + 1 < 2 ^ 31 ->
  exists m3 hm' kz, prepared m z t M score key m3 hm' kz /\
    let x := m_fresh m in zset_add m z score key
    = ('(from, curr) ← insert_loop (size (m_avl m3)) m3 score key RootSlot (root_of t) NULL;
       m ← attach m3 z from (Some x);
       h ← update (m_avl m) (Some x) (set_parent curr);
       '(h, root) ← avl_fix h (Some x);
       put_zset (with_avl h m) z (fun zs => mkZSet root (z_hmap zs))).
Proof.
  intros [(hm & Hzs & Hmap) Ht Hb Hnd Hv Hok Hmem Hsort] Hf Hs Hq Hc.
  destruct (new_znode_ok m score key Hf Hs) as
    (m1 & hn & kz & E1 & Hn1 & Hz1 & Ha1 & Hzn1 & Hd1 & Hqu1 & Hf1 & Hkz & Hpx & Hidx & Hfr1).
  set (x := m_fresh m) in *.
  assert (Hxt : forall y, y ∈ inorder t -> x <> y).
  { intros y Hy <-. destruct (Hmem _ Hy) as (zn & _ & Hzn & _).
    destruct (Hf x) as (_ & _ & _ & ? & _); [reflexivity|congruence]. }
  assert (Hid1 : forall y, y ∈ inorder t -> m_hnodes m1 !! y = m_hnodes m !! y)
    by (intros y Hy; rewrite Hn1; by rewrite lookup_insert_ne by auto).
  unfold zset_add. rewrite E1. cbn [mbind result_bind].
  rewrite (deref_some _ z (mkZSet (root_of t) hm)) by (by rewrite Hz1). cbn [mbind result_bind z_hmap].
  destruct (plain_insert m1 (x :: inorder t) hm M x (str_hash key, cstr key))
    as (hm' & m2 & E2 & Hmap2 & HO & Hev2); try done.
  { eapply hm_map_frame; [|exact Hmap]. intros l Hl. rewrite Hv in Hl. apply ident_hnodes. auto. }
  { intros y [->|Hy]%elem_of_cons; [done|]. eapply plain_hnodes; [by apply Hid1|by apply Hok]. }
  { by rewrite Hv. }
  { rewrite <- length_vals, Hv. rewrite cnt_length in Hc. lia. }
  rewrite E2. cbn [mbind result_bind].
  assert (Hpl2 : forall y, y ∈ x :: inorder t -> plain_node m2 y) by (intros y Hy; by apply Hev2).
  assert (Hid2 : forall y, y ∈ x :: inorder t -> ident m2 y = ident m1 y) by (intros y Hy; by apply Hev2).
  rewrite (put_zset_ok m2 z (mkZSet (root_of t) hm)) by (by rewrite (ol_zsets _ _ _ HO), Hz1).
  cbn [mbind result_bind z_avl_root]. set (m3 := with_zsets _ m2). exists m3, hm', kz.
  assert (Hz3 : m_zsets m3 !! z = Some (mkZSet (root_of t) hm')) by apply lookup_insert_eq.
  rewrite (deref_some _ _ _ Hz3). cbn [mbind result_bind z_avl_root].
  split; [|done]. split; try done.
  - eapply hm_map_frame; [|exact Hmap2]. intros l _. by apply ident_hnodes.
  - change (m_avl m3) with (m_avl m2). by rewrite (ol_avl _ _ _ HO).
  - change (m_znodes m3) with (m_znodes m2). by rewrite (ol_znodes _ _ _ HO).
  - rewrite <- Hidx, <- Hid2 by apply list_elem_of_here. by apply ident_hnodes.
  - intros y Hy. transitivity (ident m2 y); [by apply ident_hnodes|].
    rewrite Hid2 by (by apply list_elem_of_further). apply ident_hnodes. auto.
  - split; cbn.
    + intros z' Hz'. rewrite lookup_insert_ne by done. by rewrite (ol_zsets _ _ _ HO), Hz1.
    + intros l Hl. rewrite (ol_nodes _ _ _ HO) by done. apply not_elem_of_cons in Hl as [Hlx Hlt].
      rewrite (ol_avl _ _ _ HO), (ol_znodes _ _ _ HO), Hn1, Hzn1, Ha1. by rewrite !lookup_insert_ne by done.
    + by rewrite (ol_dnodes _ _ _ HO).
    + by rewrite (ol_queue _ _ _ HO).
  - change (m_fresh m3) with (m_fresh m2). by rewrite (ol_fresh _ _ _ HO).
Qed.

Lemma zset_add_ok m z t M score key :
  let q := (str_hash key, cstr key) in let x := m_fresh m in
  zset_rep m z t M -> fresh_ok m -> short_key key -> d_nan score = false -> M !! q = None ->
  cnt t + 1 < 2 ^ 31 ->
  exists m' t' a b,
    zset_add m z score key = Ok m' /\ zset_rep m' z t' (<[q := x]> M) /\
    inorder t = a ++ b /\ inorder t' = a ++ x :: b /\ member_of m' x = Some (score, key) /\
    fresh_ok m' /\ untouched (x :: inorder t) z m m' /\
    (forall y, y <> x -> m_znodes m' !! y = m_znodes m !! y).
Proof.
  intros q x HR Hf Hs Hnan Hq Hc.
  destruct (zset_prepare_ok m z t M score key HR Hf Hs Hq Hc) as (m3 & hm' & kz & [Hxt Hz3 Hmap3 Ha3 Hzn3 Hkz Hpl3 Hidx Hid3 HU Hf3] & ->).
  pose proof HR as [(hm & Hzs & Hmap) Ht Hb Hnd Hv Hok Hmem Hsort]. fold x q in Hxt, Hmap3, Ha3, Hzn3, Hpl3, Hidx, HU, Hf3 |- *.
  assert (Hzy : forall y, y ∈ inorder t -> m_znodes m3 !! y = m_znodes m !! y)
    by (intros y Hy; rewrite Hzn3; by rewrite lookup_insert_ne by auto).
  assert (Hgood3 : forall y, y ∈ inorder t -> good_member m3 y) by (intros y Hy; apply (good_member_ext m); auto).
  assert (Hsort3 : StronglySorted (before m3) (inorder t)) by (by eapply sorted_ext).
  destruct (sorted_splits m3 (score, key) _ Hsort3) as (a & b & Hab & Hla & Hlb).
  assert (Hp : a ++ x :: b ≡ₚ x :: inorder t) by (rewrite Hab; by rewrite Permutation_middle).
  assert (Hnd' : NoDup (a ++ x :: b)).
  { rewrite Hp. apply NoDup_cons. split; [|done]. intros Hx. by apply (Hxt x Hx). }
  destruct (zset_link_ok m3 z t hm' x score key a b) as (h & s & t' & El & Hs' & Hso & Ht' & Hb' & Hin' & Hho);
    try done.
  { rewrite Ha3. eapply tree_at_ext; [|exact Ht]. intros y Hy. by rewrite lookup_insert_ne by auto. }
  { by rewrite Ha3, lookup_insert_eq. }
  rewrite El. set (m4 := with_zsets s (with_avl h m3)). exists m4, t', a, b. split; [done|].
  destruct (rep_after_add m4 z t t' M x hm' score key kz a b) as [HR' Hmx]; try done.
  { eapply hm_map_frame; [|exact Hmap3]. intros l _. by apply ident_hnodes. }
  { by rewrite Hv, Hab. }
  { intros y Hy. rewrite <- Hab in Hy. eapply plain_hnodes; [|by apply Hpl3]. done. }
  { intros y Hy. rewrite <- Hab in Hy. apply (good_member_ext m3); [done|by apply ident_hnodes|by apply Hgood3]. }
  { intros y Hy. rewrite <- Hab, <- Hv in Hy. pose proof Hy as [q' Hq']%elem_of_vals. exists q'. split; [done|].
    rewrite <- (proj2 Hmap _ _ Hq'). rewrite Hv in Hy. rewrite <- (Hid3 y Hy). by apply ident_hnodes. }
  { change (m_znodes m4) with (m_znodes m3). by rewrite Hzn3, lookup_insert_eq. }
  { rewrite <- Hab. by eapply sorted_ext; [|exact Hsort3]. }
  assert (HU' : untouched (x :: inorder t) z m m4).
  { destruct HU as [U1 U2 U3 U4]. split; [| |done|done].
    - intros z' Hz'. cbn. rewrite Hso by done. by apply U1.
    - intros l Hl. cbn. rewrite Hho by done. by apply U2. }
  split_and!; try done.
  - intros l Hl. cbn in Hl. rewrite Hf3 in Hl. destruct (Hf l) as (H1 & H2 & H3 & H4 & H5); [lia|].
    assert (Hlx : l ∉ x :: inorder t).
    { intros [->|Hy]%elem_of_cons; [lia|]. destruct (Hmem l Hy) as (? & ? & ? & _). congruence. }
    destruct (un_nodes _ _ _ _ HU' l Hlx) as (-> & -> & ->). rewrite (un_dnodes _ _ _ _ HU').
    rewrite (un_zsets _ _ _ _ HU'); [done|]. intros ->. congruence.
  - intros y Hy. change (m_znodes m4) with (m_znodes m3). rewrite Hzn3. by rewrite lookup_insert_ne.
Qed.

(** ** Properties *)

(** The sorted set as a map from the table's keys to the members. *)
Definition zset_view (m : Mem) (M : gmap (Z * list Z) loc) : gmap (Z * list Z) member := omap (member_of m) M.

Lemma member_of_ext m m' x : m_znodes m' !! x = m_znodes m !! x -> member_of m' x = member_of m x.
Proof. unfold member_of. by intros ->. Qed.

(** No two keys of the table have the same node. *)
Lemma rep_inj m z t M q q' x : zset_rep m z t M -> M !! q = Some x -> M !! q' = Some x -> q = q'.
Proof.
  intros HR Hq Hq'. destruct (zr_set _ _ _ _ HR) as (hm & _ & Hmap).
  pose proof (proj2 Hmap _ _ Hq). pose proof (proj2 Hmap _ _ Hq'). congruence.
Qed.

Lemma zset_view_delete m m' z t M q x :
  zset_rep m z t M -> M !! q = Some x -> (forall y, y <> x -> m_znodes m' !! y = m_znodes m !! y) ->
  zset_view m' (delete q M) = delete q (zset_view m M).
Proof.
  intros HR Hq Hz. unfold zset_view. apply map_eq. intros k. rewrite lookup_omap.
  destruct (decide (k = q)) as [->|Hne]; [by rewrite !lookup_delete_eq|].
  rewrite !lookup_delete_ne, lookup_omap by done. destruct (M !! k) as [y|] eqn:Hk; [|done]. cbn.
  apply member_of_ext, Hz. intros ->. by apply Hne, (rep_inj _ _ _ _ _ _ x HR).
Qed.

Lemma zset_view_insert (m m' : Mem) (M : gmap (Z * list Z) loc) q x p :
  member_of m' x = Some p -> (forall k y, M !! k = Some y -> y <> x) ->
  (forall y, y <> x -> m_znodes m' !! y = m_znodes m !! y) ->
  zset_view m' (<[q := x]> M) = <[q := p]> (zset_view m M).
Proof.
  intros Hx Hnx Hz. unfold zset_view. apply map_eq. intros k. rewrite lookup_omap.
  destruct (decide (k = q)) as [->|Hne]; [by rewrite !lookup_insert_eq|].
  rewrite !lookup_insert_ne, lookup_omap by done. destruct (M !! k) as [y|] eqn:Hk; [|done]. cbn.
  apply member_of_ext, Hz. by eapply Hnx.
Qed.

Lemma rep_live m z t M k y : zset_rep m z t M -> fresh_ok m -> M !! k = Some y -> y <> m_fresh m.
Proof.
  intros HR Hf Hk ->. assert (Hy : m_fresh m ∈ inorder t).
  { rewrite <- (zr_vals _ _ _ _ HR). apply elem_of_vals. by eexists. }
  destruct (zr_members _ _ _ _ HR _ Hy) as (zn & _ & Hzn & _).
  destruct (Hf (m_fresh m)) as (_ & _ & _ & ? & _); [reflexivity|congruence].
Qed.

Lemma rep_empty m z M : zset_rep m z Leaf M -> M = ∅.
Proof.
  intros HR. apply map_empty. intros q. destruct (M !! q) as [x|] eqn:E; [|done]. exfalso.
  assert (Hx : x ∈ vals M) by (apply elem_of_vals; by eexists).
  rewrite (zr_vals _ _ _ _ HR) in Hx. by apply elem_of_nil in Hx.
Qed.

Lemma zset_lookup_ok m z t M zs key :
  zset_rep m z t M -> m_zsets m !! z = Some zs -> short_key key ->
  zset_lookup m zs key = Ok (M !! (str_hash key, cstr key)).
Proof.
  intros HR Hzs Hs. destruct (zr_set _ _ _ _ HR) as (hm & Hzs' & Hmap).
  rewrite Hzs in Hzs'. injection Hzs' as ->. unfold zset_lookup. cbn [z_avl_root z_hmap].
  destruct t as [|l x r]; cbn [root_of].
  { rewrite (rep_empty _ _ _ HR). by rewrite lookup_empty. }
  destruct (tmp_key_ok key Hs) as (d & -> & Hd). cbn [mbind result_bind].
  eapply (hm_map_find (NO := members_laws []) m (inorder (Node l x r)) hm M (mkHKey _ (Some d))); try done.
  - apply plain_members; [by apply (zr_nodes _ _ _ _ HR)|by intros f ?%elem_of_nil].
  - by rewrite (zr_vals _ _ _ _ HR).
Qed.

Lemma fresh_untouched D z m m' :
  untouched D z m m' -> (forall l, l ∈ D -> m_znodes m !! l <> None) -> m_zsets m !! z <> None ->
  m_fresh m' = m_fresh m -> fresh_ok m -> fresh_ok m'.
Proof.
  intros HU HD Hz Hfr Hf l Hl. rewrite Hfr in Hl. destruct (Hf l Hl) as (H1 & H2 & H3 & H4 & H5).
  destruct (un_nodes _ _ _ _ HU l) as (-> & -> & ->); [intros Hd; by apply (HD l Hd)|].
  rewrite (un_dnodes _ _ _ _ HU). rewrite (un_zsets _ _ _ _ HU); [done|]. congruence.
Qed.

Lemma zset_delete_fresh m m' z t M :
  zset_rep m z t M -> untouched (inorder t) z m m' -> m_fresh m' = m_fresh m -> fresh_ok m -> fresh_ok m'.
Proof.
  intros HR HU. eapply fresh_untouched; [exact HU| |].
  - intros l Hl. destruct (zr_members _ _ _ _ HR l Hl) as (zn & _ & -> & _). done.
  - destruct (zr_set _ _ _ _ HR) as (hm & -> & _). done.
Qed.

Lemma untouched_trans D D' z m m1 m2 :
  untouched D z m m1 -> untouched D' z m1 m2 -> D ⊆ D' -> untouched D' z m m2.
Proof.
  intros [U1 U2 U3 U4] [V1 V2 V3 V4] Hsub. split; [| |congruence..].
  - intros z' Hz. by rewrite V1, U1.
  - intros l Hl. destruct (V2 l Hl) as (-> & -> & ->). apply U2. set_solver.
Qed.

Lemma untouched_weaken D D' z m m' : untouched D z m m' -> D ⊆ D' -> untouched D' z m m'.
Proof. intros [U1 U2 U3 U4] Hsub. split; [done| |done..]. intros l Hl. apply U2. set_solver. Qed.

(** [zset_insert], with what it leaves alone. *)
Lemma zset_insert_ok (m : Mem) z t M score key :
  let q := (str_hash key, cstr key) in
  zset_rep m z t M -> fresh_ok m -> short_key key -> d_nan score = false -> cnt t + 1 < 2 ^ 31 ->
  exists m' t',
    zset_insert m z score key = Ok (m', bool_decide (M !! q = None)) /\
    zset_rep m' z t' (<[q := m_fresh m]> M) /\ fresh_ok m' /\
    zset_view m' (<[q := m_fresh m]> M) = <[q := (score, key)]> (zset_view m M) /\
    untouched (m_fresh m :: inorder t) z m m' /\ inorder t' ⊆ m_fresh m :: inorder t.
Proof.
  intros q HR Hf Hs Hnan Hc. destruct (zr_set _ _ _ _ HR) as (hm & Hzs & _).
  unfold zset_insert. rewrite (deref_some _ _ _ Hzs). cbn [mbind result_bind].
  rewrite (zset_lookup_ok _ _ _ _ _ _ HR Hzs Hs). fold q. cbn [mbind result_bind].
  destruct (M !! q) as [x|] eqn:Hq.
  - assert (Hx : x ∈ inorder t) by (rewrite <- (zr_vals _ _ _ _ HR); apply elem_of_vals; by eexists).
    destruct (zset_delete_ok _ _ _ _ _ HR Hx) as (m1 & t1 & q' & -> & HR1 & Hq' & Hw & HU & Hfr & Hz1); [lia|].
    rewrite (rep_inj _ _ _ _ q' q x HR Hq' Hq) in *.
    pose proof (zset_delete_fresh _ _ _ _ _ HR HU Hfr Hf) as Hf1.
    pose proof (without_perm _ _ _ Hw) as Hp. pose proof (Permutation_length Hp) as Hlen. rewrite cnt_length in Hc. cbn in Hlen.
    destruct (zset_add_ok m1 z t1 (delete q M) score key) as (m' & t' & a & b & E & HR' & Hab & Hab' & Hmx & Hf' & HU' & Hz');
      try done; [apply lookup_delete_eq|rewrite cnt_length; lia|].
    assert (Hsub : inorder t1 ⊆ inorder t) by (intros y Hy; rewrite Hp; by apply list_elem_of_further).
    cbn [mbind result_bind]. rewrite E. cbn [mbind result_bind]. exists m', t'.
    fold q in HR', Hmx. rewrite Hfr in *. rewrite insert_delete_eq in HR'. split_and!; try done.
    + rewrite <- (insert_delete_eq (M := gmap (Z * list Z)) M), (zset_view_insert m1 m' (delete q M) q _ (score, key)); try done.
      * rewrite (zset_view_delete _ _ _ _ _ _ x HR) by done. by rewrite insert_delete_eq.
      * intros k y Hk. rewrite <- Hfr. by eapply rep_live.
    + eapply untouched_trans; [exact (untouched_weaken _ (m_fresh m :: inorder t) _ _ _ HU ltac:(set_solver))| |done].
      eapply untouched_weaken; [exact HU'|]. set_solver.
    + rewrite Hab'. rewrite Hab in Hsub. set_solver.
  - destruct (zset_add_ok m z t M score key) as (m' & t' & a & b & E & HR' & Hab & Hab' & Hmx & Hf' & HU & Hz'); try done.
    cbn [mbind result_bind]. rewrite E. cbn [mbind result_bind]. exists m', t'. split_and!; try done.
    + apply zset_view_insert; try done. intros k y Hk. by eapply rep_live.
    + rewrite Hab, Hab'. set_solver.
Qed.

(** C5: [zset_insert] on a well-formed set with fewer than 2^31 - 1 members
    returns, keeps the set well formed (balanced tree, members in order, table
    and tree with the same nodes), maps the key to the new score and changes no
    other member; the result tells a new member from an updated one, and the
    nodes of other sets are untouched. *)
Theorem zset_insert_refines (m : Mem) z t M score key :
  let q := (str_hash key, cstr key) in
  zset_rep m z t M -> fresh_ok m -> short_key key -> d_nan score = false -> cnt t + 1 < 2 ^ 31 ->
  exists m' t',
    zset_insert m z score key = Ok (m', bool_decide (M !! q = None)) /\
    zset_rep m' z t' (<[q := m_fresh m]> M) /\ fresh_ok m' /\
    zset_view m' (<[q := m_fresh m]> M) = <[q := (score, key)]> (zset_view m M) /\
    untouched (m_fresh m :: inorder t) z m m'.
Proof.
  intros q HR Hf Hs Hnan Hc. destruct (zset_insert_ok m z t M score key HR Hf Hs Hnan Hc) as (m' & t' & H).
  exists m', t'. by destruct H as (? & ? & ? & ? & ? & _).
Qed.

(** [zset_delete] of a member returns, keeps the set well formed and
    removes exactly that member; the nodes of other sets are untouched. *)
Lemma zset_delete_refines (m : Mem) z t M x :
  zset_rep m z t M -> fresh_ok m -> x ∈ inorder t -> cnt t < 2 ^ 31 ->
  exists m' t' q, M !! q = Some x /\ zset_delete m z x = Ok m' /\ zset_rep m' z t' (delete q M) /\
    fresh_ok m' /\ without x t t' /\ zset_view m' (delete q M) = delete q (zset_view m M) /\
    untouched (inorder t) z m m'.
Proof.
  intros HR Hf Hx Hc. destruct (zset_delete_ok _ _ _ _ _ HR Hx Hc) as (m' & t' & q & E & HR' & Hq & Hw & HU & Hfr & Hz).
  exists m', t', q. pose proof (zset_view_delete _ m' _ _ _ _ _ HR Hq Hz).
  pose proof (zset_delete_fresh _ _ _ _ _ HR HU Hfr Hf). by split_and!.
Qed.

(** [zset_lower_bound] returns the first member, in the order of the tree,
    that is not below the score and key: every member before it is below,
    and every member from it on is not. *)
Lemma zset_lower_bound_first (m : Mem) z t M zs score key :
  zset_rep m z t M -> m_zsets m !! z = Some zs -> d_nan score = false ->
  exists a b, inorder t = a ++ b /\ zset_lower_bound m zs score key = Ok (head b) /\
    (forall x, x ∈ a -> exists p, member_of m x = Some p /\ member_lt p (score, key) = true) /\
    (forall x, x ∈ b -> exists p, member_of m x = Some p /\ member_lt p (score, key) = false).
Proof.
  intros HR Hzs Hnan. destruct (zr_set _ _ _ _ HR) as (hm & Hzs' & _). rewrite Hzs in Hzs'. injection Hzs' as ->.
  destruct (sorted_splits m (score, key) _ (zr_sorted _ _ _ _ HR)) as (a & b & Hab & Ha & Hb).
  exists a, b. split; [done|].
  assert (Hmem : forall x, x ∈ a ++ b -> exists p, member_of m x = Some p).
  { intros x Hx. rewrite <- Hab in Hx. destruct (zr_members _ _ _ _ HR x Hx) as (zn & kb & Hz & Hr & _).
    eexists. by eapply member_spec. }
  assert (Hval : forall v l, Forall (fun x => less_than m (score, key) x = v) l -> l ⊆ a ++ b ->
    forall x, x ∈ l -> exists p, member_of m x = Some p /\ member_lt p (score, key) = v).
  { intros v l Hl Hsub x Hx. destruct (Hmem x (Hsub x Hx)) as (p & Hp). exists p. split; [done|].
    rewrite Forall_forall in Hl. specialize (Hl x Hx). unfold less_than in Hl. by rewrite Hp in Hl. }
  split; [|by split; eapply Hval; try done; set_solver].
  unfold zset_lower_bound. cbn [z_avl_root].
  rewrite (lower_bound_ok m score key (less_than m (score, key)) (size (m_avl m)) NULL t a b NULL); try done.
  - by destruct b.
  - apply (zr_tree _ _ _ _ HR).
  - intros x Hx. apply zless_ok; [|done]. by apply (zr_members _ _ _ _ HR).
  - eapply tree_fuel; apply HR.
Qed.

Lemma NoDup_position {A} (l : list A) a x b i :
  NoDup l -> l = a ++ x :: b -> l !! i = Some x -> i = length a.
Proof.
  intros Hnd -> Hi. eapply (NoDup_lookup _ i (length a) x Hnd Hi). by rewrite list_lookup_middle.
Qed.

Lemma zset_offset_ok (m : Mem) z t M i x offset :
  zset_rep m z t M -> inorder t !! i = Some x -> cnt t < 2 ^ 30 ->
  zset_offset m x offset = Ok (nth_z (inorder t) (Z.of_nat i + offset)).
Proof.
  intros HR Hi Hc. pose proof (zr_nodup _ _ _ _ HR) as Hnd. pose proof (zr_tree _ _ _ _ HR) as Ht.
  pose proof (list_elem_of_lookup_2 _ _ _ Hi) as (l & r & fs & E)%zip_find.
  assert (Hin : inorder t = (pre fs ++ inorder l) ++ x :: (inorder r ++ post fs))
    by (rewrite E, inorder_zip_pre; cbn; by rewrite <- !app_assoc).
  pose proof (NoDup_position _ _ _ _ _ Hnd Hin Hi) as Hidx. rewrite length_app in Hidx.
  pose proof (lookup_lt_Some _ _ _ Hi) as Hlt. pose proof (cnt_length t) as Hct. pose proof (cnt_length l) as Hcl.
  pose proof (offset_up (m_avl m) (Z.of_nat i) (Z.of_nat i + offset) ltac:(lia) fs l x r
    (S (2 * size (m_avl m)))) as Hup.
  rewrite <- E in Hup. unfold zset_offset. rewrite <- Hup; try done.
  - f_equal; lia.
  - pose proof (tree_fuel _ _ _ Ht Hnd). pose proof (hgt_zip_le (Node l x r) fs) as Hz. rewrite <- E in Hz.
    pose proof (hgt_range (Node l x r)). lia.
Qed.

(** C7: [zset_offset] from the member at index [i] returns the member at index
    [i + offset], and NULL when there is none, for every offset and a set of fewer than 2^30 members. *)
Theorem zset_offset_index (m : Mem) z t M i x offset :
  zset_rep m z t M -> inorder t !! i = Some x -> cnt t < 2 ^ 30 ->
  zset_offset m x offset = Ok (nth_z (inorder t) (Z.of_nat i + offset)).
Proof. apply zset_offset_ok. Qed.

(** ** Witnesses *)

Definition zs0_mem : Mem := mkMem ∅ {[ 1%positive := mkZSet NULL hmap_empty ]} ∅ ∅ ∅ [] 2.

Lemma zs0_rep : zset_rep zs0_mem 1 Leaf ∅.
Proof.
  split; try done; try (by intros x ?%elem_of_nil); try constructor.
  exists hmap_empty. split; [done|]. split; [apply hm_empty_rep|]. intros q l Hq. by rewrite lookup_empty in Hq.
Qed.

Lemma zs0_fresh : fresh_ok zs0_mem.
Proof.
  intros l Hl. cbn. rewrite !lookup_empty. split_and!; try done. rewrite lookup_singleton_ne; [done|].
  intros <-. cbn in Hl. lia.
Qed.

(** The set with the single member [a] of score 1. *)
Definition one : Z := 0x3FF0000000000000.
Definition zs1_mem : Mem := match zset_add zs0_mem 1 one [97] with Ok m => m | Fault _ => zs0_mem end.
Definition zs1_tree : tree := Node Leaf 2 Leaf.
Definition zs1_map : gmap (Z * list Z) loc := <[ (str_hash [97], cstr [97]) := m_fresh zs0_mem ]> ∅.

Lemma zs1_rep : zset_rep zs1_mem 1 zs1_tree zs1_map /\ fresh_ok zs1_mem.
Proof.
  destruct (zset_add_ok zs0_mem 1 Leaf ∅ one [97]) as (m' & t' & a & b & E & HR & Hab & Hin & _ & Hf & _);
    [apply zs0_rep|apply zs0_fresh|by_compute|by_compute|apply lookup_empty|by_compute|].
  unfold zs1_mem. rewrite E. split; [|done]. symmetry in Hab. apply app_nil in Hab as [-> ->].
  replace zs1_tree with t'; [exact HR|]. destruct t' as [|l x r]; [done|]. cbn in Hin.
  destruct l as [|l y l']; cbn in Hin; [injection Hin as -> Hr|].
  - destruct r as [|rl ? ?]; [reflexivity|]. by apply app_nil in Hr as [_ ?].
  - apply (f_equal length) in Hin. rewrite !length_app in Hin. cbn in Hin. lia.
Qed.

Lemma zset_insert_refines_witness :
  let q := (str_hash [97], cstr [97]) in
  exists m' t', zset_insert zs1_mem 1 0 [97] = Ok (m', false) /\ zset_rep m' 1 t' (<[q := m_fresh zs1_mem]> zs1_map) /\
    fresh_ok m' /\ zset_view m' (<[q := m_fresh zs1_mem]> zs1_map) = <[q := (0, [97])]> (zset_view zs1_mem zs1_map) /\
    untouched (m_fresh zs1_mem :: inorder zs1_tree) 1 zs1_mem m'.
Proof.
  apply (zset_insert_refines zs1_mem 1 zs1_tree zs1_map 0 [97]); [apply zs1_rep|apply zs1_rep|by_compute|by_compute|by_compute].
Defined.

Lemma zset_delete_refines_witness :
  exists m' t' q, zs1_map !! q = Some 2%positive /\ zset_delete zs1_mem 1 2 = Ok m' /\
    zset_rep m' 1 t' (delete q zs1_map) /\ fresh_ok m' /\ without 2 zs1_tree t' /\
    zset_view m' (delete q zs1_map) = delete q (zset_view zs1_mem zs1_map) /\
    untouched (inorder zs1_tree) 1 zs1_mem m'.
Proof.
  apply (zset_delete_refines zs1_mem 1 zs1_tree zs1_map 2); [apply zs1_rep|apply zs1_rep|by_compute|by_compute].
Defined.

Lemma zset_lower_bound_first_witness :
  exists zs a b, inorder zs1_tree = a ++ b /\ zset_lower_bound zs1_mem zs 0 [] = Ok (head b) /\
    (forall x, x ∈ a -> exists p, member_of zs1_mem x = Some p /\ member_lt p (0, []) = true) /\
    (forall x, x ∈ b -> exists p, member_of zs1_mem x = Some p /\ member_lt p (0, []) = false).
Proof.
  destruct (zr_set _ _ _ _ (proj1 zs1_rep)) as (hm & Hzs & _). eexists.
  apply (zset_lower_bound_first zs1_mem 1 zs1_tree zs1_map (mkZSet (Some 2%positive) hm) 0 []);
    [apply zs1_rep|exact Hzs|by_compute].
Defined.

Lemma zset_offset_index_witness : zset_offset zs1_mem 2 (- 1) = Ok NULL.
Proof. apply (zset_offset_index zs1_mem 1 zs1_tree zs1_map 0 2 (- 1)); [apply zs1_rep|done|by_compute]. Defined.
