(* ===== verification/Commands.v ===== *)
(** * The commands: [src/src/redis_functions.cpp], [redis_functions.h]

    Every handler of the keyspace, sorted set, expiry, hash, list, set and
    bitmap commands, in a state and error monad over the global data the
    handlers share (the database, the expiry heap and the memory) and the
    output buffer of the connection. *)

From Stdlib Require Import String Ascii.
From S2P Require Import Prelude Libc Dstr Dlist Heap Hash Buffers Hashmap Avl Hll Node Zset.

(** ** The monad *)

(** [global_data.db], [global_data.ttl_heap], the memory and
    [conn->outgoing]. *)
Record World := mkWorld { w_db : HMap; w_heap : list HeapNode; w_mem : Mem; w_out : list Z }.

Definition cmdM (A : Type) : Type := World -> result (A * World).

#[export] Instance cmd_ret : MRet cmdM := fun A a w => Ok (a, w).
#[export] Instance cmd_bind : MBind cmdM := fun A B k m w => '(a, w) ← m w; k a w.

Definition lift {A} (r : result A) : cmdM A := fun w => a ← r; Ok (a, w).
Definition get_db : cmdM HMap := fun w => Ok (w_db w, w).
Definition get_heap : cmdM (list HeapNode) := fun w => Ok (w_heap w, w).
Definition get_mem : cmdM Mem := fun w => Ok (w_mem w, w).
Definition set_db (db : HMap) : cmdM unit := fun w => Ok (tt, mkWorld db (w_heap w) (w_mem w) (w_out w)).
Definition set_heap (h : list HeapNode) : cmdM unit := fun w => Ok (tt, mkWorld (w_db w) h (w_mem w) (w_out w)).
Definition set_mem (m : Mem) : cmdM unit := fun w => Ok (tt, mkWorld (w_db w) (w_heap w) m (w_out w)).
Definition out (f : list Z -> list Z) : cmdM unit :=
  fun w => Ok (tt, mkWorld (w_db w) (w_heap w) (w_mem w) (f (w_out w))).
Definition out_r (f : list Z -> result (list Z)) : cmdM unit :=
  fun w => o ← f (w_out w); Ok (tt, mkWorld (w_db w) (w_heap w) (w_mem w) o).

(** A string literal of the sources. *)
Definition lit (s : string) : list Z := (fun a => Z.of_N (N_of_ascii a)) <$> list_ascii_of_string s.

(** ** Shared steps of the handlers *)

Inductive RETURN_VALS := SUCCESS | NOT_FOUND | INCORRECT_TYPE | SIZE_ERR | OUT_OF_RANGE | INTERNAL_ERR.

#[export] Instance RETURN_VALS_eq_dec : EqDecision RETURN_VALS.
Proof. solve_decision. Defined.

Definition LLIST_SIDE_LEFT : Z := 0.
Definition LLIST_SIDE_RIGHT : Z := 1.

(** [cmd[i]]: reading past the vector is undefined. *)
Definition arg (cmd : list dstr) (i : nat) : cmdM dstr := lift (need (cmd !! i) OutOfBounds).
(** [strtol(cmd[i]->buf, NULL, 10)] *)
Definition arg_int (cmd : list dstr) (i : nat) : cmdM Z :=
  d ← arg cmd i; s ← lift (c_str (d_buf d)); mret (strtol s).
Definition arg_double (cmd : list dstr) (i : nat) : cmdM Z :=
  d ← arg cmd i; s ← lift (c_str (d_buf d)); mret (strtod s).
(** [strcmp(d->buf, s) == 0] *)
Definition str_is (d : dstr) (s : string) : result bool :=
  strcmp_eq (d_buf d) ((Some <$> lit s) ++ [Some 0]).

Definition out_error (mes : string) : cmdM unit := out_r (fun o => out_err o (lit mes)).
(** [out_str(conn, d->buf, d->size)] *)
Definition out_dstr (d : dstr) : cmdM unit :=
  bs ← lift (dstr_bytes d); out (fun o => out_str o bs (d_size d)).
(** An array of strings. *)
Fixpoint out_dstrs (ds : list dstr) : cmdM unit :=
  match ds with [] => mret tt | d :: ds => _ ← out_dstr d; out_dstrs ds end.
Definition out_keys (keys : list dstr) : cmdM unit :=
  _ ← out (fun o => out_arr o (Z.of_nat (length keys))); out_dstrs keys.

(** [node->...] of a database node. *)
Definition node (l : loc) : cmdM HNode := m ← get_mem; lift (hget m (Some l)).
Definition set_node (l : loc) (f : HNode -> HNode) : cmdM unit :=
  m ← get_mem; m ← lift (hput m (Some l) f); set_mem m.
(** A field that only nodes of some types have initialised. *)
Definition field {A} (o : option A) : cmdM A := lift (need o Uninitialised).

(** The [tmp] node with a copy of the key, and the search with it. *)
Definition lookup_in (hmap : HMap) (key : dstr) : cmdM ptr :=
  kb ← lift (dstr_bytes key); tmp ← lift (tmp_key kb);
  m ← get_mem; lift (hm_lookup hmap m tmp).
Definition lookup_key (key : dstr) : cmdM ptr := db ← get_db; lookup_in db key.

(** [hm_insert(&global_data.db, node)] *)
Definition insert_db (l : loc) : cmdM unit :=
  db ← get_db; m ← get_mem; '(db, m) ← lift (hm_insert db m l); _ ← set_db db; set_mem m.

(** [new_node(key, type)] *)
Definition create (key : dstr) (type : EntryTypes) : cmdM loc :=
  kb ← lift (dstr_bytes key); m ← get_mem; '(m, l) ← lift (new_node m kb type); _ ← set_mem m; mret l.

(** The node of a key, created and inserted if the key is not there. *)
Definition find_or_create (key : dstr) (type : EntryTypes) : cmdM loc :=
  p ← lookup_key key;
  match p with
  | Some l => mret l
  | None => l ← create key type; _ ← insert_db l; mret l
  end.

(** [validate_hmnode] *)
Definition validate_hmnode (hm_node : ptr) (type : EntryTypes) : cmdM RETURN_VALS :=
  match hm_node with
  | None => _ ← out_error "key does not exist"; mret NOT_FOUND
  | Some l =>
      n ← node l;
      if decide (h_type n = type) then mret SUCCESS
      else _ ← out_error "key already exists in database but is not the correct type"; mret INCORRECT_TYPE
  end.

(** ** Keyspace *)

Definition do_get (cmd : list dstr) : cmdM RETURN_VALS :=
  key ← arg cmd 1;
  p ← lookup_key key;
  match p with
  | None => _ ← out_r out_not_found; mret NOT_FOUND
  | Some l => n ← node l; v ← field (h_val n); _ ← out_dstr v; mret SUCCESS
  end.

Definition do_set (cmd : list dstr) : cmdM RETURN_VALS :=
  key ← arg cmd 1;
  val ← arg cmd 2;
  p ← lookup_key key;
  _ ← match p with
      | Some l =>
          n ← node l; v ← field (h_val n); vb ← lift (dstr_bytes val);
          '(_, v) ← lift (dstr_assign true true v vb (d_size val));
          set_node l (set_h_val v)
      | None =>
          l ← create key T_STR;
          n ← node l; v ← field (h_val n); vb ← lift (dstr_bytes val);
          '(_, v) ← lift (dstr_append true v vb (d_size val));
          _ ← set_node l (set_h_val v);
          insert_db l
      end;
  _ ← out out_null; mret SUCCESS.

(** [hm_delete(&global_data.db, key, true)] *)
Definition delete_db (key : HKey) : cmdM Z :=
  db ← get_db; m ← get_mem; '(db, m, deleted) ← lift (hm_delete db m key true);
  _ ← set_db db; _ ← set_mem m; mret deleted.

Definition do_del (cmd : list dstr) : cmdM RETURN_VALS :=
  key ← arg cmd 1;
  kb ← lift (dstr_bytes key); tmp ← lift (tmp_key kb);
  deleted ← delete_db tmp;
  if deleted =? 0 then _ ← out_error "node does not exist"; mret NOT_FOUND
  else _ ← out out_null; mret SUCCESS.

Definition do_keys : cmdM RETURN_VALS :=
  db ← get_db; m ← get_mem; keys ← lift (hm_keys db m); _ ← out_keys keys; mret SUCCESS.

(** ** Sorted sets *)

(** A [ZSet*] of the handlers: the static [empty] set, a null pointer, or a
    set of the database. *)
Inductive ZRef := ZEmpty | ZNull | ZAt (z : loc).

Definition find_zset (key : dstr) : cmdM ZRef :=
  p ← lookup_key key;
  match p with
  | None => mret ZEmpty
  | Some l =>
      n ← node l;
      if decide (h_type n = T_ZSET) then z ← field (h_zset n); mret (ZAt z) else mret ZNull
  end.

Definition zset_of (m : Mem) (r : ZRef) : result ZSet :=
  match r with
  | ZEmpty => Ok (mkZSet NULL hmap_empty)
  | ZNull => Fault NullDeref
  | ZAt z => deref (m_zsets m) (Some z)
  end.

Definition do_zadd (cmd : list dstr) : cmdM RETURN_VALS :=
  key ← arg cmd 1;
  score ← arg_double cmd 2;
  member ← arg cmd 3;
  l ← find_or_create key T_ZSET;
  n ← node l;
  if decide (h_type n = T_ZSET) then
    z ← field (h_zset n); mb ← lift (dstr_bytes member); m ← get_mem;
    '(m, inserted) ← lift (zset_insert m z score mb);
    _ ← set_mem m; _ ← out (fun o => out_int o (if (inserted : bool) then 1 else 0)); mret SUCCESS
  else _ ← out_error "cant add zset to a non-zset node"; mret INCORRECT_TYPE.

(** [zset_lookup(zset, member)] *)
Definition lookup_member (r : ZRef) (member : dstr) : cmdM ptr :=
  m ← get_mem; zs ← lift (zset_of m r); mb ← lift (dstr_bytes member); lift (zset_lookup m zs mb).

Definition do_zscore (cmd : list dstr) : cmdM RETURN_VALS :=
  key ← arg cmd 1;
  member ← arg cmd 2;
  r ← find_zset key;
  ret ← lookup_member r member;
  match ret with
  | None => _ ← out out_null; mret SUCCESS
  | Some l =>
      m ← get_mem; zn ← lift (deref (m_znodes m) (Some l));
      _ ← out (fun o => out_double o (zn_score zn)); mret SUCCESS
  end.

Definition do_zrem (cmd : list dstr) : cmdM RETURN_VALS :=
  key ← arg cmd 1;
  member ← arg cmd 2;
  r ← find_zset key;
  znode ← lookup_member r member;
  match znode, r with
  | None, _ => _ ← out (fun o => out_int o 0); mret SUCCESS
  | Some l, ZAt z =>
      m ← get_mem; m ← lift (zset_delete m z l); _ ← set_mem m;
      _ ← out (fun o => out_int o 1); mret SUCCESS
  | Some _, _ => lift (Fault NullDeref)
  end.

(** The loop of [do_zrangequery]; the number of values written. *)
Fixpoint range_loop (fuel : nat) (znode : ptr) (size limit : Z) : cmdM Z :=
  match znode with
  | None => mret size
  | Some l =>
      if size <? limit then
        match fuel with
        | O => lift (Fault OutOfFuel)
        | S fuel =>
            m ← get_mem; zn ← lift (deref (m_znodes m) (Some l));
            _ ← out (fun o => out_double o (zn_score zn));
            _ ← out_dstr (zn_key zn);
            next ← lift (zset_offset m l 1);
            range_loop fuel next (u32 (size + 2)) limit
        end
      else mret size
  end.

(** [memcpy(&conn->outgoing[pos], &size, 4)] *)
Definition patch_u32 (pos size : Z) (o : list Z) : result (list Z) :=
  if (0 <=? pos) && (pos + 4 <=? Z.of_nat (length o))
  then Ok (list_inserts (Z.to_nat pos) (le_bytes 4 size) o) else Fault OutOfBounds.

Definition do_zrangequery (cmd : list dstr) : cmdM RETURN_VALS :=
  key ← arg cmd 1;
  score_lb ← arg_double cmd 2;
  key_lb ← arg cmd 3;
  offset ← (if (4 <? length cmd)%nat then arg_int cmd 4 else mret 0);
  limit ← (if (5 <? length cmd)%nat then arg_int cmd 5 else mret (2 ^ 32 - 1));
  let offset := s32 offset in
  let limit := u32 limit in
  r ← find_zset key;
  m ← get_mem; zs ← lift (zset_of m r); kb ← lift (dstr_bytes key_lb);
  lb ← lift (zset_lower_bound m zs score_lb kb);
  match lb with
  | None => _ ← out (fun o => out_arr o 0); mret SUCCESS
  | Some lb =>
      znode ← lift (zset_offset m lb offset);
      size_pos ← (fun w => Ok (snd (out_unknown_arr (w_out w)), w)) : cmdM Z;
      _ ← out (fun o => fst (out_unknown_arr o));
      size ← range_loop (size (m_avl m)) znode 0 limit;
      _ ← out_r (patch_u32 size_pos size);
      mret SUCCESS
  end.

(** ** Expiry *)

Definition do_expire (curr_ms : Z) (cmd : list dstr) : cmdM RETURN_VALS :=
  key ← arg cmd 1;
  ttl ← arg_int cmd 2;
  let ttl_ms := u64 (u64 ttl * 1000) in
  p ← lookup_key key;
  match p with
  | None => _ ← out out_null; mret SUCCESS
  | Some l =>
      h ← get_heap; m ← get_mem; '(h, m) ← lift (set_ttl h m curr_ms l ttl_ms);
      _ ← set_heap h; _ ← set_mem m; _ ← out out_null; mret SUCCESS
  end.

(** The clock is passed as a [uint32_t]. *)
Definition do_ttl (curr_ms : Z) (cmd : list dstr) : cmdM RETURN_VALS :=
  let curr_ms := u32 curr_ms in
  key ← arg cmd 1;
  p ← lookup_key key;
  match p with
  | None => _ ← out out_null; mret SUCCESS
  | Some l =>
      n ← node l; idx ← field (h_heap_idx n); h ← get_heap; e ← lift (vget h idx);
      _ ← out (fun o => out_int o (u32 (u64 (hn_val e - curr_ms) / 1000))); mret SUCCESS
  end.

Definition do_persist (cmd : list dstr) : cmdM RETURN_VALS :=
  key ← arg cmd 1;
  p ← lookup_key key;
  match p with
  | None => _ ← out out_null; mret SUCCESS
  | Some l =>
      h ← get_heap; m ← get_mem; '(h, m) ← lift (rem_ttl h m l);
      _ ← set_heap h; _ ← set_mem m; _ ← out out_null; mret SUCCESS
  end.

(** ** Hashes *)

(** [hm_insert(&node->hmap, in_node)] and [hm_delete(&node->hmap, key, true)]:
    the table is a field of a node of the database. *)
Definition insert_hmap (l in_node : loc) : cmdM unit :=
  n ← node l; hm ← field (h_hmap n); m ← get_mem; '(hm, m) ← lift (hm_insert hm m in_node);
  _ ← set_mem m; set_node l (set_h_hmap hm).
Definition insert_set (l in_node : loc) : cmdM unit :=
  n ← node l; hm ← field (h_set n); m ← get_mem; '(hm, m) ← lift (hm_insert hm m in_node);
  _ ← set_mem m; set_node l (set_h_set hm).
Definition delete_hmap (l : loc) (key : HKey) : cmdM Z :=
  n ← node l; hm ← field (h_hmap n); m ← get_mem; '(hm, m, deleted) ← lift (hm_delete hm m key true);
  _ ← set_mem m; _ ← set_node l (set_h_hmap hm); mret deleted.
Definition delete_set (l : loc) (key : HKey) : cmdM Z :=
  n ← node l; hm ← field (h_set n); m ← get_mem; '(hm, m, deleted) ← lift (hm_delete hm m key true);
  _ ← set_mem m; _ ← set_node l (set_h_set hm); mret deleted.

(** The field is searched with [hm_tmp], whose key stays NULL: the copy of the
    field is stored in [tmp] instead. *)
Definition do_hset (cmd : list dstr) : cmdM RETURN_VALS :=
  key ← arg cmd 1;
  fld ← arg cmd 2;
  value ← arg cmd 3;
  l ← find_or_create key T_HSET;
  n ← node l;
  if decide (h_type n = T_HSET) then
    fb ← lift (dstr_bytes fld);
    _ ← lift (dstr_copy fb);
    n ← node l; hm ← field (h_hmap n); m ← get_mem;
    p ← lift (hm_lookup hm m (mkHKey (str_hash fb) None));
    vb ← lift (dstr_bytes value);
    match p with
    | Some x =>
        xn ← node x;
        if decide (h_type xn = T_STR) then
          v ← lift (dstr_copy vb); _ ← set_node x (set_h_val v); _ ← out out_null; mret SUCCESS
        else _ ← out_error "[hset] node is not of type STR"; mret INCORRECT_TYPE
    | None =>
        x ← create fld T_STR;
        v ← lift (dstr_copy vb); _ ← set_node x (set_h_val v);
        _ ← insert_hmap l x; _ ← out out_null; mret SUCCESS
    end
  else _ ← out_error "keyspace key is not of type hashmap"; mret INCORRECT_TYPE.

Definition do_hget (cmd : list dstr) : cmdM RETURN_VALS :=
  key ← arg cmd 1;
  fld ← arg cmd 2;
  p ← lookup_key key;
  match p with
  | None => _ ← out out_null; mret SUCCESS
  | Some l =>
      n ← node l;
      if decide (h_type n = T_HSET) then
        hm ← field (h_hmap n);
        p ← lookup_in hm fld;
        match p with
        | None => _ ← out out_null; mret SUCCESS
        | Some x =>
            xn ← node x;
            if decide (h_type xn = T_STR) then v ← field (h_val xn); _ ← out_dstr v; mret SUCCESS
            else _ ← out out_null; mret SUCCESS
        end
      else _ ← out_error "keyspace key is not of type hashmap"; mret INCORRECT_TYPE
  end.

Definition do_hdel (cmd : list dstr) : cmdM RETURN_VALS :=
  key ← arg cmd 1;
  fld ← arg cmd 2;
  p ← lookup_key key;
  match p with
  | None => _ ← out out_null; mret SUCCESS
  | Some l =>
      n ← node l;
      if decide (h_type n = T_HSET) then
        fb ← lift (dstr_bytes fld); tmp ← lift (tmp_key fb);
        deleted ← delete_hmap l tmp;
        if deleted =? 0 then _ ← out_error "node does not exist"; mret NOT_FOUND
        else
          n ← node l; hm ← field (h_hmap n);
          _ ← (if hm_size hm =? 0 then
                 m ← get_mem; key ← lift (node_key m (Some l)); _ ← delete_db key; mret tt
               else mret tt);
          _ ← out out_null; mret SUCCESS
      else _ ← out_error "keyspace key is not of type hashmap"; mret SUCCESS
  end.

(** The type of the node is not looked at. *)
Definition do_hgetall (cmd : list dstr) : cmdM RETURN_VALS :=
  key ← arg cmd 1;
  p ← lookup_key key;
  match p with
  | None => _ ← out out_null; mret SUCCESS
  | Some l =>
      n ← node l; hm ← field (h_hmap n); m ← get_mem;
      keys ← lift (hm_keys hm m); _ ← out_keys keys; mret SUCCESS
  end.

(** ** Lists *)

Definition set_head (p : ptr) (l : DList) : DList := mkDList p (l_tail l) (l_size l).
Definition set_tail (p : ptr) (l : DList) : DList := mkDList (l_head l) p (l_size l).
Definition set_size (n : Z) (l : DList) : DList := mkDList (l_head l) (l_tail l) n.

Definition get_list (l : loc) : cmdM DList := n ← node l; field (h_list n).
Definition set_list (l : loc) (d : DList) : cmdM unit := set_node l (set_h_list d).
Definition set_dnodes (h : gmap loc (DListNode dstr)) : cmdM unit := m ← get_mem; set_mem (with_dnodes h m).

(** The [DListNode] of [do_push].  The copy fits the block [dstr_init] allocated, so
    [dstr_append] does not move it and [val] of the node stays valid. *)
Definition create_list_node (value : dstr) : cmdM loc :=
  vb ← lift (dstr_bytes value); v ← lift (dstr_copy vb); m ← get_mem;
  let x := m_fresh m in
  _ ← set_mem (with_fresh (Pos.succ x) (with_dnodes (<[x := mkNode NULL NULL v]> (m_dnodes m)) m));
  mret x.

Definition do_push (side : Z) (cmd : list dstr) : cmdM RETURN_VALS :=
  key ← arg cmd 1;
  value ← arg cmd 2;
  l ← find_or_create key T_LIST;
  n ← node l;
  if decide (h_type n = T_LIST) then
    x ← create_list_node value;
    d ← get_list l; m ← get_mem;
    let finish :=
      d ← get_list l;
      let size := u32 (l_size d + 1) in
      _ ← set_list l (set_size size d); _ ← out (fun o => out_int o size); mret SUCCESS in
    if l_size d =? 0 then
      _ ← set_list l (set_tail (Some x) (set_head (Some x) d)); finish
    else if side =? LLIST_SIDE_LEFT then
      h ← lift (dlist_insert_before (m_dnodes m) (l_head d) (Some x)); _ ← set_dnodes h;
      _ ← set_list l (set_head (Some x) d); finish
    else if side =? LLIST_SIDE_RIGHT then
      h ← lift (dlist_insert_after (m_dnodes m) (l_tail d) (Some x)); _ ← set_dnodes h;
      _ ← set_list l (set_tail (Some x) d); finish
    else _ ← out_error "internal error (do_push() side != 0 or 1)"; mret INTERNAL_ERR
  else _ ← out_error "node with the provided key exists and is not of type LIST"; mret INCORRECT_TYPE.

(** One pass of the loop of [do_pop]. *)
Definition pop_one (side : Z) (l : loc) : cmdM unit :=
  d ← get_list l;
  let node := if side =? LLIST_SIDE_LEFT then l_head d else l_tail d in
  m ← get_mem; dn ← lift (deref (m_dnodes m) node);
  _ ← out_dstr (dl_val dn);
  _ ← (if side =? LLIST_SIDE_LEFT then
         h ← (if dl_next dn is Some _ then lift (update (m_dnodes m) (dl_next dn) (set_prev NULL))
              else mret (m_dnodes m));
         _ ← set_dnodes h; set_list l (set_head (dl_next dn) d)
       else if side =? LLIST_SIDE_RIGHT then
         h ← (if dl_prev dn is Some _ then lift (update (m_dnodes m) (dl_prev dn) (set_next NULL))
              else mret (m_dnodes m));
         _ ← set_dnodes h; set_list l (set_tail (dl_prev dn) d)
       else out_error "internal error (do_pop() side not in [0 or 1])");
  d ← get_list l;
  _ ← set_list l (set_size (u32 (l_size d - 1)) d);
  m ← get_mem;
  match node with Some x => set_dnodes (delete x (m_dnodes m)) | None => mret tt end.

Fixpoint pop_loop (size : nat) (side : Z) (l : loc) : cmdM unit :=
  match size with O => mret tt | S size => _ ← pop_one side l; pop_loop size side l end.

(** [dmin] compares an [int32_t] with a [uint32_t]. *)
Definition do_pop (side : Z) (cmd : list dstr) : cmdM RETURN_VALS :=
  key ← arg cmd 1;
  _ ← arg cmd 2;
  p ← lookup_key key;
  match p with
  | None => _ ← out_error "key does not exist in the database"; mret NOT_FOUND
  | Some l =>
      n ← node l;
      if decide (h_type n = T_LIST) then
        size ← (if (2 <? length cmd)%nat then arg_int cmd 2 else mret 1);
        let size := s32 size in
        d ← get_list l;
        let size := s32 (if u32 size <? l_size d then u32 size else l_size d) in
        if size <=? 0 then _ ← out_error "value must be positive"; mret SIZE_ERR
        else
          _ ← out (fun o => out_arr o size);
          _ ← pop_loop (Z.to_nat size) side l; mret SUCCESS
      else _ ← out_error "node with the provided key exists and is not of type LIST"; mret INCORRECT_TYPE
  end.

(** [while (n--) p = p->prev] and [while (n--) p = p->next] *)
Fixpoint walk_prev (n : nat) (h : gmap loc (DListNode dstr)) (p : ptr) : result ptr :=
  match n with O => Ok p | S n => d ← deref h p; walk_prev n h (dl_prev d) end.
Fixpoint walk_next (n : nat) (h : gmap loc (DListNode dstr)) (p : ptr) : result ptr :=
  match n with O => Ok p | S n => d ← deref h p; walk_next n h (dl_next d) end.

(** [while (size--) { out_str(begin->val); begin = begin->next; }] *)
Fixpoint out_list (n : nat) (h : gmap loc (DListNode dstr)) (p : ptr) : cmdM unit :=
  match n with
  | O => mret tt
  | S n => d ← lift (deref h p); _ ← out_dstr (dl_val d); out_list n h (dl_next d)
  end.

(** Signed overflow of [end - start + 1] is undefined. *)
Definition do_lrange (cmd : list dstr) : cmdM RETURN_VALS :=
  key ← arg cmd 1;
  start ← arg_int cmd 2;
  end_ ← arg_int cmd 3;
  let start := s32 start in
  let end_ := s32 end_ in
  p ← lookup_key key;
  match p with
  | None => _ ← out_error "key does not exist in the database"; mret NOT_FOUND
  | Some l =>
      n ← node l;
      if decide (h_type n = T_LIST) then
        d ← get_list l;
        let start := if start <? 0 then s32 (u32 (l_size d + start)) else start in
        let end_ := if end_ <? 0 then s32 (u32 (l_size d + end_)) else end_ in
        if l_size d <=? u32 start then _ ← out_error "index out of range"; mret OUT_OF_RANGE
        else
          let lft := u32 start in
          let rgt := u32 (l_size d - start - 1) in
          m ← get_mem;
          begin ← lift (if lft <? rgt then walk_prev (Z.to_nat rgt) (m_dnodes m) (l_tail d)
                        else walk_next (Z.to_nat lft) (m_dnodes m) (l_head d));
          _ ← lift (check ((s32 (end_ - start) =? end_ - start) && (s32 (end_ - start + 1) =? end_ - start + 1)) Overflow);
          let size := Z.min (Z.max 0 (end_ - start + 1)) (l_size d) in
          _ ← out (fun o => out_arr o size);
          _ ← out_list (Z.to_nat size) (m_dnodes m) begin; mret SUCCESS
      else _ ← out_error "node with the provided key exists and is not of type LIST"; mret INCORRECT_TYPE
  end.

(** ** Sets *)

(** The value is inserted whether or not it is a member, and nothing is
    replied. *)
Definition do_sadd (cmd : list dstr) : cmdM RETURN_VALS :=
  key ← arg cmd 1;
  value ← arg cmd 2;
  l ← find_or_create key T_SET;
  n ← node l;
  if decide (h_type n = T_SET) then
    x ← create value T_STR; _ ← insert_set l x; mret SUCCESS
  else _ ← out_error "key already exists in the database and is not of type SET"; mret INCORRECT_TYPE.

(** The checks the other set commands start with. *)
Definition with_set (key : dstr) (k : loc -> cmdM RETURN_VALS) : cmdM RETURN_VALS :=
  p ← lookup_key key;
  match p with
  | None => _ ← out_error "node with the provided key does not exist"; mret NOT_FOUND
  | Some l =>
      n ← node l;
      if decide (h_type n = T_SET) then k l
      else _ ← out_error "key is not of type SET"; mret INCORRECT_TYPE
  end.

Definition do_srem (cmd : list dstr) : cmdM RETURN_VALS :=
  key ← arg cmd 1;
  value ← arg cmd 2;
  with_set key (fun l =>
    vb ← lift (dstr_bytes value); kkey ← lift (tmp_key vb);
    deleted ← delete_set l kkey;
    _ ← out (fun o => out_int o deleted); mret SUCCESS).

Definition do_smembers (cmd : list dstr) : cmdM RETURN_VALS :=
  key ← arg cmd 1;
  with_set key (fun l =>
    n ← node l; hm ← field (h_set n); m ← get_mem;
    keys ← lift (hm_keys hm m); _ ← out_keys keys; mret SUCCESS).

Definition do_scard (cmd : list dstr) : cmdM RETURN_VALS :=
  key ← arg cmd 1;
  with_set key (fun l =>
    n ← node l; hm ← field (h_set n); _ ← out (fun o => out_int o (hm_size hm)); mret SUCCESS).

(** ** Bitmaps *)

Definition do_setbit (cmd : list dstr) : cmdM RETURN_VALS :=
  key ← arg cmd 1;
  _ ← arg cmd 2;
  bit_value ← arg cmd 3;
  l ← find_or_create key T_BITMAP;
  n ← node l;
  if decide (h_type n = T_BITMAP) then
    bit_idx ← arg_int cmd 2;
    if (bit_idx <? 0) || (2 ^ 32 - 1 <? bit_idx) then
      _ ← out_error "index must be in range [0, 2^32-1]"; mret OUT_OF_RANGE
    else
      is0 ← lift (str_is bit_value "0");
      is1 ← lift (str_is bit_value "1");
      if negb is0 && negb is1 then _ ← out_error "bit has to be 0 or 1"; mret INCORRECT_TYPE
      else
        let byte_idx := bit_idx / 8 in
        let bit_idx := 7 - bit_idx mod 8 in
        bm ← field (h_bitmap n);
        '(err, bm) ← lift (if d_size bm <=? byte_idx then dstr_resize true bm (byte_idx + 1) 0
                           else Ok (STR_OK, bm));
        _ ← set_node l (set_h_bitmap bm);
        if decide (err = STR_OK) then
          byte ← lift (buf_get bm byte_idx);
          let prev := Z.land (Z.shiftr byte bit_idx) 1 in
          _ ← out (fun o => out_int o prev);
          let byte := if (is1 : bool) then Z.lor byte (Z.shiftl 1 bit_idx)
                      else u8 (Z.land byte (Z.lnot (Z.shiftl 1 bit_idx))) in
          bm ← lift (buf_put bm byte_idx byte);
          _ ← set_node l (set_h_bitmap bm); mret SUCCESS
        else _ ← out_error "bitmap resize failed"; mret INTERNAL_ERR
  else _ ← out_error "key already exists in database but is not of type BITMAP"; mret INCORRECT_TYPE.

(** The checks the other bitmap commands start with. *)
Definition with_bitmap (key : dstr) (k : dstr -> cmdM RETURN_VALS) : cmdM RETURN_VALS :=
  p ← lookup_key key;
  invalid ← validate_hmnode p T_BITMAP;
  match invalid, p with
  | SUCCESS, Some l => n ← node l; bm ← field (h_bitmap n); k bm
  | _, _ => mret invalid
  end.

Definition do_getbit (cmd : list dstr) : cmdM RETURN_VALS :=
  key ← arg cmd 1;
  _ ← arg cmd 2;
  with_bitmap key (fun bm =>
    bit_idx ← arg_int cmd 2;
    if (bit_idx <? 0) || (d_size bm <=? bit_idx / 8) then
      _ ← out_error "index outside of range"; mret OUT_OF_RANGE
    else
      let byte_idx := u32 (bit_idx / 8) in
      let bit_idx := 7 - bit_idx mod 8 in
      byte ← lift (buf_get bm byte_idx);
      _ ← out (fun o => out_int o (Z.land (Z.shiftr byte bit_idx) 1)); mret SUCCESS).

(** [while (byte) { ret += byte & 1; byte >>= 1; }] *)
Fixpoint popcount (fuel : nat) (byte ret : Z) : Z :=
  match fuel with
  | O => ret
  | S fuel => if byte =? 0 then ret else popcount fuel (Z.shiftr byte 1) (ret + Z.land byte 1)
  end.

(** The [n] bytes from [byte_idx] on. *)
Fixpoint count_bytes (n : nat) (bm : dstr) (byte_idx ret : Z) : result Z :=
  match n with
  | O => Ok ret
  | S n => b ← buf_get bm byte_idx; count_bytes n bm (byte_idx + 1) (popcount 8 b ret)
  end.

(** [buf] is an array of [char], which is signed; division truncates. *)
Fixpoint count_bits (n : nat) (bm : dstr) (bit_pos ret : Z) : result Z :=
  match n with
  | O => Ok ret
  | S n =>
      let bit_idx := 7 - Z.rem bit_pos 8 in
      b ← buf_char bm (Z.quot bit_pos 8);
      count_bits n bm (bit_pos + 1) (ret + Z.land (Z.shiftr b bit_idx) 1)
  end.

Definition do_bitcount (cmd : list dstr) : cmdM RETURN_VALS :=
  key ← arg cmd 1;
  start ← (if (2 <? length cmd)%nat then arg_int cmd 2 else mret 0);
  end_ ← (if (3 <? length cmd)%nat then arg_int cmd 3 else mret (- 1));
  is_byte_mode ← (if (length cmd =? 5)%nat then d ← arg cmd 4; lift (str_is d "BYTE") else mret false);
  with_bitmap key (fun bm =>
    let count := if (is_byte_mode : bool) then d_size bm else u64 (d_size bm * 8) in
    let start := if start <? 0 then s64 (start + count) else start in
    let end_ := if end_ <? 0 then s64 (end_ + count) else end_ in
    let end_ := Z.min end_ (s64 count - 1) in
    let n := Z.to_nat (end_ - start + 1) in
    ret ← lift (if (is_byte_mode : bool) then count_bytes n bm start 0 else count_bits n bm start 0);
    _ ← out (fun o => out_int o ret); mret SUCCESS).

(** ** HyperLogLog *)

Definition do_pfadd (cmd : list dstr) : cmdM RETURN_VALS :=
  key ← arg cmd 1;
  val ← arg cmd 2;
  l ← find_or_create key T_HLL;
  n ← node l;
  if decide (h_type n = T_HLL) then
    hll ← field (h_hll n); vb ← lift (dstr_bytes val);
    '(hll, is_added) ← lift (hll_add hll vb);
    _ ← set_node l (set_h_hll hll); _ ← out (fun o => out_int o is_added); mret SUCCESS
  else _ ← out_error "wrong type"; mret INCORRECT_TYPE.

Definition do_pfcount (logl : QArith_base.Q -> QArith_base.Q) (cmd : list dstr) : cmdM RETURN_VALS :=
  key ← arg cmd 1;
  p ← lookup_key key;
  invalid ← validate_hmnode p T_HLL;
  match invalid, p with
  | SUCCESS, Some l =>
      n ← node l; hll ← field (h_hll n);
      '(count, hll) ← lift (hll_count logl hll);
      _ ← set_node l (set_h_hll hll); _ ← out (fun o => out_int o count); mret SUCCESS
  | _, _ => mret invalid
  end.

(** The body is empty: control reaches the end of a function that returns a
    value. *)
Definition do_pfmerge (cmd : list dstr) : cmdM RETURN_VALS := lift (Fault MissingReturn).

(** ** [out_buffer] ([src/src/server.cpp]) *)

(** The loop that lower-cases [cmd[0]->buf] up to its terminator. *)
Fixpoint lower_buf (b : list cell) : result (list cell) :=
  match b with
  | [] => Fault OutOfBounds
  | None :: _ => Fault Uninitialised
  | Some c :: r => if c =? 0 then Ok b else r ← lower_buf r; Ok (Some (tolower c) :: r)
  end.

Section dispatch.
Variable logl : QArith_base.Q -> QArith_base.Q.
(** What [get_curr_ms] returns while the command runs. *)
Variable curr_ms : Z.

(** [name] is the C string of [cmd[0]]; [strcmp] of terminated strings is
    equality. *)
Definition named (name : list Z) (s : string) : bool := bool_decide (name = lit s).

Definition dispatch (name : list Z) (cmd : list dstr) : cmdM unit :=
  let size := length cmd in
  let run (c : cmdM RETURN_VALS) : cmdM unit := _ ← c; mret tt in
  if (size =? 2)%nat && named name "get" then run (do_get cmd)
  else if (size =? 3)%nat && named name "set" then run (do_set cmd)
  else if (size =? 2)%nat && named name "del" then run (do_del cmd)
  else if (size =? 1)%nat && named name "keys" then run do_keys
  else if (4 <=? size)%nat && Nat.even size && named name "hset" then run (do_hset cmd)
  else if (size =? 3)%nat && named name "hget" then run (do_hget cmd)
  else if (size =? 2)%nat && named name "hgetall" then run (do_hgetall cmd)
  else if (3 <=? size)%nat && named name "hdel" then run (do_hdel cmd)
  else if (size =? 3)%nat && named name "expire" then run (do_expire curr_ms cmd)
  else if (size =? 2)%nat && named name "ttl" then run (do_ttl curr_ms cmd)
  else if (size =? 2)%nat && named name "persist" then run (do_persist cmd)
  else if (size =? 4)%nat && named name "zadd" then run (do_zadd cmd)
  else if (size =? 3)%nat && named name "zscore" then run (do_zscore cmd)
  else if (size =? 3)%nat && named name "zrem" then run (do_zrem cmd)
  else if named name "zquery" then run (do_zrangequery cmd)
  else if named name "lpush" && (size =? 3)%nat then run (do_push LLIST_SIDE_LEFT cmd)
  else if named name "rpush" && (size =? 3)%nat then run (do_push LLIST_SIDE_RIGHT cmd)
  else if named name "lpop" && (2 <=? size)%nat then run (do_pop LLIST_SIDE_LEFT cmd)
  else if named name "rpop" && (2 <=? size)%nat then run (do_pop LLIST_SIDE_RIGHT cmd)
  else if named name "lrange" && (size =? 4)%nat then run (do_lrange cmd)
  else if named name "sadd" then run (do_sadd cmd)
  else if named name "srem" then run (do_srem cmd)
  else if named name "smembers" then run (do_smembers cmd)
  else if named name "scard" then run (do_scard cmd)
  else if named name "setbit" then run (do_setbit cmd)
  else if named name "getbit" then run (do_getbit cmd)
  else if named name "bitcount" then run (do_bitcount cmd)
  else if named name "pfadd" then run (do_pfadd cmd)
  else if named name "pfcount" then run (do_pfcount logl cmd)
  else if named name "pfmerge" then run (do_pfmerge cmd)
  else if named name "multi" || named name "exec" || named name "watch" || named name "discard" then mret tt
  else out_error "unknown command".

Definition out_buffer (cmd : list dstr) : cmdM unit :=
  c0 ← arg cmd 0;
  b ← lift (lower_buf (d_buf c0));
  let cmd := <[0%nat := mkDstr (d_size c0) (d_free c0) b]> cmd in
  name ← lift (c_str b);
  dispatch name cmd.
End dispatch.
