(* ===== verification/Keyspace.v ===== *)
(** * The key space: SET, GET, DEL and KEYS on a database of any contents

    The database is a finite map from keys to nodes ([db_ok]); the theorems say
    what the four keyspace commands of [redis_functions.cpp] do to it and what
    they reply, and that the nodes of all other keys keep everything but the
    tables of hashes, which a resize empties. *)

From Stdlib Require Import String.
From S2P Require Import Prelude Libc Dstr Dlist Heap Hash Buffers Hashmap Avl Hll Node Zset Commands.

(** ** Steps of the monad *)

Lemma cmd_step {A B} (m : cmdM A) (k : A -> cmdM B) w a w' :
  m w = Ok (a, w') -> (x ← m; k x) w = k a w'.
Proof. intros E. unfold mbind, cmd_bind. by rewrite E. Qed.

Lemma lift_ok {A} (r : result A) w a : r = Ok a -> lift r w = Ok (a, w).
Proof. intros E. unfold lift. by rewrite E. Qed.

Lemma arg_ok cmd i d w : cmd !! i = Some d -> arg cmd i w = Ok (d, w).
Proof. intros E. unfold arg. apply lift_ok. by rewrite E. Qed.

Lemma node_ok l n w : m_hnodes (w_mem w) !! l = Some n -> node l w = Ok (n, w).
Proof. intros E. unfold node. erewrite cmd_step by reflexivity. apply lift_ok. by apply deref_some. Qed.

Lemma field_ok {A} (o : option A) a w : o = Some a -> field o w = Ok (a, w).
Proof. intros ->. done. Qed.

(** The world with another memory, another output. *)
Definition with_mem (m : Mem) (w : World) : World := mkWorld (w_db w) (w_heap w) m (w_out w).
Definition with_out (o : list Z) (w : World) : World := mkWorld (w_db w) (w_heap w) (w_mem w) o.

Lemma set_node_ok l f n w :
  m_hnodes (w_mem w) !! l = Some n ->
  set_node l f w = Ok (tt, with_mem (with_hnodes (<[l := f n]> (m_hnodes (w_mem w))) (w_mem w)) w).
Proof.
  intros E. unfold set_node. erewrite cmd_step by reflexivity.
  erewrite cmd_step by (apply lift_ok; unfold hput; rewrite (update_some _ _ _ _ E); reflexivity). done.
Qed.

Lemma out_dstr_ok d bs w :
  dstr_rep d bs -> out_dstr d w = Ok (tt, with_out (out_str (w_out w) bs (Z.of_nat (length bs))) w).
Proof.
  intros Hd. unfold out_dstr. erewrite cmd_step by (apply lift_ok; by apply rep_bytes).
  unfold out. by rewrite (rep_size _ _ Hd).
Qed.

(** One step of a handler whose next call is known to succeed. *)
Ltac cstep H := erewrite cmd_step by (eapply H; done).

(** ** Representation *)

Record db_ok (w : World) (M : gmap (Z * list Z) loc) : Prop := mkDbOk {
  db_map : hm_map (w_mem w) (w_db w) M;
  db_nodes : mem_ok (w_mem w) (vals M);
  db_fresh : fresh_ok (w_mem w)
}.

(** The identity of a key in the table: its hash and the bytes before its first
    NUL. *)
Definition key_id (kb : list Z) : Z * list Z := (str_hash kb, cstr kb).

(** The node [l] holds the string [bs]. *)
Definition str_at (m : Mem) (l : loc) (bs : list Z) : Prop :=
  exists n d, m_hnodes m !! l = Some n /\ h_val n = Some d /\ dstr_rep d bs.

Lemma lookup_in_ok hm w M key kb :
  hm_map (w_mem w) hm M -> mem_ok (w_mem w) (vals M) -> dstr_rep key kb -> short_key kb ->
  lookup_in hm key w = Ok (M !! key_id kb, w).
Proof.
  intros Hm Hok Hk Hs. unfold lookup_in. erewrite cmd_step by (apply lift_ok; by apply rep_bytes).
  destruct (tmp_key_ok kb Hs) as (d & E & Hd). erewrite cmd_step by (by apply lift_ok).
  erewrite cmd_step by reflexivity. apply lift_ok.
  by apply (hm_map_find (NO := mem_nodes_ok) (w_mem w) (vals M) hm M (mkHKey _ (Some d)) d kb).
Qed.

Lemma lookup_key_ok w M key kb :
  db_ok w M -> dstr_rep key kb -> short_key kb -> lookup_key key w = Ok (M !! key_id kb, w).
Proof. intros [Hm Hok _] Hk Hs. unfold lookup_key. erewrite cmd_step by reflexivity. by apply lookup_in_ok. Qed.

(** Writing a value into a node: what the table and the disposal of values look
    at stays the same. *)
Definition same_shape (n n' : HNode) : Prop :=
  h_next n' = h_next n /\ h_hcode n' = h_hcode n /\ h_key n' = h_key n /\ h_type n' = h_type n /\
  h_hmap n' = h_hmap n /\ h_zset n' = h_zset n.

Lemma put_shape_mem_ok m D l n n' :
  mem_ok m D -> m_hnodes m !! l = Some n -> same_shape n n' ->
  mem_ok (with_hnodes (<[l := n']> (m_hnodes m)) m) D.
Proof.
  intros (ot & oz & Hok) Hn (E1 & E2 & E3 & E4 & E5 & E6). exists ot, oz. intros x Hx.
  destruct (Hok x Hx) as (nx & kb & Hnx & Hh & Hk & Hhs & Hzs).
  destruct (decide (x = l)) as [->|Hne].
  - assert (nx = n) as -> by congruence. exists n', kb. rewrite E2, E3, E4, E5, E6.
    split; [apply lookup_insert_eq|]. do 3 (split; [done|]). exact Hzs.
  - exists nx, kb. split; [cbn; by rewrite lookup_insert_ne|]. do 3 (split; [done|]). exact Hzs.
Qed.

Lemma put_shape_ident m l n n' x :
  m_hnodes m !! l = Some n -> same_shape n n' ->
  let m' := with_hnodes (<[l := n']> (m_hnodes m)) m in
  ident m' x = ident m x /\ nd_next m' x = nd_next m x.
Proof.
  intros Hn (E1 & E2 & E3 & _) m'. unfold ident, m'. cbn [nd_next nd_hcode nd_key mem_nodes hget deref with_hnodes m_hnodes].
  destruct (decide (x = l)) as [->|Hne]; [|by rewrite lookup_insert_ne].
  rewrite lookup_insert_eq, Hn. cbn. by rewrite E1, E2, E3.
Qed.

Lemma put_shape_fresh m l n n' :
  fresh_ok m -> m_hnodes m !! l = Some n -> fresh_ok (with_hnodes (<[l := n']> (m_hnodes m)) m).
Proof.
  intros Hf Hn x Hx. destruct (Hf x Hx) as (H1 & H2). split; [|done]. cbn.
  rewrite lookup_insert_ne; [done|]. cbn in Hx. congruence.
Qed.

(** [new_node] for a key of the database. *)
Lemma create_ok w M key kb type :
  db_ok w M -> dstr_rep key kb -> short_key kb ->
  let l := m_fresh (w_mem w) in
  exists m n, create key type w = Ok (l, with_mem m w) /\ node_init kb type (Pos.succ l) = Ok n /\
    m_hnodes m = <[l := n]> (m_hnodes (w_mem w)) /\ m_dnodes m = m_dnodes (w_mem w) /\
    hm_map m (w_db w) M /\ mem_ok m (l :: vals M) /\ fresh_ok m /\ ident m l = Some (key_id kb) /\ (l ∉ vals M).
Proof.
  intros [Hm Hok Hf] Hk Hs l. destruct (node_init_ok kb type (Pos.succ l) Hs) as (n & En & _).
  destruct (new_node_eq (w_mem w) kb type n En) as (m & E & Hn & Hz & Ha & Hzn & Hd & Hq & Hfr).
  exists m, n. destruct (new_node_keeps _ _ _ _ _ _ Hf Hok E) as [Hsame Hnew].
  split; [|split_and!; try done].
  - unfold create. erewrite cmd_step by (apply lift_ok; by apply rep_bytes).
    erewrite cmd_step by reflexivity. erewrite cmd_step by (by apply lift_ok). done.
  - eapply hm_map_frame; [|exact Hm]. intros x Hx. apply ident_hnodes. by apply Hsame.
  - by eapply new_node_mem_ok.
  - by eapply new_node_fresh.
  - by eapply new_node_ident.
Qed.

Lemma insert_db_ok w M l q :
  hm_map (w_mem w) (w_db w) M -> mem_ok (w_mem w) (l :: vals M) -> fresh_ok (w_mem w) ->
  ident (w_mem w) l = Some q -> M !! q = None -> Z.of_nat (size M) + 1 < 2 ^ 60 ->
  exists w', insert_db l w = Ok (tt, w') /\ db_ok w' (<[q := l]> M) /\
    w_out w' = w_out w /\ w_heap w' = w_heap w /\ mem_glob (w_mem w') = mem_glob (w_mem w) /\
    forall x, x ∈ l :: vals M -> mem_obs (w_mem w') x = mem_obs (w_mem w) x.
Proof.
  intros Hm Hok Hf Hid Hq Hsz.
  destruct (hm_map_insert (NO := mem_nodes_ok) (w_mem w) (l :: vals M) (w_db w) M l q Hm Hok ltac:(done) Hid Hq Hsz)
    as (hm' & m' & E & Hm' & [Hok' Hk _]).
  exists (mkWorld hm' (w_heap w) m' (w_out w)). split_and!; try done.
  - unfold insert_db. do 2 (erewrite cmd_step by reflexivity).
    erewrite cmd_step by (by apply lift_ok). done.
  - split; [done| |by eapply hm_insert_fresh]. apply (nd_ok_incl m' _ (vals (<[q := l]> M)) Hok'). by rewrite vals_insert.
  - apply (kp_glob _ _ _ _ _ Hk).
  - intros x Hx. by apply (kp_obs _ _ _ _ _ Hk).
Qed.

Lemma obs_core m m' l n :
  mem_obs m' l = mem_obs m l -> m_hnodes m !! l = Some n ->
  exists n', m_hnodes m' !! l = Some n' /\ node_core n' = node_core n.
Proof.
  unfold mem_obs. intros E Hn. rewrite Hn in E. destruct (m_hnodes m' !! l) as [n'|]; [|done].
  exists n'. split; [done|]. by apply (inj Some) in E.
Qed.

Lemma str_at_obs m m' l bs : mem_obs m' l = mem_obs m l -> str_at m l bs -> str_at m' l bs.
Proof.
  intros E (n & d & Hn & Hv & Hd). destruct (obs_core _ _ _ _ E Hn) as (n' & Hn' & Ec).
  exists n', d. split_and!; try done. rewrite <- Hv. by apply (f_equal h_val) in Ec.
Qed.

(** The node a command works on, created if the key is new. *)
Lemma find_or_create_ok w M key kb type :
  db_ok w M -> Z.of_nat (size M) + 1 < 2 ^ 60 -> dstr_rep key kb -> short_key kb ->
  exists w' l, find_or_create key type w = Ok (l, w') /\ db_ok w' (<[key_id kb := l]> M) /\
    w_out w' = w_out w /\ w_heap w' = w_heap w /\ mem_glob (w_mem w') =
      (if M !! key_id kb is Some _ then mem_glob (w_mem w)
       else (m_dnodes (w_mem w), Pos.succ (Pos.succ (m_fresh (w_mem w))))) /\
    match M !! key_id kb with
    | Some l0 => l0 = l /\ w' = w
    | None => (l ∉ vals M) /\ exists n n', node_init kb type (Pos.succ l) = Ok n /\
        m_hnodes (w_mem w') !! l = Some n' /\ node_core n' = node_core n /\
        forall x, x ∈ vals M -> mem_obs (w_mem w') x = mem_obs (w_mem w) x
    end.
Proof.
  intros Hdb Hsz Hk Hs. unfold find_or_create. erewrite cmd_step by (by eapply lookup_key_ok).
  destruct (M !! key_id kb) as [l|] eqn:Hq.
  { exists w, l. by rewrite insert_id. }
  destruct (create_ok w M key kb type Hdb Hk Hs) as (m & n & Ec & En & Hn & Hd & Hm & Hok & Hf & Hid & Hnew).
  set (l := m_fresh (w_mem w)) in *. erewrite cmd_step by exact Ec.
  destruct (insert_db_ok (with_mem m w) M l (key_id kb)) as (w' & Ei & Hdb' & Ho & Hh & Hg & Hobs); try done.
  erewrite cmd_step by exact Ei. exists w', l. split_and!; try done.
  - rewrite Hg. unfold mem_glob. cbn. rewrite Hd. f_equal.
    destruct (new_node_eq (w_mem w) kb type n En) as (m0 & E0 & _ & _ & _ & _ & _ & _ & Hfr).
    revert Ec. unfold create. erewrite cmd_step by (apply lift_ok; by apply rep_bytes).
    erewrite cmd_step by reflexivity. erewrite cmd_step by (by apply lift_ok). intros [= <-]. done.
  - assert (Hl : m_hnodes m !! l = Some n) by (by rewrite Hn, lookup_insert_eq).
    destruct (obs_core m (w_mem w') l n) as (n' & Hn' & Hc); [apply Hobs, list_elem_of_here|done|].
    exists n, n'. split_and!; try done. intros x Hx. rewrite Hobs by (by apply list_elem_of_further).
    unfold mem_obs. cbn. rewrite Hn, lookup_insert_ne; [done|]. intros <-. done.
Qed.

(** Writing a value into a node of the database. *)
Definition put_node (l : loc) (n : HNode) (w : World) : World :=
  with_mem (with_hnodes (<[l := n]> (m_hnodes (w_mem w))) (w_mem w)) w.

Lemma put_node_db w M l n n' :
  db_ok w M -> m_hnodes (w_mem w) !! l = Some n -> same_shape n n' -> db_ok (put_node l n' w) M.
Proof.
  intros [Hm Hok Hf] Hn Hs. split; cbn.
  - eapply hm_map_frame; [|exact Hm]. intros x _. by eapply put_shape_ident.
  - by eapply put_shape_mem_ok.
  - by eapply put_shape_fresh.
Qed.

(** ** SET *)

(** A string of [n] bytes can be written to the key: it is absent, or it holds
    a string whose block the new value fits into the size limit with. *)
Definition settable (w : World) (M : gmap (Z * list Z) loc) (q : Z * list Z) (n : Z) : Prop :=
  n <= MAX_STR_SIZE /\
  forall l, M !! q = Some l -> exists nd d bs, m_hnodes (w_mem w) !! l = Some nd /\ h_val nd = Some d /\
    dstr_rep d bs /\ n + dstr_cap d <= MAX_STR_SIZE.

Lemma assign_ok d bs add :
  dstr_rep d bs -> Z.of_nat (length add) + dstr_cap d <= MAX_STR_SIZE ->
  exists d', dstr_assign true true d add (Z.of_nat (length add)) = Ok (STR_OK, d') /\ dstr_rep d' add.
Proof.
  intros Hd Hle. rewrite max_str_size_eq in Hle. assert (0 <= dstr_cap d) by apply u64_range.
  unfold dstr_assign. destruct (dstr_init true (dstr_cap d)) as [e|tmp] eqn:E.
  { revert E. unfold dstr_init. rewrite max_str_size_eq. by zbool. }
  apply init_rep in E as (Hr & Hf & Hm); [|done].
  destruct (append_empty true tmp add Hr) as (e & d' & -> & H1 & H2); [lia|].
  assert (dstr_cap tmp = dstr_cap d) as Hc by (rewrite (rep_cap_eq _ _ Hr), Hf; by destruct Hr as [-> _ _ _ _]).
  rewrite Hc, max_str_size_eq in H2. specialize (H2 eq_refl Hle) as ->. cbn. eauto.
Qed.

(** The block of the string in a node has room for at most [c] bytes. *)
Definition cap_at (m : Mem) (l : loc) (c : Z) : Prop :=
  exists n d, m_hnodes m !! l = Some n /\ h_val n = Some d /\ dstr_cap d <= c.

Lemma assign_cap d bs add d' :
  dstr_rep d bs -> Z.of_nat (length add) + dstr_cap d <= MAX_STR_SIZE ->
  dstr_assign true true d add (Z.of_nat (length add)) = Ok (STR_OK, d') ->
  dstr_cap d' <= Z.max (dstr_cap d) (Z.of_nat (length add) + MAX_STR_PREALOC).
Proof.
  intros Hd Hle. assert (0 <= dstr_cap d) by apply u64_range. unfold dstr_assign.
  destruct (dstr_init true (dstr_cap d)) as [e|tmp] eqn:E; [by intros [= -> ->]; lia|].
  apply init_rep in E as (Hr & Hf & Hm); [|done].
  assert (dstr_cap tmp = dstr_cap d) as Hc by (rewrite (rep_cap_eq _ _ Hr), Hf; by destruct Hr as [-> _ _ _ _]).
  intros Ha. apply bind_ok in Ha as ([e t] & Ea & Ha). case_decide as He; simplify_eq.
  rewrite <- Hc. apply append_empty_cap; [done|lia|done].
Qed.

Lemma cap_at_obs m m' l c : mem_obs m' l = mem_obs m l -> cap_at m l c -> cap_at m' l c.
Proof.
  intros E (n & d & Hn & Hv & Hd). destruct (obs_core _ _ _ _ E Hn) as (n' & Hn' & Ec).
  exists n', d. split_and!; try done. rewrite <- Hv. by apply (f_equal h_val) in Ec.
Qed.

(** What SET of the key [q] to [vb] leaves, with [l] the node of the key. *)
Definition set_to (w : World) (M : gmap (Z * list Z) loc) (q : Z * list Z) (vb : list Z) (w' : World) (l : loc) : Prop :=
  db_ok w' (<[q := l]> M) /\ (forall l', M !! q = Some l' -> l' = l) /\ str_at (w_mem w') l vb /\
  (forall c, (forall l', M !! q = Some l' -> cap_at (w_mem w) l' c) ->
     Z.of_nat (length vb) + MAX_STR_PREALOC <= c -> cap_at (w_mem w') l c) /\
  (forall x, x ∈ vals M -> x <> l -> mem_obs (w_mem w') x = mem_obs (w_mem w) x) /\
  w_out w' = out_null (w_out w) /\ w_heap w' = w_heap w.

Section do_set.
Context (w : World) (M : gmap (Z * list Z) loc) (cmd : list dstr) (key : dstr) (kb : list Z) (val : dstr) (vb : list Z).
Context (Hdb : db_ok w M) (Hsz : Z.of_nat (size M) + 1 < 2 ^ 60) (Hc1 : cmd !! 1%nat = Some key) (Hc2 : cmd !! 2%nat = Some val)
  (Hk : dstr_rep key kb) (Hs : short_key kb) (Hv : dstr_rep val vb).
Context (Hset : settable w M (key_id kb) (Z.of_nat (length vb))).

(** SET of a key that is there assigns to its value. *)
Lemma do_set_present l :
  M !! key_id kb = Some l -> exists w', do_set cmd w = Ok (SUCCESS, w') /\ set_to w M (key_id kb) vb w' l.
Proof.
  intros Hq. unfold do_set, set_to. cstep arg_ok. cstep arg_ok.
  erewrite cmd_step by (by eapply lookup_key_ok). rewrite (rep_size _ _ Hv), Hq. destruct Hset as [Hlen Hset'].
  destruct (Hset' l Hq) as (n & d & bs & Hn & Hd & Hrep & Hcap).
  destruct (assign_ok d bs vb Hrep Hcap) as (d' & E & Hd').
  set (w1 := with_mem (with_hnodes (<[l := set_h_val d' n]> (m_hnodes (w_mem w))) (w_mem w)) w).
  exists (with_out (out_null (w_out w)) w1). destruct Hdb as [Hm Hok Hf].
  assert (Hshape : same_shape n (set_h_val d' n)) by done. rewrite insert_id by done. split_and!; try done.
  - rewrite (cmd_step _ _ w tt w1); [done|]. cstep node_ok. cstep @field_ok.
    erewrite cmd_step by (apply lift_ok; by apply rep_bytes). erewrite cmd_step by (by apply lift_ok).
    by apply set_node_ok.
  - split; cbn.
    + eapply hm_map_frame; [|exact Hm]. intros x _. by eapply put_shape_ident.
    + by eapply put_shape_mem_ok.
    + by eapply put_shape_fresh.
  - congruence.
  - exists (set_h_val d' n), d'. cbn. by rewrite lookup_insert_eq.
  - intros c Hc Hle. destruct (Hc l eq_refl) as (n0 & d0 & Hn0 & Hd0 & Hc0). simplify_eq.
    exists (set_h_val d' n), d'. cbn. rewrite lookup_insert_eq. split_and!; try done.
    pose proof (assign_cap _ _ _ _ Hrep Hcap E). lia.
  - intros x _ Hx. unfold mem_obs. cbn. by rewrite lookup_insert_ne.
Qed.

(** SET of a new key makes a node. *)
Lemma do_set_absent :
  M !! key_id kb = None -> exists w' l, do_set cmd w = Ok (SUCCESS, w') /\ set_to w M (key_id kb) vb w' l.
Proof.
  intros Hq. unfold do_set, set_to. cstep arg_ok. cstep arg_ok.
  erewrite cmd_step by (by eapply lookup_key_ok). rewrite (rep_size _ _ Hv), Hq. destruct Hset as [Hlen Hset'].
  destruct (create_ok w M key kb T_STR Hdb Hk Hs) as (m & n & Ec & En & Hn & _ & Hm & Hok & Hf & Hid & Hnew).
  set (l := m_fresh (w_mem w)) in *.
  destruct (node_init_ok kb T_STR (Pos.succ l) Hs) as (n' & En' & _ & _ & _ & _ & _ & Hval & _).
  rewrite En in En'. injection En' as <-. destruct (Hval eq_refl) as (v & Hvv & Hvr & Hvf).
  destruct (append_ok v [] vb Hvr) as (d' & Ea & Hd'); [right; rewrite (rep_size _ _ Hvr); cbn; lia| |].
  { rewrite (rep_cap_eq _ _ Hvr), Hvf, (rep_size _ _ Hvr). cbn. lia. }
  assert (Hl : m_hnodes m !! l = Some n) by (by rewrite Hn, lookup_insert_eq).
  set (m2 := with_hnodes (<[l := set_h_val d' n]> (m_hnodes m)) m).
  assert (Hshape : same_shape n (set_h_val d' n)) by done.
  destruct (insert_db_ok (with_mem m2 w) M l (key_id kb)) as (w' & Ei & Hdb' & Ho & Hh & _ & Hobs); try done.
  { eapply hm_map_frame; [|exact Hm]. intros x _. by eapply put_shape_ident. }
  { by eapply put_shape_mem_ok. }
  { by eapply put_shape_fresh. }
  { rewrite <- Hid. by eapply put_shape_ident. }
  exists (with_out (out_null (w_out w')) w'), l. split_and!; try done.
  - rewrite (cmd_step _ _ w tt w'); [done|]. erewrite cmd_step by exact Ec. cstep node_ok. cstep @field_ok.
    erewrite cmd_step by (apply lift_ok; by apply rep_bytes). erewrite cmd_step by (by apply lift_ok).
    cbn beta iota. erewrite cmd_step by (by apply set_node_ok). exact Ei.
  - by destruct Hdb'.
  - cbn. eapply str_at_obs; [apply Hobs, list_elem_of_here|]. exists (set_h_val d' n), d'.
    cbn. by rewrite lookup_insert_eq.
  - intros c _ Hle. cbn. eapply cap_at_obs; [apply Hobs, list_elem_of_here|]. exists (set_h_val d' n), d'.
    cbn. rewrite lookup_insert_eq. split_and!; try done.
    assert (Hcv : dstr_cap v = 0) by (by rewrite (rep_cap_eq _ _ Hvr), Hvf, (rep_size _ _ Hvr)).
    pose proof (append_empty_cap v vb d' Hvr ltac:(rewrite Hcv; lia) Ea). unfold MAX_STR_PREALOC in *. lia.
  - intros x Hx Hne. cbn. rewrite Hobs by (by apply list_elem_of_further). unfold mem_obs. cbn.
    rewrite lookup_insert_ne by done. by rewrite Hn, lookup_insert_ne by done.
  - cbn. by rewrite Ho.
Qed.

Lemma do_set_ok : exists w' l, do_set cmd w = Ok (SUCCESS, w') /\ set_to w M (key_id kb) vb w' l.
Proof.
  destruct (M !! key_id kb) as [l|] eqn:Hq; [|by apply do_set_absent].
  destruct (do_set_present l Hq) as (w' & H). by exists w', l.
Qed.
End do_set.

(** ** GET *)

Lemma do_get_ok w M cmd key kb :
  db_ok w M -> cmd !! 1%nat = Some key -> dstr_rep key kb -> short_key kb ->
  (M !! key_id kb = None ->
     do_get cmd w = (o ← out_not_found (w_out w); Ok (NOT_FOUND, with_out o w))) /\
  (forall l bs, M !! key_id kb = Some l -> str_at (w_mem w) l bs ->
     do_get cmd w = Ok (SUCCESS, with_out (out_str (w_out w) bs (Z.of_nat (length bs))) w)).
Proof.
  intros Hdb Hc Hk Hs. split.
  - intros Hq. unfold do_get. cstep arg_ok. erewrite cmd_step by (by eapply lookup_key_ok). rewrite Hq.
    unfold mbind at 1, cmd_bind, out_r. by destruct (out_not_found (w_out w)).
  - intros l bs Hq (n & d & Hn & Hv & Hd). unfold do_get. cstep arg_ok.
    erewrite cmd_step by (by eapply lookup_key_ok). rewrite Hq.
    cstep node_ok. cstep @field_ok. erewrite cmd_step by (by apply out_dstr_ok). done.
Qed.

(** ** DEL *)

Lemma vals_other w M q l :
  hm_map (w_mem w) (w_db w) M -> M !! q = Some l -> l ∉ vals (delete q M).
Proof.
  intros Hm Hq [q' Hq']%elem_of_vals. apply lookup_delete_Some in Hq' as [Hne Hq'].
  pose proof (proj2 Hm _ _ Hq). pose proof (proj2 Hm _ _ Hq'). congruence.
Qed.

Lemma delete_db_ok w M hk d kb :
  db_ok w M -> Z.of_nat (size M) < 2 ^ 60 -> k_key hk = Some d -> dstr_rep d kb ->
  match M !! (k_hcode hk, cstr kb) with
  | None => delete_db hk w = Ok (0, w)
  | Some l => exists w', delete_db hk w = Ok (1, w') /\ db_ok w' (delete (k_hcode hk, cstr kb) M) /\
      w_out w' = w_out w /\ w_heap w' = w_heap w /\
      forall x, x ∈ vals M -> x <> l -> mem_obs (w_mem w') x = mem_obs (w_mem w) x
  end.
Proof.
  intros [Hm Hok Hf] Hsz Hk Hd.
  pose proof (hm_map_delete (NO := mem_nodes_ok) (w_mem w) (vals M) (w_db w) M hk d kb true Hm Hok
    ltac:(done) Hk Hd Hsz) as H.
  unfold delete_db. do 2 (erewrite cmd_step by reflexivity).
  destruct (M !! _) as [l|] eqn:Hq.
  - destruct H as (hm' & m' & E & Hm' & Hev). exists (mkWorld hm' (w_heap w) m' (w_out w)).
    erewrite cmd_step by (by apply lift_ok). split_and!; try done.
    + split; [done| |by eapply hm_delete_fresh].
      apply (ev_ok _ _ _ _ (Hev (vals (delete (k_hcode hk, cstr kb) M))
        ltac:(rewrite (vals_delete M _ _ Hq); set_solver) (vals_other _ _ _ _ Hm Hq))).
    + intros x Hx Hne. apply (kp_obs _ _ _ _ _ (ev_keeps _ _ _ _ (Hev [x]
        ltac:(by intros y ->%list_elem_of_singleton) ltac:(by intros ?%list_elem_of_singleton)))).
      apply list_elem_of_here.
  - erewrite cmd_step by (by apply lift_ok). by destruct w.
Qed.

Lemma do_del_ok w M cmd key kb :
  db_ok w M -> Z.of_nat (size M) < 2 ^ 60 -> cmd !! 1%nat = Some key -> dstr_rep key kb -> short_key kb ->
  match M !! key_id kb with
  | None => do_del cmd w = (o ← out_err (w_out w) (lit "node does not exist"); Ok (NOT_FOUND, with_out o w))
  | Some l => exists w', do_del cmd w = Ok (SUCCESS, w') /\ db_ok w' (delete (key_id kb) M) /\
      w_out w' = out_null (w_out w) /\ w_heap w' = w_heap w /\
      forall x, x ∈ vals M -> x <> l -> mem_obs (w_mem w') x = mem_obs (w_mem w) x
  end.
Proof.
  intros Hdb Hsz Hc Hk Hs. destruct (tmp_key_ok kb Hs) as (d & Et & Hd).
  pose proof (delete_db_ok w M (mkHKey (str_hash kb) (Some d)) d kb Hdb Hsz eq_refl Hd) as Hdel.
  cbn [k_hcode] in Hdel. change (str_hash kb, cstr kb) with (key_id kb) in Hdel.
  unfold do_del. cstep arg_ok. erewrite cmd_step by (apply lift_ok; by apply rep_bytes).
  erewrite cmd_step by (by apply lift_ok). destruct (M !! key_id kb) as [l|] eqn:Hq.
  - destruct Hdel as (w1 & E1 & Hdb1 & Ho1 & Hh1 & Hobs). exists (with_out (out_null (w_out w1)) w1).
    erewrite cmd_step by exact E1. cbn [Z.eqb]. split; [done|]. split; [by destruct Hdb1|].
    split_and!; try done. cbn. by rewrite Ho1.
  - erewrite cmd_step by exact Hdel. cbn [Z.eqb]. unfold mbind at 1, cmd_bind, out_error, out_r.
    by destruct (out_err _ _).
Qed.

(** Two keys never share a node. *)
Lemma db_inj w M q q' l : db_ok w M -> M !! q = Some l -> M !! q' = Some l -> q = q'.
Proof. intros [[_ Hid] _ _] Hq Hq'. pose proof (Hid _ _ Hq). pose proof (Hid _ _ Hq'). congruence. Qed.

(** ** KEYS *)

Lemma out_dstrs_ok ds kbs w :
  Forall2 dstr_rep ds kbs ->
  out_dstrs ds w = Ok (tt, with_out (foldl (fun o kb => out_str o kb (Z.of_nat (length kb))) (w_out w) kbs) w).
Proof.
  intros H. revert w. induction H as [|d kb ds kbs Hd _ IH]; intros w; [by destruct w|].
  cbn [out_dstrs foldl]. erewrite cmd_step by (by apply out_dstr_ok). by rewrite IH.
Qed.

Lemma out_keys_ok ds kbs w :
  Forall2 dstr_rep ds kbs ->
  out_keys ds w = Ok (tt, with_out (foldl (fun o kb => out_str o kb (Z.of_nat (length kb)))
                             (out_arr (w_out w) (Z.of_nat (length kbs))) kbs) w).
Proof.
  intros H. unfold out_keys. erewrite cmd_step by reflexivity. rewrite (Forall2_length _ _ _ H).
  by rewrite (out_dstrs_ok _ _ _ H).
Qed.

Lemma key_of_node m D l :
  mem_ok m D -> l ∈ D -> exists d kb, nd_key m l = Ok d /\ dstr_rep d kb /\ (snd <$> ident m l) = Some (cstr kb).
Proof.
  intros (ot & oz & Hok) Hl. destruct (Hok l Hl) as (n & kb & Hn & _ & Hk & _). exists (h_key n), kb.
  unfold ident. cbn. rewrite Hn. cbn. by rewrite (rep_bytes _ _ Hk).
Qed.

Lemma keys_of_nodes m M ls ks :
  mem_ok m (vals M) -> ls ⊆ vals M -> Forall2 (fun l k => nd_key m l = Ok k) ls ks ->
  exists kbs, Forall2 dstr_rep ks kbs /\ (Some ∘ cstr <$> kbs) = ((fun l => snd <$> ident m l) <$> ls).
Proof.
  intros Hok Hsub H. induction H as [|l k ls ks Hlk _ IH]; [by exists []|].
  destruct IH as (kbs & Hks & E); [set_solver|].
  destruct (key_of_node m (vals M) l Hok) as (d & kb & Hd & Hr & Hid); [set_solver|].
  assert (k = d) as -> by congruence. exists (kb :: kbs). split; [by constructor|].
  cbn [fmap list_fmap]. rewrite Hid. by rewrite <- E.
Qed.

Lemma idents_of_vals st hm M :
  hm_map (St := Mem) st hm M -> ((fun l => snd <$> ident st l) <$> vals M) = (Some ∘ snd ∘ fst <$> map_to_list M).
Proof.
  intros [_ Hid]. unfold vals. rewrite <- list_fmap_compose. apply list_fmap_ext. intros i [q l] Hi.
  apply list_elem_of_lookup_2, elem_of_map_to_list in Hi. cbn. by rewrite (Hid _ _ Hi).
Qed.

(** The keys of a table, once each. *)
Lemma map_keys_ok m hm M :
  hm_map (St := Mem) m hm M -> mem_ok m (vals M) -> Z.of_nat (size M) < 2 ^ 60 ->
  exists ks kbs, hm_size hm = Z.of_nat (size M) /\ hm_keys hm m = Ok ks /\ Forall2 dstr_rep ks kbs /\
    (cstr <$> kbs) ≡ₚ (snd ∘ fst <$> map_to_list M) /\ length kbs = size M.
Proof.
  intros Hm Hok Hsz.
  destruct (hm_keys_ok (NO := mem_nodes_ok) m (vals M) hm (vals M)) as [Hs (ls & ks & E & Hp & Hks)];
    [apply Hm|done|done|rewrite length_vals; lia|].
  assert (Hsub : ls ⊆ vals M) by (by rewrite Hp).
  destruct (keys_of_nodes _ _ _ _ Hok Hsub Hks) as (kbs & Hkbs & Eid). exists ks, kbs. split_and!; try done.
  - by rewrite Hs, length_vals.
  - apply (fmap_Permutation (fun l => snd <$> ident m l)) in Hp. rewrite <- Eid, (idents_of_vals _ _ _ Hm) in Hp.
    apply (fmap_Permutation (default [])) in Hp. by rewrite <- !list_fmap_compose in Hp.
  - rewrite <- (Forall2_length _ _ _ Hkbs), <- (Forall2_length _ _ _ Hks), (Permutation_length Hp). apply length_vals.
Qed.

(** ** Properties *)

(** SET then GET.  After [do_set] of a string that fits, [do_get] of the
    same key replies that string; [do_get] of any other key replies what it
    would have replied before: the string it holds, or not-found. *)
Theorem set_get_roundtrip w M cmd key kb val vb :
  db_ok w M -> Z.of_nat (size M) + 1 < 2 ^ 60 -> cmd !! 1%nat = Some key -> cmd !! 2%nat = Some val ->
  dstr_rep key kb -> short_key kb -> dstr_rep val vb -> settable w M (key_id kb) (Z.of_nat (length vb)) ->
  exists w' l, do_set cmd w = Ok (SUCCESS, w') /\ db_ok w' (<[key_id kb := l]> M) /\
    w_out w' = out_null (w_out w) /\ w_heap w' = w_heap w /\
    forall cmd' key' kb', cmd' !! 1%nat = Some key' -> dstr_rep key' kb' -> short_key kb' ->
      if decide (key_id kb' = key_id kb)
      then do_get cmd' w' = Ok (SUCCESS, with_out (out_str (w_out w') vb (Z.of_nat (length vb))) w')
      else (M !! key_id kb' = None ->
              do_get cmd' w' = (o ← out_not_found (w_out w'); Ok (NOT_FOUND, with_out o w'))) /\
           (forall l' bs, M !! key_id kb' = Some l' -> str_at (w_mem w) l' bs ->
              do_get cmd' w' = Ok (SUCCESS, with_out (out_str (w_out w') bs (Z.of_nat (length bs))) w')).
Proof.
  intros Hdb Hsz Hc1 Hc2 Hk Hs Hv Hset.
  destruct (do_set_ok w M cmd key kb val vb Hdb Hsz Hc1 Hc2 Hk Hs Hv Hset)
    as (w' & l & E & Hdb' & Hl & Hstr & _ & Hobs & Ho & Hh).
  exists w', l. do 4 (split; [done|]). intros cmd' key' kb' Hc' Hk' Hs'.
  destruct (do_get_ok w' _ cmd' key' kb' Hdb' Hc' Hk' Hs') as [Hnone Hsome]. case_decide as Heq.
  - rewrite Heq in Hsome. apply (Hsome l vb); [apply lookup_insert_eq|done].
  - rewrite lookup_insert_ne in Hnone, Hsome by done. split; [done|]. intros l' bs Hl' Hat.
    apply (Hsome l' bs Hl'). eapply str_at_obs; [|exact Hat]. apply Hobs; [apply elem_of_vals; by eexists|].
    intros ->. apply Heq. eapply db_inj; [exact Hdb'|by rewrite lookup_insert_ne|apply lookup_insert_eq].
Qed.

(** DEL removes the key and nothing else: it replies null and [do_get] then
    replies not-found, every other node keeps all but the table of a hash; for a
    key that is not there the database is left as it is and an error is replied. *)
Theorem del_removes w M cmd key kb :
  db_ok w M -> Z.of_nat (size M) < 2 ^ 60 -> cmd !! 1%nat = Some key -> dstr_rep key kb -> short_key kb ->
  match M !! key_id kb with
  | None => do_del cmd w = (o ← out_err (w_out w) (lit "node does not exist"); Ok (NOT_FOUND, with_out o w))
  | Some l => exists w', do_del cmd w = Ok (SUCCESS, w') /\ db_ok w' (delete (key_id kb) M) /\
      w_out w' = out_null (w_out w) /\ w_heap w' = w_heap w /\
      do_get cmd w' = (o ← out_not_found (w_out w'); Ok (NOT_FOUND, with_out o w')) /\
      forall x, x ∈ vals M -> x <> l -> mem_obs (w_mem w') x = mem_obs (w_mem w) x
  end.
Proof.
  intros Hdb Hsz Hc Hk Hs. pose proof (do_del_ok w M cmd key kb Hdb Hsz Hc Hk Hs) as H.
  destruct (M !! key_id kb) as [l|]; [|done]. destruct H as (w' & E & Hdb' & Ho & Hh & Hobs).
  exists w'. split_and!; try done. apply (do_get_ok _ _ cmd key kb Hdb' Hc Hk Hs). apply lookup_delete_eq.
Qed.

(** C31: KEYS replies every key of the database exactly once, in whatever state
    the incremental resizing is, and changes nothing. *)
Theorem keys_lists w M :
  db_ok w M -> Z.of_nat (size M) < 2 ^ 60 ->
  exists kbs, (cstr <$> kbs) ≡ₚ (snd ∘ fst <$> map_to_list M) /\ length kbs = size M /\
    do_keys w = Ok (SUCCESS, with_out (foldl (fun o kb => out_str o kb (Z.of_nat (length kb)))
                               (out_arr (w_out w) (Z.of_nat (size M))) kbs) w).
Proof.
  intros [Hm Hok _] Hsz. destruct (map_keys_ok (w_mem w) (w_db w) M Hm Hok Hsz) as (ks & kbs & _ & E & Hkbs & Hp & Hlen).
  exists kbs. split; [done|]. split; [done|].
  unfold do_keys. do 2 (erewrite cmd_step by reflexivity). erewrite cmd_step by (by apply lift_ok).
  erewrite cmd_step by (by eapply out_keys_ok). by rewrite Hlen.
Qed.

(** ** Witnesses *)

Definition w_empty : World := mkWorld hmap_empty [] mem_empty [].

Lemma w_empty_ok : db_ok w_empty ∅.
Proof.
  split; [|by exists id, id; intros l ?%elem_of_nil|apply mem_empty_fresh].
  split; [apply hm_empty_rep|]. intros q l Hq. by rewrite lookup_empty in Hq.
Qed.

Definition set_k : list dstr := exact_dstr <$> [lit "set"; lit "k"; lit "v1"].
Definition k_db : World := match do_set set_k w_empty with Ok (_, w) => w | Fault _ => w_empty end.

Lemma k_settable : settable w_empty ∅ (key_id (lit "k")) 2.
Proof. split; [by_compute|]. intros l Hl. by rewrite lookup_empty in Hl. Qed.

Lemma k_db_ok : exists l, db_ok k_db (<[key_id (lit "k") := l]> ∅).
Proof.
  destruct (do_set_ok w_empty ∅ set_k (exact_dstr (lit "k")) (lit "k") (exact_dstr (lit "v1")) (lit "v1"))
    as (w & l & E & Hdb & _); [apply w_empty_ok|done|done|done|by apply exact_dstr_rep|by_compute|by apply exact_dstr_rep|apply k_settable|].
  exists l. unfold k_db. by rewrite E.
Qed.

Lemma set_get_roundtrip_witness :
  exists w' l, do_set set_k w_empty = Ok (SUCCESS, w') /\ db_ok w' (<[key_id (lit "k") := l]> ∅) /\
    do_get (exact_dstr <$> [lit "get"; lit "k"]) w'
    = Ok (SUCCESS, with_out (out_str (w_out w') (lit "v1") 2) w').
Proof.
  destruct (set_get_roundtrip w_empty ∅ set_k (exact_dstr (lit "k")) (lit "k") (exact_dstr (lit "v1")) (lit "v1"))
    as (w & l & E & Hdb & _ & _ & Hget); [apply w_empty_ok|done|done|done|by apply exact_dstr_rep|by_compute|by apply exact_dstr_rep|apply k_settable|].
  exists w, l. split; [exact E|]. split; [exact Hdb|].
  specialize (Hget (exact_dstr <$> [lit "get"; lit "k"]) (exact_dstr (lit "k")) (lit "k") eq_refl
    ltac:(by apply exact_dstr_rep) ltac:(by_compute)). by rewrite decide_True in Hget.
Defined.

Lemma del_removes_witness :
  exists l w', do_del (exact_dstr <$> [lit "del"; lit "k"]) k_db = Ok (SUCCESS, w') /\
    db_ok w' (delete (key_id (lit "k")) (<[key_id (lit "k") := l]> ∅)).
Proof.
  destruct k_db_ok as [l Hl]. exists l.
  pose proof (del_removes k_db _ (exact_dstr <$> [lit "del"; lit "k"]) (exact_dstr (lit "k")) (lit "k") Hl) as H.
  rewrite lookup_insert_eq in H. destruct H as (w' & E & Hdb & _);
    [by rewrite map_size_insert_None|done|by apply exact_dstr_rep|by_compute|].
  exists w'. split; [exact E|exact Hdb].
Defined.

Lemma keys_lists_witness :
  exists l kbs, (cstr <$> kbs) ≡ₚ (snd ∘ fst <$> map_to_list (<[key_id (lit "k") := l]> (∅ : gmap (Z * list Z) loc))) /\
    length kbs = 1%nat /\ exists w, do_keys k_db = Ok (SUCCESS, w).
Proof.
  destruct k_db_ok as [l Hl]. exists l.
  destruct (keys_lists k_db _ Hl) as (kbs & Hp & Hlen & E); [by rewrite map_size_insert_None|].
  exists kbs. split; [exact Hp|]. split; [by rewrite Hlen, map_size_insert_None|]. eexists. exact E.
Defined.
