(* ===== verification/Lists.v ===== *)
(** * Lists: LPUSH, RPUSH, LPOP, RPOP and LRANGE

    What the list handlers of [redis_functions.cpp] do to the sequence of
    values a list node stands for, on every branch. *)

From Stdlib Require Import String.
From S2P Require Import Prelude Libc Dstr Dlist Heap Hash Buffers Hashmap Avl Hll Node Zset Commands Keyspace.

(** ** Representation *)

(** The list node [x] holds the string [v]. *)
Definition holds (h : gmap loc (DListNode dstr)) (x : loc) (v : list Z) : Prop :=
  exists nd, h !! x = Some nd /\ dstr_rep (dl_val nd) v.

(** [list_rep m l xs vs]: the node [l] is a list that links the list nodes
    [xs], with the values [vs]. *)
Definition list_rep (m : Mem) (l : loc) (xs : list loc) (vs : list (list Z)) : Prop :=
  exists n d, m_hnodes m !! l = Some n /\ h_type n = T_LIST /\ h_list n = Some d /\
    Dlist.chain (m_dnodes m) d xs /\ Forall2 (holds (m_dnodes m)) xs vs.

Lemma list_rep_length m l xs vs : list_rep m l xs vs -> length xs = length vs.
Proof. intros (n & d & _ & _ & _ & _ & H). by apply Forall2_length in H. Qed.

(** The links of the node at an index. *)
Lemma seg_links h xs i x :
  seg h NULL xs NULL -> xs !! i = Some x ->
  exists v, h !! x = Some (mkNode (match i with O => NULL | S j => xs !! j end) (xs !! S i) v) /\
    forall s, holds h x s -> dstr_rep v s.
Proof.
  intros Hs Hi. rewrite <- (take_drop_middle xs i x Hi) in Hs. apply seg_app in Hs as [_ [[v Hv] _]].
  exists v. rewrite Hv. split.
  - f_equal. f_equal.
    + unfold final. destruct i as [|j]; [done|]. pose proof (lookup_lt_Some _ _ _ Hi) as Hlt.
      destruct (lookup_lt_is_Some_2 xs j) as [y Hy]; [lia|]. rewrite (take_S_r _ _ _ Hy), last_snoc, Hy. done.
    + destruct (drop (S i) xs) as [|y r] eqn:E; cbn.
      * symmetry. apply lookup_ge_None. rewrite <- (Nat.sub_0_r (length xs)). apply (f_equal length) in E.
        rewrite length_drop in E. cbn in E. lia.
      * by rewrite <- (Nat.add_0_r (S i)), <- lookup_drop, E.
  - intros s (nd & Hnd & Hr). rewrite Hv in Hnd. by injection Hnd as <-.
Qed.

Section walk.
Context (h : gmap loc (DListNode dstr)) (xs : list loc) (Hseg : seg h NULL xs NULL).

Lemma walk_next_ok k i : (i + k < length xs)%nat -> walk_next k h (xs !! i) = Ok (xs !! (i + k)%nat).
Proof.
  revert i. induction k as [|k IH]; intros i Hlt; cbn [walk_next]; [by rewrite Nat.add_0_r|].
  destruct (lookup_lt_is_Some_2 xs i) as [x Hx]; [lia|]. rewrite Hx.
  destruct (seg_links _ _ _ _ Hseg Hx) as (v & Hv & _). rewrite (deref_some _ _ _ Hv). cbn [mbind result_bind dl_next].
  rewrite IH by lia. by rewrite Nat.add_succ_comm.
Qed.

Lemma walk_prev_ok k i : (k <= i < length xs)%nat -> walk_prev k h (xs !! i) = Ok (xs !! (i - k)%nat).
Proof.
  revert i. induction k as [|k IH]; intros i Hlt; cbn [walk_prev]; [by rewrite Nat.sub_0_r|].
  destruct (lookup_lt_is_Some_2 xs i) as [x Hx]; [lia|]. rewrite Hx.
  destruct (seg_links _ _ _ _ Hseg Hx) as (v & Hv & _). rewrite (deref_some _ _ _ Hv). cbn [mbind result_bind dl_prev].
  destruct i as [|i]; [lia|]. rewrite IH by lia. done.
Qed.

(** [size] values from the index [i] on; running past the end is a fault. *)
Lemma out_list_ok vs size i w :
  Forall2 (holds h) xs vs -> (i <= length xs)%nat ->
  out_list size h (xs !! i) w
  = if decide (i + size <= length xs)%nat
    then Ok (tt, with_out (foldl (fun o v => out_str o v (Z.of_nat (length v))) (w_out w) (take size (drop i vs))) w)
    else Fault NullDeref.
Proof.
  intros Hvs. revert i w. induction size as [|size IH]; intros i w Hi; cbn [out_list].
  { rewrite decide_True by lia. by destruct w. }
  destruct (xs !! i) as [x|] eqn:Hx.
  - pose proof (lookup_lt_Some _ _ _ Hx). destruct (seg_links _ _ _ _ Hseg Hx) as (v & Hv & Hs).
    destruct (Forall2_lookup_l _ _ _ _ _ Hvs Hx) as (s & Hs' & Hh).
    erewrite cmd_step by (apply lift_ok; by apply deref_some). cbn [dl_val dl_next].
    erewrite cmd_step by (apply out_dstr_ok; by apply Hs). rewrite IH by lia.
    rewrite (drop_S vs s i Hs'). cbn [take foldl].
    destruct (decide (S i + size <= length xs)%nat); [rewrite decide_True by lia|rewrite decide_False by lia]; done.
  - pose proof (lookup_ge_None_1 _ _ Hx). rewrite decide_False by lia. done.
Qed.
End walk.

(** ** LRANGE *)

(** A negative index counts from the end. *)
Definition norm (n i : Z) : Z := if i <? 0 then n + i else i.

Lemma s32_u32 z : s32 (u32 z) = s32 z.
Proof. unfold s32, u32. f_equal. by rewrite Zplus_mod_idemp_l. Qed.

Lemma s32_range z : - 2 ^ 31 <= s32 z < 2 ^ 31.
Proof. unfold s32. pose proof (Z.mod_pos_bound (z + 2 ^ 31) (2 ^ 32) ltac:(lia)). lia. Qed.

Lemma norm_ok n i : 0 <= n < 2 ^ 31 -> (if s32 i <? 0 then s32 (u32 (n + s32 i)) else s32 i) = norm n (s32 i).
Proof.
  intros Hn. unfold norm. pose proof (s32_range i). zcase; [|done]. rewrite s32_u32, s32_small; lia.
Qed.

Lemma arg_int_ok cmd i d s w :
  cmd !! i = Some d -> c_str (d_buf d) = Ok s -> arg_int cmd i w = Ok (strtol s, w).
Proof. intros Hi Hs. unfold arg_int. cstep arg_ok. erewrite cmd_step by (by apply lift_ok). done. Qed.

Lemma get_list_ok l n d w :
  m_hnodes (w_mem w) !! l = Some n -> h_list n = Some d -> get_list l w = Ok (d, w).
Proof. intros Hn Hd. unfold get_list. cstep node_ok. by apply field_ok. Qed.

Lemma chain_ends (h : gmap loc (DListNode dstr)) d xs :
  Dlist.chain h d xs -> xs <> [] -> l_head d = xs !! 0%nat /\ l_tail d = xs !! (length xs - 1)%nat.
Proof.
  intros (_ & _ & _ & He) Hne. destruct (He Hne) as [-> ->]. split; [by destruct xs|].
  unfold final. rewrite last_lookup. rewrite <- Nat.sub_1_r.
  destruct (lookup_lt_is_Some_2 xs (length xs - 1)) as [y ->]; [|done]. destruct xs; [done|cbn; lia].
Qed.

(** The first [length cmd] arguments of a list command: its key leads to the
    list [l]. *)
Record on_list (w : World) (M : gmap (Z * list Z) loc) (cmd : list dstr) (kb : list Z) (l : loc)
    (xs : list loc) (vs : list (list Z)) : Prop := mkOnList {
  ol_db : db_ok w M;
  ol_key : exists key, cmd !! 1%nat = Some key /\ dstr_rep key kb /\ short_key kb;
  ol_here : M !! key_id kb = Some l;
  ol_list : list_rep (w_mem w) l xs vs;
  ol_len : Z.of_nat (length vs) < 2 ^ 31
}.

Definition out_strs (o : list Z) (vs : list (list Z)) : list Z :=
  foldl (fun o v => out_str o v (Z.of_nat (length v))) o vs.

(** The walk to the first element of the range, from the farther end. *)
Lemma begin_ok (h : gmap loc (DListNode dstr)) d xs start :
  Dlist.chain h d xs -> 0 <= start < Z.of_nat (length xs) -> Z.of_nat (length xs) < 2 ^ 31 ->
  (if u32 start <? u32 (l_size d - start - 1)
   then walk_prev (Z.to_nat (u32 (l_size d - start - 1))) h (l_tail d)
   else walk_next (Z.to_nat (u32 start)) h (l_head d)) = Ok (xs !! Z.to_nat start).
Proof.
  intros Hch Hs Hlen. pose proof Hch as (_ & Hseg & Hsz & _).
  destruct (chain_ends _ _ _ Hch) as [-> ->]; [intros ->; cbn in Hs; lia|]. rewrite Hsz. nowrap. zcase.
  - rewrite (walk_prev_ok _ _ Hseg) by lia. do 2 f_equal. lia.
  - rewrite (walk_next_ok _ _ Hseg) by lia. done.
Qed.

(** C34: LRANGE on a list of [n] values.  With the indexes counted from the end
    when negative: an out-of-range start is an error; otherwise the reply is
    exactly the values from [start] to [end] when the range, cut to at most [n]
    values, stays inside the list, and following the NULL link behind the last
    node when it does not. *)
Theorem lrange_exact w M cmd kb l xs vs d2 s2 d3 s3 :
  on_list w M cmd kb l xs vs -> cmd !! 2%nat = Some d2 -> c_str (d_buf d2) = Ok s2 ->
  cmd !! 3%nat = Some d3 -> c_str (d_buf d3) = Ok s3 ->
  let n := Z.of_nat (length vs) in
  let start := norm n (s32 (strtol s2)) in
  let end_ := norm n (s32 (strtol s3)) in
  let size := Z.min (Z.max 0 (end_ - start + 1)) n in
  end_ - start + 1 < 2 ^ 31 ->
  do_lrange cmd w =
    if decide (0 <= start < n) then
      if decide (start + size <= n)
      then Ok (SUCCESS, with_out (out_strs (out_arr (w_out w) size) (take (Z.to_nat size) (drop (Z.to_nat start) vs))) w)
      else Fault NullDeref
    else o ← out_err (w_out w) (lit "index out of range"); Ok (OUT_OF_RANGE, with_out o w).
Proof.
  intros [Hdb (key & Hk1 & Hk & Hs) Hq Hl Hlen] H2 Hs2 H3 Hs3 n start end_ size Hov.
  pose proof (list_rep_length _ _ _ _ Hl) as Hxl. destruct Hl as (nd & d & Hn & Hty & Hd & Hch & Hvs).
  unfold do_lrange. cstep arg_ok. cstep arg_int_ok. cstep arg_int_ok. cbn zeta.
  erewrite cmd_step by (by eapply lookup_key_ok). rewrite Hq. cstep node_ok. rewrite decide_True by done.
  cstep get_list_ok. pose proof Hch as (_ & Hseg & Hsz & _). rewrite Hsz, Hxl. fold n.
  rewrite !(norm_ok n) by lia. fold start end_.
  pose proof (s32_range (strtol s2)) as R2. pose proof (s32_range (strtol s3)) as R3.
  assert (Hst : - 2 ^ 31 <= start < 2 ^ 31) by (unfold start, norm; zcase; lia).
  assert (Hen : n - 2 ^ 31 <= end_ < 2 ^ 31) by (unfold end_, norm; zcase; lia).
  assert (Hu : (n <=? u32 start) = negb (bool_decide (0 <= start < n))).
  { destruct (decide (0 <= start < n)) as [Hin|Hin]; [rewrite bool_decide_true by done|rewrite bool_decide_false by done].
    - nowrap. by zbool.
    - destruct (Z.lt_ge_cases start 0); [|nowrap; by zbool].
      assert (u32 start = start + 2 ^ 32) as -> by (unfold u32; rewrite <- (Z_mod_plus_full start 1), Z.mod_small; lia).
      by zbool. }
  rewrite Hu. destruct (decide (0 <= start < n)) as [Hin|Hin]; [rewrite bool_decide_true by done|rewrite bool_decide_false by done];
    cbn [negb].
  - pose proof (begin_ok _ d xs start Hch ltac:(lia) ltac:(lia)) as Hb. rewrite Hsz, Hxl in Hb. fold n in Hb.
    erewrite cmd_step by reflexivity. erewrite cmd_step by (apply lift_ok; exact Hb).
    erewrite cmd_step by (apply lift_ok; apply check_ok; rewrite !s32_small by lia; by rewrite !Z.eqb_refl).
    fold size. erewrite cmd_step by reflexivity.
    unfold mbind, cmd_bind. rewrite (out_list_ok _ _ Hseg vs) by (done || lia).
    destruct (decide (start + size <= n)) as [Hfit|Hfit]; [rewrite decide_True by lia|rewrite decide_False by lia]; done.
  - unfold mbind at 1, cmd_bind, out_error, out_r. by destruct (out_err _ _).
Qed.

(** ** LPUSH and RPUSH *)

(** The memory after a push: the list node [x] is allocated, the links are [h]
    and the list header of [l] is [d]. *)
Definition pushed (m : Mem) (l : loc) (n : HNode) (h : gmap loc (DListNode dstr)) (d : DList) : Mem :=
  with_hnodes (<[l := set_h_list d n]> (m_hnodes m)) (with_fresh (Pos.succ (m_fresh m)) (with_dnodes h m)).

(** What linking the new node into the list amounts to. *)
Lemma link_ok side (h : gmap loc (DListNode dstr)) d xs vs x v vb :
  side = LLIST_SIDE_LEFT \/ side = LLIST_SIDE_RIGHT ->
  Dlist.chain h d xs -> Forall2 (holds h) xs vs -> Z.of_nat (length vs) + 1 < 2 ^ 32 ->
  (x ∉ xs) -> h !! x = Some (mkNode NULL NULL v) -> dstr_rep v vb ->
  exists h' d', 
    (if l_size d =? 0 then h' = h /\ d' = set_tail (Some x) (set_head (Some x) d)
     else if side =? LLIST_SIDE_LEFT
     then dlist_insert_before h (l_head d) (Some x) = Ok h' /\ d' = set_head (Some x) d
     else dlist_insert_after h (l_tail d) (Some x) = Ok h' /\ d' = set_tail (Some x) d) /\
    let xs' := if side =? LLIST_SIDE_LEFT then x :: xs else xs ++ [x] in
    Dlist.chain h' (set_size (u32 (l_size d' + 1)) d') xs' /\
    Forall2 (holds h') xs' (if side =? LLIST_SIDE_LEFT then vb :: vs else vs ++ [vb]) /\
    forall y, y ∉ x :: xs -> h' !! y = h !! y.
Proof.
  intros Hside (Hnd & Hseg & Hsz & Hends) Hvs Hlen Hx Hhx Hv.
  pose proof (Forall2_length _ _ _ Hvs) as Hl.
  assert (Hxv : holds h x vb) by (eexists; by split).
  assert (Hframe : forall h' ls, Dlist.frame h h' ls -> forall xs vs, Forall2 (holds h) xs vs -> Forall2 (holds h') xs vs).
  { intros h' ls [_ F] xs' vs' H. eapply Forall2_impl; [exact H|]. intros y s (nd & Hy & Hr).
    specialize (F y). rewrite Hy in F. destruct (h' !! y) as [nd'|] eqn:E; [|done]. injection F as F.
    exists nd'. by rewrite F. }
  destruct xs as [|y0 xs0].
  - destruct vs; [|done]. cbn in Hsz. rewrite Hsz. cbn [Z.eqb].
    exists h, (set_tail (Some x) (set_head (Some x) d)). split; [done|].
    cbn [app set_tail set_head l_size l_head l_tail set_size]. rewrite Hsz.
    assert (Hch : Dlist.chain h (mkDList (Some x) (Some x) (u32 (0 + 1))) [x]).
    { split; [apply NoDup_singleton|]. split; [split; [by exists v|done]|]. by split. }
    destruct (side =? LLIST_SIDE_LEFT); split_and!; try done; by repeat constructor.
  - assert (Hne : (l_size d =? 0) = false) by (rewrite Hsz; cbn; by zbool). rewrite Hne.
    destruct (Hends ltac:(done)) as [Hhd Htl].
    assert (Hs1 : u32 (Z.of_nat (length (y0 :: xs0)) + 1) = Z.of_nat (S (length (y0 :: xs0)))) by (nowrap; lia).
    destruct Hside as [-> | ->]; cbn [Z.eqb LLIST_SIDE_LEFT LLIST_SIDE_RIGHT].
    + rewrite Hhd. cbn [first].
      destruct (seg_push_left h y0 xs0 x (mkNode NULL NULL v)) as (h' & E & Hs' & F); [by apply NoDup_cons|done|done|].
      exists h', (set_head (Some x) d). split; [done|]. split; [|split].
      * split; [by apply NoDup_cons|]. split; [done|]. cbn [set_head set_size l_size l_head l_tail]. rewrite Hsz.
        split; [exact Hs1|]. intros _. split; [done|]. by rewrite Htl, final_cons, !final_cons.
      * eapply (Hframe h' _ F (x :: y0 :: xs0) (vb :: vs)). by constructor.
      * intros y Hy. by apply (proj1 F).
    + rewrite Htl. destruct (exists_last (l := y0 :: xs0) ltac:(done)) as (ys & y & Ey). rewrite Ey in *.
      rewrite final_snoc.
      assert (Hnd' : NoDup (ys ++ [y; x])).
      { change [y; x] with ([y] ++ [x]). rewrite app_assoc. apply NoDup_app. split; [done|].
        split; [|apply NoDup_singleton]. intros u Hu ->%list_elem_of_singleton. done. }
      destruct (seg_push_right h ys y x (mkNode NULL NULL v)) as (h' & E & Hs' & F); [done..|].
      exists h', (set_tail (Some x) d). split; [done|]. rewrite <- !app_assoc. cbn [app]. split; [|split].
      * split; [done|]. split; [done|]. cbn [set_tail set_size l_size l_head l_tail]. rewrite Hsz, Hs1.
        split; [rewrite !length_app; cbn; lia|]. intros _. rewrite Hhd. split; [by destruct ys|].
        change [y; x] with ([y] ++ [x]). by rewrite app_assoc, final_snoc.
      * change [y; x] with ([y] ++ [x]). rewrite app_assoc. apply Forall2_app; [by eapply Hframe|].
        eapply (Hframe h' _ F [x] [vb]). by constructor.
      * intros u Hu. apply (proj1 F). set_solver.
Qed.

Lemma chain_live (h : gmap loc (DListNode dstr)) d xs x : Dlist.chain h d xs -> x ∈ xs -> is_Some (h !! x).
Proof. intros (_ & Hs & _) Hx. by destruct (seg_lookup _ _ _ _ _ Hx Hs) as (n & ->). Qed.

Lemma holds_ext h h' xs vs :
  (forall y, y ∈ xs -> h' !! y = h !! y) -> Forall2 (holds h) xs vs -> Forall2 (holds h') xs vs.
Proof.
  intros He H. induction H as [|x v xs vs Hx _ IH]; [constructor|]. constructor; [|apply IH; set_solver].
  unfold holds. rewrite He by set_solver. done.
Qed.

(** Allocating a list node leaves the lists alone. *)
Lemma alloc_ok (h : gmap loc (DListNode dstr)) d xs vs x nd :
  Dlist.chain h d xs -> Forall2 (holds h) xs vs -> h !! x = None ->
  (x ∉ xs) /\ Dlist.chain (<[x := nd]> h) d xs /\ Forall2 (holds (<[x := nd]> h)) xs vs.
Proof.
  intros Hch Hvs Hx. assert (Hn : x ∉ xs) by (intros Hi; destruct (chain_live _ _ _ _ Hch Hi); congruence).
  assert (He : forall y, y ∈ xs -> <[x := nd]> h !! y = h !! y)
    by (intros y Hy; rewrite lookup_insert_ne; [done|]; by intros ->).
  destruct Hch as (Hnd & Hs & Hrest). split; [done|]. split; [split; [done|]; split; [|done]|].
  - by eapply seg_ext.
  - by eapply holds_ext.
Qed.

(** The database after a change of the header of one list and of the links. *)
Lemma pushed_db_ok w M l n h d :
  db_ok w M -> m_hnodes (w_mem w) !! l = Some n ->
  (forall y, (Pos.succ (m_fresh (w_mem w)) <= y)%positive -> h !! y = None) ->
  db_ok (with_mem (pushed (w_mem w) l n h d) w) M.
Proof.
  intros [Hm Hok Hf] Hn Hfr. assert (Hshape : same_shape n (set_h_list d n)) by done. split; cbn.
  - eapply hm_map_frame; [|exact Hm]. intros x _. exact (put_shape_ident _ _ _ _ x Hn Hshape).
  - exact (put_shape_mem_ok _ _ _ _ _ Hok Hn Hshape).
  - intros y Hy. cbn in Hy. destruct (Hf y) as (H1 & H2 & H3 & H4 & _); [lia|]. split_and!; try done; [|by apply Hfr].
    cbn. rewrite lookup_insert_ne; [done|]. congruence.
Qed.

(** [do_push] once the list is found. *)
Lemma push_on_ok w w1 side cmd key value vb v l n d h d' :
  side = LLIST_SIDE_LEFT \/ side = LLIST_SIDE_RIGHT ->
  cmd !! 1%nat = Some key -> cmd !! 2%nat = Some value -> dstr_rep value vb -> dstr_copy vb = Ok v ->
  find_or_create key T_LIST w = Ok (l, w1) ->
  m_hnodes (w_mem w1) !! l = Some n -> h_type n = T_LIST -> h_list n = Some d ->
  let x := m_fresh (w_mem w1) in
  let h1 := <[x := mkNode NULL NULL v]> (m_dnodes (w_mem w1)) in
  (if l_size d =? 0 then h = h1 /\ d' = set_tail (Some x) (set_head (Some x) d)
   else if side =? LLIST_SIDE_LEFT
   then dlist_insert_before h1 (l_head d) (Some x) = Ok h /\ d' = set_head (Some x) d
   else dlist_insert_after h1 (l_tail d) (Some x) = Ok h /\ d' = set_tail (Some x) d) ->
  let size := u32 (l_size d' + 1) in
  do_push side cmd w
  = Ok (SUCCESS, with_out (out_int (w_out w1) size) (with_mem (pushed (w_mem w1) l n h (set_size size d')) w1)).
Proof.
  intros Hside H1 H2 Hv Ev Efc Hn Hty Hd x h1 Hlink size.
  unfold do_push. cstep arg_ok. cstep arg_ok. erewrite cmd_step by exact Efc. cstep node_ok.
  rewrite decide_True by done.
  set (w2 := with_mem (with_fresh (Pos.succ x) (with_dnodes h1 (w_mem w1))) w1).
  rewrite (cmd_step _ _ w1 x w2).
  2: { unfold create_list_node. erewrite cmd_step by (apply lift_ok; by apply rep_bytes).
       erewrite cmd_step by (by apply lift_ok). done. }
  assert (Hn2 : m_hnodes (w_mem w2) !! l = Some n) by done.
  cstep get_list_ok. erewrite cmd_step by reflexivity. cbn zeta.
  assert (Hfin : forall w3, w_mem w3 = with_hnodes (<[l := set_h_list d' n]> (m_hnodes (w_mem w1)))
      (with_fresh (Pos.succ x) (with_dnodes h (w_mem w1))) -> w_out w3 = w_out w1 -> w_db w3 = w_db w1 -> w_heap w3 = w_heap w1 ->
    (d ← get_list l; _ ← set_list l (set_size (u32 (l_size d + 1)) d); _ ← out (fun o => out_int o (u32 (l_size d + 1))); mret SUCCESS) w3
    = Ok (SUCCESS, with_out (out_int (w_out w1) size) (with_mem (pushed (w_mem w1) l n h (set_size size d')) w1))).
  { intros w3 Hm Ho Hdb Hh.
    assert (Hn3 : m_hnodes (w_mem w3) !! l = Some (set_h_list d' n)) by (rewrite Hm; cbn; by rewrite lookup_insert_eq).
    cstep get_list_ok. fold size. unfold set_list. erewrite cmd_step by (by apply set_node_ok). unfold out. cbn.
    unfold with_mem, with_out, pushed. cbn. rewrite Hm, Ho, Hdb, Hh. cbn. rewrite insert_insert_eq. done. }
  destruct (l_size d =? 0).
  - destruct Hlink as [-> ->]. unfold set_list at 1. erewrite cmd_step by (by apply set_node_ok). by apply Hfin.
  - destruct (side =? LLIST_SIDE_LEFT) eqn:Es; [|assert ((side =? LLIST_SIDE_RIGHT) = true) as -> by (by destruct Hside as [-> | ->])];
      destruct Hlink as [El ->]; erewrite cmd_step by (apply lift_ok; exact El);
      erewrite cmd_step by reflexivity; unfold set_list at 1; (erewrite cmd_step by (by apply set_node_ok)); by apply Hfin.
Qed.

(** The list of a key before a push: an absent key counts as the empty list. *)
Definition list_of (w : World) (M : gmap (Z * list Z) loc) (kb : list Z) (xs : list loc) (vs : list (list Z)) : Prop :=
  match M !! key_id kb with
  | Some l => list_rep (w_mem w) l xs vs
  | None => xs = [] /\ vs = []
  end.

Lemma find_list_ok w M key kb xs vs :
  db_ok w M -> Z.of_nat (size M) + 1 < 2 ^ 60 -> dstr_rep key kb -> short_key kb -> list_of w M kb xs vs ->
  exists w1 l, find_or_create key T_LIST w = Ok (l, w1) /\ db_ok w1 (<[key_id kb := l]> M) /\
    list_rep (w_mem w1) l xs vs /\ w_out w1 = w_out w /\ w_heap w1 = w_heap w /\
    m_dnodes (w_mem w1) = m_dnodes (w_mem w) /\
    forall x, x ∈ vals M -> x <> l -> mem_obs (w_mem w1) x = mem_obs (w_mem w) x.
Proof.
  intros Hdb Hsz Hk Hs Hl. destruct (find_or_create_ok w M key kb T_LIST Hdb Hsz Hk Hs)
    as (w1 & l & E & Hdb1 & Ho & Hh & Hg & Hcase).
  exists w1, l. do 2 (split; [done|]). unfold list_of in Hl. destruct (M !! key_id kb) as [l0|].
  - destruct Hcase as [-> ->]. by split_and!.
  - destruct Hl as [-> ->]. destruct Hcase as (_ & n & n' & En & Hn' & Hc & Hobs).
    destruct (node_init_ok kb T_LIST (Pos.succ l) Hs) as (n0 & En0 & _ & _ & _ & Hty & _ & _ & _ & _ & _ & Hlist & _).
    rewrite En in En0. injection En0 as <-.
    assert (Hd : m_dnodes (w_mem w1) = m_dnodes (w_mem w)) by (by injection Hg).
    split_and!; try done; [|by intros x Hx _; apply Hobs].
    exists n', (mkDList NULL NULL 0). split; [done|].
    split; [by rewrite <- Hty; apply (f_equal h_type) in Hc|]. split; [rewrite <- (Hlist eq_refl); by apply (f_equal h_list) in Hc|].
    split; [|constructor]. split; [constructor|]. by split_and!.
Qed.

Lemma push_ok w M side cmd key kb value vb xs vs :
  db_ok w M -> Z.of_nat (size M) + 1 < 2 ^ 60 -> side = LLIST_SIDE_LEFT \/ side = LLIST_SIDE_RIGHT ->
  cmd !! 1%nat = Some key -> cmd !! 2%nat = Some value -> dstr_rep key kb -> short_key kb ->
  dstr_rep value vb -> short_key vb -> list_of w M kb xs vs -> Z.of_nat (length vs) + 1 < 2 ^ 31 ->
  exists w' l x, do_push side cmd w = Ok (SUCCESS, w') /\ db_ok w' (<[key_id kb := l]> M) /\ (x ∉ xs) /\
    (if side =? LLIST_SIDE_LEFT then list_rep (w_mem w') l (x :: xs) (vb :: vs)
     else list_rep (w_mem w') l (xs ++ [x]) (vs ++ [vb])) /\
    w_out w' = out_int (w_out w) (Z.of_nat (length vs) + 1) /\ w_heap w' = w_heap w /\
    (forall y, y ∈ vals M -> y <> l -> mem_obs (w_mem w') y = mem_obs (w_mem w) y) /\
    (forall y, y ∉ x :: xs -> m_dnodes (w_mem w') !! y = m_dnodes (w_mem w) !! y).
Proof.
  intros Hdb Hsz Hside H1 H2 Hk Hs Hv Hsv Hlo Hlen.
  destruct (find_list_ok w M key kb xs vs Hdb Hsz Hk Hs Hlo) as (w1 & l & Ef & Hdb1 & (n & d & Hn & Hty & Hd & Hch & Hvs) & Ho & Hh & Hdn & Hobs).
  destruct (copy_rep vb Hsv) as (v & Ev & Hvr). set (x := m_fresh (w_mem w1)).
  destruct (db_fresh _ _ Hdb1 x) as (_ & _ & _ & _ & Hxn); [reflexivity|].
  destruct (alloc_ok _ d xs vs x (mkNode NULL NULL v) Hch Hvs Hxn) as (Hx & Hch1 & Hvs1).
  set (h1 := <[x := _]> (m_dnodes (w_mem w1))) in *.
  destruct (link_ok side h1 d xs vs x v vb) as (h & d' & Hlink & Hch2 & Hvs2 & Hfr); try done; [lia|apply lookup_insert_eq|].
  rewrite (push_on_ok w w1 side cmd key value vb v l n d h d') by done.
  eexists _, l, x. split; [reflexivity|].
  assert (Hfr' : forall y, (y ∉ x :: xs) -> h !! y = m_dnodes (w_mem w1) !! y).
  { intros y Hy. rewrite Hfr by done. unfold h1. rewrite lookup_insert_ne; [done|]. set_solver. }
  assert (Hsize : u32 (l_size d' + 1) = Z.of_nat (length vs) + 1).
  { destruct Hch as (_ & _ & E & _). rewrite (Forall2_length _ _ _ Hvs) in E.
    assert (l_size d' = l_size d) as -> by (destruct (l_size d =? 0), (side =? LLIST_SIDE_LEFT); by destruct Hlink as [_ ->]).
    rewrite E. nowrap. done. }
  split_and!; try done.
  - assert (H : db_ok (with_mem (pushed (w_mem w1) l n h (set_size (u32 (l_size d' + 1)) d')) w1) (<[key_id kb:=l]> M)); [|by destruct H].
    apply pushed_db_ok; [done..|]. intros y Hy. rewrite Hfr'; [apply (db_fresh _ _ Hdb1); lia|].
    intros [->|Hi]%elem_of_cons; [unfold x in Hy; lia|]. destruct (chain_live _ _ _ _ Hch Hi) as [nd Hnd].
    destruct (db_fresh _ _ Hdb1 y) as (_ & _ & _ & _ & ?); [lia|congruence].
  - assert (list_rep (pushed (w_mem w1) l n h (set_size (u32 (l_size d' + 1)) d')) l
      (if side =? LLIST_SIDE_LEFT then x :: xs else xs ++ [x]) (if side =? LLIST_SIDE_LEFT then vb :: vs else vs ++ [vb])) as HL.
    { eexists _, _. split; [apply lookup_insert_eq|]. by split_and!. }
    by destruct (side =? LLIST_SIDE_LEFT).
  - cbn. by rewrite Hsize, Ho.
  - intros y Hy Hne. rewrite <- Hobs by done. unfold mem_obs. cbn. by rewrite lookup_insert_ne.
  - intros y Hy. cbn. by rewrite Hfr', Hdn.
Qed.

(** ** LPOP and RPOP *)

(** A step that changes the header of the list [l] and its nodes [ns] only. *)
Record list_step (w w' : World) (l : loc) (ns : list loc) : Prop := mkListStep {
  ls_db : w_db w' = w_db w;
  ls_heap : w_heap w' = w_heap w;
  ls_node : exists n d, m_hnodes (w_mem w) !! l = Some n /\
    m_hnodes (w_mem w') = <[l := set_h_list d n]> (m_hnodes (w_mem w));
  ls_rest : m_zsets (w_mem w') = m_zsets (w_mem w) /\ m_avl (w_mem w') = m_avl (w_mem w) /\
    m_znodes (w_mem w') = m_znodes (w_mem w) /\ m_fresh (w_mem w') = m_fresh (w_mem w);
  ls_dnodes : forall y, y ∉ ns -> m_dnodes (w_mem w') !! y = m_dnodes (w_mem w) !! y;
  ls_gone : forall y, m_dnodes (w_mem w) !! y = None -> m_dnodes (w_mem w') !! y = None
}.

Lemma list_step_trans w1 w2 w3 l ns :
  list_step w1 w2 l ns -> list_step w2 w3 l ns -> list_step w1 w3 l ns.
Proof.
  intros [A1 A2 (n & d & A3 & A4) (B1 & B2 & B3 & B4) A5 A6] [C1 C2 (n' & d' & C3 & C4) (D1 & D2 & D3 & D4) C5 C6].
  split; [congruence..| |split_and!; congruence| |auto].
  - rewrite A4, lookup_insert_eq in C3. injection C3 as <-. exists n, d'. split; [done|].
    by rewrite C4, A4, insert_insert_eq.
  - intros y Hy. by rewrite C5, A5.
Qed.

Lemma list_step_incl w w' l ns ns' : list_step w w' l ns -> ns ⊆ ns' -> list_step w w' l ns'.
Proof. intros [A1 A2 A3 A4 A5 A6] Hs. split; try done. intros y Hy. apply A5. set_solver. Qed.

Lemma list_step_db w w' l ns M : list_step w w' l ns -> db_ok w M -> db_ok w' M.
Proof.
  intros [Edb _ (n & d & Hn & En) (E1 & E2 & E3 & E4) _ Hgone] [Hm Hok Hf].
  assert (Hshape : same_shape n (set_h_list d n)) by done. split.
  - rewrite Edb. eapply hm_map_frame; [|exact Hm]. intros x _.
    destruct (put_shape_ident (w_mem w) l n _ x Hn Hshape) as [<- <-]. apply ident_hnodes. by rewrite En.
  - destruct (put_shape_mem_ok _ _ _ _ _ Hok Hn Hshape) as (ot & oz & H). exists ot, oz. intros x Hx.
    destruct (H x Hx) as (nx & kb & Hnx & Hh & Hk & Hhs & Hzs). exists nx, kb. rewrite En. do 4 (split; [done|]).
    intros Ht. destruct (Hzs Ht) as (z & t & ? & ? & Hz & Hown). exists z, t. do 2 (split; [done|]). split; [|done].
    eapply zset_at_ext; [| |exact Hz]; cbn; [by rewrite E1|]. intros. by rewrite E2, E3.
  - intros y Hy. rewrite E4 in Hy. destruct (Hf y Hy) as (H1 & H2 & H3 & H4 & H5).
    rewrite En, E1, E2, E3, (Hgone _ H5). split_and!; try done. rewrite lookup_insert_ne; [done|]. congruence.
Qed.

(** Freeing a node that is not linked any more. *)
Lemma chain_delete (h : gmap loc (DListNode dstr)) d xs x :
  x ∉ xs -> Dlist.chain h d xs -> Dlist.chain (delete x h) d xs.
Proof.
  intros Hx (Hnd & Hs & Hrest). split; [done|]. split; [|done]. eapply seg_ext; [|exact Hs].
  intros y Hy. rewrite lookup_delete_ne; [done|]. by intros ->.
Qed.

(** Removing the first or the last node of a chain. *)
Lemma unlink_left (h : gmap loc (DListNode dstr)) d x xs :
  Dlist.chain h d (x :: xs) -> Z.of_nat (length xs) < 2 ^ 31 ->
  exists nd h', h !! x = Some nd /\
    (if dl_next nd is Some _ then update h (dl_next nd) (set_prev NULL) else Ok h) = Ok h' /\
    Dlist.chain (delete x h') (mkDList (dl_next nd) (l_tail d) (u32 (l_size d - 1))) xs /\
    Dlist.frame h h' xs.
Proof.
  intros ([Hx Hnd]%NoDup_cons & [[v Hv] Hs] & Hsz & Hends) Hlen.
  destruct (Hends ltac:(done)) as [_ Htl].
  assert (Hl : u32 (l_size d - 1) = Z.of_nat (length xs)) by (rewrite Hsz; cbn; unfold u32; rewrite Z.mod_small; lia).
  exists (mkNode NULL (first xs NULL) v). cbn [dl_next]. destruct xs as [|y ys]; cbn [first].
  - exists h. split_and!; [done..| |by apply frame_refl]. apply chain_delete; [done|]. by split_and!; [constructor|..].
  - destruct (seg_set_prev h (Some x) NULL y ys NULL Hnd Hs) as (h' & E & Hs' & F).
    exists h'. split; [done|]. split; [done|]. split; [|by eapply frame_weaken; [exact F|set_solver]].
    apply chain_delete; [done|]. split; [done|]. split; [done|]. split; [done|]. intros _.
    split; [done|]. cbn. by rewrite Htl, !final_cons.
Qed.

Lemma unlink_right (h : gmap loc (DListNode dstr)) d x xs :
  Dlist.chain h d (xs ++ [x]) -> Z.of_nat (length xs) < 2 ^ 31 ->
  exists nd h', h !! x = Some nd /\
    (if dl_prev nd is Some _ then update h (dl_prev nd) (set_next NULL) else Ok h) = Ok h' /\
    Dlist.chain (delete x h') (mkDList (l_head d) (dl_prev nd) (u32 (l_size d - 1))) xs /\
    Dlist.frame h h' xs.
Proof.
  intros (Hnd & Hs & Hsz & Hends) Hlen. apply NoDup_app in Hnd as (Hnd & Hx & _).
  apply seg_app in Hs as [Hs [[v Hv] _]]. destruct (Hends ltac:(by destruct xs)) as [Hhd _].
  assert (Hxn : x ∉ xs) by (intros Hi; apply (Hx x Hi), list_elem_of_here).
  assert (Hl : u32 (l_size d - 1) = Z.of_nat (length xs))
    by (rewrite Hsz, length_app; cbn; unfold u32; rewrite Z.mod_small; lia).
  exists (mkNode (final NULL xs) NULL v). cbn [dl_prev].
  destruct (decide (xs = [])) as [->|Hne].
  - exists h. split_and!; [done..| |by apply frame_refl]. apply chain_delete; [done|]. by split_and!; [constructor|..].
  - destruct (exists_last Hne) as (ys & y & E). rewrite E in *. rewrite final_snoc in *.
    destruct (seg_set_next h NULL (ys ++ [y]) (first [x] NULL) NULL y Hnd (last_snoc _ _) Hs) as (h' & Eu & Hs' & F).
    exists h'. split; [done|]. split; [done|]. split; [|by eapply frame_weaken; [exact F|set_solver]].
    apply chain_delete; [done|]. split; [done|]. split; [done|]. split; [done|]. intros _.
    cbn [l_head l_tail]. rewrite Hhd, final_snoc. split; [by destruct ys|done].
Qed.

(** The world after a pop: [x] is freed, the links are [h], the header is [d]. *)
Definition popped (w : World) (l : loc) (n : HNode) (h : gmap loc (DListNode dstr)) (d : DList) (x : loc)
    (o : list Z) : World :=
  mkWorld (w_db w) (w_heap w)
    (with_hnodes (<[l := set_h_list d n]> (m_hnodes (w_mem w))) (with_dnodes (delete x h) (w_mem w))) o.

Lemma popped_ok w l n h d x o xs vs :
  m_hnodes (w_mem w) !! l = Some n -> h_type n = T_LIST -> Dlist.chain (delete x h) d xs ->
  Dlist.frame (m_dnodes (w_mem w)) h xs -> Forall2 (holds (m_dnodes (w_mem w))) xs vs -> (x ∉ xs) ->
  list_rep (w_mem (popped w l n h d x o)) l xs vs /\ list_step w (popped w l n h d x o) l (x :: xs).
Proof.
  intros Hn Hty Hch [F1 F2] Hvs Hx. split.
  - eexists _, d. split; [apply lookup_insert_eq|]. split_and!; try done. cbn.
    eapply (holds_ext h); [intros y Hy; rewrite lookup_delete_ne; [done|]; by intros ->|].
    eapply Forall2_impl; [exact Hvs|]. intros y s (nd & Hy & Hr). specialize (F2 y). rewrite Hy in F2.
    destruct (h !! y) as [nd'|] eqn:E; [|done]. injection F2 as F2. exists nd'. by rewrite F2.
  - split; try done; cbn.
    + by eexists _, _.
    + intros y [Hy Hys]%not_elem_of_cons. by rewrite lookup_delete_ne, F1.
    + intros y Hy. specialize (F2 y). rewrite Hy in F2. apply lookup_delete_None. right.
      by destruct (h !! y).
Qed.

Lemma set_dnodes_ok h w : set_dnodes h w = Ok (tt, with_mem (with_dnodes h (w_mem w)) w).
Proof. reflexivity. Qed.

(** The end of a pass of the loop: the size is decremented, the node freed. *)
Lemma pop_end_ok w l n d x :
  m_hnodes (w_mem w) !! l = Some n -> h_list n = Some d ->
  (d ← get_list l; _ ← set_list l (set_size (u32 (l_size d - 1)) d); m ← get_mem;
   set_dnodes (delete x (m_dnodes m))) w
  = Ok (tt, popped w l n (m_dnodes (w_mem w)) (set_size (u32 (l_size d - 1)) d) x (w_out w)).
Proof.
  intros Hn Hd. cstep get_list_ok. unfold set_list. erewrite cmd_step by (by apply set_node_ok).
  erewrite cmd_step by reflexivity. done.
Qed.

Lemma pop_one_left w l x xs v vs :
  list_rep (w_mem w) l (x :: xs) (v :: vs) -> Z.of_nat (length xs) < 2 ^ 31 ->
  exists w', pop_one LLIST_SIDE_LEFT l w = Ok (tt, w') /\ list_rep (w_mem w') l xs vs /\
    w_out w' = out_str (w_out w) v (Z.of_nat (length v)) /\ list_step w w' l (x :: xs).
Proof.
  intros (n & d & Hn & Hty & Hd & Hch & Hvs) Hlen. apply Forall2_cons in Hvs as [(nd & Hx & Hr) Hvs].
  destruct (unlink_left _ _ _ _ Hch Hlen) as (nd' & h' & Hx' & Eu & Hch' & F).
  rewrite Hx in Hx'. injection Hx' as <-. pose proof Hch as ([Hxs _]%NoDup_cons & _ & _ & Hends).
  destruct (Hends ltac:(done)) as [Hhd _]. cbn [first] in Hhd.
  set (o := out_str (w_out w) v (Z.of_nat (length v))).
  set (d1 := set_head (dl_next nd) d).
  exists (popped w l n h' (set_size (u32 (l_size d - 1)) d1) x o).
  destruct (popped_ok w l n h' (set_size (u32 (l_size d - 1)) d1) x o xs vs) as [HL HS]; try done.
  split; [|done]. unfold pop_one. cstep get_list_ok. cbn [Z.eqb LLIST_SIDE_LEFT]. cbn zeta. rewrite Hhd.
  erewrite cmd_step by reflexivity. erewrite cmd_step by (apply lift_ok; by apply deref_some).
  erewrite cmd_step by (by apply out_dstr_ok). fold o.
  set (w2 := with_mem (with_hnodes (<[l := set_h_list d1 n]> (m_hnodes (w_mem w))) (with_dnodes h' (w_mem w))) (with_out o w)).
  rewrite (cmd_step _ _ _ tt w2).
  2: { rewrite (cmd_step _ _ (with_out o w) h' (with_out o w)).
       2: { destruct (dl_next nd); [by apply lift_ok|by injection Eu as <-]. }
       erewrite cmd_step by apply set_dnodes_ok. exact (set_node_ok l (set_h_list d1) n (with_mem (with_dnodes h' (w_mem w)) (with_out o w)) Hn). }
  rewrite (pop_end_ok w2 l (set_h_list d1 n) d1 x); [|apply lookup_insert_eq|done].
  unfold popped. cbn. by rewrite insert_insert_eq.
Qed.

Lemma pop_one_right w l x xs v vs :
  list_rep (w_mem w) l (xs ++ [x]) (vs ++ [v]) -> Z.of_nat (length xs) < 2 ^ 31 ->
  exists w', pop_one LLIST_SIDE_RIGHT l w = Ok (tt, w') /\ list_rep (w_mem w') l xs vs /\
    w_out w' = out_str (w_out w) v (Z.of_nat (length v)) /\ list_step w w' l (x :: xs).
Proof.
  intros (n & d & Hn & Hty & Hd & Hch & Hvs) Hlen.
  assert (Hl : length xs = length vs) by (apply Forall2_length in Hvs; rewrite !length_app in Hvs; cbn in Hvs; lia).
  apply Forall2_app_inv in Hvs as [Hvs [(nd & Hx & Hr) _]%Forall2_cons]; [|done].
  destruct (unlink_right _ _ _ _ Hch Hlen) as (nd' & h' & Hx' & Eu & Hch' & F).
  rewrite Hx in Hx'. injection Hx' as <-. pose proof Hch as ((_ & Hxs & _)%NoDup_app & _ & _ & Hends).
  assert (Hxn : x ∉ xs) by (intros Hi; apply (Hxs x Hi), list_elem_of_here).
  destruct (Hends ltac:(by destruct xs)) as [_ Htl]. rewrite final_snoc in Htl.
  set (o := out_str (w_out w) v (Z.of_nat (length v))).
  set (d1 := set_tail (dl_prev nd) d).
  exists (popped w l n h' (set_size (u32 (l_size d - 1)) d1) x o).
  destruct (popped_ok w l n h' (set_size (u32 (l_size d - 1)) d1) x o xs vs) as [HL HS]; try done.
  split; [|done]. unfold pop_one. cstep get_list_ok. cbn [Z.eqb Pos.eqb LLIST_SIDE_LEFT LLIST_SIDE_RIGHT]. cbn zeta. rewrite Htl.
  erewrite cmd_step by reflexivity. erewrite cmd_step by (apply lift_ok; by apply deref_some).
  erewrite cmd_step by (by apply out_dstr_ok). fold o.
  set (w2 := with_mem (with_hnodes (<[l := set_h_list d1 n]> (m_hnodes (w_mem w))) (with_dnodes h' (w_mem w))) (with_out o w)).
  rewrite (cmd_step _ _ _ tt w2).
  2: { rewrite (cmd_step _ _ (with_out o w) h' (with_out o w)).
       2: { destruct (dl_prev nd); [by apply lift_ok|by injection Eu as <-]. }
       erewrite cmd_step by apply set_dnodes_ok. exact (set_node_ok l (set_h_list d1) n (with_mem (with_dnodes h' (w_mem w)) (with_out o w)) Hn). }
  rewrite (pop_end_ok w2 l (set_h_list d1 n) d1 x); [|apply lookup_insert_eq|done].
  unfold popped. cbn. by rewrite insert_insert_eq.
Qed.

Lemma list_step_refl w l xs vs : list_rep (w_mem w) l xs vs -> list_step w w l xs.
Proof.
  intros (n & d & Hn & _ & Hd & _). split; try done. exists n, d. split; [done|].
  rewrite insert_id; [done|]. rewrite Hn. f_equal. destruct n. cbn in *. by rewrite Hd.
Qed.

Lemma pop_loop_left k w l xs vs :
  list_rep (w_mem w) l xs vs -> Z.of_nat (length xs) < 2 ^ 31 -> (k <= length xs)%nat ->
  exists w', pop_loop k LLIST_SIDE_LEFT l w = Ok (tt, w') /\ list_rep (w_mem w') l (drop k xs) (drop k vs) /\
    w_out w' = out_strs (w_out w) (take k vs) /\ list_step w w' l xs.
Proof.
  revert w xs vs. induction k as [|k IH]; intros w xs vs HL Hlen Hk.
  { exists w. rewrite !drop_0. split_and!; try done. by eapply list_step_refl. }
  pose proof (list_rep_length _ _ _ _ HL). destruct xs as [|x xs], vs as [|v vs]; cbn in *; try lia.
  destruct (pop_one_left _ _ _ _ _ _ HL ltac:(lia)) as (w1 & E1 & HL1 & Ho1 & HS1).
  destruct (IH w1 xs vs HL1 ltac:(lia) ltac:(lia)) as (w2 & E2 & HL2 & Ho2 & HS2).
  exists w2. erewrite cmd_step by exact E1. split_and!; try done; [by rewrite Ho2, Ho1|].
  eapply list_step_trans; [exact HS1|]. eapply list_step_incl; [exact HS2|]. set_solver.
Qed.

Lemma pop_loop_right k w l xs vs :
  list_rep (w_mem w) l xs vs -> Z.of_nat (length xs) < 2 ^ 31 -> (k <= length xs)%nat ->
  exists w', pop_loop k LLIST_SIDE_RIGHT l w = Ok (tt, w') /\
    list_rep (w_mem w') l (take (length xs - k) xs) (take (length xs - k) vs) /\
    w_out w' = out_strs (w_out w) (take k (reverse vs)) /\ list_step w w' l xs.
Proof.
  revert w xs vs. induction k as [|k IH]; intros w xs vs HL Hlen Hk.
  { pose proof (list_rep_length _ _ _ _ HL) as E. exists w. rewrite Nat.sub_0_r, firstn_all, E, firstn_all.
    split_and!; try done. by eapply list_step_refl. }
  pose proof (list_rep_length _ _ _ _ HL) as E.
  destruct (exists_last (l := xs)) as (ys & x & ->); [intros ->; cbn in Hk; lia|].
  destruct (exists_last (l := vs)) as (us & v & ->); [intros ->; rewrite length_app in E; cbn in E; lia|].
  rewrite !length_app in *. cbn [length] in *.
  destruct (pop_one_right _ _ _ _ _ _ HL ltac:(lia)) as (w1 & E1 & HL1 & Ho1 & HS1).
  destruct (IH w1 ys us HL1 ltac:(lia) ltac:(lia)) as (w2 & E2 & HL2 & Ho2 & HS2).
  exists w2. cbn [pop_loop]. erewrite cmd_step by exact E1. split_and!; try done.
  - replace (length ys + 1 - S k)%nat with (length ys - k)%nat by lia. by rewrite !take_app_le by lia.
  - by rewrite Ho2, Ho1, reverse_snoc.
  - eapply list_step_trans.
    + eapply list_step_incl; [exact HS1|]. set_solver.
    + eapply list_step_incl; [exact HS2|]. set_solver.
Qed.

(** What a pop of [k] values takes from the list, and what it leaves. *)
Definition taken (side : Z) (k : nat) (vs : list (list Z)) : list (list Z) :=
  if side =? LLIST_SIDE_LEFT then take k vs else take k (reverse vs).
Definition rest {A} (side : Z) (k : nat) (l : list A) : list A :=
  if side =? LLIST_SIDE_LEFT then drop k l else take (length l - k) l.

(** C33: LPOP and RPOP with a count [c] on a list of [n] values reply and remove
    the first (from that end) [min c n] values, and a count of 0 or an empty list
    is an error; the comparison with the size is unsigned, so a negative count
    pops the whole list. *)
Theorem pop_removes w M side cmd kb l xs vs d2 s2 :
  side = LLIST_SIDE_LEFT \/ side = LLIST_SIDE_RIGHT ->
  on_list w M cmd kb l xs vs -> cmd !! 2%nat = Some d2 -> c_str (d_buf d2) = Ok s2 ->
  let n := Z.of_nat (length vs) in
  let c := s32 (strtol s2) in
  let k := if c <? 0 then n else Z.min c n in
  if k =? 0 then
    do_pop side cmd w = (o ← out_err (w_out w) (lit "value must be positive"); Ok (SIZE_ERR, with_out o w))
  else exists w', do_pop side cmd w = Ok (SUCCESS, w') /\ db_ok w' M /\
    list_rep (w_mem w') l (rest side (Z.to_nat k) xs) (rest side (Z.to_nat k) vs) /\
    w_out w' = out_strs (out_arr (w_out w) k) (taken side (Z.to_nat k) vs) /\ list_step w w' l xs.
Proof.
  intros Hside [Hdb (key & Hk1 & Hk & Hs) Hq Hl Hlen] H2 Hs2 n c k.
  pose proof (list_rep_length _ _ _ _ Hl) as Hxl. pose proof Hl as (nd & d & Hn & Hty & Hd & Hch & Hvs).
  pose proof (s32_range (strtol s2)) as Hc. fold c in Hc.
  assert (Hk0 : 0 <= k <= n) by (unfold k; zcase; lia).
  assert (Hdo : do_pop side cmd w = (if k <=? 0 then (_ ← out_error "value must be positive"; mret SIZE_ERR)
    else (_ ← out (fun o => out_arr o k); _ ← pop_loop (Z.to_nat k) side l; mret SUCCESS)) w).
  { unfold do_pop. cstep arg_ok. cstep arg_ok. erewrite cmd_step by (by eapply lookup_key_ok). rewrite Hq.
    cstep node_ok. rewrite decide_True by done.
    assert ((2 <? length cmd)%nat = true) as -> by (apply Nat.ltb_lt; by apply lookup_lt_Some in H2).
    cstep arg_int_ok. cbn zeta. cstep get_list_ok. destruct Hch as (_ & _ & Hsz & _). rewrite Hsz, Hxl. fold n c.
    replace (s32 (if u32 c <? n then u32 c else n)) with k; [done|]. unfold k. destruct (Z.ltb_spec c 0).
    - assert (u32 c = c + 2 ^ 32) as -> by (unfold u32; rewrite <- (Z_mod_plus_full c 1), Z.mod_small; lia).
      zbool. by rewrite s32_small by lia.
    - rewrite u32_small by lia. zcase; rewrite s32_small; lia. }
  rewrite Hdo. destruct (Z.eqb_spec k 0) as [E|E].
  - rewrite E. cbn [Z.leb Z.compare]. unfold mbind at 1, cmd_bind, out_error, out_r. by destruct (out_err _ _).
  - zbool. erewrite cmd_step by reflexivity. set (w0 := with_out (out_arr (w_out w) k) w).
    assert (HS0 : list_rep (w_mem w0) l xs vs) by done. assert (Hdb0 : db_ok w0 M) by (by destruct Hdb).
    assert (Hrun : exists w', pop_loop (Z.to_nat k) side l w0 = Ok (tt, w') /\
      list_rep (w_mem w') l (rest side (Z.to_nat k) xs) (rest side (Z.to_nat k) vs) /\
      w_out w' = out_strs (w_out w0) (taken side (Z.to_nat k) vs) /\ list_step w0 w' l xs).
    { unfold rest, taken. rewrite <- Hxl. destruct Hside as [-> | ->]; [apply pop_loop_left|apply pop_loop_right]; (done || lia). }
    destruct Hrun as (w' & E' & HL & Ho & HS). exists w'. split; [by rewrite (cmd_step _ _ w0 tt w')|]. split; [by eapply list_step_db|]. split_and!; try done. by destruct HS.
Qed.

(** C32: LPUSH and RPUSH put the value at the front or at the end of the list
    (a new list for an absent key) and reply the new length; no node of
    another key and no node of another list changes. *)
Theorem push_adds w M side cmd key kb value vb xs vs :
  db_ok w M -> Z.of_nat (size M) + 1 < 2 ^ 60 -> side = LLIST_SIDE_LEFT \/ side = LLIST_SIDE_RIGHT ->
  cmd !! 1%nat = Some key -> cmd !! 2%nat = Some value -> dstr_rep key kb -> short_key kb ->
  dstr_rep value vb -> short_key vb -> list_of w M kb xs vs -> Z.of_nat (length vs) + 1 < 2 ^ 31 ->
  exists w' l x, do_push side cmd w = Ok (SUCCESS, w') /\ db_ok w' (<[key_id kb := l]> M) /\ (x ∉ xs) /\
    (if side =? LLIST_SIDE_LEFT then list_rep (w_mem w') l (x :: xs) (vb :: vs)
     else list_rep (w_mem w') l (xs ++ [x]) (vs ++ [vb])) /\
    w_out w' = out_int (w_out w) (Z.of_nat (length vs) + 1) /\ w_heap w' = w_heap w /\
    (forall y, y ∈ vals M -> y <> l -> mem_obs (w_mem w') y = mem_obs (w_mem w) y) /\
    (forall y, y ∉ x :: xs -> m_dnodes (w_mem w') !! y = m_dnodes (w_mem w) !! y).
Proof. apply push_ok. Qed.

(** ** Witnesses *)

Definition push_a : list dstr := exact_dstr <$> [lit "rpush"; lit "l"; lit "a"].

Lemma no_list : list_of w_empty ∅ (lit "l") [] [].
Proof. unfold list_of. by rewrite lookup_empty. Qed.

(** The database with the one-element list [a] under the key [l]. *)
Definition l_db : World := match do_push LLIST_SIDE_RIGHT push_a w_empty with Ok (_, w) => w | Fault _ => w_empty end.

Lemma l_db_list cmd :
  cmd !! 1%nat = Some (exact_dstr (lit "l")) ->
  exists l x, on_list l_db (<[key_id (lit "l") := l]> ∅) cmd (lit "l") l [x] [lit "a"].
Proof.
  intros Hc. destruct (push_ok w_empty ∅ LLIST_SIDE_RIGHT push_a (exact_dstr (lit "l")) (lit "l") (exact_dstr (lit "a")) (lit "a") [] [])
    as (w & l & x & E & Hdb & _ & HL & _);
    [apply w_empty_ok|done|by right|done|done|by apply exact_dstr_rep|by_compute|by apply exact_dstr_rep|by_compute|apply no_list|done|].
  exists l, x. unfold l_db. rewrite E. split; [exact Hdb| |apply lookup_insert_eq|exact HL|done].
  exists (exact_dstr (lit "l")). split; [done|]. split; [by apply exact_dstr_rep|by_compute].
Qed.

Lemma push_adds_witness :
  exists w' l x, do_push LLIST_SIDE_RIGHT push_a w_empty = Ok (SUCCESS, w') /\
    db_ok w' (<[key_id (lit "l") := l]> ∅) /\ list_rep (w_mem w') l [x] [lit "a"] /\ w_out w' = out_int [] 1.
Proof.
  destruct (push_adds w_empty ∅ LLIST_SIDE_RIGHT push_a (exact_dstr (lit "l")) (lit "l") (exact_dstr (lit "a")) (lit "a") [] [])
    as (w & l & x & E & Hdb & _ & HL & Ho & _);
    [apply w_empty_ok|done|by right|done|done|by apply exact_dstr_rep|by_compute|by apply exact_dstr_rep|by_compute|apply no_list|done|].
  exists w, l, x. split; [exact E|]. split; [exact Hdb|]. split; [exact HL|exact Ho].
Defined.

Definition range_cmd : list dstr := exact_dstr <$> [lit "lrange"; lit "l"; lit "0"; lit "-1"].

Lemma lrange_exact_witness : exists w, do_lrange range_cmd l_db = Ok (SUCCESS, w).
Proof.
  destruct (l_db_list range_cmd eq_refl) as (l & x & HL). eexists.
  apply (lrange_exact l_db _ range_cmd (lit "l") l [x] [lit "a"] (exact_dstr (lit "0")) (lit "0")
           (exact_dstr (lit "-1")) (lit "-1") HL); reflexivity.
Defined.

Definition pop_cmd : list dstr := exact_dstr <$> [lit "lpop"; lit "l"; lit "5"].

Lemma pop_removes_witness :
  exists w' M l, do_pop LLIST_SIDE_LEFT pop_cmd l_db = Ok (SUCCESS, w') /\ db_ok w' M /\ list_rep (w_mem w') l [] [].
Proof.
  destruct (l_db_list pop_cmd eq_refl) as (l & x & HL).
  destruct (pop_removes l_db _ LLIST_SIDE_LEFT pop_cmd (lit "l") l [x] [lit "a"] (exact_dstr (lit "5")) (lit "5")
    (or_introl eq_refl) HL eq_refl eq_refl) as (w' & E & Hdb & HL' & _).
  eexists w', _, l. split; [exact E|]. split; [exact Hdb|exact HL'].
Defined.
