(* ===== verification/Bitmaps.v ===== *)
(** * Bitmaps: SETBIT, GETBIT and BITCOUNT on a database of any contents

    A bitmap is a string of bytes whose bits are counted from the top bit of
    the first byte; bits behind its end are 0.  The theorems are about the
    handlers of [src/src/redis_functions.cpp] on a node of the database. *)

From Stdlib Require Import String.
From S2P Require Import Prelude Libc Dstr Dlist Heap Hash Buffers Hashmap Avl Hll Node Zset Commands Keyspace Lists.

(** ** Representation *)

(** Bit [k] of a bitmap. *)
Definition bit_of (bs : list Z) (k : Z) : bool := Z.testbit (nth (Z.to_nat (k / 8)) bs 0) (7 - k mod 8).

(** The node [l] holds the bitmap [bs]. *)
Definition bitmap_at (m : Mem) (l : loc) (bs : list Z) : Prop :=
  exists n d, m_hnodes m !! l = Some n /\ h_type n = T_BITMAP /\ h_bitmap n = Some d /\ dstr_rep d bs /\ bytes_ok bs.

(** The bitmap that a key leads to; a key that is not there has the empty one. *)
Definition bitmap_of (w : World) (M : gmap (Z * list Z) loc) (q : Z * list Z) (bs : list Z) : Prop :=
  match M !! q with Some l => bitmap_at (w_mem w) l bs | None => bs = [] end.

(** ** Lemmas *)

Lemma buf_get_rep d bs i b : dstr_rep d bs -> 0 <= i -> bs !! Z.to_nat i = Some b -> buf_get d i = Ok b.
Proof. intros [_ _ _ _ [rest Hb]]. exact (buf_get_at d bs _ i b Hb). Qed.

Lemma buf_put_rep d bs i v :
  dstr_rep d bs -> 0 <= i < Z.of_nat (length bs) ->
  exists d', buf_put d i v = Ok d' /\ dstr_rep d' (<[Z.to_nat i := u8 v]> bs).
Proof.
  intros [Hs Hf Hc Ha [rest Hb]] Hi. rewrite (buf_put_at d bs _ i v Hb Hi). eexists. split; [reflexivity|].
  split; cbn [d_size d_free d_buf]; [by rewrite length_insert|done|done| |by exists rest].
  rewrite Hb in Ha. rewrite length_app, length_fmap, length_insert in *. done.
Qed.

Lemma str_is_ok d bs s : dstr_rep d bs -> str_is d s = Ok (bool_decide (cstr bs = cstr (lit s))).
Proof. intros [_ _ _ _ [rest Hb]]. unfold str_is. rewrite Hb. apply (strcmp_cells bs (lit s) rest []). Qed.

Lemma bit_land x k : 0 <= k -> Z.land (Z.shiftr x k) 1 = Z.b2z (Z.testbit x k).
Proof.
  intros Hk. change 1 with (Z.ones 1). rewrite Z.land_ones, Z.shiftr_div_pow2 by lia. symmetry.
  by apply Z.testbit_spec'.
Qed.

(** One bit of a byte. *)
Lemma byte_bit b (v : bool) i j :
  0 <= b < 2 ^ 8 -> 0 <= i < 8 -> 0 <= j < 8 ->
  Z.testbit (u8 (if v then Z.lor b (Z.shiftl 1 i) else u8 (Z.land b (Z.lnot (Z.shiftl 1 i))))) j
  = if decide (j = i) then v else Z.testbit b j.
Proof.
  intros Hb Hi Hj. unfold u8. rewrite Z.mod_pow2_bits_low by lia. rewrite Z.shiftl_1_l.
  destruct v; [|rewrite Z.mod_pow2_bits_low by lia].
  - rewrite Z.lor_spec. case_decide; [subst; by rewrite Z.pow2_bits_true, orb_true_r by lia|].
    by rewrite Z.pow2_bits_false, orb_false_r by lia.
  - rewrite Z.land_spec, Z.lnot_spec by lia. case_decide; [subst; by rewrite Z.pow2_bits_true, andb_false_r by lia|].
    by rewrite Z.pow2_bits_false, andb_true_r by lia.
Qed.

(** Writing a bit of the bitmap. *)
Definition set_bit (bs : list Z) (i : Z) (v : bool) : list Z :=
  let bs := resize (Z.to_nat (Z.max (Z.of_nat (length bs)) (i / 8 + 1))) 0 bs in
  let b := nth (Z.to_nat (i / 8)) bs 0 in
  <[Z.to_nat (i / 8) := u8 (if v then Z.lor b (Z.shiftl 1 (7 - i mod 8))
                            else u8 (Z.land b (Z.lnot (Z.shiftl 1 (7 - i mod 8)))))]> bs.

Lemma nth_resize (bs : list Z) n j : (length bs <= n)%nat -> nth j (resize n 0 bs) 0 = nth j bs 0.
Proof.
  intros Hn. rewrite !nth_lookup. destruct (decide (j < length bs)%nat) as [Hj|Hj].
  - rewrite lookup_resize by lia. done.
  - rewrite (lookup_ge_None_2 bs j) by lia. cbn. destruct (decide (j < n)%nat).
    + by rewrite lookup_resize_new by lia.
    + by rewrite lookup_resize_old by lia.
Qed.

Lemma bytes_resize bs n : bytes_ok bs -> bytes_ok (resize n 0 bs).
Proof. intros H. unfold bytes_ok in *. apply Forall_resize; [cbn; lia|done]. Qed.

Lemma set_bit_spec bs i v :
  bytes_ok bs -> 0 <= i ->
  bytes_ok (set_bit bs i v) /\ Z.of_nat (length (set_bit bs i v)) = Z.max (Z.of_nat (length bs)) (i / 8 + 1) /\
  forall k, 0 <= k -> bit_of (set_bit bs i v) k = if decide (k = i) then v else bit_of bs k.
Proof.
  intros Hok Hi. assert (0 <= i / 8) by (apply Z.div_pos; lia). unfold set_bit.
  remember (Z.to_nat (Z.max (Z.of_nat (length bs)) (i / 8 + 1))) as N eqn:EN.
  assert (HN : (length bs <= N)%nat) by lia.
  set (rs := resize N 0 bs). set (j := Z.to_nat (i / 8)).
  assert (Hl : length rs = N) by (apply length_resize).
  assert (Hrs : bytes_ok rs) by (by apply bytes_resize). split_and!.
  - apply Forall_insert; [done|apply u8_range].
  - rewrite length_insert. lia.
  - intros k Hk. unfold bit_of. rewrite !nth_lookup.
    pose proof (Z.mod_pos_bound i 8 ltac:(lia)). pose proof (Z.mod_pos_bound k 8 ltac:(lia)).
    pose proof (Z.div_mod i 8 ltac:(lia)). pose proof (Z.div_mod k 8 ltac:(lia)).
    assert (0 <= k / 8) by (apply Z.div_pos; lia).
    destruct (decide (k / 8 = i / 8)) as [E|E].
    + rewrite E. fold j. rewrite list_lookup_insert_eq by lia. cbn [default]. unfold id.
      assert (Hb : 0 <= nth j rs 0 < 2 ^ 8).
      { destruct (lookup_lt_is_Some_2 rs j ltac:(lia)) as [b Hb]. rewrite nth_lookup, Hb. cbn.
        by apply (Forall_lookup_1 _ _ _ _ Hrs Hb). }
      rewrite nth_lookup in Hb. rewrite byte_bit by (done || lia). rewrite <- !nth_lookup. unfold rs. rewrite nth_resize by done.
      destruct (decide (k = i)) as [->|Hne]; [by rewrite decide_True|]. rewrite decide_False; [done|]. intros Hm.
      apply Hne. lia.
    + rewrite decide_False by congruence. rewrite list_lookup_insert_ne by lia.
      unfold rs. rewrite <- !nth_lookup. by rewrite nth_resize.
Qed.

(** The extension that SETBIT makes and the byte it reads. *)
Lemma extend_ok d bs i :
  dstr_rep d bs -> bytes_ok bs -> 0 <= i < 2 ^ 32 ->
  let bs' := resize (Z.to_nat (Z.max (Z.of_nat (length bs)) (i / 8 + 1))) 0 bs in
  exists d', (if d_size d <=? i / 8 then dstr_resize true d (i / 8 + 1) 0 else Ok (STR_OK, d)) = Ok (STR_OK, d') /\
    dstr_rep d' bs' /\ buf_get d' (i / 8) = Ok (nth (Z.to_nat (i / 8)) bs' 0).
Proof.
  intros Hd Hok Hi bs'. assert (Hq : 0 <= i / 8 < 2 ^ 29).
  { split; [apply Z.div_pos; lia|]. apply Z.div_lt_upper_bound; lia. }
  assert (Hex : exists d', (if d_size d <=? i / 8 then dstr_resize true d (i / 8 + 1) 0 else Ok (STR_OK, d)) = Ok (STR_OK, d') /\
    dstr_rep d' bs').
  { rewrite (rep_size _ _ Hd). unfold bs'. zcase.
    - destruct (dstr_resize_rep true d bs (i / 8 + 1) 0 Hd) as (e & d' & E & Hr & _ & He); [lia|].
      assert (e = STR_OK) as -> by (apply He; rewrite max_str_size_eq; split; [lia|done]).
      exists d'. split; [done|]. rewrite Z.max_r by lia. by apply Hr.
    - exists d. split; [done|]. rewrite Z.max_l, Nat2Z.id by lia. by rewrite resize_all. }
  destruct Hex as (d' & E & Hr). exists d'. split; [done|]. split; [done|]. apply (buf_get_rep _ bs'); [done|lia|].
  destruct (lookup_lt_is_Some_2 bs' (Z.to_nat (i / 8))) as [b Hb]; [unfold bs'; rewrite length_resize; lia|].
  by rewrite nth_lookup, Hb.
Qed.

(** The node of the bitmap, created if the key is new. *)
Lemma find_bitmap_ok w M key kb bs :
  db_ok w M -> Z.of_nat (size M) + 1 < 2 ^ 60 -> dstr_rep key kb -> short_key kb -> bitmap_of w M (key_id kb) bs ->
  exists w' l n d, find_or_create key T_BITMAP w = Ok (l, w') /\ db_ok w' (<[key_id kb := l]> M) /\
    w_out w' = w_out w /\ w_heap w' = w_heap w /\ (forall l', M !! key_id kb = Some l' -> l' = l) /\
    m_hnodes (w_mem w') !! l = Some n /\ h_type n = T_BITMAP /\ h_bitmap n = Some d /\ dstr_rep d bs /\ bytes_ok bs /\
    forall x, x ∈ vals M -> x <> l -> mem_obs (w_mem w') x = mem_obs (w_mem w) x.
Proof.
  intros Hdb Hsz Hk Hs Hbm. unfold bitmap_of in Hbm.
  destruct (find_or_create_ok w M key kb T_BITMAP Hdb Hsz Hk Hs) as (w' & l & E & Hdb' & Ho & Hh & _ & Hcase).
  exists w', l. destruct (M !! key_id kb) as [l0|] eqn:Hq.
  - destruct Hcase as [-> ->]. destruct Hbm as (n & d & Hn & Ht & Hb & Hd & Hok). exists n, d.
    split_and!; try done; congruence.
  - destruct Hcase as [_ (n0 & n & En & Hn & Hc & Hobs)]. subst bs.
    destruct (node_init_ok kb T_BITMAP (Pos.succ l) Hs) as (n1 & En1 & _ & _ & _ & Ht & _ & _ & _ & _ & _ & _ & Hbm).
    rewrite En in En1. injection En1 as <-. destruct (Hbm eq_refl) as (d & Hb & Hd & _).
    exists n, d. split_and!; try done.
    + rewrite <- Ht. by apply (f_equal h_type) in Hc.
    + rewrite <- Hb. by apply (f_equal h_bitmap) in Hc.
    + constructor.
    + intros x Hx _. by apply Hobs.
Qed.

Lemma bit_flags s3 (v : bool) :
  cstr s3 = lit (if v then "1" else "0") ->
  bool_decide (cstr s3 = cstr (lit "0")) = negb v /\ bool_decide (cstr s3 = cstr (lit "1")) = v.
Proof. intros ->. by destruct v. Qed.

Lemma do_setbit_ok w M cmd key kb d2 s2 d3 s3 v bs :
  db_ok w M -> Z.of_nat (size M) + 1 < 2 ^ 60 -> cmd !! 1%nat = Some key -> dstr_rep key kb -> short_key kb ->
  cmd !! 2%nat = Some d2 -> c_str (d_buf d2) = Ok s2 -> 0 <= strtol s2 < 2 ^ 32 ->
  cmd !! 3%nat = Some d3 -> dstr_rep d3 s3 -> cstr s3 = lit (if v : bool then "1" else "0") ->
  bitmap_of w M (key_id kb) bs ->
  exists w' l, do_setbit cmd w = Ok (SUCCESS, w') /\ db_ok w' (<[key_id kb := l]> M) /\
    (forall l', M !! key_id kb = Some l' -> l' = l) /\ bitmap_at (w_mem w') l (set_bit bs (strtol s2) v) /\
    w_out w' = out_int (w_out w) (Z.b2z (bit_of bs (strtol s2))) /\ w_heap w' = w_heap w /\
    forall x, x ∈ vals M -> x <> l -> mem_obs (w_mem w') x = mem_obs (w_mem w) x.
Proof.
  intros Hdb Hsz H1 Hk Hs H2 Hs2 Hi H3 Hd3 Hv Hbm. set (i := strtol s2) in *.
  destruct (find_bitmap_ok w M key kb bs Hdb Hsz Hk Hs Hbm) as (w1 & l & n & d & E & Hdb1 & Ho1 & Hh1 & Hl & Hn & Ht & Hb & Hd & Hok & Hobs).
  destruct (extend_ok d bs i Hd Hok Hi) as (d1 & Ed1 & Hd1 & Hget).
  assert (0 <= i / 8) by (apply Z.div_pos; lia). pose proof (Z.mod_pos_bound i 8 ltac:(lia)).
  set (bs1 := resize (Z.to_nat (Z.max (Z.of_nat (length bs)) (i / 8 + 1))) 0 bs) in *.
  set (b := nth (Z.to_nat (i / 8)) bs1 0) in *.
  set (b' := if v then Z.lor b (Z.shiftl 1 (7 - i mod 8)) else u8 (Z.land b (Z.lnot (Z.shiftl 1 (7 - i mod 8))))).
  destruct (buf_put_rep d1 bs1 (i / 8) b' Hd1) as (d' & Ed' & Hd'); [unfold bs1; rewrite length_resize; lia|].
  destruct (bit_flags s3 v Hv) as [F0 F1].
  set (n1 := set_h_bitmap d1 n). set (n2 := set_h_bitmap d' n1). set (w2 := put_node l n1 w1).
  set (w3 := with_out (out_int (w_out w) (Z.b2z (bit_of bs i))) w2).
  assert (Hn1 : m_hnodes (w_mem w3) !! l = Some n1) by (cbn; by rewrite lookup_insert_eq).
  exists (put_node l n2 w3), l. split_and!.
  - unfold do_setbit. cstep arg_ok. cstep arg_ok. cstep arg_ok. erewrite cmd_step by exact E. cstep node_ok.
    rewrite decide_True by done. erewrite cmd_step by (by eapply arg_int_ok). fold i. zbool. cbn [orb].
    erewrite cmd_step by (apply lift_ok; by apply str_is_ok). erewrite cmd_step by (apply lift_ok; by apply str_is_ok).
    rewrite F0, F1. replace (negb (negb v) && negb v) with false by (by destruct v). cbn zeta.
    erewrite cmd_step by (by apply field_ok). erewrite cmd_step by (apply lift_ok; exact Ed1). cbn beta iota.
    erewrite cmd_step by (by apply set_node_ok). rewrite decide_True by done.
    erewrite cmd_step by (apply lift_ok; exact Hget). erewrite cmd_step by reflexivity.
    erewrite cmd_step by (apply lift_ok; exact Ed').
    rewrite (cmd_step _ _ _ tt (put_node l n2 w3)); [done|].
    cbn [w_out w_heap w_db w_mem with_mem]. rewrite bit_land, Ho1 by lia.
    replace (Z.testbit b (7 - i mod 8)) with (bit_of bs i) by (unfold b, bs1, bit_of; by rewrite nth_resize by lia).
    by apply set_node_ok.
  - apply (put_node_db _ _ _ n1); [|done|done]. assert (db_ok w2 (<[key_id kb:=l]> M)) as [? ? ?] by (by apply (put_node_db _ _ _ n)).
    done.
  - done.
  - exists n2, d'. cbn. rewrite lookup_insert_eq. split_and!; try done.
    destruct (set_bit_spec bs i v Hok) as [Hok' _]; [lia|exact Hok'].
  - done.
  - exact Hh1.
  - intros x Hx Hne. rewrite <- Hobs by done. unfold mem_obs. cbn. by rewrite !lookup_insert_ne.
Qed.

(** The node the other commands read. *)
Lemma with_bitmap_ok w M key kb l bs :
  db_ok w M -> dstr_rep key kb -> short_key kb -> M !! key_id kb = Some l -> bitmap_at (w_mem w) l bs ->
  exists d, dstr_rep d bs /\ bytes_ok bs /\ forall k, with_bitmap key k w = k d w.
Proof.
  intros Hdb Hk Hs Hl (n & d & Hn & Ht & Hb & Hd & Hok). exists d. split; [done|]. split; [done|]. intros k.
  unfold with_bitmap. erewrite cmd_step by (by eapply lookup_key_ok). rewrite Hl.
  rewrite (cmd_step _ _ w SUCCESS w); [|unfold validate_hmnode; cstep node_ok; by rewrite decide_True].
  cstep node_ok. by cstep @field_ok.
Qed.

Lemma byte_at bs d k :
  dstr_rep d bs -> 0 <= k < 8 * Z.of_nat (length bs) -> buf_get d (k / 8) = Ok (nth (Z.to_nat (k / 8)) bs 0).
Proof.
  intros Hd Hk. assert (0 <= k / 8) by (apply Z.div_pos; lia).
  assert (k / 8 < Z.of_nat (length bs)) by (apply Z.div_lt_upper_bound; lia).
  apply (buf_get_rep _ bs); [done|done|]. destruct (lookup_lt_is_Some_2 bs (Z.to_nat (k / 8))) as [b Hb]; [lia|].
  by rewrite nth_lookup, Hb.
Qed.

Lemma nth_byte bs j : bytes_ok bs -> 0 <= nth j bs 0 < 2 ^ 8.
Proof.
  intros Hok. rewrite nth_lookup. destruct (bs !! j) as [b|] eqn:Hb; [|cbn; lia]. by apply (Forall_lookup_1 _ _ _ _ Hok Hb).
Qed.

Lemma do_getbit_ok w M cmd key kb d2 s2 l bs :
  db_ok w M -> cmd !! 1%nat = Some key -> dstr_rep key kb -> short_key kb ->
  cmd !! 2%nat = Some d2 -> c_str (d_buf d2) = Ok s2 -> M !! key_id kb = Some l -> bitmap_at (w_mem w) l bs ->
  Z.of_nat (length bs) < 2 ^ 32 ->
  do_getbit cmd w =
    if bool_decide (0 <= strtol s2 < 8 * Z.of_nat (length bs))
    then Ok (SUCCESS, with_out (out_int (w_out w) (Z.b2z (bit_of bs (strtol s2)))) w)
    else o ← out_err (w_out w) (lit "index outside of range"); Ok (OUT_OF_RANGE, with_out o w).
Proof.
  intros Hdb H1 Hk Hs H2 Hs2 Hl Hbm Hlen. destruct (with_bitmap_ok w M key kb l bs Hdb Hk Hs Hl Hbm) as (d & Hd & Hok & Ew).
  unfold do_getbit. cstep arg_ok. cstep arg_ok. rewrite Ew. erewrite cmd_step by (by eapply arg_int_ok).
  set (i := strtol s2). rewrite (rep_size _ _ Hd). case_bool_decide as Hr.
  - assert (0 <= i / 8) by (apply Z.div_pos; lia). assert (i / 8 < Z.of_nat (length bs)) by (apply Z.div_lt_upper_bound; lia).
    zbool. cbn [orb]. rewrite u32_small by lia. erewrite cmd_step by (apply lift_ok; by apply (byte_at bs)).
    pose proof (Z.mod_pos_bound i 8 ltac:(lia)). rewrite bit_land by lia. done.
  - replace ((i <? 0) || (Z.of_nat (length bs) <=? i / 8)) with true.
    { unfold mbind at 1, cmd_bind, out_error, out_r. by destruct (out_err _ _). }
    symmetry. apply orb_true_iff. destruct (Z.ltb_spec i 0); [by left|right]. apply Z.leb_le. apply Z.div_le_lower_bound; lia.
Qed.

(** ** Counting *)

(** The number of ones among the bits [a], ..., [a + n - 1]. *)
Fixpoint ones (bs : list Z) (a : Z) (n : nat) : Z :=
  match n with O => 0 | S n => Z.b2z (bit_of bs a) + ones bs (a + 1) n end.

Lemma ones_app bs a n m : ones bs a (n + m) = ones bs a n + ones bs (a + Z.of_nat n) m.
Proof.
  revert a. induction n as [|n IH]; intros a; cbn [ones Nat.add]; [by rewrite Z.add_0_r|].
  rewrite IH. replace (a + 1 + Z.of_nat n) with (a + Z.of_nat (S n)) by lia. lia.
Qed.

Lemma char_bit b i : 0 <= b < 2 ^ 8 -> 0 <= i < 8 -> Z.testbit (if b <? 128 then b else b - 256) i = Z.testbit b i.
Proof.
  intros Hb Hi. case_match; [done|]. rewrite <- (Z.mod_pow2_bits_low (b - 256) 8 i) by lia.
  replace (b - 256) with (b + (-1) * 2 ^ 8) by lia. rewrite Z_mod_plus_full, Z.mod_small by lia. done.
Qed.

Lemma count_bits_ok n d bs a r :
  dstr_rep d bs -> bytes_ok bs -> 0 <= a -> a + Z.of_nat n <= 8 * Z.of_nat (length bs) ->
  count_bits n d a r = Ok (r + ones bs a n).
Proof.
  intros Hd Hok. revert a r. induction n as [|n IH]; intros a r Ha Hn; cbn [count_bits ones]; [f_equal; lia|].
  rewrite Z.quot_div_nonneg, Z.rem_mod_nonneg by lia. unfold buf_char. rewrite (byte_at bs) by (done || lia).
  cbn [mbind result_bind]. pose proof (Z.mod_pos_bound a 8 ltac:(lia)). rewrite bit_land by lia.
  rewrite char_bit by (first [lia|by apply nth_byte]). rewrite IH by lia. f_equal. unfold bit_of. lia.
Qed.

Lemma popcount_ok b r :
  0 <= b < 2 ^ 8 -> popcount 8 b r = r + foldr (fun i acc => Z.b2z (Z.testbit b (7 - i)) + acc) 0 (seqZ 0 8).
Proof.
  intros Hb. assert (Hr : forall f b r, popcount f b r = r + popcount f b 0).
  { clear. induction f as [|f IH]; intros b r; cbn [popcount]; [lia|]. case_match; [lia|].
    rewrite IH, (IH _ (0 + _)). lia. }
  rewrite Hr. f_equal.
  assert (Hall : Forall (fun b => popcount 8 b 0 = foldr (fun i acc => Z.b2z (Z.testbit b (7 - i)) + acc) 0 (seqZ 0 8)) (seqZ 0 256))
    by by_compute.
  rewrite Forall_forall in Hall. apply Hall, elem_of_seqZ. lia.
Qed.

Lemma byte_ones bs j : 0 <= j -> ones bs (8 * j) 8 = foldr (fun i acc => Z.b2z (Z.testbit (nth (Z.to_nat j) bs 0) (7 - i)) + acc) 0 (seqZ 0 8).
Proof.
  intros Hj. change (seqZ 0 8) with [0; 1; 2; 3; 4; 5; 6; 7]. cbn [foldr ones].
  assert (Hb : forall i, 0 <= i < 8 -> bit_of bs (8 * j + i) = Z.testbit (nth (Z.to_nat j) bs 0) (7 - i)).
  { intros i Hi. unfold bit_of. rewrite (Z.mul_comm 8 j), Z.add_comm, Z.div_add, Z_mod_plus_full by lia.
    by rewrite Z.div_small, Z.mod_small, Z.add_0_l by lia. }
  rewrite <- !Hb by lia. rewrite <- !Z.add_assoc, !Z.add_0_r. reflexivity.
Qed.

Lemma count_bytes_ok n d bs j r :
  dstr_rep d bs -> bytes_ok bs -> 0 <= j -> j + Z.of_nat n <= Z.of_nat (length bs) ->
  count_bytes n d j r = Ok (r + ones bs (8 * j) (8 * n)).
Proof.
  intros Hd Hok. revert j r. induction n as [|n IH]; intros j r Hj Hn; cbn [count_bytes]; [f_equal; cbn; lia|].
  assert (Hb : buf_get d j = Ok (nth (Z.to_nat j) bs 0)).
  { pose proof (byte_at bs d (8 * j) Hd) as Hb. rewrite (Z.mul_comm 8 j), Z.div_mul in Hb by lia. apply Hb. lia. }
  rewrite Hb. cbn [mbind result_bind]. rewrite popcount_ok by (by apply nth_byte). rewrite IH by lia.
  replace (8 * S n)%nat with (8 + 8 * n)%nat by lia. rewrite ones_app, byte_ones by lia.
  replace (8 * j + Z.of_nat 8) with (8 * (j + 1)) by lia. f_equal. lia.
Qed.

(** The arguments of BITCOUNT: the range and the unit it is counted in, bits
    or bytes. *)
Inductive count_args : list dstr -> Z -> Z -> bool -> Prop :=
  | count_all c key : count_args [c; key] 0 (-1) false
  | count_range c key a b sa sb :
      c_str (d_buf a) = Ok sa -> c_str (d_buf b) = Ok sb -> count_args [c; key; a; b] (strtol sa) (strtol sb) false
  | count_unit c key a b u sa sb su :
      c_str (d_buf a) = Ok sa -> c_str (d_buf b) = Ok sb -> dstr_rep u su ->
      count_args [c; key; a; b; u] (strtol sa) (strtol sb) (bool_decide (cstr su = lit "BYTE")).

Lemma count_args_ok cmd start end_ mode w (k : Z -> Z -> bool -> cmdM RETURN_VALS) :
  count_args cmd start end_ mode ->
  (start ← (if (2 <? length cmd)%nat then arg_int cmd 2 else mret 0);
   end_ ← (if (3 <? length cmd)%nat then arg_int cmd 3 else mret (- 1));
   is_byte_mode ← (if (length cmd =? 5)%nat then d ← arg cmd 4; lift (str_is d "BYTE") else mret false);
   k start end_ is_byte_mode) w = k start end_ mode w.
Proof.
  intros [c key|c key a b sa sb Ha Hb|c key a b u sa sb su Ha Hb Hu]; cbn [length Nat.ltb Nat.leb Nat.eqb].
  - done.
  - erewrite cmd_step by (by eapply arg_int_ok). by erewrite cmd_step by (by eapply arg_int_ok).
  - erewrite cmd_step by (by eapply arg_int_ok). erewrite cmd_step by (by eapply arg_int_ok).
    erewrite cmd_step; [reflexivity|]. cstep arg_ok. apply lift_ok. rewrite (str_is_ok _ _ _ Hu). done.
Qed.

(** An index counted from the end when negative. *)
Definition from_end (n i : Z) : Z := if i <? 0 then i + n else i.

Lemma bitcount_ok w M cmd key kb l bs start end_ mode :
  db_ok w M -> cmd !! 1%nat = Some key -> dstr_rep key kb -> short_key kb -> M !! key_id kb = Some l ->
  bitmap_at (w_mem w) l bs -> Z.of_nat (length bs) < 2 ^ 32 -> count_args cmd start end_ mode ->
  let unit := if mode : bool then 8 else 1 in
  let n := 8 * Z.of_nat (length bs) / unit in
  let a := from_end n start in
  let b := Z.min (from_end n end_) (n - 1) in
  0 <= a ->
  do_bitcount cmd w = Ok (SUCCESS, with_out (out_int (w_out w) (ones bs (unit * a) (Z.to_nat (unit * (b - a + 1))))) w).
Proof.
  intros Hdb H1 Hk Hs Hl Hbm Hlen Hargs unit n a b Ha.
  destruct (with_bitmap_ok w M key kb l bs Hdb Hk Hs Hl Hbm) as (d & Hd & Hok & Ew).
  assert (Hst : - 2 ^ 63 <= start < 2 ^ 63 /\ - 2 ^ 63 <= end_ < 2 ^ 63).
  { destruct Hargs; split; first [apply strtol_range|lia]. }
  unfold do_bitcount. cstep arg_ok. rewrite (count_args_ok cmd start end_ mode w _ Hargs), Ew, (rep_size _ _ Hd).
  assert (Hn : (if mode then Z.of_nat (length bs) else u64 (Z.of_nat (length bs) * 8)) = n).
  { unfold n, unit. destruct mode; [by rewrite Z.mul_comm, Z.div_mul by lia|]. rewrite Z.div_1_r, u64_small by lia. lia. }
  rewrite Hn. assert (Hnr : 0 <= n < 2 ^ 35) by (rewrite <- Hn; destruct mode; [lia|rewrite u64_small by lia; lia]).
  assert (Hf : forall i, - 2 ^ 63 <= i < 2 ^ 63 -> (if i <? 0 then s64 (i + n) else i) = from_end n i).
  { intros i Hi. unfold from_end. zcase; [|done]. by rewrite s64_small by lia. }
  cbn zeta. rewrite !Hf, (s64_small n) by lia. fold a b.
  assert (Hc : (if mode then count_bytes (Z.to_nat (b - a + 1)) d a 0 else count_bits (Z.to_nat (b - a + 1)) d a 0)
    = Ok (ones bs (unit * a) (Z.to_nat (unit * (b - a + 1))))).
  { assert (Hb : b <= n - 1) by apply Z.le_min_r. clearbody a b n. unfold unit in *. destruct mode.
    - destruct (decide (b - a + 1 < 0)).
      + rewrite !Z2Nat.nonpos by lia. done.
      + rewrite (count_bytes_ok _ _ bs) by (done || rewrite ?Z2Nat.id; lia). f_equal.
        rewrite Z2Nat.inj_mul by lia. done.
    - rewrite u64_small in Hn by lia. rewrite !Z.mul_1_l. destruct (decide (b - a + 1 < 0)).
      + rewrite !Z2Nat.nonpos by lia. done.
      + rewrite (count_bits_ok _ _ bs) by (done || rewrite ?Z2Nat.id; lia). done. }
  erewrite cmd_step by (apply lift_ok; exact Hc). done.
Qed.

(** ** Properties *)

(** C20: SETBIT and GETBIT.  SETBIT of a bit below 2^32 on a new key or on a
    bitmap replies the previous bit, makes the bitmap just long enough, changes
    that bit and no other, and no other key of the database; after it GETBIT
    replies the new bit, the old value of every other bit inside the bitmap,
    and an error behind its end. *)
Theorem setbit_getbit w M cmd key kb d2 s2 d3 s3 v bs :
  db_ok w M -> Z.of_nat (size M) + 1 < 2 ^ 60 -> cmd !! 1%nat = Some key -> dstr_rep key kb -> short_key kb ->
  cmd !! 2%nat = Some d2 -> c_str (d_buf d2) = Ok s2 -> 0 <= strtol s2 < 2 ^ 32 ->
  cmd !! 3%nat = Some d3 -> dstr_rep d3 s3 -> cstr s3 = lit (if v : bool then "1" else "0") ->
  bitmap_of w M (key_id kb) bs -> Z.of_nat (length bs) < 2 ^ 32 ->
  let i := strtol s2 in
  exists w' l bs', do_setbit cmd w = Ok (SUCCESS, w') /\
    w_out w' = out_int (w_out w) (Z.b2z (bit_of bs i)) /\
    db_ok w' (<[key_id kb := l]> M) /\ bitmap_at (w_mem w') l bs' /\
    Z.of_nat (length bs') = Z.max (Z.of_nat (length bs)) (i / 8 + 1) /\
    (forall k, 0 <= k -> bit_of bs' k = if decide (k = i) then v else bit_of bs k) /\
    (forall x, x ∈ vals M -> x <> l -> mem_obs (w_mem w') x = mem_obs (w_mem w) x) /\
    forall c key' d sj, dstr_rep key' kb -> c_str (d_buf d) = Ok sj ->
      let j := strtol sj in
      do_getbit [c; key'; d] w' =
        if bool_decide (0 <= j < 8 * Z.of_nat (length bs'))
        then Ok (SUCCESS, with_out (out_int (w_out w') (Z.b2z (if decide (j = i) then v else bit_of bs j))) w')
        else o ← out_err (w_out w') (lit "index outside of range"); Ok (OUT_OF_RANGE, with_out o w').
Proof.
  intros Hdb Hsz H1 Hk Hs H2 Hs2 Hi H3 Hd3 Hv Hbm Hlen i.
  destruct (do_setbit_ok w M cmd key kb d2 s2 d3 s3 v bs) as (w' & l & E & Hdb' & _ & Hat & Ho & _ & Hobs); try done.
  assert (Hok : bytes_ok bs).
  { unfold bitmap_of in Hbm. destruct (M !! _); [by destruct Hbm as (? & ? & _ & _ & _ & _ & ?)|subst; constructor]. }
  destruct (set_bit_spec bs i v Hok) as (_ & Hl & Hbits); [lia|].
  exists w', l, (set_bit bs i v). split_and!; try done. intros c key' d sj Hk' Hj j.
  rewrite (do_getbit_ok w' (<[key_id kb:=l]> M) [c; key'; d] key' kb d sj l (set_bit bs i v));
    [|done|done|done|done|done|done|apply lookup_insert_eq|done|].
  - fold j. case_bool_decide; [|done]. by rewrite Hbits by lia.
  - rewrite Hl. apply Z.max_lub_lt; [done|]. assert (i / 8 < 2 ^ 29) by (apply Z.div_lt_upper_bound; lia). lia.
Qed.

(** C21: BITCOUNT.  With the range counted in bits, or in bytes when the fifth
    word is BYTE, indexes from the end when negative and the end cut to the
    bitmap, the reply is the number of ones in the range, for every range whose
    start is not before the bitmap; nothing else changes. *)
Theorem bitcount_exact w M cmd key kb l bs start end_ mode :
  db_ok w M -> cmd !! 1%nat = Some key -> dstr_rep key kb -> short_key kb -> M !! key_id kb = Some l ->
  bitmap_at (w_mem w) l bs -> Z.of_nat (length bs) < 2 ^ 32 -> count_args cmd start end_ mode ->
  let unit := if mode : bool then 8 else 1 in
  let n := 8 * Z.of_nat (length bs) / unit in
  let a := from_end n start in
  let b := Z.min (from_end n end_) (n - 1) in
  0 <= a ->
  do_bitcount cmd w = Ok (SUCCESS, with_out (out_int (w_out w) (ones bs (unit * a) (Z.to_nat (unit * (b - a + 1))))) w).
Proof. apply bitcount_ok. Qed.

(** BITCOUNT with a start before the bitmap: it is not cut to 0, and the
    handler reads in front of the buffer. *)
Theorem bitcount_underrun w M c key kb l bs a b sa sb :
  db_ok w M -> dstr_rep key kb -> short_key kb -> M !! key_id kb = Some l ->
  bitmap_at (w_mem w) l bs -> Z.of_nat (length bs) < 2 ^ 32 -> c_str (d_buf a) = Ok sa -> c_str (d_buf b) = Ok sb ->
  strtol sa < 0 -> strtol sa + 8 * Z.of_nat (length bs) <= -8 -> 0 <= strtol sb -> bs <> [] ->
  do_bitcount [c; key; a; b] w = Fault OutOfBounds.
Proof.
  intros Hdb Hk Hs Hl Hbm Hlen Ha Hb Hneg Hlow Hend Hne.
  destruct (with_bitmap_ok w M key kb l bs Hdb Hk Hs Hl Hbm) as (d & Hd & Hok & Ew). pose proof (strtol_range sa).
  assert (0 < Z.of_nat (length bs)) by (destruct bs; [done|cbn; lia]).
  unfold do_bitcount. cstep arg_ok. rewrite (count_args_ok _ _ _ _ w _ (count_range c key a b sa sb Ha Hb)), Ew, (rep_size _ _ Hd).
  cbn zeta. rewrite u64_small, (s64_small (Z.of_nat (length bs) * 8)) by lia. zbool. rewrite s64_small by lia.
  set (p := strtol sa + Z.of_nat (length bs) * 8). assert (p <= -8) by lia.
  destruct (Z.to_nat _) as [|n] eqn:En; [lia|]. unfold mbind at 1, cmd_bind, lift. cbn [count_bits].
  assert (Hq : Z.quot p 8 < 0).
  { pose proof (Z.quot_le_mono p (-8) 8 ltac:(lia) ltac:(assumption)) as Hle. change (Z.quot (-8) 8) with (-1) in Hle. lia. }
  unfold buf_char, buf_get, read_at. zbool. done.
Qed.

(** ** Witnesses *)

Definition setbit_cmd : list dstr := exact_dstr <$> [lit "setbit"; lit "b"; lit "9"; lit "1"].

Lemma setbit_getbit_witness :
  exists w' l bs', do_setbit setbit_cmd w_empty = Ok (SUCCESS, w') /\ w_out w' = out_int [] 0 /\
    db_ok w' (<[key_id (lit "b") := l]> ∅) /\ bitmap_at (w_mem w') l bs' /\ length bs' = 2%nat /\ bit_of bs' 9 = true /\
    do_getbit (exact_dstr <$> [lit "getbit"; lit "b"; lit "9"]) w' = Ok (SUCCESS, with_out (out_int (w_out w') 1) w').
Proof.
  destruct (setbit_getbit w_empty ∅ setbit_cmd (exact_dstr (lit "b")) (lit "b") (exact_dstr (lit "9")) (lit "9")
    (exact_dstr (lit "1")) (lit "1") true []) as (w' & l & bs' & E & Ho & Hdb & Hat & Hl & Hbits & _ & Hget);
    [apply w_empty_ok|done|done|by apply exact_dstr_rep|by_compute|done|reflexivity|by_compute|done|by apply exact_dstr_rep|done|done|done|].
  exists w', l, bs'. change (strtol (lit "9")) with 9 in *.
  assert (length bs' = 2%nat) as Hl2 by (apply Nat2Z.inj; rewrite Hl; reflexivity).
  split; [exact E|]. split; [exact Ho|]. split; [exact Hdb|]. split; [exact Hat|]. split; [exact Hl2|].
  split; [by rewrite Hbits by lia|].
  cbn [fmap list_fmap]. rewrite (Hget (exact_dstr (lit "getbit")) (exact_dstr (lit "b")) (exact_dstr (lit "9")) (lit "9"));
    [|by apply exact_dstr_rep|reflexivity]. change (strtol (lit "9")) with 9. rewrite Hl2. reflexivity.
Defined.

Definition b_db : World := match do_setbit setbit_cmd w_empty with Ok (_, w) => w | Fault _ => w_empty end.

Lemma b_db_bitmap : exists l, db_ok b_db (<[key_id (lit "b") := l]> ∅) /\ bitmap_at (w_mem b_db) l (set_bit [] 9 true).
Proof.
  destruct (do_setbit_ok w_empty ∅ setbit_cmd (exact_dstr (lit "b")) (lit "b") (exact_dstr (lit "9")) (lit "9")
    (exact_dstr (lit "1")) (lit "1") true []) as (w' & l & E & Hdb & _ & Hat & _);
    [apply w_empty_ok|done|done|by apply exact_dstr_rep|by_compute|done|reflexivity|by_compute|done|by apply exact_dstr_rep|done|done|].
  exists l. unfold b_db. rewrite E. split; [exact Hdb|exact Hat].
Qed.

Definition count_cmd : list dstr := [exact_dstr (lit "bitcount"); exact_dstr (lit "b")].

Lemma bitcount_exact_witness :
  do_bitcount count_cmd b_db = Ok (SUCCESS, with_out (out_int (w_out b_db) 1) b_db).
Proof.
  destruct b_db_bitmap as (l & Hdb & Hat).
  apply (bitcount_exact b_db _ count_cmd (exact_dstr (lit "b")) (lit "b") l (set_bit [] 9 true) 0 (-1) false Hdb eq_refl);
    [by apply exact_dstr_rep|by_compute|apply lookup_insert_eq|exact Hat|by_compute|constructor|by_compute].
Defined.
