(* ===== verification/Scores.v ===== *)
(** * Sorted sets of the database: ZADD, ZSCORE and ZREM

    The handlers of [src/src/redis_functions.cpp] on a sorted set that is the
    value of a key: the operations of [Zset] lifted to the database, whose
    other nodes and sets they leave alone. *)

From stdpp Require Import sorting.
From Stdlib Require Import String.
From S2P Require Import Prelude Libc Dstr Dlist Heap Hash Buffers Hashmap Avl Hll Node Zset Commands Keyspace Lists.

(** ** Representation *)

(** The node [l] owns the well-formed set [z] with the tree [t] and the table [N]. *)
Record zset_key (m : Mem) (l z : loc) (t : tree) (N : gmap (Z * list Z) loc) : Prop := mkZsetKey {
  zk_node : exists n, m_hnodes m !! l = Some n /\ h_type n = T_ZSET /\ h_zset n = Some z;
  zk_rep : zset_rep m z t N
}.

(** The members of the set that a key leads to, by the key of their table; a
    key that is not there has none. *)
Definition scores_of (m : Mem) (M : gmap (Z * list Z) loc) (q : Z * list Z) (V : gmap (Z * list Z) member) : Prop :=
  match M !! q with
  | Some l => exists z t N, zset_key m l z t N /\ V = zset_view m N
  | None => V = ∅
  end.

(** ** Lemmas *)

Lemma tree_at_unique h p t1 t2 : tree_at h p t1 -> tree_at h p t2 -> root_of t1 = root_of t2 -> t1 = t2.
Proof.
  revert p t2. induction t1 as [|l1 IHl x1 r1 IHr]; intros p [|l2 x2 r2] H1 H2 E; try done.
  cbn in E. injection E as <-. destruct H1 as (Hx1 & Hl1 & Hr1), H2 as (Hx2 & Hl2 & Hr2).
  rewrite Hx1 in Hx2. injection Hx2 as El Er _ _. f_equal; [by eapply IHl|by eapply IHr].
Qed.

Lemma view_size m z t N : zset_rep m z t N -> size (zset_view m N) = size N.
Proof.
  intros HR. rewrite <- !size_dom. f_equal. apply set_eq. intros q. rewrite !elem_of_dom. unfold zset_view.
  rewrite lookup_omap. split; intros [x Hx]; [destruct (N !! q); [by eexists|done]|]. rewrite Hx. cbn.
  assert (Hin : x ∈ inorder t) by (rewrite <- (zr_vals _ _ _ _ HR); apply elem_of_vals; by eexists).
  destruct (zr_members _ _ _ _ HR x Hin) as (zn & kb & Hz & Hr & _). eexists. by eapply member_spec.
Qed.

Lemma rep_cnt m z t N : zset_rep m z t N -> cnt t = Z.of_nat (size (zset_view m N)).
Proof.
  intros HR. rewrite (view_size _ _ _ _ HR), <- length_vals, cnt_length. f_equal.
  apply Permutation_length. symmetry. apply (zr_vals _ _ _ _ HR).
Qed.

Lemma view_lookup m N q x p : N !! q = Some x -> member_of m x = Some p -> zset_view m N !! q = Some p.
Proof. intros Hq Hp. unfold zset_view. rewrite lookup_omap, Hq. done. Qed.

(** A set whose objects stay the same. *)
Lemma zset_rep_frame m m' z t N :
  zset_rep m z t N -> m_zsets m' !! z = m_zsets m !! z ->
  (forall x, x ∈ inorder t -> m_hnodes m' !! x = m_hnodes m !! x /\ m_avl m' !! x = m_avl m !! x /\
     m_znodes m' !! x = m_znodes m !! x) ->
  zset_rep m' z t N /\ zset_view m' N = zset_view m N.
Proof.
  intros HR Hz Hx. pose proof HR as [(hm & Hzs & Hmap) Ht Hb Hnd Hv Hpl Hmem Hsort]. split.
  - split; try done.
    + exists hm. rewrite Hz. split; [done|]. eapply hm_map_frame; [|exact Hmap]. intros x Hxv. apply ident_hnodes.
      apply Hx. by rewrite <- Hv.
    + eapply tree_at_ext; [|exact Ht]. intros x Hi. by apply Hx.
    + intros x Hi. eapply plain_hnodes; [|by apply Hpl]. by apply Hx.
    + intros x Hi. destruct (Hx x Hi) as (H1 & _ & H3). apply (good_member_ext m); [done|by apply ident_hnodes|by apply Hmem].
    + eapply sorted_ext; [|exact Hsort]. intros x Hi. by apply Hx.
  - apply map_eq. intros q. unfold zset_view. rewrite !lookup_omap. destruct (N !! q) as [x|] eqn:Hq; [|done]. cbn.
    apply member_of_ext, Hx. rewrite <- Hv. apply elem_of_vals. by eexists.
Qed.

(** The owners of the sorted sets of a database are apart. *)
Definition owns (ot oz : loc -> loc) (D : list loc) (l z : loc) (t : tree) : Prop :=
  oz z = l /\ forall x, x ∈ inorder t -> (x ∉ D) /\ ot x = l.

Lemma good_owns ot oz m D l z t N : node_good ot oz m D l -> zset_key m l z t N -> owns ot oz D l z t.
Proof.
  intros (n & kb & Hn & _ & _ & _ & Hz) [(n' & Hn' & Hty & Hzn) HR]. assert (n' = n) as -> by congruence.
  destruct (Hz Hty) as (z' & t' & Hz' & Hoz & (hm & Hzs & Ht' & _) & Hown). assert (z' = z) as -> by congruence.
  destruct (zr_set _ _ _ _ HR) as (hm' & Hzs' & _). rewrite Hzs in Hzs'. injection Hzs' as Er ->.
  rewrite <- (tree_at_unique _ NULL t' t Ht' (zr_tree _ _ _ _ HR) Er). done.
Qed.

Lemma fresh_not_live m D : mem_ok m D -> fresh_ok m -> m_fresh m ∉ D.
Proof.
  intros (ot & oz & Hok) Hf HD. destruct (Hok _ HD) as (n & _ & Hn & _).
  destruct (Hf (m_fresh m)) as (H & _); [reflexivity|congruence].
Qed.

(** A change of one sorted set leaves the database well formed. *)
Lemma zset_change_db w M l z t N m' t' N' :
  db_ok w M -> l ∈ vals M -> zset_key (w_mem w) l z t N -> zset_rep m' z t' N' -> fresh_ok m' ->
  untouched (m_fresh (w_mem w) :: inorder t) z (w_mem w) m' -> inorder t' ⊆ m_fresh (w_mem w) :: inorder t ->
  db_ok (with_mem m' w) M /\ zset_key m' l z t' N' /\
  (forall x, x ∈ vals M -> m_hnodes m' !! x = m_hnodes (w_mem w) !! x) /\
  forall l2 z2 t2 N2, l2 ∈ vals M -> l2 <> l -> zset_key (w_mem w) l2 z2 t2 N2 ->
    zset_key m' l2 z2 t2 N2 /\ zset_view m' N2 = zset_view (w_mem w) N2.
Proof.
  intros [Hm (ot & oz & Hok) Hf] Hl Hk HR' Hf' HU Hsub. set (m := w_mem w) in *. set (f := m_fresh m) in *.
  destruct (good_owns _ _ _ _ _ _ _ _ (Hok l Hl) Hk) as [Hoz Hown].
  assert (HfD : f ∉ vals M) by (apply fresh_not_live; [by exists ot, oz|done]).
  assert (Hsame : forall x, x ∈ vals M -> m_hnodes m' !! x = m_hnodes m !! x).
  { intros x Hx. apply (un_nodes _ _ _ _ HU). intros [->|Hi]%elem_of_cons; [done|]. by apply (Hown x Hi). }
  (* the nodes of another set *)
  assert (Hother : forall x y, y <> l -> ot x = y -> m_znodes m !! x <> None ->
    m_hnodes m' !! x = m_hnodes m !! x /\ m_avl m' !! x = m_avl m !! x /\ m_znodes m' !! x = m_znodes m !! x).
  { intros x y Hy Hot Hx. apply (un_nodes _ _ _ _ HU). intros [->|Hi]%elem_of_cons.
    - destruct (Hf f) as (_ & _ & _ & ? & _); [reflexivity|done].
    - destruct (Hown x Hi). congruence. }
  split_and!.
  - split; [|  |done].
    + eapply hm_map_frame; [|exact Hm]. intros x Hx. apply ident_hnodes. by apply Hsame.
    + exists (fun x => if decide (x = f) then l else ot x), oz. intros y Hy.
      destruct (Hok y Hy) as (n & kb & Hn & Hh & Hkb & Hhs & Hzs). exists n, kb. cbn. rewrite Hsame by done.
      do 4 (split; [done|]). intros Hty. destruct (Hzs Hty) as (z2 & t2 & Hz2 & Hoz2 & Hat & Hown2).
      destruct (decide (y = l)) as [->|Hne].
      * destruct Hk as [(n' & Hn' & _ & Hzn) _]. assert (n' = n) as -> by congruence. assert (z2 = z) as -> by congruence.
        exists z, t'. destruct (zr_set _ _ _ _ HR') as (hm' & Hzs' & _). split_and!; try done.
        { exists hm'. split; [done|]. split; [apply (zr_tree _ _ _ _ HR')|]. split; [apply (zr_nodup _ _ _ _ HR')|].
          intros x Hx. destruct (zr_members _ _ _ _ HR' x Hx) as (zn & _ & -> & _). by eexists. }
        intros x Hx%Hsub. case_decide; [by subst|]. apply Hown. set_solver.
      * exists z2, t2. split_and!; try done.
        { destruct Hat as (hm2 & Hs2 & Ht2 & Hnd2 & Hl2). apply (zset_at_ext m); [| |by exists hm2].
          - apply (un_zsets _ _ _ _ HU). congruence.
          - intros x Hx. apply (Hother x y); [done|by apply Hown2|]. by destruct (Hl2 x Hx) as [? ->]. }
        intros x Hx. destruct (Hown2 x Hx). rewrite decide_False; [done|]. intros ->.
        destruct Hat as (_ & _ & _ & _ & Hl2). destruct (Hl2 f Hx) as [? Hzf].
        destruct (Hf f) as (_ & _ & _ & ? & _); [reflexivity|congruence].
  - destruct Hk as [(n & Hn & Hty & Hzn) _]. split; [|done]. exists n. by rewrite Hsame.
  - done.
  - intros l2 z2 t2 N2 Hl2 Hne Hk2. destruct (good_owns _ _ _ _ _ _ _ _ (Hok l2 Hl2) Hk2) as [Hoz2 Hown2].
    destruct Hk2 as [(n2 & Hn2 & Hty2 & Hzn2) HR2]. destruct (zset_rep_frame m m' z2 t2 N2 HR2) as [HR2' Hv2].
    { apply (un_zsets _ _ _ _ HU). congruence. }
    { intros x Hx. apply (Hother x l2); [done|by apply Hown2|]. by destruct (zr_members _ _ _ _ HR2 x Hx) as (? & _ & -> & _). }
    split; [|done]. split; [|done]. exists n2. by rewrite Hsame.
Qed.

(** ** The set of a new key *)

(** What a table operation may do to a set is to empty it. *)
Definition empty_at (z : loc) (m : Mem) : Prop := m_zsets m !! z = Some (mkZSet NULL hmap_empty).

Lemma update_zset_empty (zs : gmap loc ZSet) z p f zs' :
  zs !! z = Some (mkZSet NULL hmap_empty) -> f (mkZSet NULL hmap_empty) = mkZSet NULL hmap_empty ->
  update zs p f = Ok zs' -> zs' !! z = Some (mkZSet NULL hmap_empty).
Proof.
  destruct p as [x|]; [|done]. cbn. intros Hz Hf E. apply bind_ok in E as (a & Ha & E). injection E as <-.
  apply need_ok in Ha. destruct (decide (x = z)) as [->|Hne]; [|by rewrite lookup_insert_ne].
  assert (a = mkZSet NULL hmap_empty) as -> by congruence. by rewrite lookup_insert_eq, Hf.
Qed.

Lemma del_tree_zsets fuel m p m' : del_avl_tree fuel m p = Ok m' -> m_zsets m' = m_zsets m.
Proof.
  revert m p m'. induction fuel as [|fuel IH]; intros m p m' E; destruct p as [x|]; cbn in E; try done; try (by injection E as <-).
  apply bind_ok in E as (n & _ & E). apply bind_ok in E as (m1 & E1 & E). apply bind_ok in E as (n2 & _ & E).
  apply bind_ok in E as (m2 & E2 & E). unfold free_znode in E. apply bind_ok in E as (zn & _ & E). injection E as <-.
  cbn. rewrite (IH _ _ _ E2). by apply (IH _ _ _ E1).
Qed.

Lemma clear_empty z m p m' : empty_at z m -> zset_clear m p = Ok m' -> empty_at z m'.
Proof.
  intros Hz E. unfold zset_clear in E. apply bind_ok in E as (zs & Hu & E). apply bind_ok in E as (zz & _ & E).
  apply bind_ok in E as (m1 & E1 & E). apply bind_ok in E as (zs2 & Hu2 & E). injection E as <-.
  pose proof (update_zset_empty _ _ _ _ _ Hz eq_refl Hu) as Hz1. apply del_tree_zsets in E1. cbn in E1.
  rewrite E1 in Hu2. by apply (update_zset_empty _ _ _ _ _ Hz1 eq_refl Hu2).
Qed.

Lemma put_empty z m p f m' : empty_at z m -> hput m p f = Ok m' -> empty_at z m'.
Proof. intros Hz E. unfold hput in E. apply bind_ok in E as (h & _ & E). by injection E as <-. Qed.

Lemma next_empty z l p m m' : empty_at z m -> nd_set_next l p m = Ok m' -> empty_at z m'.
Proof. apply put_empty. Qed.

Lemma release_empty z l m m' : empty_at z m -> release_node l m = Ok m' -> empty_at z m'.
Proof.
  intros Hz E. unfold release_node in E. apply bind_ok in E as (n & _ & E). apply bind_ok in E as (s1 & _ & E).
  apply bind_ok in E as (s2 & _ & E). case_match; [by injection E as <-|]. unfold hn_unlink_sync in E.
  apply bind_ok in E as (n0 & _ & E). apply bind_ok in E as (m1 & E1 & E). apply bind_ok in E as (n1 & _ & E).
  assert (Hz1 : empty_at z m1).
  { destruct (decide (h_type n0 = T_ZSET)); [apply bind_ok in E1 as (z' & _ & E1); by eapply clear_empty|by injection E1 as <-]. }
  case_decide; [apply bind_ok in E as (hm & _ & E); by eapply put_empty|by injection E as <-].
Qed.

Lemma insert_empty z hm m l hm' m' : empty_at z m -> hm_insert hm m l = Ok (hm', m') -> empty_at z m'.
Proof. apply hm_insert_inv; eauto using next_empty, release_empty. Qed.

(** Inversion of a step of a handler. *)
Lemma cmd_bind_inv {A B} (c : cmdM A) (k : A -> cmdM B) w b w2 :
  (x ← c; k x) w = Ok (b, w2) -> exists a w1, c w = Ok (a, w1) /\ k a w1 = Ok (b, w2).
Proof. unfold mbind, cmd_bind. destruct (c w) as [[a w1]|] eqn:E; [|done]. intros H. by exists a, w1. Qed.

Lemma new_zset_empty w M key kb l w' :
  db_ok w M -> dstr_rep key kb -> short_key kb -> M !! key_id kb = None ->
  find_or_create key T_ZSET w = Ok (l, w') -> empty_at (Pos.succ l) (w_mem w').
Proof.
  intros Hdb Hk Hs Hq E. unfold find_or_create in E. erewrite cmd_step in E by (by eapply lookup_key_ok). rewrite Hq in E.
  apply cmd_bind_inv in E as (l1 & w1 & Ec & E). apply cmd_bind_inv in E as ([] & w2 & Ei & E). injection E as -> ->.
  assert (Hz1 : empty_at (Pos.succ l) (w_mem w1)).
  { unfold create in Ec. erewrite cmd_step in Ec by (apply lift_ok; by apply rep_bytes). erewrite cmd_step in Ec by reflexivity.
    destruct (node_init_ok kb T_ZSET (Pos.succ (m_fresh (w_mem w))) Hs) as (n & En & _).
    destruct (new_node_eq (w_mem w) kb T_ZSET n En) as (m & Em & _ & Hz & _).
    erewrite cmd_step in Ec by (by apply lift_ok). injection Ec as <- <-. unfold empty_at. cbn [w_mem].
    rewrite Hz, decide_True by done. apply lookup_insert_eq. }
  unfold insert_db in Ei. do 2 (erewrite cmd_step in Ei by reflexivity). apply cmd_bind_inv in Ei as ([hm m] & w3 & El & Ei).
  unfold lift in El. apply bind_ok in El as ([hm1 m1] & El & Ew). injection Ew as <- <- <-.
  cbn in Ei. injection Ei as <-. cbn. by eapply insert_empty.
Qed.

Lemma empty_zset_rep m z : empty_at z m -> zset_rep m z Leaf ∅.
Proof.
  intros Hz. split; cbn; try done; try (by intros x ?%elem_of_nil); [|constructor|constructor].
  exists hmap_empty. split; [done|]. split; [apply hm_empty_rep|]. intros q l Hq. by rewrite lookup_empty in Hq.
Qed.

(** The node of the set, created if the key is new. *)
Lemma find_scores_ok w M key kb V :
  db_ok w M -> Z.of_nat (size M) + 1 < 2 ^ 60 -> dstr_rep key kb -> short_key kb -> scores_of (w_mem w) M (key_id kb) V ->
  exists w' l z t N, find_or_create key T_ZSET w = Ok (l, w') /\ db_ok w' (<[key_id kb := l]> M) /\
    w_out w' = w_out w /\ w_heap w' = w_heap w /\ zset_key (w_mem w') l z t N /\ zset_view (w_mem w') N = V /\
    (is_Some (M !! key_id kb) -> w' = w /\ M !! key_id kb = Some l).
Proof.
  intros Hdb Hsz Hk Hs HV. unfold scores_of in HV.
  destruct (find_or_create_ok w M key kb T_ZSET Hdb Hsz Hk Hs) as (w' & l & E & Hdb' & Ho & Hh & _ & Hcase).
  exists w', l. destruct (M !! key_id kb) as [l0|] eqn:Hq.
  - destruct Hcase as [-> ->]. destruct HV as (z & t & N & Hzk & ->). exists z, t, N. by split_and!.
  - destruct Hcase as [_ (n0 & n & En & Hn & Hc & Hobs)]. subst V.
    destruct (node_init_ok kb T_ZSET (Pos.succ l) Hs) as (n1 & En1 & _ & _ & _ & Ht & _ & _ & Hz & _).
    rewrite En in En1. injection En1 as <-. pose proof (new_zset_empty _ _ _ _ _ _ Hdb Hk Hs Hq E) as Hemp.
    exists (Pos.succ l), Leaf, ∅. split_and!; try done.
    + split; [|by apply empty_zset_rep]. exists n. split; [done|]. split.
      * rewrite <- Ht. by apply (f_equal h_type) in Hc.
      * rewrite <- (Hz eq_refl). by apply (f_equal h_zset) in Hc.
Qed.

(** ** The handlers *)

Lemma arg_double_ok cmd i d s w :
  cmd !! i = Some d -> c_str (d_buf d) = Ok s -> arg_double cmd i w = Ok (strtod s, w).
Proof. intros Hi Hs. unfold arg_double. cstep arg_ok. erewrite cmd_step by (by apply lift_ok). done. Qed.

Lemma do_zadd_ok w M cmd key kb dsc s member mb V :
  db_ok w M -> Z.of_nat (size M) + 1 < 2 ^ 60 -> cmd !! 1%nat = Some key -> dstr_rep key kb -> short_key kb ->
  cmd !! 2%nat = Some dsc -> c_str (d_buf dsc) = Ok s -> d_nan (strtod s) = false ->
  cmd !! 3%nat = Some member -> dstr_rep member mb -> short_key mb ->
  scores_of (w_mem w) M (key_id kb) V -> Z.of_nat (size V) + 1 < 2 ^ 31 ->
  exists w' l, do_zadd cmd w = Ok (SUCCESS, w') /\
    w_out w' = out_int (w_out w) (if V !! key_id mb is Some _ then 0 else 1) /\ w_heap w' = w_heap w /\
    db_ok w' (<[key_id kb := l]> M) /\ scores_of (w_mem w') (<[key_id kb := l]> M) (key_id kb) (<[key_id mb := (strtod s, mb)]> V) /\
    (is_Some (M !! key_id kb) -> M !! key_id kb = Some l /\
       (forall x, x ∈ vals M -> m_hnodes (w_mem w') !! x = m_hnodes (w_mem w) !! x) /\
       forall q V', q <> key_id kb -> scores_of (w_mem w) M q V' -> scores_of (w_mem w') M q V').
Proof.
  intros Hdb Hsz H1 Hk Hs H2 Hsc Hnan H3 Hm Hsm HV HVs.
  destruct (find_scores_ok w M key kb V Hdb Hsz Hk Hs HV) as (w1 & l & z & t & N & E & Hdb1 & Ho & Hh & Hzk & Hview & Hsame).
  destruct (zk_node _ _ _ _ _ Hzk) as (n & Hn & Hty & Hzn). pose proof (zk_rep _ _ _ _ _ Hzk) as HR.
  destruct (zset_insert_ok (w_mem w1) z t N (strtod s) mb HR (db_fresh _ _ Hdb1) Hsm Hnan) as (m' & t' & Ei & HR' & Hf' & Hv' & HU & Hsub).
  { rewrite (rep_cnt _ _ _ _ HR), Hview. lia. }
  fold (key_id mb) in *. rewrite Hview in Hv'.
  assert (Hl : l ∈ vals (<[key_id kb := l]> M)) by (apply elem_of_vals; exists (key_id kb); apply lookup_insert_eq).
  destruct (zset_change_db w1 _ l z t N m' t' _ Hdb1 Hl Hzk HR' Hf' HU Hsub) as (Hdb2 & Hzk' & Hnodes & Hothers).
  set (r := if bool_decide (N !! key_id mb = None) then 1 else 0).
  assert (Hr : r = if V !! key_id mb is Some _ then 0 else 1).
  { unfold r. rewrite <- Hview. unfold zset_view. rewrite lookup_omap. destruct (N !! key_id mb) as [x|] eqn:Hx; [|done].
    assert (Hin : x ∈ inorder t) by (rewrite <- (zr_vals _ _ _ _ HR); apply elem_of_vals; by eexists).
    destruct (zr_members _ _ _ _ HR x Hin) as (zn & kz & Hz & Hrz & _). cbn. by rewrite (member_spec _ _ _ _ Hz Hrz). }
  exists (with_out (out_int (w_out w) r) (with_mem m' w1)), l. split_and!.
  - unfold do_zadd. cstep arg_ok. erewrite cmd_step by (by eapply arg_double_ok). cstep arg_ok. erewrite cmd_step by exact E.
    cstep node_ok. rewrite decide_True by done. cstep @field_ok. erewrite cmd_step by (apply lift_ok; by apply rep_bytes).
    erewrite cmd_step by reflexivity. erewrite cmd_step by (apply lift_ok; exact Ei). cbn beta iota.
    do 2 (erewrite cmd_step by reflexivity). cbn [w_out]. by rewrite Ho.
  - cbn. by rewrite Hr.
  - exact Hh.
  - by destruct Hdb2.
  - unfold scores_of. rewrite lookup_insert_eq. exists z, t', (<[key_id mb := m_fresh (w_mem w1)]> N).
    split; [exact Hzk'|]. symmetry. exact Hv'.
  - intros Hex. destruct (Hsame Hex) as [-> Hl0]. split; [done|]. rewrite insert_id in * by done. split; [done|].
    intros q V' Hq HV'. unfold scores_of in *. cbn. destruct (M !! q) as [l2|] eqn:Hq2; [|done].
    destruct HV' as (z2 & t2 & N2 & Hk2 & ->). exists z2, t2, N2. destruct (Hothers l2 z2 t2 N2) as [? ->]; try done.
    + apply elem_of_vals. by eexists.
    + intros ->. apply Hq. by eapply (db_inj w).
Qed.

Lemma find_zset_ok w M key kb l z t N :
  db_ok w M -> dstr_rep key kb -> short_key kb -> M !! key_id kb = Some l -> zset_key (w_mem w) l z t N ->
  find_zset key w = Ok (ZAt z, w).
Proof.
  intros Hdb Hk Hs Hl [(n & Hn & Hty & Hzn) _]. unfold find_zset. erewrite cmd_step by (by eapply lookup_key_ok).
  rewrite Hl. cstep node_ok. rewrite decide_True by done. by cstep @field_ok.
Qed.

Lemma lookup_member_ok w z t N member mb :
  zset_rep (w_mem w) z t N -> dstr_rep member mb -> short_key mb ->
  lookup_member (ZAt z) member w = Ok (N !! key_id mb, w).
Proof.
  intros HR Hm Hs. destruct (zr_set _ _ _ _ HR) as (hm & Hzs & _). unfold lookup_member. erewrite cmd_step by reflexivity.
  erewrite cmd_step by (apply lift_ok; cbn; by apply deref_some). erewrite cmd_step by (apply lift_ok; by apply rep_bytes).
  apply lift_ok. by eapply zset_lookup_ok.
Qed.

Lemma no_member w member mb : dstr_rep member mb -> lookup_member ZEmpty member w = Ok (None, w).
Proof.
  intros Hm. unfold lookup_member. do 2 (erewrite cmd_step by reflexivity).
  erewrite cmd_step by (apply lift_ok; by apply rep_bytes). done.
Qed.

Lemma do_zscore_ok w M cmd key kb member mb V :
  db_ok w M -> cmd !! 1%nat = Some key -> dstr_rep key kb -> short_key kb ->
  cmd !! 2%nat = Some member -> dstr_rep member mb -> short_key mb -> scores_of (w_mem w) M (key_id kb) V ->
  do_zscore cmd w = Ok (SUCCESS, with_out (match V !! key_id mb with
                                           | Some (score, _) => out_double (w_out w) score
                                           | None => out_null (w_out w)
                                           end) w).
Proof.
  intros Hdb H1 Hk Hs H2 Hm Hsm HV. unfold scores_of in HV. unfold do_zscore. cstep arg_ok. cstep arg_ok.
  destruct (M !! key_id kb) as [l|] eqn:Hl.
  - destruct HV as (z & t & N & Hzk & ->). erewrite cmd_step by (by eapply find_zset_ok).
    pose proof (zk_rep _ _ _ _ _ Hzk) as HR. erewrite cmd_step by (by eapply lookup_member_ok).
    unfold zset_view. rewrite lookup_omap. destruct (N !! key_id mb) as [x|] eqn:Hx; [|done].
    assert (Hin : x ∈ inorder t) by (rewrite <- (zr_vals _ _ _ _ HR); apply elem_of_vals; by eexists).
    destruct (zr_members _ _ _ _ HR x Hin) as (zn & kz & Hz & Hrz & _). cbn. rewrite (member_spec _ _ _ _ Hz Hrz).
    erewrite cmd_step by reflexivity. erewrite cmd_step by (apply lift_ok; by apply deref_some). done.
  - subst V. rewrite (cmd_step _ _ w ZEmpty w).
    2: { unfold find_zset. erewrite cmd_step by (by eapply lookup_key_ok). by rewrite Hl. }
    erewrite cmd_step by (by eapply no_member). by rewrite lookup_empty.
Qed.

Lemma do_zrem_ok w M cmd key kb member mb V :
  db_ok w M -> cmd !! 1%nat = Some key -> dstr_rep key kb -> short_key kb ->
  cmd !! 2%nat = Some member -> dstr_rep member mb -> short_key mb -> scores_of (w_mem w) M (key_id kb) V ->
  Z.of_nat (size V) < 2 ^ 31 ->
  exists w', do_zrem cmd w = Ok (SUCCESS, w') /\
    w_out w' = out_int (w_out w) (if V !! key_id mb is Some _ then 1 else 0) /\ w_heap w' = w_heap w /\
    db_ok w' M /\ scores_of (w_mem w') M (key_id kb) (delete (key_id mb) V) /\
    (forall x, x ∈ vals M -> m_hnodes (w_mem w') !! x = m_hnodes (w_mem w) !! x) /\
    forall q V', q <> key_id kb -> scores_of (w_mem w) M q V' -> scores_of (w_mem w') M q V'.
Proof.
  intros Hdb H1 Hk Hs H2 Hm Hsm HV HVs.
  assert (Hnone : V !! key_id mb = None -> forall r, lookup_member r member w = Ok (None, w) -> find_zset key w = Ok (r, w) ->
    exists w', do_zrem cmd w = Ok (SUCCESS, w') /\
    w_out w' = out_int (w_out w) (if V !! key_id mb is Some _ then 1 else 0) /\ w_heap w' = w_heap w /\
    db_ok w' M /\ scores_of (w_mem w') M (key_id kb) (delete (key_id mb) V) /\
    (forall x, x ∈ vals M -> m_hnodes (w_mem w') !! x = m_hnodes (w_mem w) !! x) /\
    forall q V', q <> key_id kb -> scores_of (w_mem w) M q V' -> scores_of (w_mem w') M q V').
  { intros Hn r Er Ef. exists (with_out (out_int (w_out w) 0) w). unfold do_zrem. cstep arg_ok. cstep arg_ok.
    erewrite cmd_step by exact Ef. erewrite cmd_step by exact Er. rewrite Hn, delete_id by done.
    split_and!; try done. by destruct Hdb. }
  unfold scores_of in HV. destruct (M !! key_id kb) as [l|] eqn:Hl.
  - destruct HV as (z & t & N & Hzk & ->). pose proof (zk_rep _ _ _ _ _ Hzk) as HR.
    pose proof (find_zset_ok w M key kb l z t N Hdb Hk Hs Hl Hzk) as Ef.
    pose proof (lookup_member_ok w z t N member mb HR Hm Hsm) as Em.
    destruct (N !! key_id mb) as [x|] eqn:Hx.
    2: { apply (Hnone ltac:(unfold zset_view; by rewrite lookup_omap, Hx) (ZAt z)); done. }
    clear Hnone. assert (Hin : x ∈ inorder t) by (rewrite <- (zr_vals _ _ _ _ HR); apply elem_of_vals; by eexists).
    destruct (zr_members _ _ _ _ HR x Hin) as (zn & kz & Hz & Hrz & _).
    rewrite (view_lookup _ _ _ _ _ Hx (member_spec _ _ _ _ Hz Hrz)).
    destruct (zset_delete_ok _ _ _ _ _ HR Hin) as (m' & t' & q' & Ed & HR' & Hq' & Hw & HU & Hfr & Hz').
    { rewrite (rep_cnt _ _ _ _ HR). lia. }
    rewrite (rep_inj _ _ _ _ q' (key_id mb) x HR Hq' Hx) in *.
    pose proof (zset_delete_fresh _ _ _ _ _ HR HU Hfr (db_fresh _ _ Hdb)) as Hf'.
    destruct (zset_change_db w M l z t N m' t' (delete (key_id mb) N)) as (Hdb' & Hzk' & Hnodes & Hothers); try done.
    { apply elem_of_vals. by eexists. }
    { eapply untouched_weaken; [exact HU|]. set_solver. }
    { intros y Hy. apply list_elem_of_further. rewrite (without_perm _ _ _ Hw). by apply list_elem_of_further. }
    exists (with_out (out_int (w_out w) 1) (with_mem m' w)). split_and!; try done.
    + unfold do_zrem. cstep arg_ok. cstep arg_ok. erewrite cmd_step by exact Ef. erewrite cmd_step by exact Em.
      cbn beta iota. erewrite cmd_step by reflexivity. erewrite cmd_step by (apply lift_ok; exact Ed). done.
    + by destruct Hdb'.
    + unfold scores_of. rewrite Hl. exists z, t', (delete (key_id mb) N). split; [exact Hzk'|].
      symmetry. by eapply zset_view_delete.
    + intros q V' Hq HV'. unfold scores_of in *. cbn. destruct (M !! q) as [l2|] eqn:Hq2; [|done].
      destruct HV' as (z2 & t2 & N2 & Hk2 & ->). exists z2, t2, N2. destruct (Hothers l2 z2 t2 N2) as [? ->]; try done.
      * apply elem_of_vals. by eexists.
      * intros ->. apply Hq. by eapply (db_inj w).
  - subst V. apply (Hnone (lookup_empty _) ZEmpty); [by eapply no_member|].
    unfold find_zset. erewrite cmd_step by (by eapply lookup_key_ok). by rewrite Hl.
Qed.

(** ** ZQUERY *)

(** The members in the order of the tree. *)
Definition in_order (m : Mem) (t : tree) (ms : list member) : Prop :=
  Forall2 (fun x p => member_of m x = Some p) (inorder t) ms.

Lemma in_order_exists m z t N : zset_rep m z t N -> exists ms, in_order m t ms.
Proof.
  intros HR. unfold in_order. pose proof (zr_members _ _ _ _ HR) as Hm. induction (inorder t) as [|x xs IH]; [by exists []|].
  destruct IH as [ms Hms]; [intros y Hy; apply Hm; by apply list_elem_of_further|].
  destruct (Hm x) as (zn & kb & Hz & Hr & _); [apply list_elem_of_here|]. exists ((zn_score zn, kb) :: ms).
  constructor; [by apply member_spec|done].
Qed.

Lemma in_order_sorted m z t N ms :
  zset_rep m z t N -> in_order m t ms -> StronglySorted (fun p q => member_lt p q = true) ms.
Proof.
  intros HR Hms. pose proof (zr_sorted _ _ _ _ HR) as Hs. unfold in_order in Hms. revert Hs.
  induction Hms as [|x p xs ms Hx Hms IH]; intros Hs; [constructor|]. apply StronglySorted_inv in Hs as [Hs Hall].
  constructor; [by apply IH|]. clear -Hx Hms Hall. induction Hms as [|y q ys qs Hy _ IH]; [constructor|].
  apply Forall_cons in Hall as [(p' & q' & Hp' & Hq' & Hlt) Hall]. constructor; [|by apply IH]. congruence.
Qed.

Lemma view_vals (m : Mem) (N : gmap (Z * list Z) loc) : (map_to_list (zset_view m N)).*2 ≡ₚ omap (member_of m) (vals N).
Proof.
  unfold zset_view. induction N as [|q x N Hq IH] using map_ind.
  { unfold vals. by rewrite omap_empty, !map_to_list_empty. }
  rewrite (omap_Permutation _ _ _ (vals_insert N q x Hq)). cbn [omap list_omap].
  destruct (member_of m x) as [p|] eqn:Hp.
  - rewrite (omap_insert_Some (M := gmap (Z * list Z)) (member_of m) N q x p Hp), map_to_list_insert.
    + cbn. by rewrite IH.
    + by rewrite lookup_omap, Hq.
  - rewrite (omap_insert_None (M := gmap (Z * list Z)) (member_of m) N q x Hp), delete_id by (by rewrite lookup_omap, Hq). done.
Qed.

Lemma in_order_perm m z t N ms : zset_rep m z t N -> in_order m t ms -> ms ≡ₚ (map_to_list (zset_view m N)).*2.
Proof.
  intros HR Hms. rewrite view_vals, (omap_Permutation _ _ _ (zr_vals _ _ _ _ HR)).
  unfold in_order in Hms. induction Hms as [|x p xs ms Hx _ IH]; [done|]. cbn [omap list_omap]. rewrite Hx. by constructor.
Qed.

Definition pair_items (p : member) : list item := [IDbl p.1; IStr p.2].

Lemma range_loop_ok z t N ms limit fuel i sz w :
  zset_rep (w_mem w) z t N -> in_order (w_mem w) t ms -> cnt t < 2 ^ 30 -> (length ms - i <= fuel)%nat ->
  0 <= sz -> sz + 2 * Z.of_nat (length ms - i) < 2 ^ 32 ->
  let page := take (Z.to_nat ((limit - sz + 1) / 2)) (drop i ms) in
  range_loop fuel (inorder t !! i) sz limit w
  = Ok (sz + 2 * Z.of_nat (length page), with_out (w_out w ++ items_bytes (concat (pair_items <$> page))) w).
Proof.
  intros HR Hms Hc. pose proof (Forall2_length _ _ _ Hms) as Hlen. revert i sz w HR Hms.
  induction fuel as [|fuel IH]; intros i sz w HR Hms Hf Hsz Hlim page.
  - rewrite lookup_ge_None_2 by lia. unfold page. rewrite drop_ge, take_nil by lia. cbn.
    unfold items_bytes. cbn. rewrite app_nil_r, Z.add_0_r. by destruct w.
  - destruct (inorder t !! i) as [x|] eqn:Hx.
    2: { apply lookup_ge_None in Hx. unfold page. rewrite drop_ge, take_nil by lia. cbn.
         unfold items_bytes. cbn. rewrite app_nil_r, Z.add_0_r. by destruct w. }
    destruct (Forall2_lookup_l _ _ _ _ _ Hms Hx) as ([s kb] & Hp & Hmem). cbn [range_loop].
    destruct (Z.ltb_spec sz limit) as [Hlt|Hge].
    2: { unfold page. replace (Z.to_nat ((limit - sz + 1) / 2)) with 0%nat.
         - cbn. unfold items_bytes. cbn. rewrite app_nil_r, Z.add_0_r. by destruct w.
         - symmetry. apply Z2Nat.nonpos. apply Z.lt_succ_r, Z.div_lt_upper_bound; lia. }
    pose proof (list_elem_of_lookup_2 _ _ _ Hx) as Hin.
    destruct (zr_members _ _ _ _ HR x Hin) as (zn & kz & Hz & Hr & Hsk & _).
    rewrite (member_spec _ _ _ _ Hz Hr) in Hmem. injection Hmem as <- <-.
    pose proof (lookup_lt_Some _ _ _ Hp) as Hi.
    erewrite cmd_step by reflexivity. erewrite cmd_step by (apply lift_ok; by apply deref_some).
    erewrite cmd_step by reflexivity. erewrite cmd_step by (by apply out_dstr_ok).
    erewrite cmd_step by (apply lift_ok; eapply zset_offset_ok; [exact HR|exact Hx|done]).
    unfold nth_z. zbool. replace (Z.to_nat (Z.of_nat i + 1)) with (S i) by lia. rewrite u32_small by lia.
    rewrite IH; [|done|done|lia|lia|lia]. cbn zeta.
    assert (Hpage : page = (zn_score zn, kz) :: take (Z.to_nat ((limit - (sz + 2) + 1) / 2)) (drop (S i) ms)).
    { unfold page. rewrite (drop_S ms _ i Hp). replace (limit - sz + 1) with (limit - (sz + 2) + 1 + 1 * 2) by lia.
      rewrite Z.div_add by lia. assert (0 <= (limit - (sz + 2) + 1) / 2) by (apply Z.div_pos; lia).
      replace (Z.to_nat ((limit - (sz + 2) + 1) / 2 + 1)) with (S (Z.to_nat ((limit - (sz + 2) + 1) / 2))) by lia. done. }
    rewrite Hpage. set (rest := take _ (drop (S i) ms)). f_equal. f_equal.
    { cbn [length]. lia. }
    unfold with_out. cbn [w_db w_heap w_mem w_out]. f_equal. unfold short_key in Hsk. rewrite max_str_size_eq in Hsk.
    rewrite out_str_eq, out_double_eq by lia. cbn [fmap list_fmap concat pair_items fst snd app].
    rewrite !items_bytes_cons. by rewrite <- !app_assoc.
Qed.

(** The arguments of ZQUERY. *)
Inductive query_args : list dstr -> Z -> Z -> Prop :=
  | query_all c key sc k : query_args [c; key; sc; k] 0 (2 ^ 32 - 1)
  | query_from c key sc k a sa :
      c_str (d_buf a) = Ok sa -> query_args [c; key; sc; k; a] (s32 (strtol sa)) (2 ^ 32 - 1)
  | query_page c key sc k a b sa sb :
      c_str (d_buf a) = Ok sa -> c_str (d_buf b) = Ok sb ->
      query_args [c; key; sc; k; a; b] (s32 (strtol sa)) (u32 (strtol sb)).

Lemma query_args_ok cmd offset limit w :
  query_args cmd offset limit ->
  exists o n, (if (4 <? length cmd)%nat then arg_int cmd 4 else mret 0) w = Ok (o, w) /\
    (if (5 <? length cmd)%nat then arg_int cmd 5 else mret (2 ^ 32 - 1)) w = Ok (n, w) /\ s32 o = offset /\ u32 n = limit.
Proof.
  intros [c key sc kk|c key sc kk a sa Ha|c key sc kk a b sa sb Ha Hb]; cbn [length Nat.ltb Nat.leb].
  - by exists 0, (2 ^ 32 - 1).
  - exists (strtol sa), (2 ^ 32 - 1). by split; [eapply arg_int_ok|].
  - exists (strtol sa), (strtol sb). by split_and!; [eapply arg_int_ok|eapply arg_int_ok|..].
Qed.

(** The members that ZQUERY returns: from [offset] places behind the first one
    that is not below [q], at most [limit] scores and keys, a member being two
    of them. *)
Definition page (ms : list member) (q : member) (offset limit : Z) : list member :=
  let i := Z.of_nat (length (filter (fun p => member_lt p q = true) ms)) in
  if (i <? Z.of_nat (length ms)) && (0 <=? i + offset)
  then take (Z.to_nat ((limit + 1) / 2)) (drop (Z.to_nat (i + offset)) ms) else [].

(** The index of the lower bound. *)
Lemma bound_index m t ms q a b :
  in_order m t ms -> inorder t = a ++ b ->
  (forall x, x ∈ a -> exists p, member_of m x = Some p /\ member_lt p q = true) ->
  (forall x, x ∈ b -> exists p, member_of m x = Some p /\ member_lt p q = false) ->
  length (filter (fun p => member_lt p q = true) ms) = length a.
Proof.
  unfold in_order. intros Hms Ht Ha Hb. rewrite Ht in Hms. clear Ht.
  apply Forall2_app_inv_l in Hms as (ma & mb & Hma & Hmb & ->).
  rewrite filter_app, length_app. rewrite <- (Nat.add_0_r (length a)). f_equal.
  - clear Hmb Hb. induction Hma as [|x p xs ms Hx _ IH]; [done|].
    destruct (Ha x) as (p' & Hp' & Hlt); [apply list_elem_of_here|]. rewrite filter_cons_True by congruence. cbn.
    f_equal. apply IH. intros y Hy. apply Ha. by apply list_elem_of_further.
  - clear Hma Ha. induction Hmb as [|x p xs ms Hx _ IH]; [done|].
    destruct (Hb x) as (p' & Hp' & Hlt); [apply list_elem_of_here|]. rewrite filter_cons_False by congruence.
    apply IH. intros y Hy. apply Hb. by apply list_elem_of_further.
Qed.

Lemma patch_ok o n its :
  0 <= n < 2 ^ 32 ->
  patch_u32 (snd (out_unknown_arr o)) n (fst (out_unknown_arr o) ++ items_bytes its)
  = Ok (o ++ items_bytes (IArr n :: its)).
Proof.
  intros Hn. unfold out_unknown_arr. cbn [fst snd]. rewrite buf_append_u32_eq. unfold buf_append_u8, patch_u32.
  rewrite !length_app. cbn [length]. rewrite le_bytes_length. zbool. cbn [andb].
  replace (Z.to_nat _) with (length (o ++ [tag_byte TAG_ARR])) by (rewrite length_app; cbn; lia).
  set (p := o ++ [tag_byte TAG_ARR]). rewrite inserts_split by (rewrite !length_app, !le_bytes_length; lia).
  rewrite le_bytes_length. replace (drop _ _) with (items_bytes its).
  - rewrite <- app_assoc, take_app_length, items_bytes_cons. cbn [item_bytes]. unfold p. f_equal. by rewrite <- !app_assoc.
  - rewrite <- (drop_app_length (p ++ le_bytes 4 0)) at 1. by rewrite length_app, le_bytes_length.
Qed.

(** ZQUERY after the search for the lower bound. *)
Definition query_tail (m : Mem) (offset limit : Z) (lb : ptr) : cmdM RETURN_VALS :=
  match lb with
  | None => _ ← out (fun o => out_arr o 0); mret SUCCESS
  | Some lb =>
      znode ← lift (zset_offset m lb offset);
      size_pos ← (fun w => Ok (snd (out_unknown_arr (w_out w)), w)) : cmdM Z;
      _ ← out (fun o => fst (out_unknown_arr o));
      size ← range_loop (size (m_avl m)) znode 0 limit;
      _ ← out_r (patch_u32 size_pos size);
      mret SUCCESS
  end.

Lemma zquery_bound w cmd key dsc s kl klb offset limit r zs lb :
  cmd !! 1%nat = Some key -> cmd !! 2%nat = Some dsc -> c_str (d_buf dsc) = Ok s -> cmd !! 3%nat = Some kl ->
  dstr_rep kl klb -> query_args cmd offset limit -> find_zset key w = Ok (r, w) -> zset_of (w_mem w) r = Ok zs ->
  zset_lower_bound (w_mem w) zs (strtod s) klb = Ok lb ->
  do_zrangequery cmd w = query_tail (w_mem w) offset limit lb w.
Proof.
  intros H1 H2 Hsc H3 Hkl Hargs Ef Ez El. destruct (query_args_ok cmd offset limit w Hargs) as (o & n & E4 & E5 & Eo & En).
  unfold do_zrangequery. cstep arg_ok. erewrite cmd_step by (by eapply arg_double_ok). cstep arg_ok. cbn zeta.
  erewrite cmd_step by exact E4. erewrite cmd_step by exact E5. rewrite Eo, En.
  erewrite cmd_step by exact Ef. erewrite cmd_step by reflexivity. erewrite cmd_step by (apply lift_ok; exact Ez).
  erewrite cmd_step by (apply lift_ok; by apply rep_bytes). by erewrite cmd_step by (apply lift_ok; exact El).
Qed.

(** The reply: an array with the scores and keys of the page. *)
Definition page_reply (pg : list member) : list Z :=
  items_bytes (IArr (2 * Z.of_nat (length pg)) :: concat (pair_items <$> pg)).

(** The page that starts [offset] members after the lower bound [x]. *)
Lemma query_tail_page w z t N ms a x b q offset limit :
  zset_rep (w_mem w) z t N -> in_order (w_mem w) t ms -> cnt t < 2 ^ 30 -> 0 <= limit < 2 ^ 32 ->
  inorder t = a ++ x :: b -> length (filter (fun p => member_lt p q = true) ms) = length a ->
  query_tail (w_mem w) offset limit (Some x) w
  = Ok (SUCCESS, with_out (w_out w ++ page_reply (page ms q offset limit)) w).
Proof.
  intros HR Hms Hc Hlim Hab Hidx. pose proof (Forall2_length _ _ _ Hms) as Hlen.
  assert (Hml : length ms = (length a + S (length b))%nat) by (rewrite <- Hlen, Hab; apply length_app).
  assert (Hcl : cnt t = Z.of_nat (length ms)) by (by rewrite cnt_length, Hlen).
  assert (Hx : inorder t !! length a = Some x) by (rewrite Hab; by apply list_lookup_middle).
  cbn [query_tail]. erewrite cmd_step by (apply lift_ok; eapply zset_offset_ok; [exact HR|exact Hx|lia]).
  do 2 (erewrite cmd_step by reflexivity). set (w1 := with_out (fst (out_unknown_arr (w_out w))) w).
  set (pg := page ms q offset limit).
  assert (Hloop : range_loop (size (m_avl (w_mem w))) (nth_z (inorder t) (Z.of_nat (length a) + offset)) 0 limit w1
    = Ok (2 * Z.of_nat (length pg), with_out (w_out w1 ++ items_bytes (concat (pair_items <$> pg))) w1)).
  { unfold pg, page, nth_z. rewrite Hidx. rewrite (proj2 (Z.ltb_lt _ _)) by lia. cbn [andb]. zcase.
    - rewrite (range_loop_ok z t N ms); try done; [by rewrite Z.sub_0_r| |lia].
      pose proof (keys_bound (m_avl (w_mem w)) (inorder t)
        (fun x => tree_at_live _ _ _ x (zr_tree _ _ _ _ HR)) (zr_nodup _ _ _ _ HR)). cbn. lia.
    - destruct (size (m_avl (w_mem w))); cbn; unfold items_bytes; cbn; rewrite app_nil_r; reflexivity. }
  erewrite cmd_step by exact Hloop. assert (Hpg : (length pg <= length ms)%nat).
  { unfold pg, page. destruct (_ && _); [|cbn; lia]. rewrite length_take, length_drop. lia. }
  erewrite cmd_step; [reflexivity|]. unfold out_r. cbn [w_out w1 with_out]. rewrite patch_ok by lia. done.
Qed.

Lemma query_tail_none m w offset limit :
  query_tail m offset limit None w = Ok (SUCCESS, with_out (w_out w ++ page_reply []) w).
Proof.
  cbn [query_tail]. erewrite cmd_step by reflexivity. unfold page_reply. cbn [length fmap list_fmap concat].
  rewrite items_bytes_cons, app_nil_r. by rewrite out_arr_eq by lia.
Qed.

Lemma do_zquery_ok w M cmd key kb dsc s kl klb offset limit V :
  db_ok w M -> cmd !! 1%nat = Some key -> dstr_rep key kb -> short_key kb ->
  cmd !! 2%nat = Some dsc -> c_str (d_buf dsc) = Ok s -> d_nan (strtod s) = false ->
  cmd !! 3%nat = Some kl -> dstr_rep kl klb -> query_args cmd offset limit ->
  scores_of (w_mem w) M (key_id kb) V -> Z.of_nat (size V) < 2 ^ 30 ->
  exists ms, StronglySorted (fun p q => member_lt p q = true) ms /\ ms ≡ₚ (map_to_list V).*2 /\
    let pg := page ms (strtod s, klb) offset limit in
    do_zrangequery cmd w
    = Ok (SUCCESS, with_out (w_out w ++ items_bytes (IArr (2 * Z.of_nat (length pg)) :: concat (pair_items <$> pg))) w).
Proof.
  intros Hdb H1 Hk Hs H2 Hsc Hnan H3 Hkl Hargs HV HVs. unfold scores_of in HV. cbn zeta.
  assert (Hlim : 0 <= limit < 2 ^ 32) by (destruct Hargs; [lia|lia|apply u32_range]).
  destruct (M !! key_id kb) as [l|] eqn:Hl.
  - destruct HV as (z & t & N & Hzk & ->). pose proof (zk_rep _ _ _ _ _ Hzk) as HR.
    destruct (in_order_exists _ _ _ _ HR) as [ms Hms]. exists ms.
    split; [by eapply in_order_sorted|]. split; [by eapply in_order_perm|].
    pose proof (find_zset_ok w M key kb l z t N Hdb Hk Hs Hl Hzk) as Ef.
    destruct (zr_set _ _ _ _ HR) as (hm & Hzs & _). pose proof (rep_cnt _ _ _ _ HR) as Hcnt.
    assert (Ez : zset_of (w_mem w) (ZAt z) = Ok (mkZSet (root_of t) hm)) by (by apply deref_some).
    destruct (zset_lower_bound_first _ _ _ _ _ (strtod s) klb HR Hzs Hnan) as (a & b & Hab & El & Ha & Hb).
    pose proof (bound_index _ _ _ _ a b Hms Hab Ha Hb) as Hidx.
    erewrite zquery_bound by eassumption. destruct b as [|x b]; cbn [head].
    + rewrite query_tail_none. unfold page. pose proof (Forall2_length _ _ _ Hms) as Hlen.
      rewrite Hidx, <- Hlen, Hab, app_nil_r, Z.ltb_irrefl. done.
    + apply (query_tail_page w z t N ms a x b); try done. lia.
  - subst V. exists []. split; [constructor|]. split; [by rewrite map_to_list_empty|].
    erewrite (zquery_bound w cmd key dsc s kl klb offset limit ZEmpty (mkZSet NULL hmap_empty) None); try done.
    + apply query_tail_none.
    + unfold find_zset. erewrite cmd_step by (by eapply lookup_key_ok). by rewrite Hl.
    + unfold zset_lower_bound. by destruct (size (m_avl (w_mem w))).
Qed.

(** ** Properties *)

(** C13: ZADD and ZSCORE.  ZADD of a number on a new key or on a sorted set
    replies 1 for a new member and 0 for an updated one, gives the member that
    score and changes no other member; after it ZSCORE replies the score of
    every member and NULL for every other string.  When the key was there, no
    other node of the database and no other sorted set changes. *)
Theorem zadd_zscore w M cmd key kb dsc s member mb V :
  db_ok w M -> Z.of_nat (size M) + 1 < 2 ^ 60 -> cmd !! 1%nat = Some key -> dstr_rep key kb -> short_key kb ->
  cmd !! 2%nat = Some dsc -> c_str (d_buf dsc) = Ok s -> d_nan (strtod s) = false ->
  cmd !! 3%nat = Some member -> dstr_rep member mb -> short_key mb ->
  scores_of (w_mem w) M (key_id kb) V -> Z.of_nat (size V) + 1 < 2 ^ 31 ->
  let V' := <[key_id mb := (strtod s, mb)]> V in
  exists w' l, do_zadd cmd w = Ok (SUCCESS, w') /\
    w_out w' = out_int (w_out w) (if V !! key_id mb is Some _ then 0 else 1) /\
    db_ok w' (<[key_id kb := l]> M) /\ scores_of (w_mem w') (<[key_id kb := l]> M) (key_id kb) V' /\
    (is_Some (M !! key_id kb) ->
       (forall x, x ∈ vals M -> m_hnodes (w_mem w') !! x = m_hnodes (w_mem w) !! x) /\
       forall q U, q <> key_id kb -> scores_of (w_mem w) M q U -> scores_of (w_mem w') M q U) /\
    forall c key' member' mb', dstr_rep key' kb -> dstr_rep member' mb' -> short_key mb' ->
      do_zscore [c; key'; member'] w'
      = Ok (SUCCESS, with_out (match V' !! key_id mb' with
                               | Some (score, _) => out_double (w_out w') score
                               | None => out_null (w_out w')
                               end) w').
Proof.
  intros Hdb Hsz H1 Hk Hs H2 Hsc Hnan H3 Hm Hsm HV HVs V'.
  destruct (do_zadd_ok w M cmd key kb dsc s member mb V) as (w' & l & E & Ho & _ & Hdb' & HV' & Hex); try done.
  exists w', l. split_and!; try done.
  - intros He. by apply Hex.
  - intros c key' member' mb' Hk' Hm' Hs'. by eapply do_zscore_ok.
Qed.

(** C15: ZREM removes exactly the member it names: it replies 1 and the set
    loses that member, or 0 when there is none; every other member, every
    other sorted set and every node of the database stay. *)
Theorem zrem_exact w M cmd key kb member mb V :
  db_ok w M -> cmd !! 1%nat = Some key -> dstr_rep key kb -> short_key kb ->
  cmd !! 2%nat = Some member -> dstr_rep member mb -> short_key mb -> scores_of (w_mem w) M (key_id kb) V ->
  Z.of_nat (size V) < 2 ^ 31 ->
  exists w', do_zrem cmd w = Ok (SUCCESS, w') /\
    w_out w' = out_int (w_out w) (if V !! key_id mb is Some _ then 1 else 0) /\
    db_ok w' M /\ scores_of (w_mem w') M (key_id kb) (delete (key_id mb) V) /\
    (forall x, x ∈ vals M -> m_hnodes (w_mem w') !! x = m_hnodes (w_mem w) !! x) /\
    forall q U, q <> key_id kb -> scores_of (w_mem w) M q U -> scores_of (w_mem w') M q U.
Proof.
  intros Hdb H1 Hk Hs H2 Hm Hsm HV HVs.
  destruct (do_zrem_ok w M cmd key kb member mb V) as (w' & E & Ho & _ & H); try done. exists w'. tauto.
Qed.

(** C14: ZQUERY.  On the set of a key, empty when the key is not there, the reply
    is one array: the scores and keys of the members of the page, that is of
    the members in their order from [offset] places behind the first one that is
    not below the given score and key, cut to [limit] values.  Nothing else
    changes. *)
Theorem zquery_exact w M cmd key kb dsc s kl klb offset limit V :
  db_ok w M -> cmd !! 1%nat = Some key -> dstr_rep key kb -> short_key kb ->
  cmd !! 2%nat = Some dsc -> c_str (d_buf dsc) = Ok s -> d_nan (strtod s) = false ->
  cmd !! 3%nat = Some kl -> dstr_rep kl klb -> query_args cmd offset limit ->
  scores_of (w_mem w) M (key_id kb) V -> Z.of_nat (size V) < 2 ^ 30 ->
  exists ms, StronglySorted (fun p q => member_lt p q = true) ms /\ ms ≡ₚ (map_to_list V).*2 /\
    let pg := page ms (strtod s, klb) offset limit in
    do_zrangequery cmd w
    = Ok (SUCCESS, with_out (w_out w ++ items_bytes (IArr (2 * Z.of_nat (length pg)) :: concat (pair_items <$> pg))) w).
Proof. apply do_zquery_ok. Qed.

(** The type of the node is checked, but not the result: ZSCORE, ZREM and
    ZQUERY on a key of another type follow the null pointer. *)
Theorem zscore_wrong_type w M c key kb member mb l n :
  db_ok w M -> dstr_rep key kb -> short_key kb -> M !! key_id kb = Some l -> m_hnodes (w_mem w) !! l = Some n ->
  h_type n <> T_ZSET -> dstr_rep member mb ->
  do_zscore [c; key; member] w = Fault NullDeref /\ do_zrem [c; key; member] w = Fault NullDeref.
Proof.
  intros Hdb Hk Hs Hl Hn Hty Hm.
  assert (Ef : find_zset key w = Ok (ZNull, w)).
  { unfold find_zset. erewrite cmd_step by (by eapply lookup_key_ok). rewrite Hl. cstep node_ok. by rewrite decide_False. }
  split; [unfold do_zscore|unfold do_zrem]; cstep arg_ok; cstep arg_ok; erewrite cmd_step by exact Ef; done.
Qed.

(** ** Witnesses *)

Definition zadd_cmd : list dstr := [exact_dstr (lit "zadd"); exact_dstr (lit "z"); exact_dstr (lit "1.5"); exact_dstr (lit "a")].

Lemma zadd_zscore_witness :
  exists w' l, do_zadd zadd_cmd w_empty = Ok (SUCCESS, w') /\ w_out w' = out_int [] 1 /\
    db_ok w' (<[key_id (lit "z") := l]> ∅) /\
    do_zscore [exact_dstr (lit "zscore"); exact_dstr (lit "z"); exact_dstr (lit "a")] w'
    = Ok (SUCCESS, with_out (out_double (w_out w') (strtod (lit "1.5"))) w').
Proof.
  destruct (zadd_zscore w_empty ∅ zadd_cmd (exact_dstr (lit "z")) (lit "z") (exact_dstr (lit "1.5")) (lit "1.5")
    (exact_dstr (lit "a")) (lit "a") ∅) as (w' & l & E & Ho & Hdb & _ & _ & Hget);
    [apply w_empty_ok|reflexivity|reflexivity|by apply exact_dstr_rep|by_compute|reflexivity|reflexivity|reflexivity|reflexivity|
     by apply exact_dstr_rep|by_compute|reflexivity|reflexivity|].
  exists w', l. split; [exact E|]. split; [exact Ho|]. split; [exact Hdb|].
  rewrite (Hget (exact_dstr (lit "zscore")) (exact_dstr (lit "z")) (exact_dstr (lit "a")) (lit "a"));
    [by rewrite lookup_insert_eq|by apply exact_dstr_rep|by apply exact_dstr_rep|by_compute].
Defined.

Definition z_db : World := match do_zadd zadd_cmd w_empty with Ok (_, w) => w | Fault _ => w_empty end.

Lemma z_db_scores : exists l, db_ok z_db (<[key_id (lit "z") := l]> ∅) /\
  scores_of (w_mem z_db) (<[key_id (lit "z") := l]> ∅) (key_id (lit "z")) (<[key_id (lit "a") := (strtod (lit "1.5"), lit "a")]> ∅).
Proof.
  destruct (do_zadd_ok w_empty ∅ zadd_cmd (exact_dstr (lit "z")) (lit "z") (exact_dstr (lit "1.5")) (lit "1.5")
    (exact_dstr (lit "a")) (lit "a") ∅) as (w' & l & E & _ & _ & Hdb & HV & _);
    [apply w_empty_ok|reflexivity|reflexivity|by apply exact_dstr_rep|by_compute|reflexivity|reflexivity|reflexivity|reflexivity|
     by apply exact_dstr_rep|by_compute|reflexivity|reflexivity|].
  exists l. unfold z_db. rewrite E. split; [exact Hdb|exact HV].
Qed.

Lemma zrem_exact_witness :
  exists w' l, do_zrem [exact_dstr (lit "zrem"); exact_dstr (lit "z"); exact_dstr (lit "a")] z_db = Ok (SUCCESS, w') /\
    scores_of (w_mem w') (<[key_id (lit "z") := l]> ∅) (key_id (lit "z")) ∅.
Proof.
  destruct z_db_scores as (l & Hdb & HV).
  destruct (zrem_exact z_db _ [exact_dstr (lit "zrem"); exact_dstr (lit "z"); exact_dstr (lit "a")] (exact_dstr (lit "z")) (lit "z")
    (exact_dstr (lit "a")) (lit "a") (<[key_id (lit "a") := (strtod (lit "1.5"), lit "a")]> ∅) Hdb) as (w' & E & _ & _ & HV' & _);
    [reflexivity|by apply exact_dstr_rep|by_compute|reflexivity|by apply exact_dstr_rep|by_compute|exact HV|by rewrite map_size_insert_None|].
  exists w', l. split; [exact E|]. by rewrite delete_insert_id in HV'.
Defined.

Definition zquery_cmd : list dstr := [exact_dstr (lit "zquery"); exact_dstr (lit "z"); exact_dstr (lit "1"); exact_dstr (lit "a")].

Lemma zquery_exact_witness :
  exists pg, do_zrangequery zquery_cmd z_db
    = Ok (SUCCESS, with_out (w_out z_db ++ items_bytes (IArr (2 * Z.of_nat (length pg)) :: concat (pair_items <$> pg))) z_db).
Proof.
  destruct z_db_scores as (l & Hdb & HV).
  destruct (zquery_exact z_db _ zquery_cmd (exact_dstr (lit "z")) (lit "z") (exact_dstr (lit "1")) (lit "1") (exact_dstr (lit "a"))
    (lit "a") 0 (2 ^ 32 - 1) (<[key_id (lit "a") := (strtod (lit "1.5"), lit "a")]> ∅) Hdb) as (ms & _ & _ & E);
    [reflexivity|by apply exact_dstr_rep|by_compute|reflexivity|reflexivity|reflexivity|reflexivity|by apply exact_dstr_rep|
     constructor|exact HV|by rewrite map_size_insert_None|].
  eexists. exact E.
Defined.
