(* ===== verification/Tables.v ===== *)
(** * Tables that are values of keys

    A hash and a set are tables of string nodes inside a node of the database
    ([src/src/redis_functions.cpp]).  A [slot] says which field of the node the
    table is in; the lemmas on inserting and deleting are proved once for every
    slot and used for HSET and HDEL, SADD and SREM. *)

From Stdlib Require Import String.
From S2P Require Import Prelude Libc Dstr Dlist Heap Hash Buffers Hashmap Avl Hll Node Zset Commands Keyspace Lists Scores.

(** ** Slots *)

Record slot := mkSlot {
  sl_type : EntryTypes;
  sl_get : HNode -> option HMap;
  sl_set : HMap -> HNode -> HNode
}.

Definition hash_slot : slot := mkSlot T_HSET h_hmap set_h_hmap.
Definition set_slot : slot := mkSlot T_SET h_set set_h_set.

(** What a slot promises: what is written is read back, and the database does not
    depend on it. *)
Class SlotOk (s : slot) : Prop := {
  sl_get_set : forall hm n, sl_get s (sl_set s hm n) = Some hm;
  sl_keeps_type : forall hm n, h_type (sl_set s hm n) = h_type n;
  sl_put : forall w M l n hm,
    db_ok w M -> l ∈ vals M -> m_hnodes (w_mem w) !! l = Some n -> db_ok (put_node l (sl_set s hm n) w) M
}.

(** The database when nodes outside of it were relinked. *)
Lemma links_db w M D m' :
  db_ok w M -> only_links D (w_mem w) m' -> (forall x, x ∈ D -> x ∉ vals M) -> fresh_ok m' -> db_ok (with_mem m' w) M.
Proof.
  intros [Hm (ot & oz & Hok) Hf] HO Hdis Hf'.
  assert (Hs : forall x, x ∈ vals M -> m_hnodes m' !! x = m_hnodes (w_mem w) !! x).
  { intros x Hx. apply (ol_nodes _ _ _ HO). intros Hd. by apply (Hdis x). }
  split; [| |done].
  - eapply hm_map_frame; [|exact Hm]. intros x Hx. apply ident_hnodes. by apply Hs.
  - exists ot, oz. intros x Hx. destruct (Hok x Hx) as (n & kb & Hn & H1 & H2 & H3 & Hz). exists n, kb. cbn [with_mem w_mem].
    rewrite Hs by done. do 4 (split; [done|]). intros Hty. destruct (Hz Hty) as (z & t & Hzn & Hoz & Hat & Hown).
    exists z, t. split_and!; try done. eapply zset_at_ext; [| |exact Hat].
    + by rewrite (ol_zsets _ _ _ HO).
    + intros y _. by rewrite (ol_avl _ _ _ HO), (ol_znodes _ _ _ HO).
Qed.

Lemma put_hmap_db w M l n hm :
  db_ok w M -> l ∈ vals M -> m_hnodes (w_mem w) !! l = Some n ->
  let w' := with_mem (with_hnodes (<[l := set_h_hmap hm n]> (m_hnodes (w_mem w))) (w_mem w)) w in
  db_ok w' M /\ forall x, mem_obs (w_mem w') x = mem_obs (w_mem w) x.
Proof.
  intros [Hm Hok Hf] Hl Hn w'. split; [split|].
  - eapply hm_map_frame; [|exact Hm]. intros x _. unfold ident. cbn.
    destruct (decide (x = l)) as [->|Hne]; [by rewrite lookup_insert_eq, Hn|by rewrite lookup_insert_ne].
  - destruct (put_hmap_ok (w_mem w) (vals M) l hm Hok Hl) as (m' & E & Hok' & _). unfold hput in E.
    rewrite (update_some _ _ _ _ Hn) in E. cbn [mbind result_bind] in E. by injection E as <-.
  - by eapply put_shape_fresh.
  - intros x. unfold mem_obs. cbn. destruct (decide (x = l)) as [->|Hne]; [by rewrite lookup_insert_eq, Hn|].
    by rewrite lookup_insert_ne.
Qed.

#[export] Instance hash_slot_ok : SlotOk hash_slot.
Proof. split; [done|done|]. intros w M l n hm Hdb Hl Hn. by apply put_hmap_db. Qed.

#[export] Instance set_slot_ok : SlotOk set_slot.
Proof. split; [done|done|]. intros w M l n hm Hdb Hl Hn. by apply (put_node_db _ _ _ n). Qed.

(** The commands on the table of a slot. *)
Definition insert_slot (s : slot) (l x : loc) : cmdM unit :=
  n ← node l; hm ← field (sl_get s n); m ← get_mem; '(hm, m) ← lift (hm_insert hm m x);
  _ ← set_mem m; set_node l (sl_set s hm).

Definition delete_slot (s : slot) (l : loc) (key : HKey) : cmdM Z :=
  n ← node l; hm ← field (sl_get s n); m ← get_mem; '(hm, m, deleted) ← lift (hm_delete hm m key true);
  _ ← set_mem m; _ ← set_node l (sl_set s hm); mret deleted.

Lemma insert_hmap_slot l x : insert_hmap l x = insert_slot hash_slot l x.
Proof. reflexivity. Qed.

Lemma insert_set_slot l x : insert_set l x = insert_slot set_slot l x.
Proof. reflexivity. Qed.

Lemma delete_hmap_slot l k : delete_hmap l k = delete_slot hash_slot l k.
Proof. reflexivity. Qed.

Lemma delete_set_slot l k : delete_set l k = delete_slot set_slot l k.
Proof. reflexivity. Qed.

(** ** Representation *)

(** The node [l] of a database with the nodes [D] holds the table [N]. *)
Record table_at (s : slot) (m : Mem) (D : list loc) (l : loc) (N : gmap (Z * list Z) loc) : Prop := mkTableAt {
  ta_node : exists n hm, m_hnodes m !! l = Some n /\ h_type n = sl_type s /\ sl_get s n = Some hm /\ hm_map m hm N;
  ta_entries : forall x, x ∈ vals N -> plain_node m x /\ x ∉ D
}.

(** What a change of the table of [l] leaves alone: the rest of the world, the
    entries [keep], and every node outside of [D] but the one of [l], whose table
    is replaced. *)
Record table_change (s : slot) (l : loc) (D keep : list loc) (w w' : World) : Prop := mkTableChange {
  tc_out : w_out w' = w_out w;
  tc_heap : w_heap w' = w_heap w;
  tc_keep : forall y, y ∈ keep -> member_obs (w_mem w') y = member_obs (w_mem w) y;
  tc_node : exists n hm, m_hnodes (w_mem w) !! l = Some n /\ m_hnodes (w_mem w') !! l = Some (sl_set s hm n);
  tc_rest : forall y, y <> l -> y ∉ D -> m_hnodes (w_mem w') !! y = m_hnodes (w_mem w) !! y
}.

(** The nodes of the other keys are as they were. *)
Definition others_same (w w' : World) (M : gmap (Z * list Z) loc) (l : loc) : Prop :=
  forall x, x ∈ vals M -> x <> l -> m_hnodes (w_mem w') !! x = m_hnodes (w_mem w) !! x.

Lemma change_others s l keep w w' M N :
  table_at s (w_mem w) (vals M) l N -> table_change s l (vals N) keep w w' -> others_same w w' M l.
Proof. intros [_ He] Hc x Hx Hne. apply (tc_rest _ _ _ _ _ _ Hc); [done|]. intros Hin. by apply (He x Hin). Qed.

Lemma plain_mem_ok m D : (forall x, x ∈ D -> plain_node m x) -> mem_ok m D.
Proof.
  intros H. exists id, id. intros x Hx. destruct (H x Hx) as (n & kb & Hn & Hh & Hk & Ht). exists n, kb.
  split; [done|]. split; [done|]. split; [done|]. by rewrite Ht.
Qed.

Lemma member_same m m' x : m_hnodes m' !! x = m_hnodes m !! x -> member_obs m' x = member_obs m x.
Proof. unfold member_obs. by intros ->. Qed.

(** A new entry of a table. *)
Lemma create_plain w M fld fb :
  db_ok w M -> dstr_rep fld fb -> short_key fb ->
  let x := m_fresh (w_mem w) in
  exists m n, create fld T_STR w = Ok (x, with_mem m w) /\ m_hnodes m !! x = Some n /\ db_ok (with_mem m w) M /\
    plain_node m x /\ ident m x = Some (key_id fb) /\ (x ∉ vals M) /\
    (forall y, y <> x -> m_hnodes m !! y = m_hnodes (w_mem w) !! y) /\ m_hnodes (w_mem w) !! x = None.
Proof.
  intros Hdb Hk Hs x.
  destruct (create_ok w M fld fb T_STR Hdb Hk Hs) as (m & n & Ec & En & Hn & _ & Hm & Hok & Hf & Hid & Hnew).
  fold x in Ec, En, Hn, Hok, Hid, Hnew. exists m, n.
  assert (Hx : m_hnodes m !! x = Some n) by (by rewrite Hn, lookup_insert_eq).
  destruct (node_init_ok fb T_STR (Pos.succ x) Hs) as (n' & En' & _ & Hh & Hkey & Hty & _).
  rewrite En in En'. injection En' as <-. split_and!; try done.
  - split; [done| |done]. apply (nd_ok_incl (NodeStoreOk := mem_nodes_ok) m (x :: vals M)); [done|]. intros y Hy. by apply list_elem_of_further.
  - exists n, fb. split_and!; try done; rewrite Hh; apply str_hash_u64.
  - intros y Hy. by rewrite Hn, lookup_insert_ne.
  - by destruct (db_fresh _ _ Hdb x) as (H & _).
Qed.

(** Maps over the same keys list the same keys. *)
Lemma same_keys {A B : Type} (m1 : gmap (Z * list Z) A) (m2 : gmap (Z * list Z) B) :
  (forall q, is_Some (m1 !! q) <-> is_Some (m2 !! q)) -> (fst <$> map_to_list m1) ≡ₚ (fst <$> map_to_list m2).
Proof.
  intros H. apply NoDup_Permutation; [apply NoDup_fst_map_to_list..|]. intros q. rewrite !list_elem_of_fmap. specialize (H q). split.
  - intros ([q' a] & -> & Ha%elem_of_map_to_list). destruct (proj1 H) as [b Hb]; [by eexists|]. exists (q', b).
    by rewrite elem_of_map_to_list.
  - intros ([q' b] & -> & Hb%elem_of_map_to_list). destruct (proj2 H) as [a Ha]; [by eexists|]. exists (q', a).
    by rewrite elem_of_map_to_list.
Qed.

(** ** Inserting and deleting *)

Section slot.
Context (s : slot) `{!SlotOk s}.

(** The table is written back to its node. *)
Lemma table_write w M l n hm0 hm m N D keep :
  db_ok w M -> l ∈ vals M -> m_hnodes (w_mem w) !! l = Some n -> h_type n = sl_type s -> sl_get s n = Some hm0 ->
  only_links D (w_mem w) m -> (forall x, x ∈ D -> x ∉ vals M) -> fresh_ok m -> hm_map m hm N -> vals N ⊆ D -> keep ⊆ D ->
  (forall x, x ∈ vals N -> plain_node m x) -> (forall x, x ∈ keep -> member_obs m x = member_obs (w_mem w) x) ->
  let w' := put_node l (sl_set s hm n) (with_mem m w) in
  db_ok w' M /\ table_at s (w_mem w') (vals M) l N /\ table_change s l D keep w w' /\ m_hnodes m !! l = Some n.
Proof.
  intros Hdb Hl Hn Ht Hg HO Hdis Hf Hmap HND HkD Hpl Hobs w'.
  assert (HlD : l ∉ D) by (intros Hd; by apply (Hdis l Hd)).
  assert (Hn' : m_hnodes m !! l = Some n) by (by rewrite (ol_nodes _ _ _ HO)).
  assert (Hsame : forall y, y ∈ D -> m_hnodes (w_mem w') !! y = m_hnodes m !! y).
  { intros y Hy. cbn. rewrite lookup_insert_ne; [done|]. by intros ->. }
  split; [|split; [split|split; [split|done]]].
  - apply sl_put; [by eapply links_db|done|done].
  - exists (sl_set s hm n), hm. cbn. rewrite lookup_insert_eq, sl_keeps_type, sl_get_set. split_and!; try done.
    eapply hm_map_frame; [|exact Hmap]. intros y Hy. by apply ident_hnodes, Hsame, HND.
  - intros y Hy. pose proof (HND y Hy). split; [|by apply Hdis]. eapply plain_hnodes; [by apply Hsame|by apply Hpl].
  - done.
  - done.
  - intros y Hy. rewrite (member_same m) by (by apply Hsame, HkD). by apply Hobs.
  - exists n, hm. split; [done|]. apply lookup_insert_eq.
  - intros y Hy HyD. cbn. rewrite lookup_insert_ne by done. by apply (ol_nodes _ _ _ HO).
Qed.

Lemma table_insert w M l N x q :
  db_ok w M -> l ∈ vals M -> table_at s (w_mem w) (vals M) l N -> plain_node (w_mem w) x -> x ∉ vals M ->
  ident (w_mem w) x = Some q -> N !! q = None -> Z.of_nat (size N) + 1 < 2 ^ 60 ->
  exists w', insert_slot s l x w = Ok (tt, w') /\ db_ok w' M /\ table_at s (w_mem w') (vals M) l (<[q := x]> N) /\
    table_change s l (x :: vals N) (x :: vals N) w w'.
Proof.
  intros Hdb Hl [(n & hm & Hn & Ht & Hg & Hmap) He] Hx HxM Hid Hq Hsz.
  assert (Hpl : forall y, y ∈ x :: vals N -> plain_node (w_mem w) y /\ (y ∉ vals M)).
  { intros y [->|Hy]%elem_of_cons; [done|by apply He]. }
  destruct (plain_insert (w_mem w) (x :: vals N) hm N x q Hmap) as (hm' & m' & E & Hmap' & HO & Hev); try done.
  { intros y Hy. by apply Hpl. }
  destruct (table_write w M l n hm hm' m' (<[q := x]> N) (x :: vals N) (x :: vals N)) as (Hdb' & Hta & Htc & Hn'); try done.
  { intros y Hy. by apply Hpl. }
  { eapply hm_insert_fresh; [apply (db_fresh _ _ Hdb)|exact E]. }
  { by rewrite vals_insert. }
  { intros y Hy. rewrite vals_insert in Hy by done. by apply Hev. }
  { intros y Hy. by apply Hev. }
  eexists. split; [|by split_and!].
  unfold insert_slot. cstep node_ok. cstep @field_ok. erewrite cmd_step by reflexivity.
  erewrite cmd_step by (apply lift_ok; exact E). cbn beta iota. erewrite cmd_step by reflexivity.
  erewrite set_node_ok; [reflexivity|done].
Qed.

Lemma table_delete w M l N key d kb :
  db_ok w M -> l ∈ vals M -> table_at s (w_mem w) (vals M) l N -> k_key key = Some d -> dstr_rep d kb ->
  Z.of_nat (size N) < 2 ^ 60 ->
  match N !! (k_hcode key, cstr kb) with
  | Some x => exists w', delete_slot s l key w = Ok (1, w') /\ db_ok w' M /\
      table_at s (w_mem w') (vals M) l (delete (k_hcode key, cstr kb) N) /\
      table_change s l (vals N) (vals (delete (k_hcode key, cstr kb) N)) w w'
  | None => exists w', delete_slot s l key w = Ok (0, w') /\ db_ok w' M /\ table_at s (w_mem w') (vals M) l N /\
      table_change s l (vals N) (vals N) w w'
  end.
Proof.
  intros Hdb Hl [(n & hm & Hn & Ht & Hg & Hmap) He] Hk Hd Hsz.
  assert (Hpl : forall y, y ∈ vals N -> plain_node (w_mem w) y) by (intros y Hy; by apply He).
  assert (Hrun : forall hm' m' c, hm_delete hm (w_mem w) key true = Ok (hm', m', c) -> m_hnodes m' !! l = Some n ->
    delete_slot s l key w = Ok (c, put_node l (sl_set s hm' n) (with_mem m' w))).
  { intros hm' m' c E Hn'. unfold delete_slot. cstep node_ok. cstep @field_ok. erewrite cmd_step by reflexivity.
    erewrite cmd_step by (apply lift_ok; exact E). cbn beta iota. erewrite cmd_step by reflexivity.
    by erewrite cmd_step by (by apply set_node_ok). }
  pose proof (plain_delete (w_mem w) (vals N) hm N key d kb true Hmap Hpl ltac:(done) Hk Hd Hsz) as H.
  destruct (N !! (k_hcode key, cstr kb)) as [x|] eqn:Hx.
  - destruct H as (hm' & m' & E & Hmap' & HO & Hev). set (N' := delete (k_hcode key, cstr kb) N) in *.
    assert (HN' : forall y, y ∈ vals N' -> y ∈ vals N /\ y <> x).
    { intros y Hy. split; [rewrite (vals_delete N _ _ Hx); by apply list_elem_of_further|]. intros ->.
      apply elem_of_vals in Hy as [q' Hq']. apply lookup_delete_Some in Hq' as [Hne Hq'].
      pose proof (proj2 Hmap _ _ Hx). pose proof (proj2 Hmap _ _ Hq'). congruence. }
    destruct (table_write w M l n hm hm' m' N' (vals N) (vals N')) as (Hdb' & Hta & Htc & Hn'); try done.
    { intros y Hy. by apply He. }
    { eapply hm_delete_fresh; [apply (db_fresh _ _ Hdb)|exact E]. }
    { intros y Hy. by apply HN'. }
    { intros y Hy. by apply HN'. }
    { intros y [Hy Hne]%HN'. by apply Hev. }
    { intros y [Hy Hne]%HN'. by apply Hev. }
    eexists. split; [by apply Hrun|by split_and!].
  - destruct (table_write w M l n hm hm (w_mem w) N (vals N) (vals N)) as (Hdb' & Hta & Htc & Hn'); try done.
    { intros y Hy. by apply He. }
    { apply (db_fresh _ _ Hdb). }
    eexists. split; [by apply Hrun|by split_and!].
Qed.

(** The keys of the table, once each. *)
Lemma table_keys m D l N :
  table_at s m D l N -> Z.of_nat (size N) < 2 ^ 60 ->
  exists n hm ks kbs, m_hnodes m !! l = Some n /\ h_type n = sl_type s /\ sl_get s n = Some hm /\ hm_size hm = Z.of_nat (size N) /\
    hm_keys hm m = Ok ks /\ Forall2 dstr_rep ks kbs /\ (cstr <$> kbs) ≡ₚ (snd ∘ fst <$> map_to_list N) /\ length kbs = size N.
Proof.
  intros [(n & hm & Hn & Ht & Hg & Hmap) He] Hsz.
  destruct (map_keys_ok m hm N Hmap) as (ks & kbs & Hk); [apply plain_mem_ok; intros y Hy; by apply He|done|].
  exists n, hm, ks, kbs. by split_and!; try apply Hk.
Qed.

(** The table does not depend on nodes other than its own. *)
Lemma table_frame m m' D l N :
  table_at s m D l N -> m_hnodes m' !! l = m_hnodes m !! l -> (forall y, y ∈ vals N -> m_hnodes m' !! y = m_hnodes m !! y) ->
  table_at s m' D l N.
Proof.
  intros [(n & hm & Hn & Ht & Hg & Hmap) He] Hl Hy. split.
  - exists n, hm. rewrite Hl. split_and!; try done. eapply hm_map_frame; [|exact Hmap]. intros y Hin. by apply ident_hnodes, Hy.
  - intros y Hin. destruct (He y Hin) as [Hp HD]. split; [|done]. eapply plain_hnodes; [by apply Hy|done].
Qed.

(** The entry of a string. *)
Lemma table_lookup w D l N hm n sb fld :
  table_at s (w_mem w) D l N -> m_hnodes (w_mem w) !! l = Some n -> sl_get s n = Some hm -> dstr_rep fld sb -> short_key sb ->
  lookup_in hm fld w = Ok (N !! key_id sb, w).
Proof.
  intros [(n' & hm' & Hn & _ & Hg & Hmap) He] Hn' Hg' Hf Hs. assert (n' = n) as -> by congruence.
  assert (hm' = hm) as -> by congruence. eapply lookup_in_ok; [exact Hmap| |done|done].
  apply plain_mem_ok. intros y Hy. by apply He.
Qed.
End slot.
