(* ===== verification/Hashes.v ===== *)
(** * Hashes of the database: HSET of a new field, and HGET

    A hash is a table of string nodes that is the value of a key
    ([src/src/redis_functions.cpp]).  [do_hset] searches the field with a key
    that is NULL, so it works for a field whose hash code is new to the hash;
    the theorems are about those. *)

From Stdlib Require Import String.
From S2P Require Import Prelude Libc Dstr Dlist Heap Hash Buffers Hashmap Avl Hll Node Zset Commands Keyspace Lists Scores Tables.

(** ** Representation *)

(** The string a node holds. *)
Definition field_of (m : Mem) (x : loc) : option (list Z) :=
  n ← m_hnodes m !! x; v ← h_val n; match dstr_bytes v with Ok b => Some b | Fault _ => None end.

(** A node with a value. *)
Definition has_value (m : Mem) (x : loc) : Prop := exists n v vb, m_hnodes m !! x = Some n /\ h_val n = Some v /\ dstr_rep v vb.

(** The node [l] of a database with the nodes [D] owns the hash [N]. *)
Record hash_key (m : Mem) (D : list loc) (l : loc) (N : gmap (Z * list Z) loc) : Prop := mkHashKey {
  hk_table : table_at hash_slot m D l N;
  hk_values : forall x, x ∈ vals N -> has_value m x
}.

(** The fields and values of the hash that a key leads to; a key that is not
    there has none. *)
Definition hash_view (m : Mem) (N : gmap (Z * list Z) loc) : gmap (Z * list Z) (list Z) := omap (field_of m) N.

Definition fields_of (m : Mem) (M : gmap (Z * list Z) loc) (q : Z * list Z) (V : gmap (Z * list Z) (list Z)) : Prop :=
  match M !! q with
  | Some l => exists N, hash_key m (vals M) l N /\ V = hash_view m N
  | None => V = ∅
  end.

(** ** The search with a hash code only *)

Lemma plain_reads m x : plain_node m x -> exists n kb, m_hnodes m !! x = Some n /\ nd_hcode m x = Ok (h_hcode n) /\
  ident m x = Some (h_hcode n, cstr kb).
Proof.
  intros (n & kb & Hn & _ & Hk & _). exists n, kb. split; [done|].
  assert (Hh : nd_hcode m x = Ok (h_hcode n)) by (cbn; by rewrite Hn). split; [done|].
  eapply ident_spec; [done|cbn; by rewrite Hn|done].
Qed.

Lemma walk_absent fuel htab (m : Mem) h o slot p ls :
  (forall x, x ∈ ls -> plain_node m x) -> slot_get htab m slot = Ok p -> chain m p ls ->
  (forall x ks, x ∈ ls -> ident m x <> Some (h, ks)) -> (length ls < fuel)%nat ->
  ht_walk fuel htab m (mkHKey h o) slot = Ok None.
Proof.
  revert fuel slot p. induction ls as [|x ls IH]; intros fuel slot p Hp Hs Hc Hno Hf;
    (destruct fuel as [|fuel]; [lia|]); cbn [ht_walk]; rewrite Hs; cbn [mbind result_bind].
  - cbn in Hc. by subst p.
  - destruct Hc as (-> & q & Hq & Hc). destruct (plain_reads m x) as (n & kb & Hn & Hh & Hid); [apply Hp; set_solver|].
    rewrite Hh. cbn [mbind result_bind k_hcode]. rewrite (proj2 (Z.eqb_neq _ _)).
    + cbn [mbind result_bind]. apply (IH _ _ q); [|done|done| |cbn in Hf; lia].
      * intros y Hy. apply Hp. by apply list_elem_of_further.
      * intros y ks Hy. apply Hno. by apply list_elem_of_further.
    + intros E. apply (Hno x (cstr kb)); [apply list_elem_of_here|]. by rewrite <- E.
Qed.

Lemma ht_lookup_absent htab (m : Mem) bs h o :
  tab_rep m htab bs -> (forall x, x ∈ concat bs -> plain_node m x) -> NoDup (concat bs) ->
  (forall x ks, x ∈ concat bs -> ident m x <> Some (h, ks)) -> ht_lookup htab m (mkHKey h o) = Ok None.
Proof.
  intros Ht Hp Hnd Hno. unfold ht_lookup. destruct (ht_tab htab) as [tb|] eqn:E; [|done].
  destruct (tab_bucket m htab bs tb h Ht E) as (i & p & b & Hi & Hpp & Hb & Hc & Hg).
  assert (Hsub : forall x, x ∈ b -> x ∈ concat bs) by (intros x Hx; by eapply elem_of_bucket).
  eapply (walk_absent _ htab m h o _ p b); [|done|done| |].
  - intros x Hx. by apply Hp, Hsub.
  - intros x ks Hx. by apply Hno, Hsub.
  - apply Nat.lt_succ_r. cbn. apply keys_bound; [|by eapply NoDup_bucket].
    intros x Hx. destruct (Hp x (Hsub x Hx)) as (n & _ & Hn & _). by eexists.
Qed.

Lemma hm_lookup_absent (m : Mem) hm N h o :
  hm_map m hm N -> (forall x, x ∈ vals N -> plain_node m x) -> (forall q x, N !! q = Some x -> q.1 <> h) ->
  hm_lookup hm m (mkHKey h o) = Ok NULL.
Proof.
  intros Hmap Hp Hno. pose proof Hmap as [(ob & nb & [Ho Hn _ _ Hnd] & Hperm) Hall]. unfold hm_lookup.
  assert (Hid : forall x ks, x ∈ concat ob ++ concat nb -> ident m x <> Some (h, ks)).
  { intros x ks Hx. rewrite <- Hperm in Hx. apply elem_of_vals in Hx as [q Hq]. rewrite (Hall _ _ Hq).
    intros [= ->]. by apply (Hno _ _ Hq). }
  rewrite (ht_lookup_absent (hm_older hm) m ob h o); [|done| |by eapply NoDup_app_l|].
  - cbn [mbind result_bind]. rewrite (ht_lookup_absent (hm_newer hm) m nb h o); [done|done| |by eapply NoDup_app_r|].
    + intros x Hx. apply Hp. rewrite Hperm. set_solver.
    + intros x ks Hx. apply Hid. set_solver.
  - intros x Hx. apply Hp. rewrite Hperm. set_solver.
  - intros x ks Hx. apply Hid. set_solver.
Qed.

(** ** The hash of a new key *)

(** Table operations may only empty a hash. *)
Definition no_fields (l : loc) (m : Mem) : Prop :=
  forall n, m_hnodes m !! l = Some n -> h_type n = T_HSET -> h_hmap n = Some hmap_empty.

Lemma put_no_fields l m p f m' :
  (forall n, h_type (f n) = h_type n) -> (forall n, h_hmap n = Some hmap_empty -> h_hmap (f n) = Some hmap_empty) ->
  no_fields l m -> hput m p f = Ok m' -> no_fields l m'.
Proof.
  intros Hty Hf Hl E. destruct p as [x|]; [|done]. unfold hput in E. apply bind_ok in E as (h & Hu & E). injection E as <-.
  cbn [update] in Hu. apply bind_ok in Hu as (n & Hn & E). injection E as <-. apply need_ok in Hn.
  intros n'. cbn. destruct (decide (x = l)) as [->|Hne]; [|rewrite lookup_insert_ne by done; apply Hl].
  rewrite lookup_insert_eq. intros [= <-]. rewrite Hty. intros Ht. apply Hf. by apply Hl.
Qed.

Lemma next_no_fields l x p m m' : no_fields l m -> nd_set_next x p m = Ok m' -> no_fields l m'.
Proof. by apply put_no_fields. Qed.

Lemma del_tree_hnodes fuel m p m' l n : del_avl_tree fuel m p = Ok m' -> m_hnodes m' !! l = Some n -> m_hnodes m !! l = Some n.
Proof.
  revert m p m'. induction fuel as [|fuel IH]; intros m p m' E Hl; destruct p as [x|]; cbn in E; try done; try (by injection E as <-).
  apply bind_ok in E as (a & _ & E). apply bind_ok in E as (m1 & E1 & E). apply bind_ok in E as (a2 & _ & E).
  apply bind_ok in E as (m2 & E2 & E). unfold free_znode in E. apply bind_ok in E as (zn & _ & E). injection E as <-.
  cbn in Hl. apply lookup_delete_Some in Hl as [_ Hl]. by eapply IH, IH.
Qed.

Lemma release_no_fields l x m m' : no_fields l m -> release_node x m = Ok m' -> no_fields l m'.
Proof.
  intros Hl E. unfold release_node in E. apply bind_ok in E as (n & _ & E). apply bind_ok in E as (s1 & _ & E).
  apply bind_ok in E as (s2 & _ & E). case_match; [by injection E as <-|]. unfold hn_unlink_sync in E.
  apply bind_ok in E as (n0 & _ & E). apply bind_ok in E as (m1 & E1 & E). apply bind_ok in E as (n1 & _ & E).
  assert (Hl1 : no_fields l m1).
  { destruct (decide (h_type n0 = T_ZSET)); [|by injection E1 as <-]. apply bind_ok in E1 as (z & _ & E1).
    unfold zset_clear in E1. apply bind_ok in E1 as (zs & _ & E1). apply bind_ok in E1 as (zz & _ & E1).
    apply bind_ok in E1 as (m2 & E2 & E1). apply bind_ok in E1 as (zs2 & _ & E1). injection E1 as <-.
    intros n' Hn'. cbn in Hn'. apply (del_tree_hnodes _ _ _ _ _ _ E2) in Hn'. by apply Hl. }
  case_decide; [apply bind_ok in E as (hm & _ & E)|by injection E as <-]. eapply put_no_fields; [| |exact Hl1|exact E]; done.
Qed.

Lemma insert_no_fields l hm m x hm' m' : no_fields l m -> hm_insert hm m x = Ok (hm', m') -> no_fields l m'.
Proof. apply hm_insert_inv; eauto using next_no_fields, release_no_fields. Qed.

Lemma new_hash_empty w M key kb l w' :
  db_ok w M -> dstr_rep key kb -> short_key kb -> M !! key_id kb = None ->
  find_or_create key T_HSET w = Ok (l, w') -> no_fields l (w_mem w').
Proof.
  intros Hdb Hk Hs Hq E. unfold find_or_create in E. erewrite cmd_step in E by (by eapply lookup_key_ok). rewrite Hq in E.
  apply cmd_bind_inv in E as (l1 & w1 & Ec & E). apply cmd_bind_inv in E as ([] & w2 & Ei & E). injection E as -> ->.
  assert (Hl1 : no_fields l (w_mem w1)).
  { unfold create in Ec. erewrite cmd_step in Ec by (apply lift_ok; by apply rep_bytes). erewrite cmd_step in Ec by reflexivity.
    destruct (node_init_ok kb T_HSET (Pos.succ (m_fresh (w_mem w))) Hs) as (n & En & _ & _ & _ & _ & _ & _ & _ & Hhm & _).
    destruct (new_node_eq (w_mem w) kb T_HSET n En) as (m & Em & Hn & _).
    erewrite cmd_step in Ec by (by apply lift_ok). injection Ec as <- <-. intros n'. cbn [w_mem]. rewrite Hn, lookup_insert_eq.
    intros [= <-] _. by apply Hhm. }
  unfold insert_db in Ei. do 2 (erewrite cmd_step in Ei by reflexivity). apply cmd_bind_inv in Ei as ([hm m] & w3 & El & Ei).
  unfold lift in El. apply bind_ok in El as ([hm1 m1] & El & Ew). injection Ew as <- <- <-.
  cbn in Ei. injection Ei as <-. cbn. by eapply insert_no_fields.
Qed.

(** ** Adding a node *)

Lemma field_of_obs m m' x : member_obs m' x = member_obs m x -> field_of m' x = field_of m x.
Proof.
  unfold member_obs, field_of. destruct (m_hnodes m' !! x) as [n'|], (m_hnodes m !! x) as [n|]; cbn; try done.
  intros [= _ _ _ _ _ _ _ _ -> _ _]. done.
Qed.

Lemma has_value_obs m m' x : member_obs m' x = member_obs m x -> has_value m x -> has_value m' x.
Proof.
  intros Ho (n & v & vb & Hn & Hv & Hr). unfold member_obs in Ho. rewrite Hn in Ho.
  destruct (m_hnodes m' !! x) as [n'|] eqn:Hn'; [|done]. exists n', v, vb. split; [done|]. split; [|done].
  injection Ho as _ _ _ _ _ _ _ _ E _ _. by rewrite E.
Qed.

Lemma field_value m x : has_value m x -> exists vb, field_of m x = Some vb.
Proof.
  intros (n & v & vb & Hn & Hv & Hr). exists vb. unfold field_of. rewrite Hn. cbn. rewrite Hv. cbn.
  by rewrite (rep_bytes _ _ Hr).
Qed.

(** The entries of a hash after a change of its table. *)
Lemma hash_keeps D keep l w w' N :
  table_change hash_slot l D keep w w' -> vals N ⊆ keep -> (forall x, x ∈ vals N -> has_value (w_mem w) x) ->
  (forall x, x ∈ vals N -> has_value (w_mem w') x) /\ hash_view (w_mem w') N = hash_view (w_mem w) N.
Proof.
  intros Hc Hk Hv. split.
  - intros x Hx. eapply has_value_obs; [by apply (tc_keep _ _ _ _ _ _ Hc), Hk|by apply Hv].
  - apply map_eq. intros q. unfold hash_view. rewrite !lookup_omap. destruct (N !! q) as [x|] eqn:Hx; [|done]. cbn.
    apply field_of_obs, (tc_keep _ _ _ _ _ _ Hc), Hk, elem_of_vals. by eexists.
Qed.

Lemma hash_view_insert (m m' : Mem) (N : gmap (Z * list Z) loc) q x vb :
  field_of m' x = Some vb -> (forall y, y ∈ vals N -> field_of m' y = field_of m y) ->
  hash_view m' (<[q := x]> N) = <[q := vb]> (hash_view m N).
Proof.
  intros Hx Hy. unfold hash_view. apply map_eq. intros k. rewrite lookup_omap.
  destruct (decide (k = q)) as [->|Hne]; [by rewrite !lookup_insert_eq|].
  rewrite !lookup_insert_ne, lookup_omap by done. destruct (N !! k) as [y|] eqn:Hk; [|done]. cbn.
  apply Hy, elem_of_vals. by eexists.
Qed.

Lemma view_entry m D l N q : hash_key m D l N -> is_Some (N !! q) -> is_Some (hash_view m N !! q).
Proof.
  intros [_ Hf] [x Hx]. unfold hash_view. rewrite lookup_omap, Hx. cbn.
  destruct (field_value m x) as [vb ->]; [apply Hf, elem_of_vals; by eexists|by eexists].
Qed.

Lemma view_dom m D l N q : hash_key m D l N -> is_Some (N !! q) <-> is_Some (hash_view m N !! q).
Proof.
  intros H. split; [by eapply view_entry|]. unfold hash_view. rewrite lookup_omap. destruct (N !! q); [by eexists|]. by intros [? ?].
Qed.

Lemma view_size_eq m D l N : hash_key m D l N -> size (hash_view m N) = size N.
Proof. intros H. rewrite <- !size_dom. f_equal. apply set_eq. intros q. rewrite !elem_of_dom. symmetry. by eapply view_dom. Qed.

(** The node of the hash, created if the key is new. *)
Lemma find_fields_ok w M key kb V :
  db_ok w M -> Z.of_nat (size M) + 1 < 2 ^ 60 -> dstr_rep key kb -> short_key kb -> fields_of (w_mem w) M (key_id kb) V ->
  exists w' l N, find_or_create key T_HSET w = Ok (l, w') /\ db_ok w' (<[key_id kb := l]> M) /\
    w_out w' = w_out w /\ w_heap w' = w_heap w /\
    hash_key (w_mem w') (vals (<[key_id kb := l]> M)) l N /\ hash_view (w_mem w') N = V /\ vals M ⊆ vals (<[key_id kb := l]> M) /\
    (forall x, x ∈ vals M -> mem_obs (w_mem w') x = mem_obs (w_mem w) x) /\ (is_Some (M !! key_id kb) -> w' = w).
Proof.
  intros Hdb Hsz Hk Hs HV. unfold fields_of in HV.
  destruct (find_or_create_ok w M key kb T_HSET Hdb Hsz Hk Hs) as (w' & l & E & Hdb' & Ho & Hh & _ & Hcase).
  exists w', l. destruct (M !! key_id kb) as [l0|] eqn:Hq.
  - destruct Hcase as [-> ->]. destruct HV as (N & Hhk & ->). exists N. rewrite insert_id in * by done. by split_and!.
  - destruct Hcase as [_ (n0 & n & En & Hn & Hc & Hobs)]. subst V.
    destruct (node_init_ok kb T_HSET (Pos.succ l) Hs) as (n1 & En1 & _ & _ & _ & Ht & _).
    rewrite En in En1. injection En1 as <-. pose proof (new_hash_empty _ _ _ _ _ _ Hdb Hk Hs Hq E n Hn) as Hemp.
    assert (Hty : h_type n = T_HSET) by (rewrite <- Ht; by apply (f_equal h_type) in Hc).
    exists ∅. split_and!; try done; [|intros x Hx; rewrite vals_insert by done; by apply list_elem_of_further].
    split; [split|]; [|by intros x ?%elem_of_nil..]. exists n, hmap_empty.
    split_and!; try done; [by apply Hemp|]. split; [apply hm_empty_rep|]. intros q x Hx. by rewrite lookup_empty in Hx.
Qed.

(** ** The handlers *)

(** The new node of a field, with its value. *)
Lemma create_field w M fld fb v vb :
  db_ok w M -> dstr_rep fld fb -> short_key fb -> dstr_rep v vb ->
  let x := m_fresh (w_mem w) in
  exists m n, create fld T_STR w = Ok (x, with_mem m w) /\ m_hnodes m !! x = Some n /\
    let w' := put_node x (set_h_val v n) (with_mem m w) in
    db_ok w' M /\ plain_node (w_mem w') x /\ has_value (w_mem w') x /\ field_of (w_mem w') x = Some vb /\
    ident (w_mem w') x = Some (key_id fb) /\ (x ∉ vals M) /\
    (forall y, y <> x -> m_hnodes (w_mem w') !! y = m_hnodes (w_mem w) !! y) /\ m_hnodes (w_mem w) !! x = None.
Proof.
  intros Hdb Hk Hs Hv x. destruct (create_plain w M fld fb Hdb Hk Hs) as (m & n & Ec & Hn & Hdb1 & Hpl & Hid & Hx & Hsame & Hnone).
  fold x in Ec, Hn, Hpl, Hid, Hx, Hsame, Hnone. exists m, n. split; [done|]. split; [done|]. intros w'.
  assert (Hx' : m_hnodes (w_mem w') !! x = Some (set_h_val v n)) by apply lookup_insert_eq.
  destruct Hpl as (n' & kb' & Hn' & Hh & Hkey & Hty). assert (n' = n) as -> by congruence. split_and!; try done.
  - by apply (put_node_db _ _ _ n).
  - by exists (set_h_val v n), kb'.
  - by exists (set_h_val v n), v, vb.
  - unfold field_of. rewrite Hx'. cbn. by rewrite (rep_bytes _ _ Hv).
  - rewrite <- Hid. by eapply put_shape_ident.
  - intros y Hy. cbn. rewrite lookup_insert_ne by done. by apply Hsame.
Qed.

(** A field with its value is added to a hash. *)
Lemma add_field w M l N fld fb v vb :
  db_ok w M -> l ∈ vals M -> hash_key (w_mem w) (vals M) l N -> dstr_rep fld fb -> short_key fb -> dstr_rep v vb ->
  N !! key_id fb = None -> Z.of_nat (size N) + 1 < 2 ^ 60 ->
  exists x m n w', create fld T_STR w = Ok (x, with_mem m w) /\ m_hnodes m !! x = Some n /\
    insert_hmap l x (put_node x (set_h_val v n) (with_mem m w)) = Ok (tt, w') /\ db_ok w' M /\
    hash_key (w_mem w') (vals M) l (<[key_id fb := x]> N) /\
    hash_view (w_mem w') (<[key_id fb := x]> N) = <[key_id fb := vb]> (hash_view (w_mem w) N) /\
    w_out w' = w_out w /\ w_heap w' = w_heap w /\ others_same w w' M l /\ mem_obs (w_mem w') l = mem_obs (w_mem w) l.
Proof.
  intros Hdb Hl [Ht Hval] Hf Hs Hv Hq Hsz. pose proof Ht as [_ He].
  destruct (create_field w M fld fb v vb Hdb Hf Hs Hv) as (m & n & Ec & Hn & Hdb1 & Hpx & Hvx & Hfx & Hidx & HxM & Hsame & Hnone).
  set (x := m_fresh (w_mem w)) in *. set (w1 := put_node x (set_h_val v n) (with_mem m w)) in *.
  assert (HxN : forall y, y ∈ vals N -> y <> x).
  { intros y Hy ->. destruct (He x Hy) as [(? & ? & ? & _) _]. congruence. }
  assert (Hlx : l <> x) by (by intros ->).
  assert (Ht1 : table_at hash_slot (w_mem w1) (vals M) l N).
  { eapply table_frame; [exact Ht|by apply Hsame|]. intros y Hy. by apply Hsame, HxN. }
  destruct (table_insert hash_slot w1 M l N x (key_id fb) Hdb1 Hl Ht1) as (w' & E & Hdb' & Ht' & Hc); try done.
  exists x, m, n, w'. split; [done|]. split; [done|]. split; [done|]. split; [done|].
  assert (Hv1 : forall y, y ∈ x :: vals N -> has_value (w_mem w1) y).
  { intros y [->|Hy]%elem_of_cons; [done|]. eapply has_value_obs; [|by apply Hval]. by apply member_same, Hsame, HxN. }
  destruct (hash_keeps (x :: vals N) (x :: vals N) l w1 w' (<[key_id fb := x]> N) Hc) as [Hv' Hview].
  { by rewrite vals_insert. }
  { intros y Hy. rewrite vals_insert in Hy by done. by apply Hv1. }
  split; [by split|]. split; [|split; [exact (tc_out _ _ _ _ _ _ Hc)|split; [exact (tc_heap _ _ _ _ _ _ Hc)|]]].
  - rewrite Hview. apply hash_view_insert; [done|]. intros y Hy. by apply field_of_obs, member_same, Hsame, HxN.
  - split.
    + intros y Hy Hne. assert (y <> x) by (by intros ->).
      rewrite (tc_rest _ _ _ _ _ _ Hc), Hsame; try done. intros [?|Hin]%elem_of_cons; [done|]. by apply (He y Hin).
    + destruct (tc_node _ _ _ _ _ _ Hc) as (n1 & hm1 & Hn1 & Hn1'). unfold mem_obs. rewrite Hn1'.
      rewrite Hsame in Hn1 by done. by rewrite Hn1.
Qed.

Lemma do_hset_ok w M cmd key kb fld fb value vb V :
  db_ok w M -> Z.of_nat (size M) + 1 < 2 ^ 60 -> cmd !! 1%nat = Some key -> dstr_rep key kb -> short_key kb ->
  cmd !! 2%nat = Some fld -> dstr_rep fld fb -> short_key fb ->
  cmd !! 3%nat = Some value -> dstr_rep value vb -> short_key vb ->
  fields_of (w_mem w) M (key_id kb) V -> (forall q, is_Some (V !! q) -> q.1 <> str_hash fb) ->
  Z.of_nat (size V) + 1 < 2 ^ 60 ->
  exists w' l, do_hset cmd w = Ok (SUCCESS, w') /\ w_out w' = out_null (w_out w) /\ w_heap w' = w_heap w /\
    db_ok w' (<[key_id kb := l]> M) /\ fields_of (w_mem w') (<[key_id kb := l]> M) (key_id kb) (<[key_id fb := vb]> V) /\
    (forall x, x ∈ vals M -> mem_obs (w_mem w') x = mem_obs (w_mem w) x) /\
    (is_Some (M !! key_id kb) -> others_same w w' M l).
Proof.
  intros Hdb Hsz H1 Hk Hs H2 Hfl Hsf H3 Hva Hsv HV Hnew HVs.
  destruct (find_fields_ok w M key kb V Hdb Hsz Hk Hs HV) as (w1 & l & N & E & Hdb1 & Ho & Hh & Hhk & Hview & Hincl & Hobs1 & Hw1).
  set (M1 := <[key_id kb := l]> M) in *. pose proof Hhk as [[(n & hm & Hn & Hty & Hhm & Hmap) He] _]. cbn in Hty, Hhm.
  assert (Hl : l ∈ vals M1) by (apply elem_of_vals; exists (key_id kb); apply lookup_insert_eq).
  assert (HnoN : forall q x, N !! q = Some x -> q.1 <> str_hash fb).
  { intros q x Hx. apply Hnew. rewrite <- Hview. eapply view_entry; [exact Hhk|by eexists]. }
  assert (HN : N !! key_id fb = None).
  { destruct (N !! key_id fb) eqn:EN; [|done]. by destruct (HnoN _ _ EN). }
  assert (HsN : Z.of_nat (size N) + 1 < 2 ^ 60) by (rewrite <- (view_size_eq _ _ _ _ Hhk), Hview; done).
  destruct (copy_rep fb Hsf) as (fd & Efd & _). destruct (copy_rep vb Hsv) as (v & Ev & Hv).
  destruct (add_field w1 M1 l N fld fb v vb Hdb1 Hl Hhk Hfl Hsf Hv HN HsN) as (x & m & nx & w2 & Ec & Hnx & Ei & Hdb2 & Hhk2 & Hv2 & Ho2 & Hh2 & Hoth & Hl2).
  exists (with_out (out_null (w_out w2)) w2), l. split_and!.
  - unfold do_hset. cstep arg_ok. cstep arg_ok. cstep arg_ok. erewrite cmd_step by exact E. cstep node_ok.
    rewrite decide_True by done. erewrite cmd_step by (apply lift_ok; by apply rep_bytes). erewrite cmd_step by (by apply lift_ok).
    cstep node_ok. cstep @field_ok. erewrite cmd_step by reflexivity.
    erewrite cmd_step by (apply lift_ok; eapply hm_lookup_absent; [exact Hmap|intros y Hy; by apply He|exact HnoN]).
    erewrite cmd_step by (apply lift_ok; by apply rep_bytes). cbn beta iota. erewrite cmd_step by exact Ec.
    erewrite cmd_step by (by apply lift_ok). erewrite cmd_step by (by apply set_node_ok).
    erewrite cmd_step by exact Ei. by erewrite cmd_step by reflexivity.
  - cbn. by rewrite Ho2, Ho.
  - cbn. by rewrite Hh2.
  - by destruct Hdb2.
  - unfold fields_of. fold M1. replace (M1 !! key_id kb) with (Some l) by (symmetry; apply lookup_insert_eq).
    exists (<[key_id fb := x]> N). split; [done|]. by rewrite <- Hview.
  - intros y Hy. rewrite <- Hobs1 by done. destruct (decide (y = l)) as [->|Hne]; [exact Hl2|].
    unfold mem_obs. cbn. by rewrite Hoth by auto.
  - intros Hin y Hy Hne. cbn. rewrite Hoth by auto. by rewrite Hw1.
Qed.

Lemma do_hget_ok w M cmd key kb fld fb V :
  db_ok w M -> cmd !! 1%nat = Some key -> dstr_rep key kb -> short_key kb ->
  cmd !! 2%nat = Some fld -> dstr_rep fld fb -> short_key fb -> fields_of (w_mem w) M (key_id kb) V ->
  do_hget cmd w = Ok (SUCCESS, with_out (match V !! key_id fb with
                                         | Some vb => out_str (w_out w) vb (Z.of_nat (length vb))
                                         | None => out_null (w_out w)
                                         end) w).
Proof.
  intros Hdb H1 Hk Hs H2 Hf Hsf HV. unfold fields_of in HV. unfold do_hget. cstep arg_ok. cstep arg_ok.
  erewrite cmd_step by (by eapply lookup_key_ok). destruct (M !! key_id kb) as [l|]; [|by subst V; rewrite lookup_empty].
  destruct HV as (N & [Hta Hval] & ->). pose proof Hta as [(n & hm & Hn & Hty & Hhm & _) He]. cbn in Hty, Hhm.
  cstep node_ok. rewrite decide_True by done. cstep @field_ok.
  erewrite cmd_step by (by eapply table_lookup). unfold hash_view. rewrite lookup_omap.
  destruct (N !! key_id fb) as [x|] eqn:Hx; [|done]. cbn. assert (Hin : x ∈ vals N) by (apply elem_of_vals; by eexists).
  destruct (Hval x Hin) as (nx & v & vb & Hnx & Hv & Hr). destruct (He x Hin) as [(n' & _ & Hn' & _ & _ & Hxty) _].
  assert (n' = nx) as -> by congruence. unfold field_of. rewrite Hnx. cbn. rewrite Hv. cbn. rewrite (rep_bytes _ _ Hr).
  cstep node_ok. rewrite decide_True by done. rewrite Hv. erewrite cmd_step by reflexivity.
  by erewrite cmd_step by (by apply out_dstr_ok).
Qed.

Lemma do_hgetall_ok w M kb l N :
  db_ok w M -> short_key kb -> M !! key_id kb = Some l ->
  hash_key (w_mem w) (vals M) l N -> Z.of_nat (size N) < 2 ^ 60 ->
  exists fbs, (cstr <$> fbs) ≡ₚ (snd ∘ fst <$> map_to_list (hash_view (w_mem w) N)) /\
    forall cmd key, cmd !! 1%nat = Some key -> dstr_rep key kb -> do_hgetall cmd w = Ok (SUCCESS, with_out (foldl (fun o fb => out_str o fb (Z.of_nat (length fb)))
                                      (out_arr (w_out w) (Z.of_nat (size N))) fbs) w).
Proof.
  intros Hdb Hs Hl Hhk Hsz. pose proof Hhk as [Hta Hval].
  destruct (table_keys hash_slot _ _ _ _ Hta Hsz) as (n & hm & ks & kbs & Hn & Ht & Hg & _ & E & Hks & Hp & Hlen).
  exists kbs. split.
  - rewrite Hp, !(list_fmap_compose fst snd). apply fmap_Permutation, same_keys. intros q. by eapply view_dom.
  - intros cmd key H1 Hk. unfold do_hgetall. cstep arg_ok. erewrite cmd_step by (by eapply lookup_key_ok). rewrite Hl. cstep node_ok. cstep @field_ok.
    erewrite cmd_step by reflexivity. erewrite cmd_step by (by apply lift_ok). erewrite cmd_step by (by eapply out_keys_ok).
    by rewrite Hlen.
Qed.

(** Deleting a node of the database by its own key. *)
Lemma delete_self_ok w M q l :
  db_ok w M -> Z.of_nat (size M) < 2 ^ 60 -> M !! q = Some l ->
  exists k w', node_key (w_mem w) (Some l) = Ok k /\ delete_db k w = Ok (1, w') /\ db_ok w' (delete q M) /\
    w_out w' = w_out w /\ w_heap w' = w_heap w /\ forall x, x ∈ vals M -> x <> l -> mem_obs (w_mem w') x = mem_obs (w_mem w) x.
Proof.
  intros Hdb Hsz Hq. pose proof Hdb as [[_ Hid] (ot & oz & Hok) _].
  destruct (Hok l) as (n & kb & Hn & _ & Hk & _); [apply elem_of_vals; by eexists|].
  assert (Hkid : (h_hcode n, cstr kb) = q).
  { pose proof (Hid _ _ Hq) as E. unfold ident in E. cbn in E. rewrite Hn in E. cbn in E. rewrite (rep_bytes _ _ Hk) in E.
    by injection E. }
  pose proof (delete_db_ok w M (mkHKey (h_hcode n) (Some (h_key n))) (h_key n) kb Hdb Hsz eq_refl Hk) as H.
  cbn [k_hcode] in H. rewrite Hkid, Hq in H. destruct H as (w' & E & Hdb' & Ho & Hh & Hobs).
  exists (mkHKey (h_hcode n) (Some (h_key n))), w'. split_and!; try done. unfold node_key, hget. by rewrite (deref_some _ _ _ Hn).
Qed.

(** The deletion of a field from the table, seen through the values. *)
Lemma delete_field w M l N fb d :
  db_ok w M -> l ∈ vals M -> hash_key (w_mem w) (vals M) l N -> dstr_rep d fb -> Z.of_nat (size N) < 2 ^ 60 ->
  let V := hash_view (w_mem w) N in
  exists w1 N1, delete_hmap l (mkHKey (str_hash fb) (Some d)) w = Ok (if V !! key_id fb is Some _ then 1 else 0, w1) /\ db_ok w1 M /\
    hash_key (w_mem w1) (vals M) l N1 /\ hash_view (w_mem w1) N1 = delete (key_id fb) V /\
    w_out w1 = w_out w /\ w_heap w1 = w_heap w /\ others_same w w1 M l.
Proof.
  intros Hdb Hl Hhk Hd Hsz V. pose proof Hhk as [Hta Hval].
  pose proof (table_delete hash_slot w M l N (mkHKey (str_hash fb) (Some d)) d fb Hdb Hl Hta eq_refl Hd Hsz) as H.
  cbn [k_hcode] in H. change (str_hash fb, cstr fb) with (key_id fb) in H. rewrite delete_hmap_slot.
  destruct (N !! key_id fb) as [x|] eqn:Hx.
  - destruct H as (w1 & Ed & Hdb1 & Hta1 & Hc). exists w1, (delete (key_id fb) N).
    destruct (hash_keeps _ _ _ _ _ (delete (key_id fb) N) Hc) as [Hval1 Hview1]; [done| |].
    { intros y Hy. apply Hval. rewrite (vals_delete N _ _ Hx). by apply list_elem_of_further. }
    destruct (proj1 (view_dom _ _ _ _ (key_id fb) Hhk)) as [vb Hvb]; [by eexists|]. unfold V. rewrite Hvb.
    split_and!; try done; [rewrite Hview1; apply omap_delete|apply Hc|apply Hc|by eapply change_others].
  - destruct H as (w1 & Ed & Hdb1 & Hta1 & Hc). exists w1, N.
    destruct (hash_keeps _ _ _ _ _ N Hc) as [Hval1 Hview1]; [done|done|].
    assert (HV : V !! key_id fb = None) by (unfold V, hash_view; by rewrite lookup_omap, Hx). rewrite HV.
    split_and!; try done; [by rewrite Hview1, delete_id|apply Hc|apply Hc|by eapply change_others].
Qed.

Lemma do_hdel_ok w M cmd key kb fld fb l V :
  db_ok w M -> Z.of_nat (size M) < 2 ^ 60 -> cmd !! 1%nat = Some key -> dstr_rep key kb -> short_key kb ->
  cmd !! 2%nat = Some fld -> dstr_rep fld fb -> short_key fb -> M !! key_id kb = Some l ->
  fields_of (w_mem w) M (key_id kb) V -> Z.of_nat (size V) < 2 ^ 60 ->
  match V !! key_id fb with
  | None => exists w1, do_hdel cmd w = (o ← out_err (w_out w) (lit "node does not exist"); Ok (NOT_FOUND, with_out o w1)) /\
      db_ok w1 M /\ fields_of (w_mem w1) M (key_id kb) V /\ others_same w w1 M l
  | Some _ => exists w', do_hdel cmd w = Ok (SUCCESS, w') /\ w_out w' = out_null (w_out w) /\ w_heap w' = w_heap w /\
      (forall x, x ∈ vals M -> x <> l -> mem_obs (w_mem w') x = mem_obs (w_mem w) x) /\
      let V' := delete (key_id fb) V in
      if decide (V' = ∅) then db_ok w' (delete (key_id kb) M)
      else db_ok w' M /\ fields_of (w_mem w') M (key_id kb) V' /\ others_same w w' M l
  end.
Proof.
  intros Hdb HszM H1 Hk Hs H2 Hf Hsf Hl HV HszV. unfold fields_of in HV. rewrite Hl in HV. destruct HV as (N & Hhk & ->).
  pose proof Hhk as [[(n & hm & Hn & Ht & Hg & _) _] _]. cbn in Ht, Hg.
  assert (HlM : l ∈ vals M) by (apply elem_of_vals; by eexists).
  destruct (tmp_key_ok fb Hsf) as (d & Et & Hd). rewrite (view_size_eq _ _ _ _ Hhk) in HszV.
  destruct (delete_field w M l N fb d Hdb HlM Hhk Hd HszV) as (w1 & N1 & Ed & Hdb1 & Hhk1 & Hview1 & Ho1 & Hh1 & Hobs1).
  unfold do_hdel. cstep arg_ok. cstep arg_ok. erewrite cmd_step by (by eapply lookup_key_ok). rewrite Hl. cstep node_ok.
  rewrite decide_True by done. erewrite cmd_step by (apply lift_ok; by apply rep_bytes). erewrite cmd_step by (by apply lift_ok).
  erewrite cmd_step by exact Ed. set (V := hash_view (w_mem w) N) in *.
  assert (HV1 : fields_of (w_mem w1) M (key_id kb) (delete (key_id fb) V)) by (unfold fields_of; rewrite Hl; by exists N1).
  destruct (V !! key_id fb) as [vb|] eqn:Hx; cbn [Z.eqb].
  - assert (HsV : size N1 = size (delete (key_id fb) V)) by (by rewrite <- Hview1, (view_size_eq _ _ _ _ Hhk1)).
    assert (Hle : (size N1 < size V)%nat).
    { rewrite HsV, map_size_delete_Some by (by eexists). pose proof (map_size_ne_0_lookup_2 V (key_id fb) ltac:(by eexists)). lia. }
    assert (HsN : size V = size N) by (by eapply view_size_eq).
    destruct (table_keys hash_slot _ _ _ _ (hk_table _ _ _ _ Hhk1)) as (n1 & hm1 & _ & _ & Hn1 & _ & Hg1 & Hsz1 & _); [lia|]. cbn in Hg1.
    erewrite cmd_step by (by apply node_ok). erewrite cmd_step by (by apply field_ok). rewrite Hsz1, HsV. destruct (decide (delete (key_id fb) V = ∅)) as [He|He].
    + rewrite He, map_size_empty. change (Z.of_nat 0 =? 0) with true. cbn iota.
      destruct (delete_self_ok w1 M (key_id kb) l Hdb1 HszM Hl) as (k & w2 & Ek & E2 & Hdb2 & Ho2 & Hh2 & Hobs2).
      rewrite (cmd_step _ _ w1 tt w2).
      2: { erewrite cmd_step by reflexivity. erewrite cmd_step by (by apply lift_ok). by erewrite cmd_step by exact E2. }
      erewrite cmd_step by reflexivity. eexists. split; [reflexivity|]. split; [cbn; by rewrite Ho2, Ho1|]. split; [cbn; by rewrite Hh2, Hh1|].
      split; [intros x Hxv Hne; cbn; rewrite Hobs2 by done; unfold mem_obs; by rewrite Hobs1|]. by destruct Hdb2.
    + assert (Hnz : size (delete (key_id fb) V) <> 0%nat) by (by intros ?%map_size_empty_inv). replace (_ =? 0) with false by lia.
      erewrite cmd_step by reflexivity. erewrite cmd_step by reflexivity. eexists. split; [reflexivity|]. split; [cbn; by rewrite Ho1|].
      split; [exact Hh1|]. split; [intros x Hxv Hne; unfold mem_obs; cbn; by rewrite Hobs1|]. split; [by destruct Hdb1|by split].
  - exists w1. rewrite delete_id in HV1 by done. split_and!; try done. unfold mbind at 1, cmd_bind, out_error, out_r. rewrite Ho1.
    by destruct (out_err _ _).
Qed.

(** ** Properties *)

(** C16: HSET, HGET and HGETALL.  HSET of a field whose hash code is new to the
    hash, on a new key or on a hash, replies NULL, adds the field with its value
    and changes no other field; after it HGET replies the value of every field and
    NULL for every other string, and HGETALL replies every field exactly once.
    The other nodes of the database are as they were when the key was there; a
    new key may move them to a larger table, and then they keep all but the tables
    of hashes (see [resize_empties_hash]). *)
Theorem hset_hget w M cmd key kb fld fb value vb V :
  db_ok w M -> Z.of_nat (size M) + 1 < 2 ^ 60 -> cmd !! 1%nat = Some key -> dstr_rep key kb -> short_key kb ->
  cmd !! 2%nat = Some fld -> dstr_rep fld fb -> short_key fb ->
  cmd !! 3%nat = Some value -> dstr_rep value vb -> short_key vb ->
  fields_of (w_mem w) M (key_id kb) V -> (forall q, is_Some (V !! q) -> q.1 <> str_hash fb) ->
  Z.of_nat (size V) + 1 < 2 ^ 60 ->
  let V' := <[key_id fb := vb]> V in
  exists w' l, do_hset cmd w = Ok (SUCCESS, w') /\ w_out w' = out_null (w_out w) /\
    db_ok w' (<[key_id kb := l]> M) /\ fields_of (w_mem w') (<[key_id kb := l]> M) (key_id kb) V' /\
    (forall x, x ∈ vals M -> mem_obs (w_mem w') x = mem_obs (w_mem w) x) /\
    (is_Some (M !! key_id kb) -> others_same w w' M l) /\
    (forall c key' fld' fb', dstr_rep key' kb -> dstr_rep fld' fb' -> short_key fb' ->
      do_hget [c; key'; fld'] w'
      = Ok (SUCCESS, with_out (match V' !! key_id fb' with
                               | Some v => out_str (w_out w') v (Z.of_nat (length v))
                               | None => out_null (w_out w')
                               end) w')) /\
    exists fbs, (cstr <$> fbs) ≡ₚ (snd ∘ fst <$> map_to_list V') /\
      forall c key', dstr_rep key' kb ->
        do_hgetall [c; key'] w' = Ok (SUCCESS, with_out (foldl (fun o f => out_str o f (Z.of_nat (length f)))
                                                 (out_arr (w_out w') (Z.of_nat (size V'))) fbs) w').
Proof.
  intros Hdb Hsz H1 Hk Hs H2 Hfl Hsf H3 Hva Hsv HV Hnew HVs V'.
  destruct (do_hset_ok w M cmd key kb fld fb value vb V) as (w' & l & E & Ho & _ & Hdb' & HV' & Hobs & Hoth); try done.
  exists w', l. split_and!; try done; [intros c key' fld' fb' Hk' Hf' Hs'; by eapply do_hget_ok|].
  unfold fields_of in HV'. rewrite lookup_insert_eq in HV'. destruct HV' as (N & Hhk & EV). unfold V'. rewrite EV.
  destruct (do_hgetall_ok w' _ kb l N Hdb') as (fbs & Hp & Hall); [done|apply lookup_insert_eq|done| |].
  - rewrite <- (view_size_eq _ _ _ _ Hhk), <- EV, map_size_insert. destruct (V !! key_id fb); cbn; lia.
  - exists fbs. split; [done|]. intros c key' Hk'. rewrite (view_size_eq _ _ _ _ Hhk). by apply (Hall [c; key'] key').
Qed.

(** C17: HDEL.  On a field of a hash it replies NULL and removes exactly that
    field, and with the last field the key itself; HGET then replies the remaining
    fields.  On a field that is not there it replies an error and changes no
    field, and on a key that is not there it replies NULL.  The other nodes of the
    database are as they were, or, when the key goes, keep all but the tables of
    hashes. *)
Theorem hdel_exact w M cmd key kb fld fb V :
  db_ok w M -> Z.of_nat (size M) < 2 ^ 60 -> cmd !! 1%nat = Some key -> dstr_rep key kb -> short_key kb ->
  cmd !! 2%nat = Some fld -> dstr_rep fld fb -> short_key fb ->
  fields_of (w_mem w) M (key_id kb) V -> Z.of_nat (size V) < 2 ^ 60 ->
  match M !! key_id kb, V !! key_id fb with
  | None, _ => do_hdel cmd w = Ok (SUCCESS, with_out (out_null (w_out w)) w)
  | Some l, None => exists w1,
      do_hdel cmd w = (o ← out_err (w_out w) (lit "node does not exist"); Ok (NOT_FOUND, with_out o w1)) /\
      db_ok w1 M /\ fields_of (w_mem w1) M (key_id kb) V /\ others_same w w1 M l
  | Some l, Some _ =>
      let V' := delete (key_id fb) V in
      let M' := if decide (V' = ∅) then delete (key_id kb) M else M in
      exists w', do_hdel cmd w = Ok (SUCCESS, w') /\ w_out w' = out_null (w_out w) /\ db_ok w' M' /\
        fields_of (w_mem w') M' (key_id kb) V' /\
        (forall x, x ∈ vals M -> x <> l -> mem_obs (w_mem w') x = mem_obs (w_mem w) x) /\
        (V' <> ∅ -> others_same w w' M l) /\
        forall c key' fld' fb', dstr_rep key' kb -> dstr_rep fld' fb' -> short_key fb' ->
          do_hget [c; key'; fld'] w'
          = Ok (SUCCESS, with_out (match V' !! key_id fb' with
                                   | Some v => out_str (w_out w') v (Z.of_nat (length v))
                                   | None => out_null (w_out w')
                                   end) w')
  end.
Proof.
  intros Hdb HszM H1 Hk Hs H2 Hf Hsf HV HszV. destruct (M !! key_id kb) as [l|] eqn:Hl.
  - pose proof (do_hdel_ok w M cmd key kb fld fb l V Hdb HszM H1 Hk Hs H2 Hf Hsf Hl HV HszV) as H.
    destruct (V !! key_id fb) as [vb|]; [|done]. destruct H as (w' & E & Ho & _ & Hobs & Hcase).
    intros V' M'. assert (Hr : db_ok w' M' /\ fields_of (w_mem w') M' (key_id kb) V' /\ (V' <> ∅ -> others_same w w' M l)).
    { unfold M'. destruct (decide (V' = ∅)) as [Ee|Hne]; fold V' in Hcase.
      - rewrite decide_True in Hcase by done. split; [done|]. split; [|done]. unfold fields_of. by rewrite lookup_delete_eq.
      - rewrite decide_False in Hcase by done. destruct Hcase as (? & ? & ?). by split_and!. }
    exists w'. split_and!; try done; try apply Hr. intros c key' fld' fb' Hk' Hf' Hs'. eapply do_hget_ok; try done; apply Hr.
  - unfold do_hdel. cstep arg_ok. cstep arg_ok. erewrite cmd_step by (by eapply lookup_key_ok). by rewrite Hl.
Qed.

(** ** Witnesses *)

Definition hset_cmd : list dstr := [exact_dstr (lit "hset"); exact_dstr (lit "h"); exact_dstr (lit "f"); exact_dstr (lit "v1")].

Lemma hset_hget_witness :
  exists w' l, do_hset hset_cmd w_empty = Ok (SUCCESS, w') /\ w_out w' = out_null [] /\
    db_ok w' (<[key_id (lit "h") := l]> ∅) /\
    do_hget [exact_dstr (lit "hget"); exact_dstr (lit "h"); exact_dstr (lit "f")] w'
    = Ok (SUCCESS, with_out (out_str (w_out w') (lit "v1") 2) w').
Proof.
  destruct (hset_hget w_empty ∅ hset_cmd (exact_dstr (lit "h")) (lit "h") (exact_dstr (lit "f")) (lit "f")
    (exact_dstr (lit "v1")) (lit "v1") ∅) as (w' & l & E & Ho & Hdb & _ & _ & _ & Hget & _);
    [apply w_empty_ok|reflexivity|reflexivity|by apply exact_dstr_rep|by_compute|reflexivity|by apply exact_dstr_rep|by_compute|
     reflexivity|by apply exact_dstr_rep|by_compute|reflexivity|intros q [? Hq]; rewrite lookup_empty in Hq; discriminate Hq|reflexivity|].
  exists w', l. split; [exact E|]. split; [exact Ho|]. split; [exact Hdb|].
  rewrite (Hget (exact_dstr (lit "hget")) (exact_dstr (lit "h")) (exact_dstr (lit "f")) (lit "f"));
    [by rewrite lookup_insert_eq|by apply exact_dstr_rep|by apply exact_dstr_rep|by_compute].
Defined.

Definition h_db : World := match do_hset hset_cmd w_empty with Ok (_, w) => w | Fault _ => w_empty end.

Lemma h_db_fields :
  exists l, db_ok h_db (<[key_id (lit "h") := l]> ∅) /\
    fields_of (w_mem h_db) (<[key_id (lit "h") := l]> ∅) (key_id (lit "h")) (<[key_id (lit "f") := lit "v1"]> ∅).
Proof.
  destruct (do_hset_ok w_empty ∅ hset_cmd (exact_dstr (lit "h")) (lit "h") (exact_dstr (lit "f")) (lit "f")
    (exact_dstr (lit "v1")) (lit "v1") ∅) as (w' & l & E & _ & _ & Hdb & HV & _);
    [apply w_empty_ok|reflexivity|reflexivity|by apply exact_dstr_rep|by_compute|reflexivity|by apply exact_dstr_rep|by_compute|
     reflexivity|by apply exact_dstr_rep|by_compute|reflexivity|intros q [? Hq]; rewrite lookup_empty in Hq; discriminate Hq|reflexivity|].
  exists l. unfold h_db. rewrite E. split; [exact Hdb|exact HV].
Qed.

Definition hdel_cmd : list dstr := [exact_dstr (lit "hdel"); exact_dstr (lit "h"); exact_dstr (lit "f")].

Lemma hdel_exact_witness :
  exists w', do_hdel hdel_cmd h_db = Ok (SUCCESS, w') /\ w_out w' = out_null (w_out h_db) /\ db_ok w' ∅.
Proof.
  destruct h_db_fields as (l & Hdb & HV).
  pose proof (hdel_exact h_db _ hdel_cmd (exact_dstr (lit "h")) (lit "h") (exact_dstr (lit "f")) (lit "f") (<[key_id (lit "f") := lit "v1"]> ∅) Hdb) as H.
  rewrite !lookup_insert_eq in H. destruct H as (w' & E & Ho & Hdb' & _);
    [rewrite map_size_insert; by_compute|reflexivity|by apply exact_dstr_rep|by_compute|reflexivity|by apply exact_dstr_rep|by_compute|exact HV
    |rewrite map_size_insert; by_compute|].
  exists w'. split; [exact E|]. split; [exact Ho|]. rewrite !delete_insert_eq in Hdb'. rewrite !delete_id in Hdb' by apply lookup_empty.
  rewrite decide_True in Hdb' by reflexivity. exact Hdb'.
Defined.
