(* ===== verification/Sets.v ===== *)
(** * Sets of the database: SADD, SREM, SCARD and SMEMBERS

    A set is a table of string nodes that is the value of a key
    ([src/src/redis_functions.cpp]); the abstract set has the keys of its
    members.  [do_sadd] does not look the member up, so the theorems are about
    members that are new to the set (see [sadd_duplicates] for the others). *)

From Stdlib Require Import String.
From S2P Require Import Prelude Libc Dstr Dlist Heap Hash Buffers Hashmap Avl Hll Node Zset Commands Keyspace Lists Scores Tables.

(** ** Representation *)

(** The members of the set that a key leads to; a key that is not there has none. *)
Definition members_of (m : Mem) (M : gmap (Z * list Z) loc) (q : Z * list Z) (S : gset (Z * list Z)) : Prop :=
  match M !! q with
  | Some l => exists N, table_at set_slot m (vals M) l N /\ S = dom N
  | None => S = ∅
  end.

(** The reply of SMEMBERS. *)
Definition reply_list (o : list Z) (bss : list (list Z)) : list Z :=
  foldl (fun o bs => out_str o bs (Z.of_nat (length bs))) (out_arr o (Z.of_nat (length bss))) bss.

(** ** The handlers *)

(** The node of the set, created if the key is new. *)
Lemma find_members_ok w M key kb S :
  db_ok w M -> Z.of_nat (size M) + 1 < 2 ^ 60 -> dstr_rep key kb -> short_key kb -> members_of (w_mem w) M (key_id kb) S ->
  exists w' l N, find_or_create key T_SET w = Ok (l, w') /\ db_ok w' (<[key_id kb := l]> M) /\
    w_out w' = w_out w /\ w_heap w' = w_heap w /\
    table_at set_slot (w_mem w') (vals (<[key_id kb := l]> M)) l N /\ S = dom N /\ vals M ⊆ vals (<[key_id kb := l]> M) /\
    (forall x, x ∈ vals M -> mem_obs (w_mem w') x = mem_obs (w_mem w) x) /\ (is_Some (M !! key_id kb) -> w' = w).
Proof.
  intros Hdb Hsz Hk Hs HS. unfold members_of in HS.
  destruct (find_or_create_ok w M key kb T_SET Hdb Hsz Hk Hs) as (w' & l & E & Hdb' & Ho & Hh & _ & Hcase).
  exists w', l. destruct (M !! key_id kb) as [l0|] eqn:Hq.
  - destruct Hcase as [-> ->]. destruct HS as (N & Hta & ->). exists N. rewrite insert_id in * by done. by split_and!.
  - destruct Hcase as [_ (n0 & n & En & Hn & Hc & Hobs)]. subst S.
    destruct (node_init_ok kb T_SET (Pos.succ l) Hs) as (n1 & En1 & _ & _ & _ & Ht & _ & _ & _ & _ & Hset & _).
    rewrite En in En1. injection En1 as <-.
    exists ∅. split_and!; try done; [|intros x Hx; rewrite vals_insert by done; by apply list_elem_of_further].
    split; [|by intros x ?%elem_of_nil]. exists n, hmap_empty. split; [done|]. split; [change (sl_type set_slot) with T_SET; rewrite <- Ht; by apply (f_equal h_type) in Hc|].
    split; [cbn; rewrite <- (Hset eq_refl); by apply (f_equal h_set) in Hc|].
    split; [apply hm_empty_rep|]. intros q x Hx. by rewrite lookup_empty in Hx.
Qed.

Lemma do_sadd_ok w M cmd key kb value vb S :
  db_ok w M -> Z.of_nat (size M) + 1 < 2 ^ 60 -> cmd !! 1%nat = Some key -> dstr_rep key kb -> short_key kb ->
  cmd !! 2%nat = Some value -> dstr_rep value vb -> short_key vb -> members_of (w_mem w) M (key_id kb) S ->
  key_id vb ∉ S -> Z.of_nat (size S) + 1 < 2 ^ 60 ->
  exists w' l, do_sadd cmd w = Ok (SUCCESS, w') /\ w_out w' = w_out w /\ w_heap w' = w_heap w /\
    db_ok w' (<[key_id kb := l]> M) /\ members_of (w_mem w') (<[key_id kb := l]> M) (key_id kb) ({[key_id vb]} ∪ S) /\
    (forall x, x ∈ vals M -> x <> l -> mem_obs (w_mem w') x = mem_obs (w_mem w) x) /\
    (is_Some (M !! key_id kb) -> others_same w w' M l).
Proof.
  intros Hdb Hsz H1 Hk Hs H2 Hv Hsv HS Hnew HsS.
  destruct (find_members_ok w M key kb S Hdb Hsz Hk Hs HS) as (w1 & l & N & E & Hdb1 & Ho & Hh & Hta & -> & Hincl & Hobs1 & Hw1).
  set (M1 := <[key_id kb := l]> M) in *. pose proof Hta as [(n & hm & Hn & Ht & _) He]. cbn in Ht. apply not_elem_of_dom in Hnew.
  assert (Hl : l ∈ vals M1) by (apply elem_of_vals; exists (key_id kb); apply lookup_insert_eq).
  destruct (create_plain w1 M1 value vb Hdb1 Hv Hsv) as (m & nx & Ec & Hnx & Hdb2 & Hpx & Hidx & HxM & Hsame & Hnone).
  set (x := m_fresh (w_mem w1)) in *.
  assert (HxN : forall y, y ∈ vals N -> y <> x) by (intros y Hy ->; destruct (He x Hy) as [(? & ? & ? & _) _]; congruence).
  assert (Hlx : l <> x) by (by intros ->).
  assert (Hta2 : table_at set_slot (w_mem (with_mem m w1)) (vals M1) l N).
  { eapply table_frame; [exact Hta|by apply Hsame|]. intros y Hy. by apply Hsame, HxN. }
  destruct (table_insert set_slot (with_mem m w1) M1 l N x (key_id vb) Hdb2 Hl Hta2) as (w' & Ei & Hdb' & Hta' & Hc); try done.
  { by rewrite <- size_dom. }
  assert (Hoth : forall y, y ∈ vals M -> y <> l -> m_hnodes (w_mem w') !! y = m_hnodes (w_mem w1) !! y).
  { intros y Hy Hne. assert (y ∈ vals M1) by (by apply Hincl). assert (y <> x) by (by intros ->).
    rewrite (tc_rest _ _ _ _ _ _ Hc), Hsame; try done. intros [?|Hin]%elem_of_cons; [done|]. by apply (He y Hin). }
  exists w', l. split_and!; try done.
  - unfold do_sadd. cstep arg_ok. cstep arg_ok. erewrite cmd_step by exact E. cstep node_ok. rewrite decide_True by done.
    erewrite cmd_step by exact Ec. rewrite insert_set_slot. by erewrite cmd_step by exact Ei.
  - rewrite (tc_out _ _ _ _ _ _ Hc). exact Ho.
  - rewrite (tc_heap _ _ _ _ _ _ Hc). exact Hh.
  - unfold members_of. fold M1. replace (M1 !! key_id kb) with (Some l) by (symmetry; apply lookup_insert_eq).
    exists (<[key_id vb := x]> N). split; [done|]. by rewrite dom_insert_L.
  - intros y Hy Hne. rewrite <- Hobs1 by done. unfold mem_obs. by rewrite Hoth.
  - intros Hin y Hy Hne. rewrite Hoth by done. by rewrite Hw1.
Qed.

(** The node the other commands read. *)
Lemma with_set_ok w M key kb l N k :
  db_ok w M -> dstr_rep key kb -> short_key kb -> M !! key_id kb = Some l -> table_at set_slot (w_mem w) (vals M) l N ->
  with_set key k w = k l w.
Proof.
  intros Hdb Hk Hs Hl [(n & hm & Hn & Ht & _) _]. cbn in Ht. unfold with_set. erewrite cmd_step by (by eapply lookup_key_ok). rewrite Hl.
  cstep node_ok. by rewrite decide_True.
Qed.

Lemma members_read w M kb l S :
  db_ok w M -> short_key kb -> M !! key_id kb = Some l -> members_of (w_mem w) M (key_id kb) S -> Z.of_nat (size S) < 2 ^ 60 ->
  (forall cmd key, cmd !! 1%nat = Some key -> dstr_rep key kb ->
    do_scard cmd w = Ok (SUCCESS, with_out (out_int (w_out w) (Z.of_nat (size S))) w)) /\
  exists bss, (cstr <$> bss) ≡ₚ (snd <$> elements S) /\ forall cmd key, cmd !! 1%nat = Some key -> dstr_rep key kb ->
    do_smembers cmd w = Ok (SUCCESS, with_out (reply_list (w_out w) bss) w).
Proof.
  intros Hdb Hs Hl HS Hsz. unfold members_of in HS. rewrite Hl in HS. destruct HS as (N & Hta & ->). rewrite size_dom in *.
  destruct (table_keys set_slot _ _ _ _ Hta Hsz) as (n & hm & ks & kbs & Hn & Ht & Hg & Hsize & E & Hks & Hp & Hlen). cbn in Hg. split.
  - intros cmd key H1 Hk. unfold do_scard. cstep arg_ok. erewrite with_set_ok by done. cstep node_ok. cstep @field_ok.
    erewrite cmd_step by reflexivity. by rewrite Hsize.
  - exists kbs. split.
    + rewrite Hp, (list_fmap_compose fst snd). apply fmap_Permutation.
      apply NoDup_Permutation; [apply NoDup_fst_map_to_list|apply NoDup_elements|]. intros q.
      rewrite elem_of_elements, elem_of_dom, list_elem_of_fmap. split.
      * intros ([q' x] & -> & Hx%elem_of_map_to_list). by eexists.
      * intros [x Hx]. exists (q, x). by rewrite elem_of_map_to_list.
    + intros cmd key H1 Hk. unfold do_smembers. cstep arg_ok. erewrite with_set_ok by done. cstep node_ok. cstep @field_ok.
      erewrite cmd_step by reflexivity. erewrite cmd_step by (by apply lift_ok). by erewrite cmd_step by (by eapply out_keys_ok).
Qed.

Lemma do_srem_ok w M cmd key kb value vb l S :
  db_ok w M -> cmd !! 1%nat = Some key -> dstr_rep key kb -> short_key kb ->
  cmd !! 2%nat = Some value -> dstr_rep value vb -> short_key vb ->
  M !! key_id kb = Some l -> members_of (w_mem w) M (key_id kb) S -> Z.of_nat (size S) < 2 ^ 60 ->
  exists w', do_srem cmd w = Ok (SUCCESS, w') /\ w_out w' = out_int (w_out w) (if decide (key_id vb ∈ S) then 1 else 0) /\
    w_heap w' = w_heap w /\ db_ok w' M /\ members_of (w_mem w') M (key_id kb) (S ∖ {[key_id vb]}) /\
    others_same w w' M l.
Proof.
  intros Hdb H1 Hk Hs H2 Hv Hsv Hl HS Hsz. unfold members_of in HS. rewrite Hl in HS. destruct HS as (N & Hta & ->). rewrite size_dom in Hsz.
  assert (HlM : l ∈ vals M) by (apply elem_of_vals; by eexists). destruct (tmp_key_ok vb Hsv) as (d & Et & Hd).
  pose proof (table_delete set_slot w M l N (mkHKey (str_hash vb) (Some d)) d vb Hdb HlM Hta eq_refl Hd Hsz) as H.
  cbn [k_hcode] in H. change (str_hash vb, cstr vb) with (key_id vb) in H.
  assert (Hex : exists w1 N1 keep, delete_set l (mkHKey (str_hash vb) (Some d)) w = Ok (if decide (key_id vb ∈ dom N) then 1 else 0, w1) /\
    db_ok w1 M /\ table_at set_slot (w_mem w1) (vals M) l N1 /\ dom N1 = dom N ∖ {[key_id vb]} /\ table_change set_slot l (vals N) keep w w1).
  { destruct (N !! key_id vb) as [x|] eqn:Hx; destruct H as (w1 & E & Hdb1 & Hta1 & Hc); rewrite delete_set_slot.
    - exists w1, (delete (key_id vb) N). eexists. rewrite decide_True by (apply elem_of_dom; by eexists).
      split_and!; try done. apply dom_delete_L.
    - exists w1, N. eexists. rewrite decide_False by (by apply not_elem_of_dom). split_and!; try done.
      apply not_elem_of_dom in Hx. set_solver. }
  destruct Hex as (w1 & N1 & keep & E & Hdb1 & Hta1 & HN1 & Hc). eexists. split; [|split; [|split; [|split; [|split]]]].
  - unfold do_srem. cstep arg_ok. cstep arg_ok. erewrite with_set_ok by done. erewrite cmd_step by (apply lift_ok; by apply rep_bytes).
    erewrite cmd_step by (by apply lift_ok). erewrite cmd_step by exact E. by erewrite cmd_step by reflexivity.
  - cbn. by rewrite (tc_out _ _ _ _ _ _ Hc).
  - cbn. apply (tc_heap _ _ _ _ _ _ Hc).
  - by destruct Hdb1.
  - unfold members_of. rewrite Hl. exists N1. by rewrite HN1.
  - exact (change_others _ _ _ _ w1 _ _ Hta Hc).
Qed.

(** ** Properties *)

(** C18: SADD, SCARD and SMEMBERS.  SADD of a string that is not a member, on a
    new key or on a set, adds exactly that member and sends nothing; SCARD then
    replies the number of members and SMEMBERS every member exactly once.  The
    other nodes of the database are as they were when the key was there; a new
    key may move them to a larger table, and then they keep all but the tables of
    hashes (see [resize_empties_hash]). *)
Theorem sadd_members w M cmd key kb value vb S :
  db_ok w M -> Z.of_nat (size M) + 1 < 2 ^ 60 -> cmd !! 1%nat = Some key -> dstr_rep key kb -> short_key kb ->
  cmd !! 2%nat = Some value -> dstr_rep value vb -> short_key vb -> members_of (w_mem w) M (key_id kb) S ->
  key_id vb ∉ S -> Z.of_nat (size S) + 1 < 2 ^ 60 ->
  let S' := {[key_id vb]} ∪ S in
  exists w' l, do_sadd cmd w = Ok (SUCCESS, w') /\ w_out w' = w_out w /\ w_heap w' = w_heap w /\
    db_ok w' (<[key_id kb := l]> M) /\ members_of (w_mem w') (<[key_id kb := l]> M) (key_id kb) S' /\
    (forall x, x ∈ vals M -> x <> l -> mem_obs (w_mem w') x = mem_obs (w_mem w) x) /\
    (is_Some (M !! key_id kb) -> others_same w w' M l) /\
    (forall c key', dstr_rep key' kb ->
      do_scard [c; key'] w' = Ok (SUCCESS, with_out (out_int (w_out w') (Z.of_nat (size S) + 1)) w')) /\
    exists bss, (cstr <$> bss) ≡ₚ (snd <$> elements S') /\
      forall c key', dstr_rep key' kb -> do_smembers [c; key'] w' = Ok (SUCCESS, with_out (reply_list (w_out w') bss) w').
Proof.
  intros Hdb Hsz H1 Hk Hs H2 Hv Hsv HS Hnew HsS S'.
  destruct (do_sadd_ok w M cmd key kb value vb S) as (w' & l & E & Ho & Hh & Hdb' & HS' & Hobs & Hoth); try done. fold S' in HS'.
  assert (HsS' : size S' = (size S + 1)%nat) by (unfold S'; rewrite size_union, size_singleton by set_solver; lia).
  destruct (members_read w' _ kb l S' Hdb' Hs) as [Hcard (bss & Hp & Hmem)]; [apply lookup_insert_eq|done|lia|].
  exists w', l. split_and!; try done.
  - intros c key' Hk'. rewrite (Hcard _ key') by done. by rewrite HsS', Nat2Z.inj_add.
  - exists bss. split; [done|]. intros c key' Hk'. by apply (Hmem _ key').
Qed.

(** C19: SREM removes exactly the named member of the set of the key and replies
    1, or replies 0 and changes nothing; SCARD and SMEMBERS then reply the
    remaining set, whose key stays even when it is empty.  A key that is not there
    is replied with an error.  The other nodes of the database are as they were. *)
Theorem srem_exact w M cmd key kb value vb S :
  db_ok w M -> cmd !! 1%nat = Some key -> dstr_rep key kb -> short_key kb ->
  cmd !! 2%nat = Some value -> dstr_rep value vb -> short_key vb ->
  members_of (w_mem w) M (key_id kb) S -> Z.of_nat (size S) < 2 ^ 60 ->
  match M !! key_id kb with
  | None => do_srem cmd w = (o ← out_err (w_out w) (lit "node with the provided key does not exist"); Ok (NOT_FOUND, with_out o w))
  | Some l =>
      let S' := S ∖ {[key_id vb]} in
      exists w', do_srem cmd w = Ok (SUCCESS, w') /\ w_out w' = out_int (w_out w) (if decide (key_id vb ∈ S) then 1 else 0) /\
        db_ok w' M /\ members_of (w_mem w') M (key_id kb) S' /\
        others_same w w' M l /\
        (forall c key', dstr_rep key' kb ->
          do_scard [c; key'] w' = Ok (SUCCESS, with_out (out_int (w_out w') (Z.of_nat (size S'))) w')) /\
        exists bss, (cstr <$> bss) ≡ₚ (snd <$> elements S') /\
          forall c key', dstr_rep key' kb -> do_smembers [c; key'] w' = Ok (SUCCESS, with_out (reply_list (w_out w') bss) w')
  end.
Proof.
  intros Hdb H1 Hk Hs H2 Hv Hsv HS Hsz. destruct (M !! key_id kb) as [l|] eqn:Hl.
  - intros S'. destruct (do_srem_ok w M cmd key kb value vb l S) as (w' & E & Ho & _ & Hdb' & HS' & Hobs); try done. fold S' in HS'.
    assert (Hle : (size S' <= size S)%nat) by (apply subseteq_size; set_solver).
    destruct (members_read w' M kb l S' Hdb' Hs Hl HS') as [Hcard (bss & Hp & Hmem)]; [lia|].
    exists w'. split_and!; try done; [intros c key' Hk'; by apply (Hcard _ key')|].
    exists bss. split; [done|]. intros c key' Hk'. by apply (Hmem _ key').
  - unfold do_srem, with_set. cstep arg_ok. cstep arg_ok. erewrite cmd_step by (by eapply lookup_key_ok). rewrite Hl.
    unfold mbind at 1, cmd_bind, out_error, out_r. by destruct (out_err _ _).
Qed.

(** ** Witnesses *)

Definition sadd_cmd : list dstr := [exact_dstr (lit "sadd"); exact_dstr (lit "s"); exact_dstr (lit "a")].
Definition s_db : World := match do_sadd sadd_cmd w_empty with Ok (_, w) => w | Fault _ => w_empty end.

Lemma sadd_members_witness :
  exists w', do_sadd sadd_cmd w_empty = Ok (SUCCESS, w') /\
    do_scard [exact_dstr (lit "scard"); exact_dstr (lit "s")] w' = Ok (SUCCESS, with_out (out_int (w_out w') 1) w').
Proof.
  destruct (sadd_members w_empty ∅ sadd_cmd (exact_dstr (lit "s")) (lit "s") (exact_dstr (lit "a")) (lit "a") ∅)
    as (w' & l & E & _ & _ & _ & _ & _ & _ & Hcard & _);
    [apply w_empty_ok|reflexivity|reflexivity|by apply exact_dstr_rep|by_compute|reflexivity|by apply exact_dstr_rep|by_compute|
     reflexivity|set_solver|reflexivity|].
  exists w'. split; [exact E|]. apply (Hcard (exact_dstr (lit "scard")) (exact_dstr (lit "s"))). by apply exact_dstr_rep.
Defined.

Lemma s_db_members :
  exists l, db_ok s_db (<[key_id (lit "s") := l]> ∅) /\
    members_of (w_mem s_db) (<[key_id (lit "s") := l]> ∅) (key_id (lit "s")) ({[key_id (lit "a")]} ∪ ∅).
Proof.
  destruct (do_sadd_ok w_empty ∅ sadd_cmd (exact_dstr (lit "s")) (lit "s") (exact_dstr (lit "a")) (lit "a") ∅)
    as (w' & l & E & _ & _ & Hdb & HS & _);
    [apply w_empty_ok|reflexivity|reflexivity|by apply exact_dstr_rep|by_compute|reflexivity|by apply exact_dstr_rep|by_compute|
     reflexivity|set_solver|reflexivity|].
  exists l. unfold s_db. rewrite E. split; [exact Hdb|exact HS].
Qed.

Definition srem_cmd : list dstr := [exact_dstr (lit "srem"); exact_dstr (lit "s"); exact_dstr (lit "a")].

Lemma srem_exact_witness :
  exists w', do_srem srem_cmd s_db = Ok (SUCCESS, w') /\ w_out w' = out_int (w_out s_db) 1 /\
    do_scard [exact_dstr (lit "scard"); exact_dstr (lit "s")] w' = Ok (SUCCESS, with_out (out_int (w_out w') 0) w').
Proof.
  destruct s_db_members as (l & Hdb & HS).
  pose proof (srem_exact s_db _ srem_cmd (exact_dstr (lit "s")) (lit "s") (exact_dstr (lit "a")) (lit "a") ({[key_id (lit "a")]} ∪ ∅) Hdb eq_refl) as H.
  rewrite lookup_insert_eq in H.
  destruct (H ltac:(by apply exact_dstr_rep) ltac:(by_compute) eq_refl ltac:(by apply exact_dstr_rep) ltac:(by_compute) HS)
    as (w' & E & Ho & _ & _ & _ & Hcard & _); [rewrite union_empty_r_L, size_singleton; by_compute|].
  exists w'. split; [exact E|]. split; [rewrite Ho, decide_True by set_solver; reflexivity|].
  rewrite (Hcard (exact_dstr (lit "scard")) (exact_dstr (lit "s"))) by (by apply exact_dstr_rep).
  rewrite union_empty_r_L, difference_diag_L, size_empty. reflexivity.
Defined.
