(* ===== verification/Wire.v ===== *)
(** * The key space over the wire

    The command interpreter ([out_buffer], [src/src/server.cpp]) plugged into
    the request loop ([handle_read]) and the client: for SET, GET and DEL the
    server is a finite map from keys to strings, seen through its bytes. *)

From Stdlib Require Import String.
From S2P Require Import Prelude Libc Dstr Dlist Heap Hash Buffers Request Client Hashmap Avl Hll Node Zset Commands Keyspace.

(** ** Definitions *)

(** What outlives a command: [global_data.db], [global_data.ttl_heap] and the
    memory. *)
Record Store := mkStore { s_db : HMap; s_heap : list HeapNode; s_mem : Mem }.

Definition world (st : Store) (out : list Z) : World := mkWorld (s_db st) (s_heap st) (s_mem st) out.
Definition store (w : World) : Store := mkStore (w_db w) (w_heap w) (w_mem w).

(** [out_buffer(conn, cmd)] as [try_one_req] calls it. *)
Definition serve_cmd (logl : QArith_base.Q -> QArith_base.Q) (curr_ms : Z)
  (out : list Z) (cmd : list dstr) (st : Store) : result (list Z * Store) :=
  '(_, w) ← out_buffer logl curr_ms cmd (world st out); Ok (w_out w, store w).

(** ** Specification: a finite map of strings *)

Inductive kv_cmd := KvSet (k v : list Z) | KvGet (k : list Z) | KvDel (k : list Z).

Definition kv_reply : Type := ResponseStatusCodes * list item.

Definition kv_step (c : kv_cmd) (D : gmap (list Z) (list Z)) : kv_reply * gmap (list Z) (list Z) :=
  match c with
  | KvSet k v => ((RES_OK, [INull]), <[k := v]> D)
  | KvGet k => (match D !! k with Some v => (RES_OK, [IStr v]) | None => (RES_NX, [INull]) end, D)
  | KvDel k => match D !! k with
               | Some _ => ((RES_OK, [INull]), delete k D)
               | None => ((RES_ERR, [IErr (lit "node does not exist")]), D)
               end
  end.

Fixpoint kv_run (cs : list kv_cmd) (D : gmap (list Z) (list Z)) : list kv_reply * gmap (list Z) (list Z) :=
  match cs with
  | [] => ([], D)
  | c :: cs => let '(r, D) := kv_step c D in let '(rs, D) := kv_run cs D in (r :: rs, D)
  end.

(** A response on the wire. *)
Definition reply_frame (r : kv_reply) : list Z :=
  le_bytes 4 (Z.of_nat (length (response_body (fst r) (snd r)))) ++ response_body (fst r) (snd r).

(** The request for a command; the case of the name does not matter. *)
Definition kv_request (c : kv_cmd) (query : list (list Z)) : Prop :=
  exists name, match c with
    | KvSet k v => query = [name; k; v] /\ (tolower <$> name) = lit "set"
    | KvGet k => query = [name; k] /\ (tolower <$> name) = lit "get"
    | KvDel k => query = [name; k] /\ (tolower <$> name) = lit "del"
    end.

(** Keys without NUL bytes, values that are bytes; both of at most 16 MiB. *)
Definition kv_key (k : list Z) : Prop := Forall (fun b => b <> 0) k /\ Z.of_nat (length k) <= 2 ^ 24.
Definition kv_val (v : list Z) : Prop := bytes_ok v /\ Z.of_nat (length v) <= 2 ^ 24.
Definition kv_ok (c : kv_cmd) : Prop :=
  match c with
  | KvSet k v => kv_key k /\ kv_val v
  | KvGet k | KvDel k => kv_key k
  end.

(** ** Representation *)

(** The block of a value: its bytes and the room [dstr_append] adds. *)
Definition KV_CAP : Z := 2 ^ 24 + MAX_STR_PREALOC.

Record kv_value (m : Mem) (M : gmap (Z * list Z) loc) (k v : list Z) : Prop := mkKvValue {
  kv_nul : kv_key k;
  kv_bytes : kv_val v;
  kv_node : exists l, M !! key_id k = Some l /\ str_at m l v /\ cap_at m l KV_CAP
}.

Definition kv_rep (st : Store) (D : gmap (list Z) (list Z)) : Prop :=
  exists M, db_ok (world st []) M /\
    (forall k v, D !! k = Some v -> kv_value (s_mem st) M k v) /\
    (forall q l, M !! q = Some l -> exists k, is_Some (D !! k) /\ q = key_id k).

(** ** Lemmas *)

Lemma key_id_inj k k' : kv_key k -> kv_key k' -> key_id k = key_id k' -> k = k'.
Proof. intros [Hk _] [Hk' _] E. apply (f_equal snd) in E. cbn in E. by rewrite !cstr_id in E. Qed.

Lemma kv_size (M : gmap (Z * list Z) loc) (D : gmap (list Z) (list Z)) :
  (forall q l, M !! q = Some l -> exists k, is_Some (D !! k) /\ q = key_id k) -> (size M <= size D)%nat.
Proof.
  intros H. rewrite <- !length_map_to_list, <- (length_fmap fst (map_to_list M)).
  rewrite <- (length_fmap (key_id ∘ fst) (map_to_list D)). apply submseteq_length, NoDup_submseteq.
  - apply NoDup_fst_map_to_list.
  - intros q ([q' l] & -> & Hq)%list_elem_of_fmap. apply elem_of_map_to_list in Hq.
    destruct (H _ _ Hq) as (k & [v Hv] & ->). apply list_elem_of_fmap. exists (k, v).
    split; [done|]. by apply elem_of_map_to_list.
Qed.

Lemma db_ok_out w M o : db_ok w M -> db_ok (with_out o w) M.
Proof. by intros [H1 H2 H3]. Qed.

Lemma db_ok_world st out M : db_ok (world st []) M -> db_ok (world st out) M.
Proof. by intros [H1 H2 H3]. Qed.

Lemma lower_buf_ok bs rest :
  Forall (fun b => b <> 0) bs ->
  lower_buf ((Some <$> bs) ++ Some 0 :: rest) = Ok ((Some <$> (tolower <$> bs)) ++ Some 0 :: rest).
Proof.
  induction 1 as [|b bs Hb _ IH]; [done|]. cbn [fmap list_fmap app lower_buf]. zbool.
  by rewrite IH.
Qed.

Lemma tolower_nul b : tolower b <> 0 -> b <> 0.
Proof. intros H ->. by apply H. Qed.

Lemma tolower_nuls name s :
  (tolower <$> name) = lit s -> Forall (fun b => b <> 0) (lit s) -> Forall (fun b => b <> 0) name.
Proof.
  intros <- H. rewrite Forall_forall in H |- *. intros b Hb. apply tolower_nul, H.
  by apply list_elem_of_fmap_2.
Qed.

Section dispatching.
Variables (logl : QArith_base.Q -> QArith_base.Q) (curr_ms : Z).

(** The name of the command is lower-cased in place. *)
Lemma out_buffer_named c0 name args w :
  dstr_rep c0 name -> Forall (fun b => b <> 0) name ->
  exists c0', out_buffer logl curr_ms (c0 :: args) w
    = dispatch logl curr_ms (tolower <$> name) (c0' :: args) w.
Proof.
  intros [_ _ _ _ [rest Hb]] Hn. unfold out_buffer. erewrite cmd_step by (by apply arg_ok).
  erewrite cmd_step by (apply lift_ok; rewrite Hb; by apply lower_buf_ok). cbn [list_insert insert].
  eexists. erewrite cmd_step; [reflexivity|]. apply lift_ok. rewrite c_str_app, cstr_id; [done|].
  rewrite Forall_forall in Hn |- *. intros b' (b & -> & Hb0%Hn)%list_elem_of_fmap. unfold tolower.
  destruct (_ && _) eqn:E; [|done]. apply andb_true_iff in E as [?%Z.leb_le _]. lia.
Qed.

Lemma dispatch_set c k v w :
  dispatch logl curr_ms (lit "set") [c; k; v] w = (_ ← do_set [c; k; v]; mret tt) w.
Proof. reflexivity. Qed.
Lemma dispatch_get c k w :
  dispatch logl curr_ms (lit "get") [c; k] w = (_ ← do_get [c; k]; mret tt) w.
Proof. reflexivity. Qed.
Lemma dispatch_del c k w :
  dispatch logl curr_ms (lit "del") [c; k] w = (_ ← do_del [c; k]; mret tt) w.
Proof. reflexivity. Qed.
End dispatching.

(** A command reads and extends the response [before_res_build] has begun. *)
Lemma before_eq out :
  fst (before_res_build out)
  = (out ++ le_bytes 4 0 ++ item_bytes (IArr 2) ++ [tag_byte TAG_INT]) ++ le_bytes 4 (res_code RES_OK).
Proof.
  unfold before_res_build. cbn [fst]. rewrite !buf_append_u32_eq. unfold buf_append_u8.
  cbn [item_bytes]. by rewrite <- !app_assoc.
Qed.

Lemma reply_eq out code its :
  (out ++ le_bytes 4 0 ++ item_bytes (IArr 2) ++ [tag_byte TAG_INT]) ++ le_bytes 4 (res_code code) ++ items_bytes its
  = out ++ le_bytes 4 0 ++ response_body code its.
Proof. unfold response_body. cbn [item_bytes]. by rewrite <- !app_assoc. Qed.

Lemma short_kv k : kv_key k -> short_key k.
Proof. intros [_ H]. unfold short_key. rewrite max_str_size_eq. lia. Qed.

Lemma kv_absent (m : Mem) (M : gmap (Z * list Z) loc) (D : gmap (list Z) (list Z)) (k : list Z) :
  (forall q l, M !! q = Some l -> exists k, is_Some (D !! k) /\ q = key_id k) ->
  (forall k v, D !! k = Some v -> kv_value m M k v) -> kv_key k -> D !! k = None -> M !! key_id k = None.
Proof.
  intros Hback Hval Hk Hn. destruct (M !! key_id k) as [l|] eqn:E; [|done].
  destruct (Hback _ _ E) as (k' & [v Hv] & Ek). destruct (Hval _ _ Hv) as [Hk' _ _].
  apply key_id_inj in Ek; [congruence|done|done].
Qed.

(** A value that a command left alone. *)
Lemma kv_value_obs m m' M M' k v :
  kv_value m M k v ->
  (forall l, M !! key_id k = Some l -> M' !! key_id k = Some l /\ mem_obs m' l = mem_obs m l) ->
  kv_value m' M' k v.
Proof.
  intros [H1 H2 (l & Hl & Hs & Hc)] Hobs. split; [done..|]. destruct (Hobs _ Hl) as [Hl' Ho].
  exists l. split; [done|]. split; [by eapply str_at_obs|by eapply cap_at_obs].
Qed.

Section serving.
Variables (logl : QArith_base.Q -> QArith_base.Q) (curr_ms : Z).

(** What is to be shown of each command. *)
Definition serves (st : Store) (D : gmap (list Z) (list Z)) (c : kv_cmd) (ds : list dstr) (out : list Z) : Prop :=
  let r := fst (kv_step c D) in
  exists st', serve_cmd logl curr_ms (fst (before_res_build out)) ds st
      = Ok (out ++ le_bytes 4 0 ++ response_body (fst r) (snd r), st') /\
    kv_rep st' (snd (kv_step c D)) /\ s_heap st' = s_heap st.

(** A handler called through the dispatcher. *)
Lemma serve_named c0 name args st out r w' s :
  dstr_rep c0 name -> (tolower <$> name) = lit s -> Forall (fun b => b <> 0) (lit s) ->
  (forall c0', dispatch logl curr_ms (lit s) (c0' :: args) (world st out) = Ok (r, w')) ->
  serve_cmd logl curr_ms out (c0 :: args) st = Ok (w_out w', store w').
Proof.
  intros Hc Hn Hs Hd. destruct (out_buffer_named logl curr_ms c0 name args (world st out) Hc) as [c0' E];
    [by eapply tolower_nuls|]. unfold serve_cmd. by rewrite E, Hn, Hd.
Qed.

Lemma kv_set_serves st D k v c0 name dk dv out :
  kv_rep st D -> kv_ok (KvSet k v) -> Z.of_nat (size D) + 1 < 2 ^ 60 ->
  (tolower <$> name) = lit "set" -> dstr_rep c0 name -> dstr_rep dk k -> dstr_rep dv v ->
  serves st D (KvSet k v) [c0; dk; dv] out.
Proof.
  intros (M & Hdb & Hval & Hback) [Hk [Hvb Hv]] Hsz Hname Hc Hdk Hdv. pose proof (kv_size M D Hback).
  set (w0 := world st (fst (before_res_build out))).
  assert (Hset : settable w0 M (key_id k) (Z.of_nat (length v))).
  { split; [rewrite max_str_size_eq; lia|]. intros l Hl. destruct (Hback _ _ Hl) as (k' & [v' Hv'] & Ek).
    destruct (Hval _ _ Hv') as [_ _ (l' & Hl' & (n & d & Hn & Hd & Hr) & (n' & d' & Hn' & Hd' & Hcap))].
    assert (l' = l) as -> by congruence. assert (n' = n) as -> by congruence. assert (d' = d) as -> by congruence.
    exists n, d, v'. split_and!; try done. unfold KV_CAP, MAX_STR_PREALOC in Hcap. rewrite max_str_size_eq. lia. }
  assert (Hdo : exists w' l, (forall c, do_set [c; dk; dv] w0 = Ok (SUCCESS, w')) /\
    db_ok w' (<[key_id k := l]> M) /\ str_at (w_mem w') l v /\ cap_at (w_mem w') l KV_CAP /\
    (forall x, x ∈ vals M -> x <> l -> mem_obs (w_mem w') x = mem_obs (w_mem w0) x) /\ w_out w' = out_null (w_out w0) /\
    w_heap w' = w_heap w0).
  { destruct (do_set_ok w0 M [c0; dk; dv] dk k dv v) as (w' & l & E & Hdb' & _ & Hstr & Hcap & Hobs & Ho & Hh);
      try done; [by apply db_ok_world|lia|by apply short_kv|].
    exists w', l. split_and!; try done. apply Hcap; [|unfold KV_CAP; lia].
    intros l' Hl'. destruct (Hback _ _ Hl') as (k' & [v' Hv'] & Ek).
    destruct (Hval _ _ Hv') as [_ _ (l2 & Hl2 & _ & Hc2)]. rewrite <- Ek, Hl' in Hl2. by injection Hl2 as <-. }
  destruct Hdo as (w' & l & E & Hdb' & Hstr & Hcap & Hobs & Ho & Hh). exists (store w'). split; [|split; [|exact Hh]].
  - rewrite (serve_named c0 name [dk; dv] st _ tt w' "set" Hc Hname).
    + rewrite Ho, out_null_eq. cbn [w0 world w_out kv_step fst snd]. rewrite before_eq, <- app_assoc.
      by rewrite <- reply_eq.
    + by_compute.
    + intros c. rewrite dispatch_set. by erewrite cmd_step by exact (E c).
  - exists (<[key_id k := l]> M). split; [by destruct Hdb'|]. cbn [kv_step snd]. split.
    + intros k' v'. destruct (decide (k' = k)) as [->|Hne].
      * rewrite lookup_insert_eq. intros [= <-]. split; [done..|]. exists l. by rewrite lookup_insert_eq.
      * rewrite lookup_insert_ne by done. intros Hv'. pose proof (Hval _ _ Hv') as Hkv.
        assert (Hid : key_id k <> key_id k') by (intros Ei; apply Hne; symmetry; apply key_id_inj; [done|apply Hkv|done]).
        eapply kv_value_obs; [exact Hkv|]. intros l' Hl'. rewrite lookup_insert_ne by done. split; [done|].
        apply Hobs; [apply elem_of_vals; by eexists|]. intros ->. apply Hid.
        eapply db_inj; [exact Hdb'|apply lookup_insert_eq|by rewrite lookup_insert_ne].
    + intros q l' [[<- <-]|[Hne Hq]]%lookup_insert_Some.
      * exists k. by rewrite lookup_insert_eq.
      * destruct (Hback _ _ Hq) as (k' & Hk' & ->). exists k'. split; [|done]. rewrite lookup_insert_ne; [done|].
        by intros ->.
Qed.

Lemma kv_get_serves st D k c0 name dk out :
  kv_rep st D -> kv_ok (KvGet k) -> (tolower <$> name) = lit "get" -> dstr_rep c0 name -> dstr_rep dk k ->
  serves st D (KvGet k) [c0; dk] out.
Proof.
  intros Hrep Hk Hname Hc Hdk. pose proof Hrep as (M & Hdb & Hval & Hback). cbn in Hk.
  set (w0 := world st (fst (before_res_build out))).
  assert (Hdb0 : db_ok w0 M) by (by apply db_ok_world).
  assert (Hdo : forall r o, (forall c, do_get [c; dk] w0 = Ok (r, with_out o w0)) ->
    serve_cmd logl curr_ms (fst (before_res_build out)) [c0; dk] st = Ok (o, st)).
  { intros r o E. rewrite (serve_named c0 name [dk] st _ tt (with_out o w0) "get" Hc Hname).
    - by destruct st.
    - by_compute.
    - intros c. rewrite dispatch_get. by erewrite cmd_step by exact (E c). }
  exists st. split; [|done]. cbn [kv_step fst snd]. destruct (D !! k) as [v|] eqn:Hv.
  - destruct (Hval _ _ Hv) as [_ [_ Hlen] (l & Hl & Hstr & _)]. rewrite (Hdo SUCCESS _
      (fun c => proj2 (do_get_ok w0 M [c; dk] dk k Hdb0 eq_refl Hdk (short_kv _ Hk)) l v Hl Hstr)).
    rewrite out_str_eq by lia. cbn [w0 world w_out]. rewrite before_eq, <- app_assoc.
    cbn [fst snd]. rewrite <- reply_eq, items_bytes_cons. unfold items_bytes at 1. by rewrite app_nil_r.
  - pose proof (kv_absent _ _ _ _ Hback Hval Hk Hv) as Hn.
    rewrite (Hdo NOT_FOUND (out ++ le_bytes 4 0 ++ response_body RES_NX [INull])); [done|].
    intros c. rewrite (proj1 (do_get_ok w0 M [c; dk] dk k Hdb0 eq_refl Hdk (short_kv _ Hk)) Hn).
    cbn [w0 world w_out]. rewrite before_eq, out_not_found_eq. cbn [mbind result_bind]. by rewrite <- reply_eq.
Qed.

Lemma kv_del_serves st D k c0 name dk out :
  kv_rep st D -> kv_ok (KvDel k) -> Z.of_nat (size D) + 1 < 2 ^ 60 ->
  (tolower <$> name) = lit "del" -> dstr_rep c0 name -> dstr_rep dk k ->
  serves st D (KvDel k) [c0; dk] out.
Proof.
  intros Hrep Hk Hsz Hname Hc Hdk. pose proof Hrep as (M & Hdb & Hval & Hback). cbn in Hk.
  pose proof (kv_size M D Hback). set (w0 := world st (fst (before_res_build out))).
  assert (Hdb0 : db_ok w0 M) by (by apply db_ok_world).
  assert (Hdo : forall r w', (forall c, do_del [c; dk] w0 = Ok (r, w')) ->
    serve_cmd logl curr_ms (fst (before_res_build out)) [c0; dk] st = Ok (w_out w', store w')).
  { intros r w' E. rewrite (serve_named c0 name [dk] st _ tt w' "del" Hc Hname); [done|by_compute|].
    intros c. rewrite dispatch_del. by erewrite cmd_step by exact (E c). }
  pose proof (fun c => do_del_ok w0 M [c; dk] dk k Hdb0 ltac:(lia) eq_refl Hdk (short_kv _ Hk)) as Hdel.
  unfold serves. cbn [kv_step fst snd]. destruct (D !! k) as [v|] eqn:Hv; cbn [fst snd].
  - destruct (Hval _ _ Hv) as [_ _ (l & Hl & _)]. rewrite Hl in Hdel.
    destruct (Hdel c0) as (w' & E & Hdb' & Ho & Hh & Hobs). exists (store w'). rewrite (Hdo SUCCESS w') by done.
    split; [|split; [|exact Hh]].
    + rewrite Ho, out_null_eq. cbn [w0 world w_out]. rewrite before_eq, <- app_assoc. by rewrite <- reply_eq.
    + exists (delete (key_id k) M). split; [by destruct Hdb'|]. split.
      * intros k' v' [Hne Hv']%lookup_delete_Some. pose proof (Hval _ _ Hv') as Hkv.
        assert (Hid : key_id k <> key_id k') by (intros Ei; apply Hne; apply key_id_inj; [done|apply Hkv|done]).
        eapply kv_value_obs; [exact Hkv|]. intros l' Hl'. rewrite lookup_delete_ne by done. split; [done|].
        apply Hobs; [apply elem_of_vals; by eexists|]. intros ->. apply Hid. by eapply (db_inj w0).
      * intros q l' [Hne Hq]%lookup_delete_Some. destruct (Hback _ _ Hq) as (k' & Hk' & ->).
        exists k'. split; [|done]. rewrite lookup_delete_ne; [done|]. by intros ->.
  - pose proof (kv_absent _ _ _ _ Hback Hval Hk Hv) as Hn. rewrite Hn in Hdel. exists st. split; [|done].
    rewrite (Hdo NOT_FOUND (with_out (out ++ le_bytes 4 0 ++ response_body RES_ERR [IErr (lit "node does not exist")]) w0)).
    + by destruct st.
    + intros c. rewrite (Hdel c). cbn [w0 world w_out]. rewrite before_eq, out_err_eq by done.
      cbn [mbind result_bind]. by rewrite <- reply_eq.
Qed.

(** One command: the bytes of its response, and the map it leaves. *)
Lemma kv_answers st D c query ds out :
  kv_rep st D -> kv_ok c -> Z.of_nat (size D) + 1 < 2 ^ 60 -> kv_request c query ->
  Forall2 dstr_rep ds query -> Z.of_nat (length out) < 2 ^ 32 ->
  exists st', answer (serve_cmd logl curr_ms) out ds st = Ok (out ++ reply_frame (fst (kv_step c D)), st') /\
    kv_rep st' (snd (kv_step c D)) /\ s_heap st' = s_heap st.
Proof.
  intros Hrep Hok Hsz [name Hq] Hds Hout.
  assert (Hbody : Z.of_nat (length (response_body (fst (fst (kv_step c D))) (snd (fst (kv_step c D))))) <= MAX_MESSAGE_LEN).
  { change MAX_MESSAGE_LEN with (2 ^ 25). unfold response_body. rewrite !length_app.
    destruct c as [k v|k|k]; cbn [kv_step]; [vm_compute; discriminate| |
      by destruct (D !! k); vm_compute; discriminate].
    destruct (D !! k) as [v|] eqn:Hv; [|vm_compute; discriminate]. destruct Hrep as (M & _ & Hval & _).
    destruct (Hval _ _ Hv) as [_ [_ Hlen] _]. cbn [fst snd]. rewrite items_bytes_cons, length_app.
    unfold items_bytes. cbn [item_bytes fmap list_fmap concat length]. rewrite length_app, !le_bytes_length. lia. }
  assert (Hs : serves st D c ds out).
  { destruct c as [k v|k|k]; destruct Hq as [-> Hname].
    - do 3 (apply Forall2_cons_inv_r in Hds as (? & ? & ? & Hds & ->)). apply Forall2_nil_inv_r in Hds as ->.
      by eapply kv_set_serves.
    - do 2 (apply Forall2_cons_inv_r in Hds as (? & ? & ? & Hds & ->)). apply Forall2_nil_inv_r in Hds as ->.
      by eapply kv_get_serves.
    - do 2 (apply Forall2_cons_inv_r in Hds as (? & ? & ? & Hds & ->)). apply Forall2_nil_inv_r in Hds as ->.
      by eapply kv_del_serves. }
  destruct Hs as (st' & E & Hrep'). exists st'. split; [|done]. by apply (answer_exact _ _ _ _ _ _ E).
Qed.

Lemma kv_step_size c D : (size (snd (kv_step c D)) <= S (size D))%nat.
Proof.
  destruct c as [k v|k|k]; cbn [kv_step snd].
  - rewrite map_size_insert. case_match; cbn; lia.
  - lia.
  - case_match; cbn; [|lia]. rewrite map_size_delete. case_match; cbn; lia.
Qed.

End serving.

(** Any number of commands, for an interpreter that answers each one as the map
    does. *)
Section serving_all.
Context {St : Type} (interp : list Z -> list dstr -> St -> result (list Z * St))
  (rep : St -> gmap (list Z) (list Z) -> Prop).
Hypothesis interp_answers : forall st D c query ds out,
  rep st D -> kv_ok c -> Z.of_nat (size D) + 1 < 2 ^ 60 -> kv_request c query ->
  Forall2 dstr_rep ds query -> Z.of_nat (length out) < 2 ^ 32 ->
  exists st', answer interp out ds st = Ok (out ++ reply_frame (fst (kv_step c D)), st') /\ rep st' (snd (kv_step c D)).

Lemma kv_serve cs queries dss st D out :
  rep st D -> Forall kv_ok cs -> Forall2 kv_request cs queries -> Forall2 (Forall2 dstr_rep) dss queries ->
  Z.of_nat (size D) + Z.of_nat (length cs) < 2 ^ 60 ->
  Z.of_nat (length out) + Z.of_nat (length (concat (reply_frame <$> fst (kv_run cs D)))) < 2 ^ 32 ->
  exists st', serve interp dss out st = Ok (out ++ concat (reply_frame <$> fst (kv_run cs D)), st') /\
    rep st' (snd (kv_run cs D)).
Proof.
  intros Hrep Hok Hreq. revert dss st D out Hrep Hok.
  induction Hreq as [|c query cs queries Hq Hreq IH]; intros dss st D out Hrep Hok Hds Hsz Hout.
  - apply Forall2_nil_inv_r in Hds as ->. exists st. cbn. by rewrite app_nil_r.
  - apply Forall2_cons_inv_r in Hds as (ds & dss' & Hd & Hds & ->). apply Forall_cons in Hok as [Hc Hok].
    cbn [kv_run serve] in *. pose proof (kv_step_size c D) as Hss. cbn [length] in Hsz.
    destruct (interp_answers st D c query ds out Hrep Hc ltac:(lia) Hq Hd ltac:(lia)) as (st1 & E1 & Hrep1).
    destruct (kv_step c D) as [r D1]. cbn [fst snd] in *. destruct (kv_run cs D1) as [rs D2] eqn:Er.
    cbn [fst snd fmap list_fmap concat] in *. rewrite length_app in Hout. rewrite E1. cbn [mbind result_bind].
    destruct (IH dss' st1 D1 (out ++ reply_frame r) Hrep1 Hok Hds) as (st2 & E2 & Hrep2);
      rewrite ?Er, ?length_app; cbn [fst]; [lia|lia|]. rewrite Er in E2, Hrep2. cbn [fst snd] in *.
    exists st2. by rewrite E2, app_assoc.
Qed.
End serving_all.

Lemma kv_answered logl curr_ms st D c query ds out :
  kv_rep st D -> kv_ok c -> Z.of_nat (size D) + 1 < 2 ^ 60 -> kv_request c query ->
  Forall2 dstr_rep ds query -> Z.of_nat (length out) < 2 ^ 32 ->
  exists st', answer (serve_cmd logl curr_ms) out ds st = Ok (out ++ reply_frame (fst (kv_step c D)), st') /\
    kv_rep st' (snd (kv_step c D)).
Proof.
  intros H1 H2 H3 H4 H5 H6. destruct (kv_answers logl curr_ms st D c query ds out H1 H2 H3 H4 H5 H6) as (st' & E & H & _).
  by exists st'.
Qed.

Lemma kv_request_ok c query : kv_ok c -> kv_request c query -> request_ok query.
Proof.
  intros Hok [name Hq]. unfold request_ok. rewrite length_request_body.
  assert (Hn : forall s, (tolower <$> name) = lit s -> length name = length (lit s))
    by (intros s <-; by rewrite length_fmap).
  destruct c as [k v|k|k]; destruct Hq as [-> Hname%Hn]; cbn in Hname;
    cbn [fmap list_fmap concat]; rewrite !length_app, !length_token_bytes; cbn [length].
  - destruct Hok as [[_ Hk] [_ Hv]]. lia.
  - destruct Hok as [_ Hk]. lia.
  - destruct Hok as [_ Hk]. lia.
Qed.

(** The items of a reply are what the client can decode. *)
Lemma kv_items c D st :
  kv_rep st D -> exists code i, fst (kv_step c D) = (code, [i]) /\ item_ok i /\ item_small i /\
    Z.of_nat (length (item_bytes i)) <= 2 ^ 25.
Proof.
  intros (M & _ & Hval & _).
  assert (Herr : item_ok (IErr (lit "node does not exist"))) by (split; by_compute).
  destruct c as [k v|k|k]; cbn [kv_step fst snd]; [by exists RES_OK, INull| |].
  - destruct (D !! k) as [v|] eqn:Hv; [|by exists RES_NX, INull]. exists RES_OK, (IStr v).
    destruct (Hval _ _ Hv) as [_ [Hb Hlen] _]. cbn [item_ok item_small item_bytes length].
    rewrite length_app, le_bytes_length, max_str_size_eq. split_and!; try done; lia.
  - destruct (D !! k); [by exists RES_OK, INull|]. eexists _, _. split_and!; [reflexivity|done|by_compute|by_compute].
Qed.

(** ** Properties *)

Section properties.
Variables (logl : QArith_base.Q -> QArith_base.Q) (curr_ms : Z).

(** C1: the server is a map of strings.  For any sequence of SET, GET and DEL
    requests (in any letter case), cut into any number of reads anywhere, the
    bytes the server sends are exactly the responses of a finite map from keys
    to strings, in order, and it represents the updated map afterwards. *)
Theorem kv_over_the_wire cs queries chunks st D :
  kv_rep st D -> Forall kv_ok cs -> Forall2 kv_request cs queries ->
  concat chunks = concat (request_frame <$> queries) ->
  Z.of_nat (size D) + Z.of_nat (length cs) < 2 ^ 60 ->
  Z.of_nat (length (concat (reply_frame <$> fst (kv_run cs D)))) < 2 ^ 32 ->
  exists st', read_chunks (serve_cmd logl curr_ms) (mkConnBufs [] []) chunks st
      = Ok (mkConnBufs [] (concat (reply_frame <$> fst (kv_run cs D))), st') /\
    kv_rep st' (snd (kv_run cs D)).
Proof.
  intros Hrep Hok Hreq Hch Hsz Hout.
  assert (Hall : Forall request_ok queries).
  { clear -Hok Hreq. induction Hreq as [|c q cs qs Hq _ IH]; [constructor|].
    apply Forall_cons in Hok as [Hc Hok]. constructor; [by eapply kv_request_ok|by apply IH]. }
  destruct (read_chunks_ok (serve_cmd logl curr_ms) queries chunks [] [] st Hall Hch) as (dss & Hds & E).
  { destruct queries as [|q qs]; [done|]. cbn. rewrite length_request_frame. lia. }
  destruct (kv_serve (serve_cmd logl curr_ms) kv_rep (kv_answered logl curr_ms) cs queries dss st D [] Hrep Hok Hreq Hds Hsz Hout)
    as (st' & Es & Hrep').
  exists st'. split; [|done]. rewrite E, Es. done.
Qed.

(** Client and server together.  The client puts the request of a command
    on the wire, the server answers it, and the client decodes exactly the
    reply of the map, however [write] and [read] split the bytes. *)
Lemma kv_session k1 k2 c query st D :
  kv_rep st D -> kv_ok c -> kv_request c query -> Z.of_nat (size D) + 1 < 2 ^ 60 ->
  Z.of_nat (length (request_body query)) <= CLIENT_MAX_MESSAGE_LEN -> (forall n, 0 < k1 n) ->
  let '((code, its), D') := kv_step c D in
  exists sent resp st', client_handle_write k1 query = (0, sent) /\
    handle_read_data (serve_cmd logl curr_ms) (mkConnBufs [] []) sent st = Ok (mkConnBufs [] resp, st') /\
    client_handle_read k2 resp = (evs ← mapM shown its; Ok (Some (res_code code, evs, []))) /\ kv_rep st' D'.
Proof.
  intros Hrep Hok Hreq Hsz Hlen Hk. destruct (kv_items c D st Hrep) as (code & i & Ei & Hi & Hsm & Hlb).
  destruct (read_chunks_ok (serve_cmd logl curr_ms) [query] [request_frame query] [] [] st)
    as (dss & Hds & E); [by constructor; [eapply kv_request_ok|]|done|cbn; rewrite length_request_frame; lia|].
  apply Forall2_cons_inv_r in Hds as (ds & dss' & Hd & Hds & ->). apply Forall2_nil_inv_r in Hds as ->.
  destruct (kv_answers logl curr_ms st D c query ds [] Hrep Hok Hsz Hreq Hd) as (st' & Ea & Hrep' & _); [done|].
  destruct (kv_step c D) as [r D']. cbn [fst snd] in *. subst r.
  exists (request_frame query), (reply_frame (code, [i])), st'.
  cbn [read_chunks serve] in E. rewrite Ea in E. cbn [mbind result_bind app] in E.
  split_and!; [by apply client_writes| | |done].
  - destruct (handle_read_data _ _ _ _) as [[conn st0]|]; [|done]. cbn [mbind result_bind] in E. exact E.
  - unfold reply_frame. cbn [fst snd]. rewrite <- (app_nil_r (response_body code [i])) at 2.
    apply client_reads; [by constructor|by constructor|]. unfold response_body. rewrite !length_app, items_bytes_cons, length_app.
    cbn [item_bytes]. cbn [length]. rewrite !le_bytes_length. unfold items_bytes. cbn [fmap list_fmap concat length]. lia.
Qed.
End properties.

(** ** Witnesses *)

Definition st_empty : Store := store w_empty.

Lemma st_empty_rep : kv_rep st_empty ∅.
Proof. exists ∅. split; [apply w_empty_ok|]. split; intros ? ?; by rewrite lookup_empty. Qed.

(** SET k v1, GET k, DEL k and GET k, arriving in two pieces. *)
Definition kv_script : list kv_cmd := [KvSet (lit "k") (lit "v1"); KvGet (lit "k"); KvDel (lit "k"); KvGet (lit "k")].
Definition kv_queries : list (list (list Z)) :=
  [[lit "SET"; lit "k"; lit "v1"]; [lit "Get"; lit "k"]; [lit "del"; lit "k"]; [lit "GET"; lit "k"]].

Lemma kv_key_k : kv_key (lit "k").
Proof. split; by_compute. Qed.

Lemma kv_script_ok : Forall kv_ok kv_script.
Proof. repeat constructor; by_compute. Qed.

Lemma kv_script_queries : Forall2 kv_request kv_script kv_queries.
Proof. repeat constructor; eexists; split; reflexivity. Qed.

Lemma kv_over_the_wire_witness :
  exists st', read_chunks (serve_cmd (fun q => q) 0) (mkConnBufs [] [])
      [take 20 (concat (request_frame <$> kv_queries)); drop 20 (concat (request_frame <$> kv_queries))] st_empty
      = Ok (mkConnBufs [] (concat (reply_frame <$>
              [(RES_OK, [INull]); (RES_OK, [IStr (lit "v1")]); (RES_OK, [INull]); (RES_NX, [INull])])), st') /\
    kv_rep st' (snd (kv_run kv_script ∅)).
Proof.
  apply (kv_over_the_wire (fun q => q) 0 kv_script kv_queries _ st_empty ∅ st_empty_rep kv_script_ok kv_script_queries);
    reflexivity.
Defined.

Lemma kv_session_witness :
  exists sent resp st', client_handle_write (fun _ => 3) [lit "get"; lit "k"] = (0, sent) /\
    handle_read_data (serve_cmd (fun q => q) 0) (mkConnBufs [] []) sent st_empty = Ok (mkConnBufs [] resp, st') /\
    client_handle_read (fun _ => 2%nat) resp = Ok (Some (2, [PNull], [])) /\ kv_rep st' ∅.
Proof.
  apply (kv_session (fun q => q) 0 (fun _ => 3) (fun _ => 2%nat) (KvGet (lit "k")) [lit "get"; lit "k"] st_empty ∅ st_empty_rep);
    [exact kv_key_k|eexists; split; reflexivity|reflexivity|by_compute|done].
Defined.
