(* ===== verification/Shell.v ===== *)
(** * The prompt of the client: [handle_loop] and [main] of [src/src/client.cpp]

    A line of the standard input becomes one request and its response is
    printed.  The peer at the other end of the socket is a function from the
    bytes it is sent to the bytes it sends back; plugged to the server of
    [Wire], what the user types and sees is a finite map of strings. *)

From Stdlib Require Import String.
From S2P Require Import Prelude Libc Dstr Dlist Heap Hash Buffers Request Client Hashmap Avl Hll Node Zset Commands Keyspace Wire.

(** ** Definitions *)

(** [fgets(rawcmd, n + 1, stdin)]: at most [n] characters, up to and with the
    first newline; [NULL] at the end of the input. *)
Fixpoint fgets_chars (n : nat) (stdin : list Z) : list Z * list Z :=
  match n, stdin with
  | S n, c :: rest =>
      if c =? 10 then ([c], rest) else let '(s, rest) := fgets_chars n rest in (c :: s, rest)
  | _, _ => ([], stdin)
  end.

Definition fgets (n : nat) (stdin : list Z) : option (list Z * list Z) :=
  match stdin with [] => None | _ => Some (fgets_chars (n - 1) stdin) end.

(** [strtok(s, " ")] and [strtok(NULL, " ")]: the next token and what is left. *)
Fixpoint skip_delim (s : list Z) : list Z :=
  match s with c :: r => if c =? 32 then skip_delim r else s | [] => [] end.

Fixpoint token (s : list Z) : list Z * list Z :=
  match s with
  | [] => ([], [])
  | c :: r => if c =? 32 then ([], r) else let '(t, r) := token r in (c :: t, r)
  end.

Definition strtok (s : list Z) : option (list Z * list Z) :=
  match skip_delim s with [] => None | s => Some (token s) end.

(** [while (tmp)]: a token takes at least one character. *)
Fixpoint strtok_loop (fuel : nat) (s : list Z) : result (list dstr) :=
  match strtok s with
  | None => Ok []
  | Some (tmp, s) =>
      match fuel with
      | O => Fault OutOfFuel
      | S fuel => str ← dstr_copy tmp; cmd ← strtok_loop fuel s; Ok (str :: cmd)
      end
  end.

(** The branch for a command of one word, which is lower-cased in place:
    [Some ret] returns [ret] at once. *)
Definition one_word (cmd : list dstr) : result (list dstr * option Z) :=
  match cmd with
  | [c0] =>
      b ← lower_buf (d_buf c0);
      name ← c_str b;
      Ok ([mkDstr (d_size c0) (d_free c0) b],
          if named name "quit" then Some 1 else if named name "clear" then Some 0 else None)
  | _ => Ok (cmd, None)
  end.

Section shell.
Context {St : Type}.
(** What the peer sends back for the bytes it is sent. *)
Variable peer : list Z -> St -> result (list Z * St).
(** How many bytes each [write] and [read] moves. *)
Variables (kw : nat -> Z) (kr : nat -> nat).

(** The standard input, the bytes that have arrived on the socket, the peer. *)
Record Shell := mkShell { sh_stdin : list Z; sh_wire : list Z; sh_peer : St }.

(** The return value and what is printed; the socket is closed where -1 is
    returned. *)
Definition handle_loop (sh : Shell) : result (Z * list printed * Shell) :=
  match fgets 1024 (sh_stdin sh) with
  | None => Ok (0, [], sh)
  | Some (rawcmd, stdin) =>
      let len := length (cstr rawcmd) in
      let line := if (0 <? len)%nat then take (len - 1) (cstr rawcmd) else [] in
      cmd ← strtok_loop (length line) line;
      '(cmd, stop) ← one_word cmd;
      match stop with
      | Some ret => Ok (ret, [], mkShell stdin (sh_wire sh) (sh_peer sh))
      | None =>
          query ← mapM dstr_bytes cmd;
          let '(err, sent) := client_handle_write kw query in
          '(resp, st) ← peer sent (sh_peer sh);
          let wire := sh_wire sh ++ resp in
          if negb (err =? 0) then Ok (-1, [], mkShell stdin wire st)
          else
            r ← client_handle_read kr wire;
            match r with
            | None => Ok (-1, [], mkShell stdin [] st)
            | Some (_, out, wire) => Ok (0, out, mkShell stdin wire st)
            end
      end
  end.

(** The first [n] turns of the loop of [main]; [None]: it is still running. *)
Fixpoint client_main (n : nat) (sh : Shell) : result (option Z * list printed * Shell) :=
  match n with
  | O => Ok (None, [], sh)
  | S n =>
      '(err, out, sh) ← handle_loop sh;
      if err =? 0 then '(ret, outs, sh) ← client_main n sh; Ok (ret, out ++ outs, sh)
      else Ok (Some err, out, sh)
  end.
End shell.
Arguments Shell : clear implicits.

(** The server as the peer, with nothing of a request left in its buffer. *)
Definition server_peer (logl : QArith_base.Q -> QArith_base.Q) (curr_ms : Z) (sent : list Z) (st : Store)
  : result (list Z * Store) :=
  '(conn, st) ← handle_read_data (serve_cmd logl curr_ms) (mkConnBufs [] []) sent st;
  Ok (outgoing conn, st).

(** ** Specification *)

(** A word of a line. *)
Definition word (w : list Z) : Prop := w <> [] /\ Forall (fun b => b <> 0 /\ b <> 10 /\ b <> 32) w.

Fixpoint join (ws : list (list Z)) : list Z :=
  match ws with
  | [] => []
  | [w] => w
  | w :: ws => w ++ 32 :: join ws
  end.

(** What the user types for a list of words. *)
Definition line_of (ws : list (list Z)) : list Z := join ws ++ [10].

Definition typed (ws : list (list Z)) : Prop := Forall word ws /\ (length (line_of ws) <= 1023)%nat.

(** What the user sees of a sequence of replies; a string that the client does
    not terminate is read past its end. *)
Fixpoint screen (rs : list kv_reply) : result (list printed) :=
  match rs with
  | [] => Ok []
  | r :: rs => out ← mapM shown (snd r); outs ← screen rs; Ok (out ++ outs)
  end.

(** ** Lemmas *)

Lemma fgets_line n s rest :
  Forall (fun b => b <> 10) s -> (length s < n)%nat -> fgets_chars n (s ++ 10 :: rest) = (s ++ [10], rest).
Proof.
  intros Hs. revert n. induction Hs as [|b s Hb _ IH]; intros [|n] Hn; cbn in Hn; try lia; [done|].
  cbn [app fgets_chars]. zbool. rewrite IH by lia. done.
Qed.

Lemma token_space w rest : Forall (fun b => b <> 32) w -> token (w ++ 32 :: rest) = (w, rest).
Proof. induction 1 as [|b w Hb _ IH]; [done|]. cbn [app token]. zbool. by rewrite IH. Qed.

Lemma token_end w : Forall (fun b => b <> 32) w -> token w = (w, []).
Proof. induction 1 as [|b w Hb _ IH]; [done|]. cbn [token]. zbool. by rewrite IH. Qed.

Lemma skip_word w rest : word w -> skip_delim (w ++ rest) = w ++ rest.
Proof.
  intros [Hne Hw]. destruct w as [|b w]; [done|]. apply Forall_cons in Hw as [(_ & _ & Hb) _].
  cbn [app skip_delim]. by zbool.
Qed.

Lemma word_no b w : word w -> b = 0 \/ b = 10 \/ b = 32 -> Forall (fun x => x <> b) w.
Proof. intros [_ H] Hb. eapply Forall_impl; [exact H|]. cbn. intros x Hx. destruct Hb as [->|[->| ->]]; tauto. Qed.

Lemma strtok_join w ws :
  word w -> strtok (join (w :: ws)) = Some (w, join ws).
Proof.
  intros Hw. pose proof (word_no 32 w Hw ltac:(tauto)) as H32. unfold strtok. destruct ws as [|w' ws].
  - change (join [w]) with w. rewrite <- (app_nil_r w) at 1. rewrite skip_word, app_nil_r by done.
    destruct w eqn:E; [by destruct Hw|]. rewrite <- E in *. by rewrite token_end.
  - change (join (w :: w' :: ws)) with (w ++ 32 :: join (w' :: ws)). rewrite skip_word by done.
    destruct (w ++ _) eqn:E; [by destruct w|]. rewrite <- E. by rewrite token_space.
Qed.

Lemma length_join ws : Forall word ws -> (2 * length ws <= length (join ws) + 1)%nat.
Proof.
  induction 1 as [|w ws [Hne _] _ IH]; [cbn; lia|]. destruct w as [|b w]; [done|].
  destruct ws; cbn [join length] in *; [cbn; lia|]. rewrite length_app. cbn [length] in *. lia.
Qed.

Lemma strtok_words ws fuel :
  Forall word ws -> (length ws <= fuel)%nat -> strtok_loop fuel (join ws) = mapM dstr_copy ws.
Proof.
  intros Hws. revert fuel. induction Hws as [|w ws Hw _ IH]; intros fuel Hf; [by destruct fuel|].
  destruct fuel as [|fuel]; cbn [length] in Hf; [lia|]. cbn [strtok_loop]. rewrite strtok_join by done.
  rewrite IH by lia. done.
Qed.

Lemma join_no b ws : Forall word ws -> b = 0 \/ b = 10 -> Forall (fun x => x <> b) (join ws).
Proof.
  intros Hws Hb. induction Hws as [|w ws Hw _ IH]; [constructor|].
  pose proof (word_no b w Hw ltac:(tauto)). destruct ws; [done|]. cbn [join]. apply Forall_app. split; [done|].
  constructor; [lia|done].
Qed.

(** The request of a line is within the limit of the client. *)
Lemma words_fit ws :
  Forall word ws -> (length (join ws) <= 1022)%nat -> Z.of_nat (length (request_body ws)) <= CLIENT_MAX_MESSAGE_LEN.
Proof.
  intros Hws Hlen. pose proof (length_join ws Hws) as H2. rewrite length_request_body.
  assert (length (concat (token_bytes <$> ws)) <= length (join ws) + 4 * length ws + 1)%nat.
  { clear. induction ws as [|w ws IH]; [cbn; lia|]. cbn [fmap list_fmap concat]. rewrite length_app, length_token_bytes.
    destruct ws as [|w' ws]; [cbn; lia|].
    change (join (w :: w' :: ws)) with (w ++ 32 :: join (w' :: ws)). rewrite length_app. cbn [length] in *. lia. }
  unfold CLIENT_MAX_MESSAGE_LEN. lia.
Qed.

Lemma typed_join ws : typed ws -> (length (join ws) <= 1022)%nat.
Proof. intros [_ H]. unfold line_of in H. rewrite length_app in H. cbn in H. lia. Qed.

Lemma typed_fits ws : typed ws -> Z.of_nat (length (request_body ws)) <= CLIENT_MAX_MESSAGE_LEN.
Proof. intros H. apply words_fit; [apply H|by apply typed_join]. Qed.

Lemma lower_nonzero w : Forall (fun b => b <> 0) w -> Forall (fun b => b <> 0) (tolower <$> w).
Proof.
  rewrite !Forall_forall. intros H b' (b & -> & Hb%H)%list_elem_of_fmap. unfold tolower.
  destruct (_ && _) eqn:E; [|done]. apply andb_true_iff in E as [?%Z.leb_le _]. lia.
Qed.

Lemma reps_bytes ds ws : Forall2 dstr_rep ds ws -> mapM dstr_bytes ds = Ok ws.
Proof. induction 1 as [|d w ds ws Hd _ IH]; [done|]. cbn. by rewrite (rep_bytes _ _ Hd), IH. Qed.

(** The words of what [fgets] read: the last character is dropped. *)
Lemma raw_words stdin ws x rest :
  Forall word ws -> fgets 1024 stdin = Some (join ws ++ [x], rest) -> x <> 0 -> (length (join ws) <= 1022)%nat ->
  exists cmd, Forall2 dstr_rep cmd ws /\
    forall St (peer : list Z -> St -> result (list Z * St)) kw kr wire st,
    handle_loop peer kw kr (mkShell stdin wire st)
    = ('(cmd, stop) ← one_word cmd;
       match stop with
       | Some ret => Ok (ret, [], mkShell rest wire st)
       | None =>
           query ← mapM dstr_bytes cmd;
           let '(err, sent) := client_handle_write kw query in
           '(resp, st) ← peer sent st;
           let wire := wire ++ resp in
           if negb (err =? 0) then Ok (-1, [], mkShell rest wire st)
           else
             r ← client_handle_read kr wire;
             match r with
             | None => Ok (-1, [], mkShell rest [] st)
             | Some (_, out, wire) => Ok (0, out, mkShell rest wire st)
             end
       end).
Proof.
  intros Hws Hf Hx Hlen. pose proof (length_join ws Hws) as Hj. pose proof (words_fit ws Hws Hlen) as Hfit.
  destruct (copies_exist ws) as (cmd & Hcmd & Hrep); [unfold request_ok, CLIENT_MAX_MESSAGE_LEN in *; lia|].
  exists cmd. split; [done|]. intros St peer kw kr wire st. unfold handle_loop. cbn [sh_stdin sh_wire sh_peer].
  rewrite Hf, cstr_id.
  2: { apply Forall_app. split; [apply join_no; tauto|]. by repeat constructor. }
  rewrite length_app. cbn [length]. rewrite Nat.add_1_r. cbn [Nat.ltb Nat.leb]. rewrite Nat.sub_succ, Nat.sub_0_r.
  rewrite take_app_length, strtok_words by (done || lia). by rewrite Hcmd.
Qed.

(** What [fgets] reads of a typed line. *)
Lemma fgets_typed ws rest : typed ws -> fgets 1024 (line_of ws ++ rest) = Some (line_of ws, rest).
Proof.
  intros [Hws Hlen]. unfold fgets, line_of in *. rewrite length_app in Hlen. cbn [length] in Hlen.
  rewrite <- app_assoc. cbn [app]. destruct (join ws ++ 10 :: rest) eqn:E; [by destruct (join ws)|].
  rewrite <- E. by rewrite fgets_line by (first [apply join_no; tauto|lia]).
Qed.

(** [fgets] of a line that does not fit. *)
Lemma fgets_full n s rest : Forall (fun b => b <> 10) s -> length s = n -> fgets_chars n (s ++ rest) = (s, rest).
Proof.
  intros Hs <-. induction Hs as [|b s Hb _ IH]; [by destruct rest|]. cbn [app length fgets_chars]. zbool. by rewrite IH.
Qed.

(** A line of two words or more is sent as it is and the response printed. *)
Lemma line_exchange {St} (peer : list Z -> St -> result (list Z * St)) kw kr ws rest st :
  typed ws -> (2 <= length ws)%nat -> (forall n, 0 < kw n) ->
  handle_loop peer kw kr (mkShell (line_of ws ++ rest) [] st)
  = ('(resp, st) ← peer (request_frame ws) st;
     r ← client_handle_read kr resp;
     match r with
     | None => Ok (-1, [], mkShell rest [] st)
     | Some (_, out, wire) => Ok (0, out, mkShell rest wire st)
     end).
Proof.
  intros Ht H2 Hk. destruct (raw_words _ ws 10 rest (proj1 Ht) (fgets_typed ws rest Ht)) as (cmd & Hrep & ->); [done|by apply typed_join|]. pose proof (Forall2_length _ _ _ Hrep).
  assert (one_word cmd = Ok (cmd, None)) as ->.
  { destruct cmd as [|? [|? ?]]; cbn [length] in *; [lia|lia|done]. }
  cbn [mbind result_bind]. rewrite (reps_bytes _ _ Hrep). cbn [mbind result_bind].
  rewrite client_writes by (done || by apply typed_fits). done.
Qed.

(** A single word is lower-cased. *)
Lemma one_word_ok d w :
  dstr_rep d w -> Forall (fun b => b <> 0) w ->
  exists d', dstr_rep d' (tolower <$> w) /\
    one_word [d] = Ok ([d'], if named (tolower <$> w) "quit" then Some 1
                             else if named (tolower <$> w) "clear" then Some 0 else None).
Proof.
  intros [Hs Hf Hc Ha [r Hb]] Hw. cbn [one_word]. rewrite Hb, lower_buf_ok by done. cbn [mbind result_bind].
  rewrite c_str_app, cstr_id by (by apply lower_nonzero). cbn [mbind result_bind]. eexists. split; [|reflexivity].
  assert (Hl : length (tolower <$> w) = length w) by apply length_fmap.
  split; cbn [d_size d_free d_buf]; [by rewrite Hl|done|done| |by exists r].
  rewrite Hb, !length_app, !length_fmap in *. exact Ha.
Qed.

(** The word [quit]. *)
Lemma line_quit {St} (peer : list Z -> St -> result (list Z * St)) kw kr w rest wire st :
  typed [w] -> (tolower <$> w) = lit "quit" ->
  handle_loop peer kw kr (mkShell (line_of [w] ++ rest) wire st) = Ok (1, [], mkShell rest wire st).
Proof.
  intros Ht Hw. destruct (raw_words _ [w] 10 rest (proj1 Ht) (fgets_typed [w] rest Ht)) as (cmd & Hrep & ->); [done|by apply typed_join|].
  apply Forall2_cons_inv_r in Hrep as (d & cmd' & Hd & Hrep & ->). apply Forall2_nil_inv_r in Hrep as ->.
  destruct (one_word_ok d w Hd) as (d' & _ & ->); [apply (tolower_nuls _ "quit" Hw); by_compute|]. by rewrite Hw.
Qed.

(** ** Properties *)

Section properties.
Variables (logl : QArith_base.Q -> QArith_base.Q) (curr_ms : Z) (kw : nat -> Z) (kr : nat -> nat).
Hypothesis writes : forall n, 0 < kw n.

(** C12: the terminal.  A user types SET, GET and DEL commands and then [quit] at
    the prompt of a client that talks to the server.  When every string in the
    replies of the map is empty or holds a NUL of its own, the user sees exactly
    these replies, in order; the client then exits with 1 and has read every line and
    every byte, and the server is left with the map of the specification,
    however [write] and [read] split the bytes.  Otherwise ([GET] of a value
    without a NUL, [DEL] of an absent key) the client reads uninitialised memory
    at the first such reply. *)
Theorem typed_session cs queries w rest st D :
  kv_rep st D -> Forall kv_ok cs -> Forall2 kv_request cs queries -> Forall typed queries ->
  typed [w] -> (tolower <$> w) = lit "quit" -> Z.of_nat (size D + length cs) < 2 ^ 60 ->
  exists st', client_main (server_peer logl curr_ms) kw kr (S (length cs))
      (mkShell (concat (line_of <$> queries) ++ line_of [w] ++ rest) [] st)
    = (out ← screen (fst (kv_run cs D)); Ok (Some 1, out, mkShell rest [] st')) /\
    kv_rep st' (snd (kv_run cs D)).
Proof.
  intros Hrep Hok Hreq Hty Hw Hq Hsz. revert st D Hrep Hok Hty Hsz.
  induction Hreq as [|c q cs qs Hcq _ IH]; intros st D Hrep Hok Hty Hsz.
  - exists st. split; [|done]. cbn [fmap list_fmap concat app length client_main]. by rewrite line_quit.
  - apply Forall_cons in Hok as [Hc Hok], Hty as [Hqt Hty]. cbn [length] in Hsz.
    pose proof (kv_session logl curr_ms kw kr c q st D Hrep Hc Hcq ltac:(lia) (typed_fits _ Hqt) writes) as Hs.
    pose proof (kv_step_size c D) as Hsz'. cbn [kv_run].
    destruct (kv_step c D) as [[code its] D'] eqn:Ek. destruct Hs as (sent & resp & st1 & Ew & Es & Er & Hrep1).
    rewrite client_writes in Ew by (done || by apply typed_fits). injection Ew as <-.
    destruct (IH st1 D' Hrep1 Hok Hty) as (st' & E & Hrep'); [cbn [snd] in Hsz'; lia|].
    destruct (kv_run cs D') as [rs D''] eqn:Er'. exists st'. cbn [fst snd] in *. split; [|done].
    cbn [fmap list_fmap concat length]. rewrite <- app_assoc. cbn [client_main].
    rewrite line_exchange; [|done| |done].
    + assert (server_peer logl curr_ms (request_frame q) st = Ok (resp, st1)) as -> by (unfold server_peer; by rewrite Es).
      cbn [mbind result_bind screen snd]. rewrite Er. destruct (mapM shown its) as [out|]; [|done].
      cbn [mbind result_bind Z.eqb]. cbn [client_main] in E. rewrite E. by destruct (screen rs).
    + destruct Hcq as [name Hn]. destruct c; destruct Hn as [-> _]; cbn; lia.
Qed.

(** A blank line is sent as a request without words, and the server reads
    [cmd[0]] of it: an empty line at the prompt of any client stops the server. *)
Theorem blank_line_stops_server rest st :
  handle_loop (server_peer logl curr_ms) kw kr (mkShell (line_of [] ++ rest) [] st) = Fault OutOfBounds.
Proof.
  destruct (raw_words (line_of [] ++ rest) [] 10 rest) as (cmd & Hrep & ->); [constructor|reflexivity|done|cbn; lia|].
  apply Forall2_nil_inv_r in Hrep as ->. cbn [one_word mbind result_bind mapM]. cbn [mret result_ret mbind result_bind].
  rewrite client_writes by (done || by_compute). reflexivity.
Qed.
End properties.

(** At the end of the input the client does not exit: [main] prints the prompt
    for ever. *)
Theorem eof_spins {St} (peer : list Z -> St -> result (list Z * St)) kw kr n wire st :
  client_main peer kw kr n (mkShell [] wire st) = Ok (None, [], mkShell [] wire st).
Proof.
  induction n as [|n IH]; [done|]. cbn [client_main handle_loop fgets sh_stdin mbind result_bind Z.eqb].
  by rewrite IH.
Qed.

(** A line that does not fit the buffer of 1023 characters: its first part
    is a command of its own that loses its last character, and what is left of
    the line is the next command. *)
Theorem long_line_splits {St} (peer : list Z -> St -> result (list Z * St)) kw kr a b rest st :
  word a -> length a = 1022%nat -> b <> 0 /\ b <> 10 -> (forall n, 0 < kw n) ->
  handle_loop peer kw kr (mkShell (a ++ b :: rest) [] st)
  = ('(resp, st) ← peer (request_frame [tolower <$> a]) st;
     r ← client_handle_read kr resp;
     match r with
     | None => Ok (-1, [], mkShell rest [] st)
     | Some (_, out, wire) => Ok (0, out, mkShell rest wire st)
     end).
Proof.
  intros Ha Hla [Hb0 Hb10] Hk. pose proof (word_no 10 a Ha ltac:(tauto)) as H10.
  assert (Hf : fgets 1024 (a ++ b :: rest) = Some (join [a] ++ [b], rest)).
  { unfold fgets. destruct (a ++ b :: rest) eqn:E; [by destruct a|]. rewrite <- E. cbn [join].
    replace (a ++ b :: rest) with ((a ++ [b]) ++ rest) by (by rewrite <- app_assoc).
    rewrite fgets_full; [done| |rewrite length_app; cbn; lia]. apply Forall_app. split; [done|]. by repeat constructor. }
  destruct (raw_words _ [a] b rest (Forall_cons_2 word a [] Ha (Forall_nil_2 _)) Hf Hb0) as (cmd & Hrep & ->); [cbn; lia|].
  apply Forall2_cons_inv_r in Hrep as (d & cmd' & Hd & Hrep & ->). apply Forall2_nil_inv_r in Hrep as ->.
  destruct (one_word_ok d a Hd (word_no 0 a Ha ltac:(tauto))) as (d' & Hd' & ->).
  assert (Hl : length (tolower <$> a) = 1022%nat) by (by rewrite length_fmap).
  assert (Hname : forall s, length (lit s) <> 1022%nat -> named (tolower <$> a) s = false).
  { intros s Hs. apply bool_decide_eq_false. intros E. by rewrite E in Hl. }
  rewrite !Hname by by_compute. cbn [mbind result_bind]. rewrite (reps_bytes [d'] [tolower <$> a]) by (constructor; [done|constructor]).
  cbn [mbind result_bind]. rewrite client_writes; [done|done|]. rewrite length_request_body.
  cbn [fmap list_fmap concat]. rewrite app_nil_r, length_token_bytes. fold (fmap (M:=list) tolower a). rewrite Hl. by_compute.
Qed.

(** ** Witnesses *)

Lemma typed_session_witness :
  exists st', client_main (server_peer (fun q => q) 0) (fun _ => 3) (fun _ => 2%nat) 5
      (mkShell (lit "SET k v1" ++ [10] ++ lit "get j" ++ [10] ++ lit "DEL k" ++ [10] ++ lit "set j v2" ++ [10]
        ++ lit "Quit" ++ [10]) [] st_empty)
    = Ok (Some 1, [PNull; PNull; PNull; PNull], mkShell [] [] st') /\
    kv_rep st' (<[lit "j" := lit "v2"]> (delete (lit "k") (<[lit "k" := lit "v1"]> ∅))).
Proof.
  apply (typed_session (fun q => q) 0 (fun _ => 3) (fun _ => 2%nat) ltac:(done)
    [KvSet (lit "k") (lit "v1"); KvGet (lit "j"); KvDel (lit "k"); KvSet (lit "j") (lit "v2")]
    [[lit "SET"; lit "k"; lit "v1"]; [lit "get"; lit "j"]; [lit "DEL"; lit "k"]; [lit "set"; lit "j"; lit "v2"]]
    (lit "Quit") [] st_empty ∅ st_empty_rep).
  - repeat constructor; by_compute.
  - repeat constructor; eexists; split; reflexivity.
  - repeat constructor; try discriminate; by_compute.
  - repeat constructor; try discriminate; by_compute.
  - reflexivity.
  - reflexivity.
Defined.
