(* ===== verification/Expiry.v ===== *)
(** * Expiry of keys: the last loop of [process_timers] in [src/src/server.cpp]
    and EXPIRE

    The database and the heap of deadlines together: every entry of the heap
    belongs to a node of the database whose [heap_idx] is its position
    ([ttl_ok]).  The theorems say which keys the timer deletes. *)

From Stdlib Require Import String.
From S2P Require Import Prelude Libc Dstr Dlist Heap Hash Buffers Hashmap Avl Hll Node Zset Commands Keyspace.

(** ** Definitions *)

Definition MAX_TTL_TASKS : Z := 200.

(** [container_of(ttl_heap[0].pos_ref, HNode, heap_idx)] is the node of the
    entry; the counter is compared before it is incremented. *)
Fixpoint expire_loop (fuel : nat) (curr_ms curr_iterations : Z) : cmdM unit :=
  heap ← get_heap;
  match heap with
  | [] => mret tt
  | top :: _ =>
      if hn_val top <? curr_ms then
        match fuel with
        | O => lift (Fault OutOfFuel)
        | S fuel =>
            let hnode := hn_pos_ref top in
            m ← get_mem; '(heap, m) ← lift (rem_ttl heap m hnode);
            _ ← set_heap heap; _ ← set_mem m;
            key ← lift (node_key m (Some hnode));
            _ ← delete_db key;
            if MAX_TTL_TASKS <=? curr_iterations then mret tt
            else expire_loop fuel curr_ms (curr_iterations + 1)
        end
      else mret tt
  end.

(** At most 201 turns. *)
Definition expire_entries (curr_ms : Z) : cmdM unit :=
  expire_loop (S (Z.to_nat MAX_TTL_TASKS)) curr_ms 0.

(** ** Representation *)

Record ttl_ok (w : World) (M : gmap (Z * list Z) loc) : Prop := mkTtlOk {
  to_db : db_ok w M;
  to_size : Z.of_nat (size M) < 2 ^ 60;
  to_live : heap_live (w_heap w) (w_mem w);
  to_tracked : tracked (w_heap w) (w_mem w);
  to_refs : hn_pos_ref <$> w_heap w ⊆ vals M
}.

(** ** Lemmas *)

(** The heap only writes [heap_idx] fields. *)
Definition idx_only (m m' : Mem) : Prop :=
  forall x n, m_hnodes m !! x = Some n -> exists n', m_hnodes m' !! x = Some n' /\
    node_core (set_h_heap_idx 0 n') = node_core (set_h_heap_idx 0 n).

Lemma idx_only_str m m' x bs : idx_only m m' -> str_at m x bs -> str_at m' x bs.
Proof.
  intros H (n & d & Hn & Hv & Hd). destruct (H _ _ Hn) as (n' & Hn' & E). exists n', d.
  split_and!; try done. rewrite <- Hv. by apply (f_equal h_val) in E.
Qed.

Definition same_db (m : Mem) (db : HMap) (M : gmap (Z * list Z) loc) (m' : Mem) : Prop :=
  hm_map m' db M /\ mem_ok m' (vals M) /\ fresh_ok m' /\ idx_only m m'.

Lemma same_db_set m db M l v m1 m2 :
  same_db m db M m1 -> pos_set l v m1 = Ok m2 -> same_db m db M m2.
Proof.
  intros (Hm & Hok & Hf & Hi) E. cbn in E. unfold hput in E. cbn [update] in E.
  destruct (m_hnodes m1 !! l) as [n|] eqn:Hn; [|done]. cbn in E. injection E as <-.
  assert (Hsh : same_shape n (set_h_heap_idx v n)) by done. split_and!.
  - eapply hm_map_frame; [|exact Hm]. intros x _. by eapply put_shape_ident.
  - by eapply put_shape_mem_ok.
  - by eapply put_shape_fresh.
  - intros x n0 Hx. destruct (Hi x n0 Hx) as (n1 & Hn1 & E1). cbn.
    destruct (decide (x = l)) as [->|]; [|by exists n1; rewrite lookup_insert_ne].
    rewrite lookup_insert_eq. eexists. split; [done|]. rewrite Hn in Hn1. injection Hn1 as <-. exact E1.
Qed.

Lemma same_db_refl w M : db_ok w M -> same_db (w_mem w) (w_db w) M (w_mem w).
Proof. intros [H1 H2 H3]. split_and!; try done. intros x n Hn. by exists n. Qed.

(** A node of the database as the key of a search. *)
Lemma node_key_ok w M q l :
  db_ok w M -> M !! q = Some l -> exists d kb hk, node_key (w_mem w) (Some l) = Ok hk /\
    k_key hk = Some d /\ dstr_rep d kb /\ q = (k_hcode hk, cstr kb).
Proof.
  intros [[_ Hid] (ot & oz & Hok) _] Hq.
  destruct (Hok l) as (n & kb & Hn & _ & Hk & _); [apply elem_of_vals; by eexists|].
  exists (h_key n), kb, (mkHKey (h_hcode n) (Some (h_key n))). unfold node_key, hget.
  rewrite (deref_some _ _ _ Hn). split_and!; try done. cbn [k_hcode]. pose proof (Hid _ _ Hq) as E.
  rewrite (ident_spec _ _ (h_hcode n) (h_key n) kb) in E; [by injection E as <-| | |done];
    cbn; by rewrite Hn.
Qed.

(** Entries of nodes that a command left alone. *)
Lemma obs_pos m m' l : mem_obs m' l = mem_obs m l -> is_Some (m_hnodes m !! l) ->
  pos_get m' l = pos_get m l /\ is_Some (m_hnodes m' !! l).
Proof.
  intros E [n Hn]. destruct (obs_core _ _ _ _ E Hn) as (n' & Hn' & Ec). split; [|by eexists].
  cbn. rewrite Hn, Hn'. cbn.
  apply (f_equal h_heap_idx) in Ec. cbn in Ec. by rewrite Ec.
Qed.

Lemma heap_obs heap m m' :
  heap_live heap m -> tracked heap m -> (forall x, x ∈ hn_pos_ref <$> heap -> mem_obs m' x = mem_obs m x) ->
  heap_live heap m' /\ tracked heap m'.
Proof.
  intros [Hl Hn Hs] Ht Hobs. split; [split; try done|].
  - rewrite Forall_forall in Hl |- *. intros x Hx. apply (obs_pos m); [|by apply Hl].
    apply Hobs. by apply list_elem_of_fmap_2.
  - intros i x Hk Hi. rewrite <- (Ht i x Hk Hi). apply (obs_pos m m').
    + apply Hobs. apply list_elem_of_fmap_2. by eapply list_elem_of_lookup_2.
    + rewrite Forall_forall in Hl. apply (Hl x). by eapply list_elem_of_lookup_2.
Qed.

(** One turn of the loop. *)
Lemma expire_turn w M top rest :
  ttl_ok w M -> w_heap w = top :: rest ->
  exists q m1 h1 hk w', M !! q = Some (hn_pos_ref top) /\
    rem_ttl (w_heap w) (w_mem w) (hn_pos_ref top) = Ok (h1, m1) /\ node_key m1 (Some (hn_pos_ref top)) = Ok hk /\
    delete_db hk (mkWorld (w_db w) h1 m1 (w_out w)) = Ok (1, w') /\
    ttl_ok w' (delete q M) /\ top :: w_heap w' ≡ₚ w_heap w /\ w_out w' = w_out w /\
    forall x bs, x ∈ vals (delete q M) -> str_at (w_mem w) x bs -> str_at (w_mem w') x bs.
Proof.
  intros [Hdb Hsz Hl Ht Hrefs] Hh. assert (Hin : hn_pos_ref top ∈ vals M).
  { apply Hrefs. rewrite Hh. apply list_elem_of_here. }
  apply elem_of_vals in Hin as [q Hq]. assert (Htop : w_heap w !! 0%nat = Some top) by (by rewrite Hh).
  destruct (rem_ttl_ok (w_heap w) (w_mem w) 0 top Hl Ht Htop) as (h1 & m1 & E1 & Hl1 & Ht1 & Hp).
  destruct (rem_ttl_inv (same_db (w_mem w) (w_db w) M) (same_db_set _ _ _) _ _ _ _ _ (same_db_refl w M Hdb) E1)
    as (Hm1 & Hok1 & Hf1 & Hi1).
  set (w1 := mkWorld (w_db w) h1 m1 (w_out w)). assert (Hdb1 : db_ok w1 M) by done.
  destruct (node_key_ok w1 M q _ Hdb1 Hq) as (d & kb & hk & Ek & Hkd & Hd & ->).
  pose proof (delete_db_ok w1 M hk d kb Hdb1 Hsz Hkd Hd) as Hdel. rewrite Hq in Hdel.
  destruct Hdel as (w' & E2 & Hdb' & Ho & Hh' & Hobs). set (q := (k_hcode hk, cstr kb)) in *.
  exists q, m1, h1, hk, w'. cbn [w1 w_heap] in Hh'. rewrite Hh'. split_and!; try done.
  - assert (Hne : forall x, x ∈ hn_pos_ref <$> h1 -> x ∈ vals M /\ x <> hn_pos_ref top).
    { intros x Hx. destruct Hl as [_ Hnd _]. rewrite <- Hp in Hnd. cbn in Hnd. apply NoDup_cons in Hnd as [Hnd _].
      split; [|by intros ->]. apply Hrefs. rewrite <- Hp. by apply list_elem_of_further. }
    destruct (heap_obs h1 m1 (w_mem w') Hl1 Ht1) as [Hl' Ht'].
    { intros x Hx. by apply Hobs; apply Hne. }
    split; rewrite ?Hh'; try done.
    + rewrite map_size_delete_Some by (by eexists). lia.
    + intros x [Hx Hxt]%Hne. apply elem_of_vals in Hx as [q' Hq']. apply elem_of_vals. exists q'.
      rewrite lookup_delete_ne; [done|]. intros <-. congruence.
  - intros x bs [q' [Hne Hq']%lookup_delete_Some]%elem_of_vals Hs. eapply str_at_obs; [|by eapply idx_only_str].
    apply Hobs; [apply elem_of_vals; by eexists|]. intros ->. apply Hne. by eapply (db_inj w1).
Qed.

(** What the loop leaves, after deleting the nodes of the entries [removed]. *)
Record expired (curr_ms : Z) (w : World) (M : gmap (Z * list Z) loc) (removed : list HeapNode)
  (w' : World) (M' : gmap (Z * list Z) loc) : Prop := mkExpired {
  ex_ok : ttl_ok w' M';
  ex_heap : w_heap w ≡ₚ removed ++ w_heap w';
  ex_past : Forall (fun e => hn_val e < curr_ms) removed;
  ex_keys : forall q l, M' !! q = Some l <-> M !! q = Some l /\ (l ∉ hn_pos_ref <$> removed);
  ex_out : w_out w' = w_out w;
  ex_vals : forall x bs, x ∈ vals M' -> str_at (w_mem w) x bs -> str_at (w_mem w') x bs
}.

Lemma expired_nil curr_ms w M : ttl_ok w M -> expired curr_ms w M [] w M.
Proof. intros H. split; try done. intros q l. split; [|tauto]. intros Hq. split; [done|]. apply not_elem_of_nil. Qed.

Lemma expired_cons curr_ms w M top q w1 removed w' M' :
  ttl_ok w M -> M !! q = Some (hn_pos_ref top) -> hn_val top < curr_ms -> top :: w_heap w1 ≡ₚ w_heap w ->
  w_out w1 = w_out w ->
  (forall x bs, x ∈ vals (delete q M) -> str_at (w_mem w) x bs -> str_at (w_mem w1) x bs) ->
  expired curr_ms w1 (delete q M) removed w' M' -> expired curr_ms w M (top :: removed) w' M'.
Proof.
  intros Hok Hq Htop Hp Ho Hs [H1 H2 H3 H4 H5 H6].
  assert (Hkeys : forall q' l, M' !! q' = Some l <-> M !! q' = Some l /\ (l ∉ hn_pos_ref <$> top :: removed)).
  { intros q' l. rewrite H4, lookup_delete_Some. cbn [fmap list_fmap]. rewrite not_elem_of_cons. split.
    - intros ((Hne & Hq') & Hl). split; [done|]. split; [|done]. intros ->. apply Hne. eapply db_inj; [apply Hok|done..].
    - intros (Hq' & Hl & Hr). split; [|done]. split; [|done]. intros <-. congruence. }
  split; [done| |by constructor|exact Hkeys|congruence|].
  - rewrite <- Hp, H2. done.
  - intros x bs Hx Hsx. apply H6; [done|]. apply Hs; [|done]. apply elem_of_vals in Hx as [q' Hq'].
    apply H4 in Hq' as [Hq' _]. apply elem_of_vals. by exists q'.
Qed.

Lemma expire_loop_ok fuel curr_ms iters w M :
  ttl_ok w M -> 0 <= iters -> Z.of_nat fuel + iters = MAX_TTL_TASKS + 1 -> iters <= MAX_TTL_TASKS ->
  exists w' M' removed, expire_loop fuel curr_ms iters w = Ok (tt, w') /\ expired curr_ms w M removed w' M' /\
    Z.of_nat (length removed) + iters <= MAX_TTL_TASKS + 1 /\
    (Z.of_nat (length removed) + iters <= MAX_TTL_TASKS ->
     match w_heap w' with [] => True | top :: _ => curr_ms <= hn_val top end) /\
    (forall top rest, w_heap w = top :: rest -> hn_val top < curr_ms -> top ∈ removed).
Proof.
  revert iters w M. induction fuel as [|fuel IH]; intros iters w M Hok Hi Hf Hm; [lia|].
  cbn [expire_loop]. erewrite cmd_step by reflexivity.
  destruct (w_heap w) as [|top rest] eqn:Hh.
  { exists w, M, []. split_and!; [done|by apply expired_nil|cbn; lia|by rewrite Hh|done]. }
  destruct (Z.ltb_spec (hn_val top) curr_ms) as [Htop|Htop].
  2: { exists w, M, []. split_and!; [done|by apply expired_nil|cbn; lia|by rewrite Hh|intros ? ? [= -> ->]; lia]. }
  destruct (expire_turn w M top rest Hok Hh) as (q & m1 & h1 & hk & w1 & Hq & E1 & Ek & E2 & Hok1 & Hp & Ho & Hs).
  rewrite Hh in E1. erewrite cmd_step by reflexivity. erewrite cmd_step by (by apply lift_ok). cbn beta iota.
  do 2 (erewrite cmd_step by reflexivity). erewrite cmd_step by (by apply lift_ok).
  erewrite cmd_step by exact E2. destruct (Z.leb_spec MAX_TTL_TASKS iters) as [Hle|Hlt].
  - exists w1, (delete q M), [top]. split_and!; [done| |cbn; lia|cbn; lia|intros ? ? [= <- _] _; apply list_elem_of_here].
    eapply expired_cons; try done. by apply expired_nil.
  - destruct (IH (iters + 1) w1 (delete q M) Hok1) as (w' & M' & removed & E & Hex & Hlen & Hroot & _); [lia..|].
    exists w', M', (top :: removed). cbn [length]. split_and!; [done|by eapply expired_cons|lia| |].
    + intros Hle. apply Hroot. lia.
    + intros ? ? [= <- _] _. apply list_elem_of_here.
Qed.

(** EXPIRE of a key that has no deadline yet. *)
Lemma do_expire_ok w M cmd key kb ttls tb curr_ms l :
  ttl_ok w M -> cmd !! 1%nat = Some key -> dstr_rep key kb -> short_key kb ->
  cmd !! 2%nat = Some ttls -> dstr_rep ttls tb -> M !! key_id kb = Some l -> (l ∉ hn_pos_ref <$> w_heap w) ->
  heap_ordered (w_heap w) -> Z.of_nat (length (w_heap w)) + 1 < 2 ^ 31 ->
  let e := mkHeapNode (u64 (curr_ms + u64 (u64 (strtol (cstr tb)) * 1000))) l in
  exists w', do_expire curr_ms cmd w = Ok (SUCCESS, w') /\ ttl_ok w' M /\ heap_ordered (w_heap w') /\
    w_heap w' ≡ₚ e :: w_heap w /\ w_out w' = out_null (w_out w) /\ w_db w' = w_db w /\ idx_only (w_mem w) (w_mem w').
Proof.
  intros [Hdb Hsz Hl Ht Hrefs] Hc1 Hk Hs Hc2 Htb Hq Hn Hord Hlen e.
  destruct (set_ttl_ok (w_heap w) (w_mem w) curr_ms l (u64 (u64 (strtol (cstr tb)) * 1000)))
    as (h1 & m1 & E & [Hl1 Ht1 Hord1] & Hp); [done| |done|done|].
  { destruct (db_nodes _ _ Hdb) as (ot & oz & Hok). destruct (Hok l) as (n & kb' & Hnn & _);
      [apply elem_of_vals; by eexists|by exists n]. }
  destruct (set_ttl_inv (same_db (w_mem w) (w_db w) M) (same_db_set _ _ _) _ _ _ _ _ _ _ (same_db_refl w M Hdb) E)
    as (Hm1 & Hok1 & Hf1 & Hi1).
  exists (mkWorld (w_db w) h1 m1 (out_null (w_out w))). split_and!; try done.
  - unfold do_expire. cstep arg_ok. rewrite (cmd_step _ _ w (strtol (cstr tb)) w).
    2: { unfold arg_int. cstep arg_ok. erewrite cmd_step; [done|]. apply lift_ok.
         destruct Htb as [_ _ _ _ [rest ->]]. apply c_str_app. }
    erewrite cmd_step by (by eapply lookup_key_ok). rewrite Hq. do 2 (erewrite cmd_step by reflexivity).
    erewrite cmd_step by (apply lift_ok; exact E). done.
  - split; try done. cbn [w_heap]. rewrite Hp. intros x [->|Hx]%elem_of_cons; [|by apply Hrefs].
    apply elem_of_vals. by eexists.
Qed.

(** TTL of a key with a deadline. *)
Lemma do_ttl_ok w M cmd key kb t e :
  ttl_ok w M -> cmd !! 1%nat = Some key -> dstr_rep key kb -> short_key kb ->
  M !! key_id kb = Some (hn_pos_ref e) -> e ∈ w_heap w ->
  do_ttl t cmd w = Ok (SUCCESS, with_out (out_int (w_out w) (u32 (u64 (hn_val e - u32 t) / 1000))) w).
Proof.
  intros [Hdb _ [_ _ _] Ht _] Hc Hk Hs Hq [i Hi]%list_elem_of_lookup_1.
  pose proof (Ht i e ltac:(done) Hi) as Hpos. cbn in Hpos.
  destruct (m_hnodes (w_mem w) !! hn_pos_ref e) as [n|] eqn:Hn; [|done].
  unfold do_ttl. cstep arg_ok. erewrite cmd_step by (by eapply lookup_key_ok). rewrite Hq.
  erewrite cmd_step by (apply node_ok; exact Hn). rewrite (cmd_step _ _ w (Z.of_nat i) w).
  2: { cbn in Hpos. destruct (h_heap_idx n); [|done]. by injection Hpos as ->. }
  erewrite cmd_step by reflexivity. erewrite cmd_step by (apply lift_ok; by apply vget_nat). done.
Qed.

(** PERSIST of a key with a deadline. *)
Lemma do_persist_ok w M cmd key kb e :
  ttl_ok w M -> cmd !! 1%nat = Some key -> dstr_rep key kb -> short_key kb ->
  M !! key_id kb = Some (hn_pos_ref e) -> e ∈ w_heap w ->
  exists w', do_persist cmd w = Ok (SUCCESS, w') /\ ttl_ok w' M /\ e :: w_heap w' ≡ₚ w_heap w /\
    w_out w' = out_null (w_out w) /\ w_db w' = w_db w /\ idx_only (w_mem w) (w_mem w').
Proof.
  intros [Hdb Hsz Hl Ht Hrefs] Hc Hk Hs Hq [i Hi]%list_elem_of_lookup_1.
  destruct (rem_ttl_ok (w_heap w) (w_mem w) i e Hl Ht Hi) as (h1 & m1 & E & Hl1 & Ht1 & Hp).
  destruct (rem_ttl_inv (same_db (w_mem w) (w_db w) M) (same_db_set _ _ _) _ _ _ _ _ (same_db_refl w M Hdb) E)
    as (Hm1 & Hok1 & Hf1 & Hi1).
  exists (mkWorld (w_db w) h1 m1 (out_null (w_out w))). split_and!; try done.
  - unfold do_persist. cstep arg_ok. erewrite cmd_step by (by eapply lookup_key_ok). rewrite Hq.
    do 2 (erewrite cmd_step by reflexivity). erewrite cmd_step by (apply lift_ok; exact E). done.
  - split; try done. cbn [w_heap]. intros x Hx. apply Hrefs. rewrite <- Hp. by apply list_elem_of_further.
Qed.

(** The entry of the earliest deadline is at the root. *)
Lemma earliest_root (heap0 heap : list HeapNode) e :
  heap_ordered heap -> heap ≡ₚ e :: heap0 -> Forall (fun x => hn_val e < hn_val x) heap0 ->
  exists rest, heap = e :: rest.
Proof.
  intros Ho Hp Hall. destruct heap as [|t rest]; [apply Permutation_nil_l in Hp; done|].
  assert (Ht : t ∈ e :: heap0) by (rewrite <- Hp; apply list_elem_of_here).
  assert (He : e ∈ t :: rest) by (rewrite Hp; apply list_elem_of_here).
  apply list_elem_of_lookup in He as [i Hi]. pose proof (root_min (t :: rest) t i e Ho eq_refl Hi) as Hle.
  apply elem_of_cons in Ht as [->|Ht]; [by eexists|]. rewrite Forall_forall in Hall. apply Hall in Ht. lia.
Qed.

(** A deadline in whole seconds after [t]. *)
Lemma ttl_seconds t deadline :
  0 <= t < 2 ^ 32 -> t <= deadline < 2 ^ 64 -> deadline - t < 2 ^ 32 * 1000 ->
  u32 (u64 (deadline - u32 t) / 1000) = (deadline - t) / 1000.
Proof.
  intros Ht Hd Hs. rewrite (u32_small t) by lia. rewrite u64_small by lia. apply u32_small.
  split; [apply Z.div_pos; lia|apply Z.div_lt_upper_bound; lia].
Qed.

(** ** Properties *)

(** C25: the expiry loop of [process_timers] terminates without a fault on a
    consistent database, deletes exactly the nodes of the entries it takes off
    the heap, at most 201 of them and each past its deadline, and stops earlier
    only when the root is not past its deadline; every other key keeps its node
    and its string, and the heap stays consistent. *)
Theorem expire_entries_exact w M curr_ms :
  ttl_ok w M ->
  exists w' M' removed, expire_entries curr_ms w = Ok (tt, w') /\ expired curr_ms w M removed w' M' /\
    Z.of_nat (length removed) <= 201 /\
    (Z.of_nat (length removed) <= 200 ->
     match w_heap w' with [] => True | top :: _ => curr_ms <= hn_val top end).
Proof.
  intros Hok. unfold expire_entries.
  destruct (expire_loop_ok (S (Z.to_nat MAX_TTL_TASKS)) curr_ms 0 w M Hok) as (w' & M' & removed & E & Hex & H1 & H2 & _);
    [done|done|done|].
  exists w', M', removed. rewrite Z.add_0_r in H1, H2. done.
Qed.

(** C10: the life of a key with a deadline.  EXPIRE at time [t0] of a key
    without a deadline, beside any other deadlines in heap order, then the timer
    at time [t1]: GET of the key replies its value up to the deadline, whatever
    the timer deletes; past it GET replies not-found when no other deadline is
    as early; and every other key whose deadline, if it has one, is not past
    keeps its string. *)
Theorem expire_lifecycle w M cmd key kb ttls tb t0 t1 l bs :
  ttl_ok w M -> heap_ordered (w_heap w) -> Z.of_nat (length (w_heap w)) + 1 < 2 ^ 31 ->
  cmd !! 1%nat = Some key -> dstr_rep key kb -> short_key kb -> cmd !! 2%nat = Some ttls -> dstr_rep ttls tb ->
  M !! key_id kb = Some l -> (l ∉ hn_pos_ref <$> w_heap w) -> str_at (w_mem w) l bs ->
  let deadline := u64 (t0 + u64 (u64 (strtol (cstr tb)) * 1000)) in
  exists w1 w2, do_expire t0 cmd w = Ok (SUCCESS, w1) /\ expire_entries t1 w1 = Ok (tt, w2) /\
    (t1 <= deadline -> do_get cmd w2 = Ok (SUCCESS, with_out (out_str (w_out w2) bs (Z.of_nat (length bs))) w2)) /\
    (deadline < t1 -> Forall (fun e => deadline < hn_val e) (w_heap w) ->
     do_get cmd w2 = (o ← out_not_found (w_out w2); Ok (NOT_FOUND, with_out o w2))) /\
    forall q l' bs', q <> key_id kb -> M !! q = Some l' -> str_at (w_mem w) l' bs' ->
      (forall e, e ∈ w_heap w -> hn_pos_ref e = l' -> t1 <= hn_val e) -> str_at (w_mem w2) l' bs'.
Proof.
  intros Hok Ho Hlen Hc1 Hk Hs Hc2 Htb Hq Hfree Hstr deadline.
  destruct (do_expire_ok w M cmd key kb ttls tb t0 l) as (w1 & E1 & Hok1 & Hord & Hp & _ & _ & Hi); [done..|].
  fold deadline in Hp. set (e := mkHeapNode deadline l) in *.
  destruct (expire_loop_ok (S (Z.to_nat MAX_TTL_TASKS)) t1 0 w1 M Hok1) as (w2 & M2 & removed & E2 & Hex & _ & _ & Htop);
    [done|done|done|].
  exists w1, w2. split; [done|]. split; [exact E2|]. destruct Hex as [Hok2 Hp2 Hpast Hkeys _ Hvals].
  assert (Hget := do_get_ok w2 M2 cmd key kb (to_db _ _ Hok2) Hc1 Hk Hs).
  rewrite Forall_forall in Hpast. assert (Hin : forall x, x ∈ removed -> x = e \/ x ∈ w_heap w).
  { intros x Hx. apply elem_of_cons. rewrite <- Hp, Hp2. apply elem_of_app. by left. }
  assert (Hkeep : forall q' l' bs', M !! q' = Some l' -> str_at (w_mem w) l' bs' ->
    (l' ∉ hn_pos_ref <$> removed) -> M2 !! q' = Some l' /\ str_at (w_mem w2) l' bs').
  { intros q' l' bs' Hq' Hs' Hn. assert (M2 !! q' = Some l') by (by apply Hkeys). split; [done|].
    apply Hvals; [apply elem_of_vals; by eexists|by eapply idx_only_str]. }
  split; [|split].
  - intros Ht. destruct (Hkeep _ _ _ Hq Hstr) as [Hq2 Hs2]; [|by apply (proj2 Hget l bs)].
    intros (x & -> & Hx)%list_elem_of_fmap. destruct (Hin x Hx) as [Ex|Hx']; [rewrite Ex in Hx; apply Hpast in Hx; cbn in Hx; lia|].
    apply Hfree. by apply list_elem_of_fmap_2.
  - intros Ht Hfirst. apply (proj1 Hget). destruct (M2 !! key_id kb) as [l2|] eqn:E; [|done].
    apply Hkeys in E as [E Hn]. rewrite Hq in E. injection E as <-. exfalso. apply Hn.
    change l with (hn_pos_ref e). apply list_elem_of_fmap_2. destruct (earliest_root _ _ _ Hord Hp Hfirst) as [rest Hr].
    by apply (Htop e rest).
  - intros q l' bs' Hne Hq' Hs' Hlate. apply (Hkeep q l' bs' Hq' Hs').
    intros (x & -> & Hx)%list_elem_of_fmap. destruct (Hin x Hx) as [Ex|Hx'].
    + rewrite Ex in Hq'. apply Hne. eapply db_inj; [apply Hok|done|done].
    + specialize (Hlate x Hx' eq_refl). apply Hpast in Hx. lia.
Qed.

(** C26: TTL and PERSIST undo and report what EXPIRE sets.  After EXPIRE of a
    key without a deadline, beside any other deadlines, TTL at a time before
    the deadline replies the whole seconds that are left; PERSIST then leaves
    exactly the deadlines there were before, and at any later time the timer
    keeps the key: GET replies its value. *)
Theorem persist_keeps w M ecmd cmd key kb ttls tb t0 t1 t2 l bs :
  ttl_ok w M -> heap_ordered (w_heap w) -> Z.of_nat (length (w_heap w)) + 1 < 2 ^ 31 ->
  ecmd !! 1%nat = Some key -> cmd !! 1%nat = Some key -> dstr_rep key kb -> short_key kb ->
  ecmd !! 2%nat = Some ttls -> dstr_rep ttls tb ->
  M !! key_id kb = Some l -> (l ∉ hn_pos_ref <$> w_heap w) -> str_at (w_mem w) l bs ->
  let deadline := u64 (t0 + u64 (u64 (strtol (cstr tb)) * 1000)) in
  0 <= t1 < 2 ^ 32 -> t1 <= deadline -> deadline - t1 < 2 ^ 32 * 1000 ->
  exists w1 w2 w3, do_expire t0 ecmd w = Ok (SUCCESS, w1) /\
    do_ttl t1 cmd w1 = Ok (SUCCESS, with_out (out_int (w_out w1) ((deadline - t1) / 1000)) w1) /\
    do_persist cmd w1 = Ok (SUCCESS, w2) /\ w_heap w2 ≡ₚ w_heap w /\ w_out w2 = out_null (w_out w1) /\
    expire_entries t2 w2 = Ok (tt, w3) /\
    do_get cmd w3 = Ok (SUCCESS, with_out (out_str (w_out w3) bs (Z.of_nat (length bs))) w3).
Proof.
  intros Hok Hord Hlen He1 Hc Hk Hs He2 Htb Hq Hn Hstr deadline Ht1 Hd Hsec.
  destruct (do_expire_ok w M ecmd key kb ttls tb t0 l) as (w1 & E1 & Hok1 & _ & Hp1 & _ & _ & Hi1); [done..|].
  fold deadline in Hp1. set (e := mkHeapNode deadline l) in *.
  assert (He : e ∈ w_heap w1) by (rewrite Hp1; apply list_elem_of_here).
  destruct (do_persist_ok w1 M cmd key kb e) as (w2 & E2 & Hok2 & Hp2 & Ho2 & _ & Hi2); [done..|].
  assert (Hp : w_heap w2 ≡ₚ w_heap w) by (apply (Permutation_cons_inv (a := e)); by rewrite Hp2).
  destruct (expire_loop_ok (S (Z.to_nat MAX_TTL_TASKS)) t2 0 w2 M Hok2)
    as (w3 & M3 & removed & E3 & [Hok3 Hp3 _ Hkeys _ Hvals] & _); [done..|].
  assert (Hq3 : M3 !! key_id kb = Some l).
  { apply Hkeys. split; [done|]. intros Hx. apply Hn. rewrite <- Hp, Hp3, fmap_app. apply elem_of_app. by left. }
  exists w1, w2, w3. split_and!; try done.
  - rewrite (do_ttl_ok w1 M cmd key kb t1 e) by done. cbn [hn_val e]. rewrite ttl_seconds; [done|done| |done].
    split; [done|]. apply u64_range.
  - apply (proj2 (do_get_ok w3 M3 cmd key kb (to_db _ _ Hok3) Hc Hk Hs) l bs Hq3).
    apply Hvals; [apply elem_of_vals; by eexists|]. eapply idx_only_str; [done|]. by eapply idx_only_str.
Qed.

(** ** Witnesses *)

Lemma k_db_ttl : exists l, ttl_ok k_db (<[key_id (lit "k") := l]> ∅) /\ str_at (w_mem k_db) l (lit "v1").
Proof.
  destruct (do_set_ok w_empty ∅ set_k (exact_dstr (lit "k")) (lit "k") (exact_dstr (lit "v1")) (lit "v1"))
    as (w & l & E & Hdb & _ & Hs & _ & _ & _ & Hh);
    [apply w_empty_ok|done|done|done|by apply exact_dstr_rep|by_compute|by apply exact_dstr_rep|apply k_settable|].
  exists l. unfold k_db. rewrite E. split; [|exact Hs]. split; try rewrite Hh.
  - exact Hdb.
  - rewrite map_size_insert_None by done. done.
  - split; [constructor|constructor|done].
  - intros i x _ Hi. done.
  - intros x Hx. exfalso. exact (not_elem_of_nil x Hx).
Qed.

(** A deadline one second after time 100. *)
Definition expire_k : list dstr := exact_dstr <$> [lit "expire"; lit "k"; lit "1"].

(** The database after EXPIRE of its key. *)
Lemma k_db_deadline : exists l w, do_expire 100 expire_k k_db = Ok (SUCCESS, w) /\
  ttl_ok w (<[key_id (lit "k") := l]> ∅) /\ w_heap w = [mkHeapNode 1100 l].
Proof.
  destruct k_db_ttl as (l & Hok & Hs). assert (Hh : w_heap k_db = []) by by_compute.
  destruct (do_expire_ok k_db _ expire_k (exact_dstr (lit "k")) (lit "k") (exact_dstr (lit "1")) (lit "1") 100 l Hok)
    as (w & E & Hok' & _ & Hp & _);
    [reflexivity|by apply exact_dstr_rep|by_compute|reflexivity|by apply exact_dstr_rep|apply lookup_insert_eq
    |rewrite Hh; apply not_elem_of_nil|rewrite Hh; intros i x y _ _ Hi; by destruct i|rewrite Hh; done|].
  exists l, w. split; [exact E|]. split; [exact Hok'|]. rewrite Hh in Hp. by apply Permutation_singleton_r in Hp.
Qed.

Lemma expire_entries_exact_witness :
  exists l w w' M', do_expire 100 expire_k k_db = Ok (SUCCESS, w) /\ expire_entries 5000 w = Ok (tt, w') /\
    expired 5000 w (<[key_id (lit "k") := l]> ∅) [mkHeapNode 1100 l] w' M' /\ w_heap w' = [].
Proof.
  destruct k_db_deadline as (l & w & E0 & Hok & Hh).
  destruct (expire_entries_exact w _ 5000 Hok) as (w' & M' & r & E & Hex & Hr & Hroot).
  exists l, w, w', M'. split; [exact E0|]. split; [exact E|]. pose proof (ex_heap _ _ _ _ _ _ Hex) as Hp.
  rewrite Hh in Hp. destruct r as [|x r].
  - cbn [app] in Hp. symmetry in Hp. apply Permutation_singleton_r in Hp. rewrite Hp in Hroot. exfalso.
    specialize (Hroot ltac:(cbn; lia)). cbn in Hroot. lia.
  - assert (Hl := Permutation_length Hp). rewrite length_app in Hl. cbn [length] in Hl.
    destruct r; [|cbn in Hl; lia]. destruct (w_heap w') eqn:E'; [|cbn in Hl; lia].
    symmetry in Hp. apply Permutation_singleton_r in Hp. cbn in Hp. injection Hp as ->. split; [exact Hex|done].
Defined.

Lemma expire_lifecycle_witness :
  exists w1 w2, do_expire 100 expire_k k_db = Ok (SUCCESS, w1) /\ expire_entries 1101 w1 = Ok (tt, w2) /\
    do_get expire_k w2 = (o ← out_not_found (w_out w2); Ok (NOT_FOUND, with_out o w2)).
Proof.
  destruct k_db_ttl as (l & Hok & Hs). assert (Hh : w_heap k_db = []) by by_compute.
  destruct (expire_lifecycle k_db _ expire_k (exact_dstr (lit "k")) (lit "k") (exact_dstr (lit "1")) (lit "1") 100 1101 l (lit "v1") Hok)
    as (w1 & w2 & E1 & E2 & _ & E3 & _);
    [rewrite Hh; intros i x y _ _ Hi; by destruct i|rewrite Hh; done|reflexivity|by apply exact_dstr_rep|by_compute|reflexivity
    |by apply exact_dstr_rep|apply lookup_insert_eq|rewrite Hh; apply not_elem_of_nil|exact Hs|].
  exists w1, w2. split; [exact E1|]. split; [exact E2|]. apply E3; [by_compute|]. rewrite Hh. constructor.
Defined.

Lemma persist_keeps_witness :
  exists w1 w2 w3, do_expire 100 expire_k k_db = Ok (SUCCESS, w1) /\
    do_ttl 150 expire_k w1 = Ok (SUCCESS, with_out (out_int (w_out w1) 0) w1) /\
    do_persist expire_k w1 = Ok (SUCCESS, w2) /\ expire_entries 9000 w2 = Ok (tt, w3) /\
    do_get expire_k w3 = Ok (SUCCESS, with_out (out_str (w_out w3) (lit "v1") 2) w3).
Proof.
  destruct k_db_ttl as (l & Hok & Hs). assert (Hh : w_heap k_db = []) by by_compute.
  destruct (persist_keeps k_db _ expire_k expire_k (exact_dstr (lit "k")) (lit "k") (exact_dstr (lit "1")) (lit "1")
    100 150 9000 l (lit "v1") Hok) as (w1 & w2 & w3 & E1 & E2 & E3 & _ & _ & E4 & E5);
    [rewrite Hh; intros i x y _ _ Hi; by destruct i|rewrite Hh; done|reflexivity|reflexivity|by apply exact_dstr_rep|by_compute
    |reflexivity|by apply exact_dstr_rep|apply lookup_insert_eq|rewrite Hh; apply not_elem_of_nil|exact Hs|lia|by_compute|by_compute|].
  exists w1, w2, w3. split; [exact E1|]. split; [exact E2|]. split; [exact E3|]. split; [exact E4|exact E5].
Defined.
