(* ===== verification/Server.v ===== *)
(** * The server: connections, timeouts and the event loop of
    [src/src/server.cpp]

    The state is the whole of [global_data] with the [Conn] objects.  What the
    operating system does is an argument of each handler: the outcome of
    [accept], [read] and [write], the events [poll] reports, and the clock,
    whose [n]-th reading is [clock n]. *)

From stdpp Require Import sorting.
From Stdlib Require Import String.
From S2P Require Import Prelude Libc Dstr Dlist Heap Hash Buffers Request Hashmap Avl Hll Node Zset Commands Keyspace Wire Expiry.

(** ** Data *)

Definition IDLE_TIMEOUT_MS : Z := 100 * 1000.
Definition READ_TIMEOUT_MS : Z := 10 * 1000.
Definition WRITE_TIMEOUT_MS : Z := 5 * 1000.

(** The three [DListNode]s of a connection are in the stores of links of the
    server, at the address of the connection. *)
Record Conn := mkConn {
  c_fd : Z;
  c_want_read : bool;
  c_want_write : bool;
  c_want_close : bool;
  c_bufs : ConnBufs;
  c_last_active_ms : Z;
  c_last_read_ms : Z;
  c_last_write_ms : Z
}.

Inductive timer := IDLE | READ | WRITE.

#[export] Instance timer_eq_dec : EqDecision timer.
Proof. solve_decision. Defined.

Abbreviation links := (gmap loc (DListNode unit)).

(** [sv_links t]: the [DListNode]s named [idle_timeout], [read_timeout] or
    [write_timeout] of the connections, and the head of their list.  A node of
    one of the three only ever links nodes of the same kind. [sv_closed]: the
    descriptors that were closed; [sv_ticks]: the readings of the clock. *)
Record Server := mkServer {
  sv_store : Store;
  sv_conns : gmap loc Conn;
  sv_links : timer -> links;
  sv_fd_to_conn : list ptr;
  sv_closed : list Z;
  sv_ticks : nat;
  sv_fresh : loc
}.

(** [&global_data.idle_list], [&global_data.read_list], [&global_data.write_list] *)
Definition LIST : loc := 1%positive.

(** What a system call does. *)
Inductive read_result := RdAgain | RdClosed | RdData (data : list Z).
Inductive write_result := WrAgain | WrFailed | Wrote (n : Z).
Record FdEvents := mkFdEvents { fe_revents : Z; fe_read : read_result; fe_write : write_result }.

Definition POLLIN : Z := 1.
Definition POLLOUT : Z := 4.
Definition POLLERR : Z := 8.

(** ** The monad *)

Definition srvM (A : Type) : Type := Server -> result (A * Server).

#[export] Instance srv_ret : MRet srvM := fun A a s => Ok (a, s).
#[export] Instance srv_bind : MBind srvM := fun A B k m s => '(a, s) ← m s; k a s.

Definition run {A} (r : result A) : srvM A := fun s => a ← r; Ok (a, s).
Definition get : srvM Server := fun s => Ok (s, s).
Definition put (f : Server -> Server) : srvM unit := fun s => Ok (tt, f s).

Definition set_store (x : Store) (s : Server) : Server :=
  mkServer x (sv_conns s) (sv_links s) (sv_fd_to_conn s) (sv_closed s) (sv_ticks s) (sv_fresh s).
Definition set_conns (x : gmap loc Conn) (s : Server) : Server :=
  mkServer (sv_store s) x (sv_links s) (sv_fd_to_conn s) (sv_closed s) (sv_ticks s) (sv_fresh s).
Definition set_links (t : timer) (x : links) (s : Server) : Server :=
  mkServer (sv_store s) (sv_conns s) (fun u => if decide (u = t) then x else sv_links s u)
    (sv_fd_to_conn s) (sv_closed s) (sv_ticks s) (sv_fresh s).
Definition set_fd_to_conn (x : list ptr) (s : Server) : Server :=
  mkServer (sv_store s) (sv_conns s) (sv_links s) x (sv_closed s) (sv_ticks s) (sv_fresh s).
Definition add_closed (fd : Z) (s : Server) : Server :=
  mkServer (sv_store s) (sv_conns s) (sv_links s) (sv_fd_to_conn s) (fd :: sv_closed s) (sv_ticks s) (sv_fresh s).
Definition set_ticks (n : nat) (s : Server) : Server :=
  mkServer (sv_store s) (sv_conns s) (sv_links s) (sv_fd_to_conn s) (sv_closed s) n (sv_fresh s).

(** [conn->...] and [conn->... = ...] *)
Definition conn (c : loc) : srvM Conn := s ← get; run (deref (sv_conns s) (Some c)).
Definition set_conn (c : loc) (f : Conn -> Conn) : srvM unit :=
  s ← get; cs ← run (update (sv_conns s) (Some c) f); put (set_conns cs).

Definition detach (t : timer) (c : loc) : srvM unit :=
  s ← get; h ← run (dlist_deatach (sv_links s t) (Some c)); put (set_links t h).
Definition insert_last (t : timer) (c : loc) : srvM unit :=
  s ← get; h ← run (dlist_insert_before (sv_links s t) (Some LIST) (Some c)); put (set_links t h).

(** [global_data.fd_to_conn[fd]] *)
Definition fd_slot (fd : Z) : srvM ptr :=
  s ← get;
  run (if 0 <=? fd then need (sv_fd_to_conn s !! Z.to_nat fd) OutOfBounds else Fault OutOfBounds).
Definition set_fd_slot (fd : Z) (p : ptr) : srvM unit :=
  _ ← fd_slot fd; put (fun s => set_fd_to_conn (<[Z.to_nat fd := p]> (sv_fd_to_conn s)) s).

Definition with_active (ms : Z) (c : Conn) : Conn :=
  mkConn (c_fd c) (c_want_read c) (c_want_write c) (c_want_close c) (c_bufs c) ms (c_last_read_ms c) (c_last_write_ms c).
Definition with_read_ms (ms : Z) (c : Conn) : Conn :=
  mkConn (c_fd c) (c_want_read c) (c_want_write c) (c_want_close c) (c_bufs c) (c_last_active_ms c) ms (c_last_write_ms c).
Definition with_write_ms (ms : Z) (c : Conn) : Conn :=
  mkConn (c_fd c) (c_want_read c) (c_want_write c) (c_want_close c) (c_bufs c) (c_last_active_ms c) (c_last_read_ms c) ms.
Definition with_bufs (b : ConnBufs) (c : Conn) : Conn :=
  mkConn (c_fd c) (c_want_read c) (c_want_write c) (c_want_close c) b (c_last_active_ms c) (c_last_read_ms c) (c_last_write_ms c).
Definition with_wants (r w : bool) (c : Conn) : Conn :=
  mkConn (c_fd c) r w (c_want_close c) (c_bufs c) (c_last_active_ms c) (c_last_read_ms c) (c_last_write_ms c).
Definition with_close (c : Conn) : Conn :=
  mkConn (c_fd c) (c_want_read c) (c_want_write c) true (c_bufs c) (c_last_active_ms c) (c_last_read_ms c) (c_last_write_ms c).

(** ** Operations *)

Section server.
Variables (logl : QArith_base.Q -> QArith_base.Q) (clock : nat -> Z).

Definition get_curr_ms : srvM Z :=
  s ← get; _ ← put (set_ticks (S (sv_ticks s))); mret (clock (sv_ticks s)).

(** [delete conn] *)
Definition delete_conn (c : loc) (s : Server) : Server :=
  mkServer (sv_store s) (delete c (sv_conns s)) (fun t => delete c (sv_links s t))
    (sv_fd_to_conn s) (sv_closed s) (sv_ticks s) (sv_fresh s).

Definition close_conn (c : loc) : srvM unit :=
  cn ← conn c;
  _ ← put (add_closed (c_fd cn));
  _ ← set_fd_slot (c_fd cn) NULL;
  _ ← detach IDLE c;
  _ ← detach READ c;
  _ ← detach WRITE c;
  put (delete_conn c).

(** [conn->last_active_ms + IDLE_TIMEOUT_MS] and the like. *)
Definition timeout_ms (t : timer) (c : Conn) : Z :=
  match t with
  | IDLE => u64 (c_last_active_ms c + IDLE_TIMEOUT_MS)
  | READ => u64 (c_last_read_ms c + READ_TIMEOUT_MS)
  | WRITE => u64 (c_last_write_ms c + WRITE_TIMEOUT_MS)
  end.

(** The head of a timeout list: [list.next], unless it is the list itself. *)
Definition list_front (t : timer) : srvM ptr :=
  s ← get;
  e ← run (dlist_empty (sv_links s t) (Some LIST));
  if (e : bool) then mret NULL
  else n ← run (deref (sv_links s t) (Some LIST)); mret (dl_next n).

Fixpoint timeout_loop (fuel : nat) (t : timer) (curr_ms : Z) : srvM unit :=
  p ← list_front t;
  match p with
  | None => mret tt
  | Some c =>
      cn ← conn c;
      if curr_ms <=? timeout_ms t cn then mret tt
      else match fuel with
           | O => run (Fault OutOfFuel)
           | S fuel => _ ← close_conn c; timeout_loop fuel t curr_ms
           end
  end.

(** Every turn deletes a connection. *)
Definition close_expired (t : timer) (curr_ms : Z) : srvM unit :=
  s ← get; timeout_loop (size (sv_conns s)) t curr_ms.

Definition process_timers : srvM unit :=
  curr_ms ← get_curr_ms;
  _ ← close_expired IDLE curr_ms;
  _ ← close_expired READ curr_ms;
  _ ← close_expired WRITE curr_ms;
  s ← get;
  '(_, w) ← run (expire_entries curr_ms (world (sv_store s) []));
  put (set_store (store w)).

Definition next_timer_ms : srvM Z :=
  p ← list_front IDLE;
  match p with
  | None => mret IDLE_TIMEOUT_MS
  | Some c =>
      curr ← get_curr_ms;
      cn ← conn c;
      s ← get;
      let conn_timeout := timeout_ms IDLE cn in
      let conn_timeout :=
        match s_heap (sv_store s) with [] => conn_timeout | e :: _ => Z.min conn_timeout (hn_val e) end in
      let poll_timout := u64 (conn_timeout - curr) in
      mret (Z.max 0 poll_timout)
  end.

(** [accept] returns a descriptor or fails. *)
Definition handle_accept (connfd : option Z) : srvM ptr :=
  match connfd with
  | None => mret NULL
  | Some fd =>
      s ← get;
      let c := sv_fresh s in
      t1 ← get_curr_ms; t2 ← get_curr_ms; t3 ← get_curr_ms;
      _ ← put (fun s =>
        mkServer (sv_store s)
          (<[c := mkConn fd true false false (mkConnBufs [] []) t1 t2 t3]> (sv_conns s))
          (fun t => <[c := mkNode NULL NULL tt]> (sv_links s t))
          (sv_fd_to_conn s) (sv_closed s) (sv_ticks s) (Pos.succ c));
      _ ← insert_last IDLE c;
      mret (Some c)
  end.

(** A command reads the clock at most once. *)
Definition serve_tick (out : list Z) (cmd : list dstr) (st : Store * nat) : result (list Z * (Store * nat)) :=
  '(out, s) ← serve_cmd logl (clock (snd st)) out cmd (fst st); Ok (out, (s, S (snd st))).

Definition handle_read (c : loc) (r : read_result) : srvM unit :=
  match r with
  | RdAgain => mret tt
  | RdClosed => _ ← set_conn c with_close; detach READ c
  | RdData data =>
      cn ← conn c; s ← get;
      '(bufs, (st, ticks)) ← run (handle_read_data serve_tick (c_bufs cn) data (sv_store s, sv_ticks s));
      _ ← put (fun s => set_ticks ticks (set_store st s));
      _ ← set_conn c (with_bufs bufs);
      ms ← get_curr_ms;
      _ ← set_conn c (with_read_ms ms);
      cn ← conn c;
      if (0 <? length (outgoing (c_bufs cn)))%nat then
        _ ← set_conn c (with_wants false true);
        _ ← detach READ c;
        _ ← insert_last WRITE c;
        ms ← get_curr_ms;
        set_conn c (with_write_ms ms)
      else mret tt
  end.

Definition handle_write (c : loc) (r : write_result) : srvM unit :=
  match r with
  | WrAgain => mret tt
  | WrFailed => _ ← set_conn c with_close; detach WRITE c
  | Wrote n =>
      cn ← conn c;
      rest ← run (buf_consume (outgoing (c_bufs cn)) n);
      _ ← set_conn c (with_bufs (mkConnBufs (incoming (c_bufs cn)) rest));
      ms ← get_curr_ms;
      _ ← set_conn c (with_write_ms ms);
      if (length rest =? 0)%nat then
        _ ← set_conn c (with_wants true false);
        _ ← detach WRITE c;
        _ ← insert_last READ c;
        ms ← get_curr_ms;
        set_conn c (with_read_ms ms)
      else mret tt
  end.

(** The descriptors of [poll_args] after the listening socket.  The requested
    events are not kept: [poll] may report any. *)
Fixpoint poll_fds (ps : list ptr) : srvM (list Z) :=
  match ps with
  | [] => mret []
  | None :: ps => poll_fds ps
  | Some c :: ps => cn ← conn c; fds ← poll_fds ps; mret (c_fd cn :: fds)
  end.

(** One turn of the loop over [poll_args]. *)
Definition serve_fd (env : Z -> FdEvents) (fd : Z) : srvM unit :=
  let ready := u8 (fe_revents (env fd)) in
  if ready =? 0 then mret tt
  else
    p ← fd_slot fd;
    c ← run (need p NullDeref);
    ms ← get_curr_ms;
    _ ← set_conn c (with_active ms);
    _ ← detach IDLE c;
    _ ← insert_last IDLE c;
    _ ← (if negb (Z.land ready POLLIN =? 0) then handle_read c (fe_read (env fd)) else mret tt);
    _ ← (if negb (Z.land ready POLLOUT =? 0) then handle_write c (fe_write (env fd)) else mret tt);
    if negb (Z.land ready POLLERR =? 0) then
      cn ← conn c;
      if c_want_close cn then close_conn c else mret tt
    else mret tt.

Fixpoint serve_fds (env : Z -> FdEvents) (fds : list Z) : srvM unit :=
  match fds with [] => mret tt | fd :: fds => _ ← serve_fd env fd; serve_fds env fds end.

(** [fd_to_conn.resize(fd + 1)] when it is too short; then the new connection
    is put into its slot. *)
Definition register (c : loc) : srvM unit :=
  cn ← conn c; s ← get;
  _ ← (if Z.of_nat (length (sv_fd_to_conn s)) <=? c_fd cn
       then put (set_fd_to_conn (sv_fd_to_conn s ++ replicate (Z.to_nat (c_fd cn + 1) - length (sv_fd_to_conn s)) NULL))
       else mret tt);
  set_fd_slot (c_fd cn) (Some c).

(** What [poll] returns: interrupted, failed, or the events; [ev_listen] is
    the outcome of [accept] when the listening socket is ready. *)
Inductive poll_event :=
  | PollIntr
  | PollFail
  | PollReady (ev_listen : option (option Z)) (env : Z -> FdEvents).

(** One pass of the loop of [main]; [false] when [main] returns. *)
Definition pass (ev : poll_event) : srvM bool :=
  s ← get;
  fds ← poll_fds (sv_fd_to_conn s);
  _ ← next_timer_ms;
  match ev with
  | PollIntr => mret true
  | PollFail => mret false
  | PollReady ev_listen env =>
      go ← match ev_listen with
           | None => mret true
           | Some connfd =>
               p ← handle_accept connfd;
               match p with None => mret false | Some c => _ ← register c; mret true end
           end;
      if (go : bool) then _ ← serve_fds env fds; _ ← process_timers; mret true
      else mret true
  end.

(** [global_data] when the loop starts. *)
Definition server_init : result Server :=
  h ← dlist_init {[ LIST := mkNode NULL NULL tt ]} (Some LIST);
  Ok (mkServer (store w_empty) ∅ (fun _ => h) [] [] 0 2).

(** Several passes. *)
Fixpoint passes (evs : list poll_event) : srvM unit :=
  match evs with
  | [] => mret tt
  | ev :: evs => go ← pass ev; if (go : bool) then passes evs else mret tt
  end.
End server.

(** ** Lemmas *)

Lemma srv_bind_ok {A B} (m : srvM A) (k : A -> srvM B) s b s' :
  (x ← m; k x) s = Ok (b, s') -> exists a s1, m s = Ok (a, s1) /\ k a s1 = Ok (b, s').
Proof. intros E. apply bind_ok in E as ([a s1] & E1 & E). by exists a, s1. Qed.

Lemma run_ok {A} (r : result A) s a s' : run r s = Ok (a, s') -> r = Ok a /\ s' = s.
Proof. unfold run. intros E. apply bind_ok in E as (x & -> & E). by simplify_eq. Qed.

Lemma srv_step {A B} (m : srvM A) (k : A -> srvM B) s a s1 : m s = Ok (a, s1) -> (x ← m; k x) s = k a s1.
Proof. intros E. unfold mbind, srv_bind. by rewrite E. Qed.

Lemma run_eq {A} (r : result A) s a : r = Ok a -> run r s = Ok (a, s).
Proof. by intros ->. Qed.

Lemma detach_eq t c s h : dlist_deatach (sv_links s t) (Some c) = Ok h -> detach t c s = Ok (tt, set_links t h s).
Proof. intros H. unfold detach. erewrite srv_step by reflexivity. by erewrite srv_step by (apply run_eq; exact H). Qed.

(** Splits a successful run into its steps. *)
Ltac srv_inv :=
  repeat match goal with
  | H : (mbind _ _) _ = Ok _ |- _ => apply srv_bind_ok in H; destruct H as (? & ? & ? & H); cbn beta iota in H
  | H : run _ _ = Ok _ |- _ => apply run_ok in H as [? ->]
  | H : get _ = Ok _ |- _ => unfold get in H; injection H as <- <-
  | H : put _ _ = Ok (?u, _) |- _ => destruct u; unfold put in H; injection H as <-
  | H : mret _ _ = Ok _ |- _ => unfold mret, srv_ret in H; simplify_eq
  end.

Section invariant.
Variables (logl : QArith_base.Q -> QArith_base.Q) (clock : nat -> Z).
(** [CLOCK_MONOTONIC] does not run backwards. *)
Hypothesis clock_mono : forall n m, (n <= m)%nat -> clock n <= clock m.
(** Milliseconds since boot, in 64 bits. *)
Hypothesis clock_range : forall n, 0 <= clock n < 2 ^ 63.

(** What the timeout of idle connections rests on. *)
Definition stamp (cn : Conn) : Z * Z := (c_fd cn, c_last_active_ms cn).

Definition active (s : Server) (c : loc) : Z :=
  match sv_conns s !! c with Some cn => c_last_active_ms cn | None => 0 end.

Record server_ok (s : Server) (xs : list loc) : Prop := mkServerOk {
  so_ring : ring (sv_links s IDLE) LIST xs;
  so_live : forall c, c ∈ xs <-> is_Some (sv_conns s !! c);
  so_fresh : forall c, is_Some (sv_conns s !! c) -> (c < sv_fresh s)%positive;
  so_list : (LIST < sv_fresh s)%positive;
  so_fd : forall c cn, sv_conns s !! c = Some cn ->
    0 <= c_fd cn /\ sv_fd_to_conn s !! Z.to_nat (c_fd cn) = Some (Some c);
  so_slot : forall i c, sv_fd_to_conn s !! i = Some (Some c) ->
    exists cn, sv_conns s !! c = Some cn /\ c_fd cn = Z.of_nat i;
  so_sorted : StronglySorted (fun c d => active s c <= active s d) xs;
  so_past : forall c cn, sv_conns s !! c = Some cn -> 0 <= c_last_active_ms cn <= clock (sv_ticks s)
}.

(** [s'] is [s] as far as idle connections go. *)
Record calm (s s' : Server) : Prop := mkCalm {
  ca_links : sv_links s' IDLE = sv_links s IDLE;
  ca_conns : forall c, stamp <$> sv_conns s' !! c = stamp <$> sv_conns s !! c;
  ca_fds : sv_fd_to_conn s' = sv_fd_to_conn s;
  ca_fresh : sv_fresh s' = sv_fresh s;
  ca_ticks : (sv_ticks s <= sv_ticks s')%nat
}.

Lemma calm_refl s : calm s s.
Proof. by split. Qed.

Lemma calm_trans s1 s2 s3 : calm s1 s2 -> calm s2 s3 -> calm s1 s3.
Proof.
  intros [A1 B1 C1 D1 E1] [A2 B2 C2 D2 E2]. split; try congruence. lia.
Qed.

Lemma calm_conn s s' c cn :
  calm s s' -> sv_conns s' !! c = Some cn -> exists cn0, sv_conns s !! c = Some cn0 /\
    c_fd cn0 = c_fd cn /\ c_last_active_ms cn0 = c_last_active_ms cn.
Proof.
  intros H Hc. pose proof (ca_conns _ _ H c) as E. rewrite Hc in E. destruct (sv_conns s !! c) as [cn0|]; [|done].
  cbn in E. injection E as E1 E2. by exists cn0.
Qed.

Lemma calm_live s s' c : calm s s' -> is_Some (sv_conns s' !! c) <-> is_Some (sv_conns s !! c).
Proof.
  intros H. pose proof (ca_conns _ _ H c) as E. destruct (sv_conns s !! c), (sv_conns s' !! c); cbn in E; try done;
    split; by intros [].
Qed.

Lemma calm_active s s' c : calm s s' -> active s' c = active s c.
Proof.
  intros H. pose proof (ca_conns _ _ H c) as E. unfold active.
  destruct (sv_conns s !! c), (sv_conns s' !! c); cbn in E; by simplify_eq.
Qed.

Lemma calm_ok s s' xs : server_ok s xs -> calm s s' -> server_ok s' xs.
Proof.
  intros [H1 H2 H3 H4 H5 H6 H7 H8] Hc. pose proof Hc as [A B C D E]. split.
  - by rewrite A.
  - intros c. by rewrite (calm_live _ _ _ Hc).
  - intros c. rewrite D, (calm_live _ _ _ Hc). apply H3.
  - by rewrite D.
  - intros c cn Hcn. destruct (calm_conn _ _ _ _ Hc Hcn) as (cn0 & Hcn0 & <- & _). rewrite C. by apply H5.
  - intros i c. rewrite C. intros (cn & Hcn & Hfd)%H6.
    pose proof (B c) as Eb. rewrite Hcn in Eb. destruct (sv_conns s' !! c) as [cn'|]; [|done]. cbn in Eb.
    injection Eb as E1 E2. exists cn'. split; [done|congruence].
  - clear -H7 Hc. induction H7 as [|c xs _ IH Hall]; constructor; [done|].
    eapply Forall_impl; [exact Hall|]. intros d. cbn. by rewrite !(calm_active _ _ _ Hc).
  - intros c cn Hcn. destruct (calm_conn _ _ _ _ Hc Hcn) as (cn0 & Hcn0 & _ & <-).
    destruct (H8 _ _ Hcn0). pose proof (clock_mono _ _ E). lia.
Qed.

(** Actions that leave idle connections alone. *)
Definition quiet {A} (m : srvM A) : Prop := forall s a s', m s = Ok (a, s') -> calm s s'.

Lemma quiet_bind {A B} (m : srvM A) (k : A -> srvM B) :
  quiet m -> (forall a, quiet (k a)) -> quiet (x ← m; k x).
Proof. intros Hm Hk s b s' E. srv_inv. eapply calm_trans; [by eapply Hm|by eapply Hk]. Qed.

Lemma quiet_ret {A} (a : A) : quiet (mret a : srvM A).
Proof. intros s b s' E. srv_inv. apply calm_refl. Qed.
Lemma quiet_run {A} (r : result A) : quiet (run r).
Proof. intros s b s' E. srv_inv. apply calm_refl. Qed.
Lemma quiet_conn c : quiet (conn c).
Proof. intros s b s' E. unfold conn in E. srv_inv. apply calm_refl. Qed.
Lemma quiet_clock : quiet (get_curr_ms clock).
Proof. intros s b s' E. unfold get_curr_ms in E. srv_inv. split; try done. cbn. lia. Qed.

Lemma quiet_set_conn c f : (forall cn, stamp (f cn) = stamp cn) -> quiet (set_conn c f).
Proof.
  intros Hf s b s' E. unfold set_conn in E. srv_inv. cbn [update need] in *.
  destruct (sv_conns s !! c) as [cn|] eqn:Hc; [|done]. inv_ok. split; try done. cbn [set_conns sv_conns].
  intros d. destruct (decide (d = c)) as [->|]; [|by rewrite lookup_insert_ne].
  rewrite lookup_insert_eq, Hc. cbn. by rewrite Hf.
Qed.

Lemma quiet_links t x s : t <> IDLE -> calm s (set_links t x s).
Proof. intros Ht. split; try done. cbn. by rewrite decide_False. Qed.

Lemma quiet_detach t c : t <> IDLE -> quiet (detach t c).
Proof. intros Ht s b s' E. unfold detach in E. srv_inv. by apply quiet_links. Qed.
Lemma quiet_insert t c : t <> IDLE -> quiet (insert_last t c).
Proof. intros Ht s b s' E. unfold insert_last in E. srv_inv. by apply quiet_links. Qed.

Lemma serve_tick_mono out cmd st out' st' n :
  (n <= snd st)%nat -> serve_tick logl clock out cmd st = Ok (out', st') -> (n <= snd st')%nat.
Proof. intros Hn E. unfold serve_tick in E. inv_ok. cbn in *. lia. Qed.

Ltac quiet_steps :=
  repeat first
    [ apply quiet_ret | apply quiet_run | apply quiet_conn | apply quiet_clock
    | apply quiet_detach; done | apply quiet_insert; done | apply quiet_set_conn; done
    | apply quiet_bind; [|intros ?] | case_match ].

Lemma quiet_handle_write c r : quiet (handle_write clock c r).
Proof. destruct r as [| |n]; cbn [handle_write]; quiet_steps. Qed.

Lemma quiet_handle_read c r : quiet (handle_read logl clock c r).
Proof.
  destruct r as [| |data]; cbn [handle_read]; [quiet_steps|quiet_steps|].
  intros s a s' E. apply srv_bind_ok in E as (cn & s1 & E1 & E). apply quiet_conn in E1.
  apply srv_bind_ok in E as (s2 & s3 & E2 & E). unfold get in E2. injection E2 as -> ->.
  apply srv_bind_ok in E as ([bufs [st ticks]] & s4 & E4 & E). apply run_ok in E4 as [E4 ->].
  apply (handle_read_data_inv _ (fun st => (sv_ticks s3 <= snd st)%nat)) in E4; [|intros; by eapply serve_tick_mono|done].
  cbn beta iota in E. apply srv_bind_ok in E as ([] & s5 & E5 & E). unfold put in E5. injection E5 as <-.
  eapply calm_trans; [exact E1|]. eapply calm_trans; [|revert E; generalize s' a; 
    match goal with |- forall s' a, ?m _ = _ -> _ => enough (quiet m) by (intros; eauto) end; quiet_steps].
  by split.
Qed.

(** The idle list when the connection [c] moves to its end or leaves. *)
Lemma ring_delete (h : links) xs c : ring h LIST xs -> c <> LIST -> (c ∉ xs) -> ring (delete c h) LIST xs.
Proof.
  intros [Hnd Hs] Hl Hc. split; [done|]. eapply seg_ext; [|exact Hs]. intros x Hx.
  rewrite lookup_delete_ne; [done|]. intros <-. apply elem_of_cons in Hx as [?|?]; congruence.
Qed.

Lemma sorted_remove s s' xs1 c xs2 :
  StronglySorted (fun c d => active s c <= active s d) (xs1 ++ c :: xs2) ->
  (forall d, d ∈ xs1 ++ xs2 -> active s' d = active s d) ->
  StronglySorted (fun c d => active s' c <= active s' d) (xs1 ++ xs2).
Proof.
  intros H Ha. assert (H' : StronglySorted (fun c d => active s c <= active s d) (xs1 ++ xs2)).
  { clear Ha. induction xs1 as [|x xs1 IH]; cbn [app] in *; apply StronglySorted_inv in H as [H1 H2]; [done|].
    constructor; [by apply IH|]. apply Forall_app in H2 as [H2 H3]. apply Forall_cons in H3 as [_ H3].
    by apply Forall_app. }
  clear H. induction H' as [|x l H' IH Hall]; constructor.
  - apply IH. intros d Hd. apply Ha. by apply elem_of_cons; right.
  - rewrite Forall_forall in Hall |- *. intros d Hd. rewrite !Ha; [by apply Hall| |]; apply elem_of_cons; auto.
Qed.

Lemma member_split s xs c cn :
  server_ok s xs -> sv_conns s !! c = Some cn -> exists xs1 xs2, xs = xs1 ++ c :: xs2.
Proof. intros H Hc. apply list_elem_of_split. apply (so_live _ _ H). by eexists. Qed.

Lemma nodup_middle {A} (xs1 xs2 : list A) c s : NoDup (s :: xs1 ++ c :: xs2) -> (c ∉ xs1 ++ xs2) /\ c <> s.
Proof.
  intros H. rewrite <- Permutation_middle in H. apply NoDup_cons in H as [Hs H]. apply NoDup_cons in H as [Hc _].
  split; [done|]. intros ->. apply Hs. apply list_elem_of_here.
Qed.

Lemma close_conn_ok s xs1 c xs2 a s' :
  server_ok s (xs1 ++ c :: xs2) -> close_conn c s = Ok (a, s') ->
  server_ok s' (xs1 ++ xs2) /\ sv_conns s' = delete c (sv_conns s) /\ sv_ticks s' = sv_ticks s /\
  sv_store s' = sv_store s.
Proof.
  intros Hok E. pose proof Hok as [H1 H2 H3 H4 H5 H6 H7 H8].
  destruct (proj1 (H2 c)) as [cn Hcn]; [apply elem_of_app; right; apply list_elem_of_here|].
  destruct (H5 _ _ Hcn) as [Hfd Hslot]. destruct (nodup_middle _ _ _ _ (ring_nodup _ _ _ H1)) as [Hc HcL].
  unfold close_conn, conn, set_fd_slot, fd_slot, detach in E. srv_inv.
  repeat match goal with H : deref (sv_conns s) _ = _ |- _ => rewrite (deref_some _ _ _ Hcn) in H; injection H as <- end.
  cbn [sv_links sv_conns sv_fd_to_conn sv_ticks sv_fresh sv_store set_links set_fd_to_conn add_closed delete_conn decide] in *.
  destruct (ring_deatach _ _ _ _ _ H1) as (h & Eh & Hr & _).
  match goal with H : dlist_deatach (sv_links s IDLE) _ = _ |- _ => rewrite Eh in H; injection H as <- end.
  assert (Hne : forall d, d ∈ xs1 ++ xs2 <-> is_Some (delete c (sv_conns s) !! d)).
  { intros d. destruct (decide (d = c)) as [->|Hd].
    - rewrite lookup_delete_eq. split; [done|by intros []].
    - rewrite lookup_delete_ne by done. rewrite <- H2, !elem_of_app, elem_of_cons. tauto. }
  split_and!; try done.
  split; cbn [sv_links sv_conns sv_fd_to_conn sv_ticks sv_fresh set_links set_fd_to_conn add_closed delete_conn decide].
  - by apply ring_delete.
  - exact Hne.
  - intros d [cd Hd]. apply lookup_delete_Some in Hd as [_ Hd]. apply H3. by eexists.
  - done.
  - intros d cd [Hd Hcd]%lookup_delete_Some. destruct (H5 _ _ Hcd) as [Hf Hs]. split; [done|].
    rewrite list_lookup_insert_ne; [done|]. intros En. rewrite <- En, Hslot in Hs. by injection Hs.
  - intros i d Hi. destruct (decide (i = Z.to_nat (c_fd cn))) as [->|Hne'].
    + rewrite list_lookup_insert_eq in Hi by (by eapply lookup_lt_Some). done.
    + rewrite list_lookup_insert_ne in Hi by done. destruct (H6 _ _ Hi) as (cd & Hcd & Ef). exists cd.
      rewrite lookup_delete_ne; [done|]. intros <-. assert (cd = cn) as -> by congruence. lia.
  - eapply sorted_remove; [exact H7|]. intros d Hd. unfold active. cbn. rewrite lookup_delete_ne; [done|]. by intros ->.
  - intros d cd [_ Hcd]%lookup_delete_Some. by eapply H8.
Qed.

Lemma list_front_pure t s p s1 : list_front t s = Ok (p, s1) -> s1 = s.
Proof. intros E. unfold list_front in E. srv_inv. by case_match; srv_inv. Qed.

Lemma conn_ok c s cn s1 : conn c s = Ok (cn, s1) -> s1 = s /\ sv_conns s !! c = Some cn.
Proof. intros E. unfold conn in E. srv_inv. cbn [deref] in *. by inv_ok. Qed.

(** A timeout loop on any of the lists. *)
Lemma timeout_loop_ok fuel t curr_ms s xs a s' :
  server_ok s xs -> timeout_loop fuel t curr_ms s = Ok (a, s') -> exists xs', server_ok s' xs'.
Proof.
  revert s xs. induction fuel as [|fuel IH]; intros s xs Hok E; cbn [timeout_loop] in E;
    apply srv_bind_ok in E as (p & s1 & ->%list_front_pure & E);
    (destruct p as [c|]; [|srv_inv; by eexists]);
    apply srv_bind_ok in E as (cn & s2 & [-> Hcn]%conn_ok & E);
    (destruct (_ <=? _); [srv_inv; by eexists|]); [by srv_inv|].
  apply srv_bind_ok in E as ([] & s3 & E3 & E). destruct (member_split s xs c cn Hok Hcn) as (xs1 & xs2 & ->).
  apply (close_conn_ok _ _ _ _ _ _ Hok) in E3 as [Hok3 _]. by eapply IH.
Qed.

(** A connection becomes active: it moves to the end of the idle list. *)
Lemma set_active_ok s xs c ms a1 s1 a2 s2 a3 s3 :
  server_ok s xs -> 0 <= ms <= clock (sv_ticks s) -> (forall d cd, sv_conns s !! d = Some cd -> c_last_active_ms cd <= ms) ->
  set_conn c (with_active ms) s = Ok (a1, s1) -> detach IDLE c s1 = Ok (a2, s2) ->
  insert_last IDLE c s2 = Ok (a3, s3) -> exists xs', server_ok s3 xs'.
Proof.
  intros Hok Hms Hlast E1 E2 E3. unfold set_conn, detach, insert_last in *. srv_inv. cbn [update] in *.
  destruct (sv_conns s !! c) as [cn|] eqn:Hcn; [|done]. cbn [need mbind result_bind] in *. inv_ok.
  destruct (member_split s xs c cn Hok Hcn) as (xs1 & xs2 & ->). pose proof Hok as [O1 O2 O3 O4 O5 O6 O7 O8].
  cbn [set_conns set_links sv_links] in *. rewrite decide_True in * by done. destruct (nodup_middle _ _ _ _ (ring_nodup _ _ _ O1)) as [Hc HcL].
  destruct (ring_deatach _ _ _ _ _ O1) as (h & Eh & Hr & Hfr).
  match goal with H : _ = Ok ?y |- _ => rewrite Eh in H; assert (y = h) as -> by congruence; clear H end.
  assert (exists nd, h !! c = Some nd) as [nd Hnd].
  { destruct O1 as [_ Hs]. destruct (seg_lookup _ _ (LIST :: xs1 ++ c :: xs2) _ c ltac:(set_solver) Hs) as [nd Hnd]. exists nd.
    rewrite (proj1 Hfr); [done|]. rewrite not_elem_of_cons. tauto. }
  destruct (ring_insert h LIST (xs1 ++ xs2) c nd Hr) as (h' & Eh' & Hr' & _); [rewrite not_elem_of_cons; tauto|done|].
  match goal with H : _ = Ok ?y |- _ => rewrite Eh' in H; assert (y = h') as -> by congruence; clear H end.
  exists ((xs1 ++ xs2) ++ [c]).
  set (s3 := set_links IDLE h' _).
  assert (Hlook : forall d, sv_conns s3 !! d = if decide (d = c) then Some (with_active ms cn) else sv_conns s !! d).
  { intros d. cbn. case_decide as Hd; [subst; apply lookup_insert_eq|by rewrite lookup_insert_ne]. }
  assert (Hact : forall d, d ∈ xs1 ++ xs2 -> active s3 d = active s d).
  { intros d Hd. unfold active. rewrite Hlook, decide_False; [done|]. by intros ->. }
  split.
  - exact Hr'.
  - intros d. rewrite Hlook, elem_of_app, list_elem_of_singleton. case_decide as Hd.
    + subst. split; [by eexists|auto].
    + rewrite <- O2, !elem_of_app, elem_of_cons. tauto.
  - intros d. rewrite Hlook. case_decide as Hd; [subst; intros _; apply O3; by eexists|apply O3].
  - done.
  - intros d cd. rewrite Hlook. case_decide as Hd; [|apply O5]. subst. intros [= <-]. apply (O5 _ _ Hcn).
  - intros i d Hi. destruct (O6 _ _ Hi) as (cd & Hcd & Hf). rewrite Hlook. case_decide as Hd; [|by exists cd].
    subst. eexists. split; [done|]. cbn. congruence.
  - apply StronglySorted_app. split_and!.
    + intros d e Hd ->%list_elem_of_singleton. rewrite Hact by done. unfold active at 2. rewrite Hlook, decide_True by done.
      cbn. unfold active. destruct (sv_conns s !! d) as [cd|] eqn:Hcd; [by eapply Hlast|].
      exfalso. assert (is_Some (sv_conns s !! d)) as [? ?]; [|congruence]. apply O2. set_solver.
    + by eapply sorted_remove.
    + by repeat constructor.
  - intros d cd. rewrite Hlook. case_decide as Hd; [|apply O8]. intros [= <-]. exact Hms.
Qed.

Lemma clock_step s ms s1 : get_curr_ms clock s = Ok (ms, s1) -> ms = clock (sv_ticks s) /\ s1 = set_ticks (S (sv_ticks s)) s.
Proof. intros E. unfold get_curr_ms in E. by srv_inv. Qed.

Lemma fd_slot_ok fd s p s1 : fd_slot fd s = Ok (p, s1) -> s1 = s /\ sv_fd_to_conn s !! Z.to_nat fd = Some p.
Proof. intros E. unfold fd_slot in E. srv_inv. case_match; [|done]. by inv_ok. Qed.

Lemma quiet_if (b : bool) m : quiet m -> quiet (if b then m else mret tt).
Proof. destruct b; [done|]. intros _. apply quiet_ret. Qed.

Lemma serve_fd_ok env fd s xs a s' :
  server_ok s xs -> serve_fd logl clock env fd s = Ok (a, s') -> exists xs', server_ok s' xs'.
Proof.
  intros Hok E. unfold serve_fd in E. destruct (u8 _ =? 0); [srv_inv; by eexists|].
  apply srv_bind_ok in E as (p & s1 & [-> _]%fd_slot_ok & E). apply srv_bind_ok in E as (c & s2 & [_ ->]%run_ok & E).
  apply srv_bind_ok in E as (ms & s3 & E3 & E). pose proof (quiet_clock _ _ _ E3) as Hq.
  apply clock_step in E3 as [-> ->]. apply (calm_ok _ _ _ Hok) in Hq.
  apply srv_bind_ok in E as (a4 & s4 & E4 & E). apply srv_bind_ok in E as (a5 & s5 & E5 & E).
  apply srv_bind_ok in E as (a6 & s6 & E6 & E).
  assert (exists xs6, server_ok s6 xs6) as [xs6 Hok6].
  { eapply set_active_ok; [exact Hq| |intros d cd Hd; apply (so_past _ _ Hok _ _ Hd)|exact E4|exact E5|exact E6].
    split; [apply clock_range|]. apply clock_mono. cbn. lia. }
  apply srv_bind_ok in E as (a7 & s7 & E7 & E). apply srv_bind_ok in E as (a8 & s8 & E8 & E).
  pose proof (quiet_if _ _ (quiet_handle_read _ _) _ _ _ E7) as H7.
  pose proof (quiet_if _ _ (quiet_handle_write _ _) _ _ _ E8) as H8.
  apply (calm_ok _ _ _ Hok6), (calm_ok s7 s8) in H7; [|done].
  destruct (negb (Z.land (u8 (fe_revents (env fd))) POLLERR =? 0)); [|srv_inv; by eexists]. apply srv_bind_ok in E as (cn & s9 & [-> Hcn]%conn_ok & E).
  destruct (c_want_close cn); [|srv_inv; by eexists].
  destruct (member_split _ _ _ _ H7 Hcn) as (xs1 & xs2 & ->). eexists. exact (proj1 (close_conn_ok _ _ _ _ _ _ H7 E)).
Qed.

Lemma serve_fds_ok env fds s xs a s' :
  server_ok s xs -> serve_fds logl clock env fds s = Ok (a, s') -> exists xs', server_ok s' xs'.
Proof.
  revert s xs. induction fds as [|fd fds IH]; intros s xs Hok E; cbn [serve_fds] in E; [srv_inv; by eexists|].
  apply srv_bind_ok in E as (a1 & s1 & E1 & E). destruct (serve_fd_ok _ _ _ _ _ _ Hok E1) as [xs1 Hok1]. by eapply IH.
Qed.

(** [accept] returns a descriptor that is not in use. *)
Definition accept_ok (s : Server) (fd : Z) : Prop :=
  0 <= fd /\ forall c cn, sv_conns s !! c = Some cn -> c_fd cn <> fd.

(** The table of descriptors with one more connection. *)
Lemma slot_lookup (l : list ptr) n c i d :
  (<[n := Some c]> (l ++ replicate (S n - length l) NULL)) !! i = Some (Some d) <->
  (i = n /\ d = c) \/ (i <> n /\ l !! i = Some (Some d)).
Proof.
  destruct (decide (i = n)) as [->|Hne].
  - rewrite list_lookup_insert_eq by (rewrite length_app, length_replicate; lia). naive_solver.
  - rewrite list_lookup_insert_ne by done. rewrite lookup_app. split.
    + destruct (l !! i) eqn:El; [by right|]. intros H%list_elem_of_lookup_2%elem_of_replicate. naive_solver.
    + intros [[? _]|[_ ->]]; done.
Qed.

Lemma register_eq c s a s' cn :
  register c s = Ok (a, s') -> sv_conns s !! c = Some cn -> 0 <= c_fd cn ->
  s' = set_fd_to_conn (<[Z.to_nat (c_fd cn) := Some c]>
         (sv_fd_to_conn s ++ replicate (S (Z.to_nat (c_fd cn)) - length (sv_fd_to_conn s)) NULL)) s.
Proof.
  intros E Hcn Hfd. unfold register in E. apply srv_bind_ok in E as (cn' & s1 & [-> Hcn']%conn_ok & E).
  assert (cn' = cn) as -> by congruence. apply srv_bind_ok in E as (? & s1 & E1 & E). unfold get in E1. injection E1 as <- <-.
  apply srv_bind_ok in E as ([] & s1 & E1 & E). unfold set_fd_slot in E.
  apply srv_bind_ok in E as (p & s2 & [-> _]%fd_slot_ok & E). srv_inv.
  destruct (Z.leb_spec (Z.of_nat (length (sv_fd_to_conn s))) (c_fd cn)); srv_inv.
  - replace (Z.to_nat (c_fd cn + 1)) with (S (Z.to_nat (c_fd cn))) by lia. done.
  - match goal with |- context [replicate ?k _] => replace k with 0%nat by lia end. cbn [replicate]. by rewrite app_nil_r.
Qed.

Lemma handle_accept_ok s xs fd p s1 c :
  c = sv_fresh s ->
  server_ok s xs -> handle_accept clock (Some fd) s = Ok (p, s1) ->
  p = Some c /\ (sv_conns s !! c = None) /\
  exists cn, sv_conns s1 = <[c := cn]> (sv_conns s) /\ c_fd cn = fd /\ c_last_active_ms cn = clock (sv_ticks s) /\
    ring (sv_links s1 IDLE) LIST (xs ++ [c]) /\ sv_fd_to_conn s1 = sv_fd_to_conn s /\
    (sv_ticks s <= sv_ticks s1)%nat /\ sv_fresh s1 = Pos.succ c.
Proof.
  intros -> Hok Ea. pose proof Hok as [O1 O2 O3 O4 O5 O6 O7 O8]. cbn [handle_accept] in Ea.
  apply srv_bind_ok in Ea as (s' & s'' & E & Ea). unfold get in E. injection E as <- <-.
  apply srv_bind_ok in Ea as (t1 & ? & [-> ->]%clock_step & Ea).
  apply srv_bind_ok in Ea as (t2 & ? & [-> ->]%clock_step & Ea).
  apply srv_bind_ok in Ea as (t3 & ? & [-> ->]%clock_step & Ea).
  unfold insert_last in Ea. srv_inv.
  cbn [set_ticks sv_links sv_ticks sv_conns sv_store sv_fd_to_conn sv_closed sv_fresh set_links] in *.
  set (c := sv_fresh s) in *.
  assert (Hcn : sv_conns s !! c = None).
  { destruct (sv_conns s !! c) eqn:Ec; [|done]. assert (c < c)%positive by (apply O3; by eexists). lia. }
  assert (Hcx : c ∉ LIST :: xs).
  { rewrite not_elem_of_cons. split; [intros E; rewrite <- E in O4; lia|]. intros Hx%O2. rewrite Hcn in Hx. by destruct Hx. }
  destruct (ring_insert (<[c := mkNode NULL NULL tt]> (sv_links s IDLE)) LIST xs c (mkNode NULL NULL tt)) as (h & Eh & Hr & _).
  { destruct O1 as [Hnd Hs]. split; [done|]. eapply seg_ext; [|exact Hs]. intros y Hy.
    rewrite lookup_insert_ne; [done|]. by intros ->. }
  { done. }
  { apply lookup_insert_eq. }
  match goal with H : _ = Ok ?y |- _ => rewrite Eh in H; assert (y = h) as -> by congruence; clear H end.
  split; [done|]. split; [done|]. eexists. split; [reflexivity|]. cbn. split_and!; try done. lia.
Qed.

Lemma accept_register_ok s xs fd c s1 a s2 :
  server_ok s xs -> accept_ok s fd -> handle_accept clock (Some fd) s = Ok (Some c, s1) ->
  register c s1 = Ok (a, s2) -> exists xs', server_ok s2 xs'.
Proof.
  intros Hok [Hfd Hnew] E1 E2. pose proof Hok as [O1 O2 O3 O4 O5 O6 O7 O8].
  destruct (handle_accept_ok s xs fd _ _ _ eq_refl Hok E1) as ([= ->] & Hnone & cn & Hcs & Hcfd & Hact & Hr & Hfds & Hticks & Hfr).
  set (c := sv_fresh s) in *. assert (Hcn : sv_conns s1 !! c = Some cn) by (rewrite Hcs; apply lookup_insert_eq).
  apply (register_eq _ _ _ _ cn) in E2; [|done|by rewrite Hcfd]. rewrite Hcfd, Hfds in E2. subst s2.
  exists (xs ++ [c]).
  assert (Hlook : forall d, sv_conns s1 !! d = if decide (d = c) then Some cn else sv_conns s !! d).
  { intros d. rewrite Hcs. case_decide as Hd; [subst; apply lookup_insert_eq|by rewrite lookup_insert_ne]. }
  assert (Hold : forall d cd, sv_conns s !! d = Some cd -> sv_conns s1 !! d = Some cd).
  { intros d cd Hd. rewrite Hlook, decide_False; [done|]. intros ->. congruence. }
  assert (Hactive : forall d, d ∈ xs -> active s1 d = active s d).
  { intros d [cd Hd]%O2. unfold active. by rewrite (Hold _ _ Hd), Hd. }
  split; cbn [set_fd_to_conn sv_links sv_conns sv_fd_to_conn sv_fresh sv_ticks]; [done|..].
  - intros d. rewrite Hlook, elem_of_app, list_elem_of_singleton, O2. case_decide as Hd; [|tauto].
    split; [by eexists|auto].
  - intros d. rewrite Hlook, Hfr. case_decide as Hd; [subst; lia|]. intros ?%O3. unfold c. lia.
  - rewrite Hfr. unfold c. lia.
  - intros d cd. rewrite Hlook. case_decide as Hd.
    + intros [= <-]. subst d. rewrite Hcfd. split; [done|]. apply slot_lookup. auto.
    + intros Hcd. destruct (O5 _ _ Hcd) as [H1 H2]. split; [done|]. apply slot_lookup. right. split; [|done].
      intros En. apply (Hnew _ _ Hcd). lia.
  - intros i d [[-> ->]|[Hi Hl]]%slot_lookup; [exists cn; split; [done|lia]|].
    destruct (O6 _ _ Hl) as (cd & Hcd & Hf). exists cd. split; [by apply Hold|done].
  - change (StronglySorted (fun c d => active s1 c <= active s1 d) (xs ++ [c])). apply StronglySorted_app. split_and!.
    + intros d e Hd ->%list_elem_of_singleton. rewrite Hactive by done. unfold active at 2. rewrite Hcn, Hact.
      unfold active. apply O2 in Hd as [cd Hcd]. rewrite Hcd. apply (O8 _ _ Hcd).
    + clear -O7 Hactive. induction O7 as [|x l H' IH Hall]; constructor.
      * apply IH. intros d Hd. apply Hactive. by apply elem_of_cons; right.
      * rewrite Forall_forall in Hall |- *. intros d Hd. rewrite !Hactive; [by apply Hall| |]; apply elem_of_cons; auto.
    + by repeat constructor.
  - intros d cd. rewrite Hlook. case_decide as Hd.
    + intros [= <-]. rewrite Hact. split; [apply clock_range|by apply clock_mono].
    + intros Hcd. destruct (O8 _ _ Hcd). pose proof (clock_mono _ _ Hticks). lia.
Qed.

Lemma quiet_poll_fds ps : quiet (poll_fds ps).
Proof.
  induction ps as [|[c|] ps IH]; cbn [poll_fds]; [apply quiet_ret| |done].
  apply quiet_bind; [apply quiet_conn|intros cn]. apply quiet_bind; [done|intros fds]. apply quiet_ret.
Qed.

Lemma quiet_pure {A} (m : srvM A) : (forall s a s', m s = Ok (a, s') -> s' = s) -> quiet m.
Proof. intros H s a s' ->%H. apply calm_refl. Qed.

Lemma quiet_next_timer : quiet (next_timer_ms clock).
Proof.
  unfold next_timer_ms. apply quiet_bind; [apply quiet_pure, list_front_pure|intros [c|]; [|apply quiet_ret]].
  apply quiet_bind; [apply quiet_clock|intros t]. apply quiet_bind; [apply quiet_conn|intros cn].
  apply quiet_bind; [apply quiet_pure; intros s a s' E; by srv_inv|intros s0]. apply quiet_ret.
Qed.

Lemma close_expired_ok t curr_ms s xs a s' :
  server_ok s xs -> close_expired t curr_ms s = Ok (a, s') -> exists xs', server_ok s' xs'.
Proof.
  intros Hok E. unfold close_expired in E. apply srv_bind_ok in E as (s0 & s1 & E1 & E). unfold get in E1.
  injection E1 as <- <-. by eapply timeout_loop_ok.
Qed.

Lemma process_timers_ok s xs a s' :
  server_ok s xs -> process_timers clock s = Ok (a, s') -> exists xs', server_ok s' xs'.
Proof.
  intros Hok E. unfold process_timers in E. apply srv_bind_ok in E as (ms & s1 & E1%quiet_clock & E).
  apply (calm_ok _ _ _ Hok) in E1.
  apply srv_bind_ok in E as (a2 & s2 & E2 & E). destruct (close_expired_ok _ _ _ _ _ _ E1 E2) as [xs2 Hok2].
  apply srv_bind_ok in E as (a3 & s3 & E3 & E). destruct (close_expired_ok _ _ _ _ _ _ Hok2 E3) as [xs3 Hok3].
  apply srv_bind_ok in E as (a4 & s4 & E4 & E). destruct (close_expired_ok _ _ _ _ _ _ Hok3 E4) as [xs4 Hok4].
  srv_inv. destruct x1 as [[] w]. srv_inv. exists xs4. eapply calm_ok; [exact Hok4|]. by split.
Qed.

Definition event_ok (s : Server) (ev : poll_event) : Prop :=
  match ev with PollReady (Some (Some fd)) _ => accept_ok s fd | _ => True end.

Lemma pass_ok ev s xs a s' :
  server_ok s xs -> event_ok s ev -> pass logl clock ev s = Ok (a, s') -> exists xs', server_ok s' xs'.
Proof.
  intros Hok Hev E. unfold pass in E. apply srv_bind_ok in E as (s0 & s1 & E1 & E). unfold get in E1.
  injection E1 as <- <-. apply srv_bind_ok in E as (fds & s1 & E1%quiet_poll_fds & E).
  apply srv_bind_ok in E as (tm & s2 & E2%quiet_next_timer & E).
  pose proof (calm_trans _ _ _ E1 E2) as Hc. pose proof (calm_ok _ _ _ Hok Hc) as Hok2.
  destruct ev as [| |l env]; [srv_inv; by eexists|srv_inv; by eexists|].
  apply srv_bind_ok in E as (go & s3 & E3 & E). assert (exists xs3, server_ok s3 xs3) as [xs3 Hok3].
  { destruct l as [[fd|]|]; [|cbn [handle_accept] in E3; srv_inv; by eexists|srv_inv; by eexists].
    apply srv_bind_ok in E3 as (p & s4 & E4 & E3). destruct p as [c|].
    - apply srv_bind_ok in E3 as (a5 & s5 & E5 & E3). srv_inv.
      eapply accept_register_ok; [exact Hok2| |exact E4|exact E5]. destruct Hev as [H1 H2]. split; [done|].
      intros d cd Hd. destruct (calm_conn _ _ _ _ Hc Hd) as (cd0 & Hd0 & <- & _). by eapply H2.
    - destruct (handle_accept_ok s2 xs fd _ _ _ eq_refl Hok2 E4) as [[=] _]. }
  destruct go; [|srv_inv; by eexists]. apply srv_bind_ok in E as (a4 & s4 & E4 & E).
  destruct (serve_fds_ok _ _ _ _ _ _ Hok3 E4) as [xs4 Hok4]. apply srv_bind_ok in E as (a5 & s5 & E5 & E).
  srv_inv. by eapply process_timers_ok.
Qed.

(** A pass of the event loop, for any events [poll] may report. *)
Inductive server_step : Server -> Server -> Prop :=
  | server_pass s ev s' : event_ok s ev -> pass logl clock ev s = Ok (true, s') -> server_step s s'.

Lemma server_init_ok s : server_init = Ok s -> server_ok s [].
Proof.
  unfold server_init. intros E. apply bind_ok in E as (h & Eh & [= <-]).
  destruct (init_ring {[LIST := mkNode NULL NULL tt]} LIST (mkNode NULL NULL tt)) as (h' & Eh' & Hr & _);
    [by rewrite lookup_singleton_eq|]. assert (h' = h) as -> by congruence.
  split; cbn; try done.
  - intros c. rewrite lookup_empty, elem_of_nil. split; [done|by intros []].
  - intros c. rewrite lookup_empty. by intros [].
  - constructor.
Qed.

Lemma steps_ok s s' xs : server_ok s xs -> rtc server_step s s' -> exists xs', server_ok s' xs'.
Proof.
  intros Hok H. revert xs Hok. induction H as [s|s s1 s2 [s0 ev s1' Hev E] _ IH]; intros xs Hok; [by eexists|].
  destruct (pass_ok _ _ _ _ _ Hok Hev E) as [xs1 Hok1]. by eapply IH.
Qed.

(** The front of a timeout list. *)
Lemma ring_front t s xs : ring (sv_links s t) LIST xs -> list_front t s = Ok (first xs NULL, s).
Proof.
  intros Hr. destruct (ring_sentinel _ _ _ Hr) as [v Hv].
  unfold list_front. erewrite srv_step by reflexivity. erewrite srv_step by (apply run_eq; by apply ring_empty).
  destruct xs as [|c xs]; [done|]. rewrite bool_decide_false by done.
  by erewrite srv_step by (apply run_eq; by apply deref_some).
Qed.

Lemma idle_front s xs : server_ok s xs -> list_front IDLE s = Ok (first xs NULL, s).
Proof. intros Hok. apply ring_front, (so_ring _ _ Hok). Qed.

Lemma idle_deadline s xs c cn :
  server_ok s xs -> sv_conns s !! c = Some cn -> timeout_ms IDLE cn = c_last_active_ms cn + IDLE_TIMEOUT_MS.
Proof.
  intros Hok Hcn. pose proof (so_past _ _ Hok _ _ Hcn). pose proof (clock_range (sv_ticks s)).
  cbn [timeout_ms]. unfold IDLE_TIMEOUT_MS. rewrite u64_small; lia.
Qed.

(** The connections that were active recently enough. *)
Definition recent (curr_ms : Z) (x : loc * Conn) : Prop := curr_ms <= c_last_active_ms (snd x) + IDLE_TIMEOUT_MS.

#[export] Instance recent_dec curr_ms x : Decision (recent curr_ms x).
Proof. unfold recent. apply _. Defined.

Lemma idle_loop_exact fuel curr_ms s xs a s' :
  server_ok s xs -> timeout_loop fuel IDLE curr_ms s = Ok (a, s') ->
  sv_conns s' = filter (recent curr_ms) (sv_conns s).
Proof.
  revert s xs. induction fuel as [|fuel IH]; intros s xs Hok E; cbn [timeout_loop] in E;
    apply srv_bind_ok in E as (p & s1 & Ep & E); rewrite (idle_front _ _ Hok) in Ep; injection Ep as <- <-.
  all: destruct xs as [|c xs]; cbn [first] in E.
  all: try (srv_inv; symmetry; apply map_filter_id; intros c cn Hcn; exfalso;
    assert (c ∈ []) as Hn by (apply (so_live _ _ Hok); by eexists); by apply elem_of_nil in Hn).
  all: apply srv_bind_ok in E as (cn & s2 & [-> Hcn]%conn_ok & E); rewrite (idle_deadline _ _ _ _ Hok Hcn) in E.
  all: destruct (Z.leb_spec curr_ms (c_last_active_ms cn + IDLE_TIMEOUT_MS)) as [Hle|Hgt].
  1, 3: srv_inv; symmetry; apply map_filter_id; intros d cd Hd; unfold recent; cbn;
    pose proof (proj2 (so_live _ _ Hok d) ltac:(by eexists)) as Hin;
    apply elem_of_cons in Hin as [->|Hin]; [assert (cd = cn) as -> by congruence; lia|];
    pose proof (so_sorted _ _ Hok) as Hs; apply StronglySorted_inv in Hs as [_ Hall];
    rewrite Forall_forall in Hall; specialize (Hall d Hin); unfold active in Hall; rewrite Hcn, Hd in Hall; lia.
  - by srv_inv.
  - apply srv_bind_ok in E as ([] & s3 & E3 & E). destruct (close_conn_ok s [] c xs _ _ Hok E3) as (Hok3 & Hdel & _).
    rewrite (IH _ _ Hok3 E), Hdel, map_filter_delete, delete_id; [done|].
    rewrite map_lookup_filter, Hcn. cbn. unfold recent. cbn. rewrite option_guard_False; [done|lia].
Qed.

Lemma no_fuel_run {A} (r : result A) s : r <> Fault OutOfFuel -> run r s <> Fault OutOfFuel.
Proof. unfold run. by destruct r; cbn; [|intros H [= ->]]. Qed.

Lemma no_fuel_bind {A B} (m : srvM A) (k : A -> srvM B) s :
  m s <> Fault OutOfFuel -> (forall a s', m s = Ok (a, s') -> k a s' <> Fault OutOfFuel) ->
  (x ← m; k x) s <> Fault OutOfFuel.
Proof.
  intros Hm Hk. unfold mbind, srv_bind. destruct (m s) as [[a s']|f] eqn:E; cbn; [by apply Hk|]. by intros [= ->].
Qed.

Lemma deref_no_fuel {A} (h : gmap loc A) p : deref h p <> Fault OutOfFuel.
Proof. destruct p as [l|]; cbn; [|done]. by destruct (h !! l). Qed.
Lemma update_no_fuel {A} (h : gmap loc A) p f : update h p f <> Fault OutOfFuel.
Proof. destruct p as [l|]; cbn; [|done]. by destruct (h !! l). Qed.
Lemma detach_no_fuel (h : links) p : dlist_deatach h p <> Fault OutOfFuel.
Proof.
  unfold dlist_deatach. destruct (deref h p) as [n|f] eqn:E; cbn [mbind result_bind]; [|intros [= ->]; by apply deref_no_fuel in E].
  assert (H : forall (g : links) q f, (if q is Some _ then update g q f else Ok g) <> Fault OutOfFuel)
    by (intros g [q|] f; [apply update_no_fuel|done]).
  destruct (if dl_prev n is Some _ then _ else _) as [h1|f] eqn:E1; cbn [mbind result_bind]; [apply H|].
  intros [= ->]. by apply H in E1.
Qed.

Lemma close_conn_no_fuel c s : close_conn c s <> Fault OutOfFuel.
Proof.
  assert (Hd : forall t c s, detach t c s <> Fault OutOfFuel).
  { intros t d s0. unfold detach. apply no_fuel_bind; [done|]. intros s1 s2 _.
    apply no_fuel_bind; [apply no_fuel_run, detach_no_fuel|done]. }
  unfold close_conn. apply no_fuel_bind.
  { unfold conn. apply no_fuel_bind; [done|]. intros s1 s2 _. apply no_fuel_run, deref_no_fuel. }
  intros cn s1 _. apply no_fuel_bind; [done|]. intros _ s2 _. apply no_fuel_bind.
  { unfold set_fd_slot, fd_slot. apply no_fuel_bind; [|done]. apply no_fuel_bind; [done|]. intros s3 s4 _.
    apply no_fuel_run. case_match; [|done]. by destruct (sv_fd_to_conn s3 !! _). }
  intros _ s3 _. do 3 (apply no_fuel_bind; [apply Hd|intros ? ? _]). done.
Qed.

Lemma close_conn_deletes c s a s' :
  close_conn c s = Ok (a, s') -> is_Some (sv_conns s !! c) /\ sv_conns s' = delete c (sv_conns s).
Proof.
  intros E. unfold close_conn in E. apply srv_bind_ok in E as (cn & s1 & [-> Hcn]%conn_ok & E).
  split; [by eexists|]. unfold set_fd_slot, fd_slot, detach in E. by srv_inv.
Qed.

Lemma timeout_loop_no_fuel fuel t curr_ms s :
  (size (sv_conns s) <= fuel)%nat -> timeout_loop fuel t curr_ms s <> Fault OutOfFuel.
Proof.
  revert s. induction fuel as [|fuel IH]; intros s Hf; cbn [timeout_loop]; apply no_fuel_bind.
  1, 3: unfold list_front; apply no_fuel_bind; [done|intros s1 s2 _];
    (apply no_fuel_bind; [apply no_fuel_run; unfold dlist_empty; intros E;
      destruct (deref (sv_links s1 t) (Some LIST)) eqn:Ed; [done|]; cbn in E; injection E as ->; by apply deref_no_fuel in Ed|]);
    intros [] s3 _; [done|]; (apply no_fuel_bind; [apply no_fuel_run, deref_no_fuel|done]).
  all: intros [c|] s1 ->%list_front_pure; [|done]; apply no_fuel_bind;
    [unfold conn; apply no_fuel_bind; [done|intros s2 s3 _]; apply no_fuel_run, deref_no_fuel|].
  all: intros cn s2 [-> Hcn]%conn_ok; destruct (_ <=? _); [done|].
  - assert (Hz : size (sv_conns s) = 0%nat) by lia. apply map_size_empty_inv in Hz. by rewrite Hz, lookup_empty in Hcn.
  - apply no_fuel_bind; [apply close_conn_no_fuel|]. intros _ s3 [_ Hdel]%close_conn_deletes. apply IH.
    rewrite Hdel, map_size_delete_Some by (by eexists). lia.
Qed.
End invariant.

(** ** Properties *)

Section properties.
Variables (logl : QArith_base.Q -> QArith_base.Q) (clock : nat -> Z).
Hypothesis clock_mono : forall n m, (n <= m)%nat -> clock n <= clock m.
Hypothesis clock_range : forall n, 0 <= clock n < 2 ^ 63.

(** C9: in every state the event loop reaches, whatever the events and the
    outcomes of the system calls, the idle list is a ring of exactly the open
    connections, each once, in the order of their last activity, and
    [fd_to_conn] maps exactly the descriptors of the open connections to
    them. *)
Theorem idle_list_invariant s0 s :
  server_init = Ok s0 -> rtc (server_step logl clock) s0 s -> exists xs, server_ok clock s xs.
Proof. intros E H. eapply steps_ok; [done|done|by apply server_init_ok|exact H]. Qed.

(** The timeout loops terminate: every turn deletes a connection, so the
    number of connections bounds the turns whatever state the lists are in. *)
Theorem close_expired_terminates t curr_ms s : close_expired t curr_ms s <> Fault OutOfFuel.
Proof. unfold close_expired. apply no_fuel_bind; [done|]. intros s1 s2 [= <- <-]. by apply timeout_loop_no_fuel. Qed.

(** The argument of [poll].  With the earliest deadline [d] of an idle
    connection or a key ahead of the clock it is the time left; when [d] has
    passed, the unsigned subtraction wraps and the [int] that [poll] gets is
    negative, so [poll] waits without a timeout. *)
Theorem next_timer_cases s c xs cn :
  server_ok clock s (c :: xs) -> sv_conns s !! c = Some cn ->
  let d := match s_heap (sv_store s) with
           | [] => c_last_active_ms cn + IDLE_TIMEOUT_MS
           | e :: _ => Z.min (c_last_active_ms cn + IDLE_TIMEOUT_MS) (hn_val e)
           end in
  let now := clock (sv_ticks s) in
  0 <= d -> Z.abs (now - d) < 2 ^ 31 ->
  exists v s', next_timer_ms clock s = Ok (v, s') /\ s32 v = d - now /\ (now <= d -> v = d - now) /\
    (d < now -> v = 2 ^ 64 - (now - d)).
Proof.
  intros Hok Hcn d now Hd Hnow. pose proof (so_past _ _ _ Hok _ _ Hcn) as Hp. pose proof (clock_range (sv_ticks s)) as Hr.
  fold now in Hp, Hr.
  exists (Z.max 0 (u64 (d - now))), (set_ticks (S (sv_ticks s)) s). split.
  - unfold next_timer_ms. erewrite srv_step by (by apply (idle_front clock)). cbn [first].
    erewrite srv_step by reflexivity. erewrite srv_step by (unfold conn; erewrite srv_step by reflexivity; apply run_eq, deref_some, Hcn).
    erewrite srv_step by reflexivity. cbn [set_ticks sv_store].
    rewrite (idle_deadline clock clock_range s (c :: xs) c cn Hok Hcn). unfold d, now. by destruct (s_heap (sv_store s)).
  - assert (Hu : u64 (d - now) = if now <=? d then d - now else 2 ^ 64 - (now - d)).
    { unfold u64. zcase; [apply Z.mod_small; lia|]. rewrite <- (Z.mod_add _ 1) by lia. rewrite Z.mod_small; lia. }
    rewrite Hu. zcase; rewrite Z.max_r by lia.
    + split; [apply s32_small; lia|]. split; [done|lia].
    + split; [|split; [lia|done]]. rewrite <- (s32_small (d - now)) by lia. unfold s32.
      replace (2 ^ 64 - (now - d) + 2 ^ 31) with (d - now + 2 ^ 31 + 2 ^ 32 * 2 ^ 32) by lia. by rewrite Z.mod_add.
Qed.
End properties.

(** A connection on descriptor 5 whose events are [e]; nothing else happens. *)
Definition quiet_fd : FdEvents := mkFdEvents 0 RdAgain WrAgain.
Definition on_fd5 (e : FdEvents) : poll_event := PollReady None (fun fd => if fd =? 5 then e else quiet_fd).
Definition accept5 : poll_event := PollReady (Some (Some 5)) (fun _ => quiet_fd).
Definition get_request : list Z := request_frame [lit "get"; lit "k"].

(** A client that sends its second request before it has read the response to
    the first: the server is told that it can read and write, reads the second
    request, and writes both responses. *)
Definition pipelined : list poll_event :=
  [ accept5;
    on_fd5 (mkFdEvents POLLIN (RdData get_request) WrAgain);
    on_fd5 (mkFdEvents (POLLIN + POLLOUT) (RdData get_request) (Wrote 30)) ].

(** Six seconds pass after the eighteenth reading of the clock. *)
Definition six_seconds (n : nat) : Z := if (n <? 18)%nat then Z.of_nat n else 6000 + Z.of_nat n.

(** (The connection is linked into [write_list] a second time): after two
    pipelined requests, both answered in full, the connection is still in
    [write_list], linked to itself; six seconds later [process_timers] closes
    it as a write timeout although it waits for nothing, and then follows
    [write_list] into the deleted connection. *)
Theorem pipelined_request_dangles :
  exists s0 s, server_init = Ok s0 /\ passes (fun q => q) six_seconds pipelined s0 = Ok (tt, s) /\
    (outgoing ∘ c_bufs <$> sv_conns s !! 2%positive) = Some [] /\
    (c_want_write <$> sv_conns s !! 2%positive) = Some false /\
    sv_links s WRITE !! 2%positive = Some (mkNode (Some 2%positive) (Some 2%positive) tt) /\
    dlist_empty (sv_links s WRITE) (Some LIST) = Ok false /\
    pass (fun q => q) six_seconds (on_fd5 quiet_fd) s = Fault Dangling.
Proof.
  destruct server_init as [s0|] eqn:E0; [|done].
  destruct (passes (fun q => q) six_seconds pipelined s0) as [[[] s]|f] eqn:E1.
  2: { exfalso. unfold server_init in E0. vm_compute in E0. injection E0 as <-. vm_compute in E1. discriminate. }
  exists s0, s. split; [done|]. split; [done|].
  unfold server_init in E0. vm_compute in E0. injection E0 as <-. vm_compute in E1. injection E1 as <-.
  split_and!; vm_compute; reflexivity.
Qed.

(** ** Witnesses *)

(** A clock that advances by a millisecond per reading, up to an hour. *)
Definition ms_clock (n : nat) : Z := Z.min (Z.of_nat n) 3600000.

Lemma ms_clock_mono n m : (n <= m)%nat -> ms_clock n <= ms_clock m.
Proof. unfold ms_clock. lia. Qed.
Lemma ms_clock_range n : 0 <= ms_clock n < 2 ^ 63.
Proof. unfold ms_clock. lia. Qed.

(** The server when it starts, and after it has accepted a connection. *)
Definition sv0 : Server := match server_init with Ok s => s | Fault _ => mkServer st_empty ∅ (fun _ => ∅) [] [] 0 1 end.
Definition sv1 : Server := match pass (fun q => q) ms_clock accept5 sv0 with Ok (_, s) => s | Fault _ => sv0 end.

Lemma sv0_init : server_init = Ok sv0.
Proof. reflexivity. Qed.

Lemma sv1_step : server_step (fun q => q) ms_clock sv0 sv1.
Proof.
  apply (server_pass _ _ sv0 accept5); [split; [done|]; intros c cn; change (sv_conns sv0) with (∅ : gmap loc Conn); by rewrite lookup_empty|].
  unfold sv1. destruct (pass _ _ _ _) as [[b s]|f] eqn:E; [|by vm_compute in E].
  destruct b; [done|]. exfalso. vm_compute in E. discriminate.
Qed.

Lemma idle_list_invariant_witness :
  exists xs, server_ok ms_clock sv1 xs.
Proof.
  apply (idle_list_invariant (fun q => q) ms_clock ms_clock_mono ms_clock_range sv0 sv1 sv0_init).
  apply rtc_once, sv1_step.
Defined.

Lemma next_timer_cases_witness :
  exists v s', next_timer_ms ms_clock sv1 = Ok (v, s') /\ s32 v = 100000 - 4.
Proof.
  destruct (steps_ok (fun q => q) ms_clock ms_clock_mono ms_clock_range sv0 sv1 [] (server_init_ok ms_clock sv0 sv0_init)
    (rtc_once _ _ sv1_step)) as [xs Hok].
  destruct (sv_conns sv1 !! 2%positive) as [cn|] eqn:Hcn; [|vm_compute in Hcn; discriminate].
  assert (Hl : forall c, is_Some (sv_conns sv1 !! c) -> c = 2%positive).
  { assert (Hd : dom (sv_conns sv1) = {[2%positive]}) by (vm_compute; reflexivity).
    intros c Hc. apply elem_of_dom in Hc. rewrite Hd in Hc. by apply elem_of_singleton in Hc. }
  assert (exists xs', xs = 2%positive :: xs') as [xs' ->].
  { destruct xs as [|c xs'].
    - exfalso. apply (not_elem_of_nil 2%positive), (so_live _ _ _ Hok). by exists cn.
    - exists xs'. f_equal. apply Hl, (so_live _ _ _ Hok). apply list_elem_of_here. }
  assert (Ea : c_last_active_ms cn = 0) by (vm_compute in Hcn; by injection Hcn as <-).
  destruct (next_timer_cases ms_clock ms_clock_range sv1 2%positive xs' cn Hok Hcn) as (v & s' & E & Hv & _).
  - rewrite Ea. vm_compute. discriminate.
  - rewrite Ea. vm_compute. reflexivity.
  - exists v, s'. split; [exact E|]. rewrite Hv, Ea. vm_compute. reflexivity.
Defined.
