(* ===== verification/Timeouts.v ===== *)
(** * The timeout of idle connections

    The first loop of [process_timers] in [src/src/server.cpp].  Closing a
    connection also detaches it from the lists of reads and writes, whose links
    [dlist_deatach] does not reset: the loop returns unless it follows such a
    link to a connection that is gone.  The theorem says which connections are
    left and gives a condition on the links under which the loop returns. *)

From S2P Require Import Prelude Dlist Server.

(** ** Definitions *)

(** The nodes of the timeout lists exist as long as the connection. *)
Record linked (s : Server) : Prop := mkLinked {
  ln_list : forall t, is_Some (sv_links s t !! LIST);
  ln_conn : forall t c, is_Some (sv_conns s !! c) -> is_Some (sv_links s t !! c);
  ln_none : sv_conns s !! LIST = None;
  ln_fresh : (LIST < sv_fresh s)%positive
}.

(** A link to nothing, to the head of the list, or to a connection that the
    timeout leaves open. *)
Definition open_link (curr_ms : Z) (s : Server) (p : ptr) : Prop :=
  match p with
  | None => True
  | Some d => d = LIST \/ exists cd, sv_conns s !! d = Some cd /\ recent curr_ms (d, cd)
  end.

(** The links of a connection in the lists of reads and writes. *)
Definition open_links (curr_ms : Z) (s : Server) (c : loc) : Prop :=
  forall t n, t <> IDLE -> sv_links s t !! c = Some n ->
    open_link curr_ms s (dl_prev n) /\ open_link curr_ms s (dl_next n).

(** ** Lemmas *)

(** *** The nodes are there in every state *)

Lemma update_dom {A} (h h' : gmap loc A) p f :
  update h p f = Ok h' -> forall x, is_Some (h !! x) -> is_Some (h' !! x).
Proof.
  destruct p as [l|]; [|done]. cbn. destruct (h !! l); [|done]. cbn. intros [= <-] x Hx.
  destruct (decide (x = l)) as [->|]; [by rewrite lookup_insert_eq; eexists|by rewrite lookup_insert_ne].
Qed.

Lemma detach_dom (h h' : links) p :
  dlist_deatach h p = Ok h' -> forall x, is_Some (h !! x) -> is_Some (h' !! x).
Proof.
  unfold dlist_deatach. intros E x Hx. apply bind_ok in E as (n & _ & E). apply bind_ok in E as (h1 & E1 & E).
  assert (is_Some (h1 !! x)) by (destruct (dl_prev n); [by eapply update_dom|by injection E1 as <-]).
  destruct (dl_next n); [by eapply update_dom|by injection E as <-].
Qed.

Lemma insert_before_dom (h h' : links) p q :
  dlist_insert_before h p q = Ok h' -> forall x, is_Some (h !! x) -> is_Some (h' !! x).
Proof.
  unfold dlist_insert_before. intros E x Hx. apply bind_ok in E as (n & _ & E). apply bind_ok in E as (h1 & E1 & E).
  apply bind_ok in E as (h2 & E2 & E). apply bind_ok in E as (h3 & E3 & E).
  pose proof (update_dom _ _ _ _ E3 x (update_dom _ _ _ _ E2 x (update_dom _ _ _ _ E1 x Hx))) as H3.
  destruct (dl_prev n); [by eapply update_dom|by injection E as <-].
Qed.

(** Actions that keep the nodes. *)
Definition stays {A} (m : srvM A) : Prop := forall s a s', linked s -> m s = Ok (a, s') -> linked s'.

Lemma stays_bind {A B} (m : srvM A) (k : A -> srvM B) : stays m -> (forall a, stays (k a)) -> stays (x ← m; k x).
Proof. intros Hm Hk s b s' Hs E. apply srv_bind_ok in E as (a & s1 & E1 & E). eapply Hk; [|exact E]. by eapply Hm. Qed.

Lemma stays_ret {A} (a : A) : stays (mret a : srvM A).
Proof. intros s b s' Hs E. by srv_inv. Qed.
Lemma stays_get : stays get.
Proof. intros s b s' Hs E. by srv_inv. Qed.
Lemma stays_run {A} (r : result A) : stays (run r).
Proof. intros s b s' Hs E. by srv_inv. Qed.
Lemma stays_conn c : stays (conn c).
Proof. intros s b s' Hs [-> _]%conn_ok. done. Qed.
Lemma stays_front t : stays (list_front t).
Proof. intros s b s' Hs ->%list_front_pure. done. Qed.

Lemma stays_put f : (forall s, linked s -> linked (f s)) -> stays (put f).
Proof. intros Hf s b s' Hs E. srv_inv. by apply Hf. Qed.

(** A change of neither connections nor links. *)
Lemma stays_other f :
  (forall s, sv_conns (f s) = sv_conns s /\ sv_links (f s) = sv_links s /\ sv_fresh (f s) = sv_fresh s) -> stays (put f).
Proof. intros Hf. apply stays_put. intros s [H1 H2 H3 H4]. destruct (Hf s) as (E1 & E2 & E3). by split; rewrite ?E1, ?E2, ?E3. Qed.

Lemma stays_clock clock : stays (get_curr_ms clock).
Proof. apply stays_bind; [apply stays_get|intros s]. apply stays_bind; [by apply stays_other|intros _]. apply stays_ret. Qed.

Lemma stays_set_conn c f : stays (set_conn c f).
Proof.
  intros s b s' [H1 H2 H3 H4] E. unfold set_conn in E. srv_inv. cbn [update] in *.
  destruct (sv_conns s !! c) as [cn|] eqn:Hc; [|done]. cbn in *. inv_ok. split; cbn; try done.
  - intros t d Hd. apply H2. destruct (decide (d = c)) as [->|]; [by eexists|by rewrite lookup_insert_ne in Hd].
  - rewrite lookup_insert_ne; [done|]. congruence.
Qed.

Lemma stays_links t (op : links -> result links) :
  (forall h h', op h = Ok h' -> forall x, is_Some (h !! x) -> is_Some (h' !! x)) ->
  stays (s ← get; h ← run (op (sv_links s t)); put (set_links t h)).
Proof.
  intros Hop s b s' [H1 H2 H3 H4] E. srv_inv. split; cbn; try done.
  - intros u. case_decide; [subst; by eapply Hop|done].
  - intros u c Hc. case_decide; [subst; eapply Hop; [done|]|]; by apply H2.
Qed.

Lemma stays_detach t c : stays (detach t c).
Proof. apply (stays_links t (fun h => dlist_deatach h (Some c))). intros h h' E. by eapply detach_dom. Qed.
Lemma stays_insert t c : stays (insert_last t c).
Proof. apply (stays_links t (fun h => dlist_insert_before h (Some LIST) (Some c))). intros h h' E. by eapply insert_before_dom. Qed.

Lemma stays_fd_slot fd : stays (fd_slot fd).
Proof. apply stays_bind; [apply stays_get|intros s; apply stays_run]. Qed.
Lemma stays_set_fd_slot fd p : stays (set_fd_slot fd p).
Proof. apply stays_bind; [apply stays_fd_slot|intros _; by apply stays_other]. Qed.

Ltac stays_using tac :=
  repeat first
    [ progress tac | apply stays_ret | apply stays_get | apply stays_run | apply stays_conn | apply stays_clock | apply stays_front
    | apply stays_detach | apply stays_insert | apply stays_set_conn | apply stays_fd_slot | apply stays_set_fd_slot
    | apply stays_other; done | apply stays_bind; [|intros ?] | case_match ].
Ltac stays_steps := stays_using idtac.

Lemma stays_close c : stays (close_conn c).
Proof.
  intros s b s' Hs E. unfold close_conn in E. apply srv_bind_ok in E as (cn & s1 & [-> Hcn]%conn_ok & E).
  assert (Hc : c <> LIST) by (intros ->; pose proof (ln_none _ Hs); congruence).
  revert s' b Hs E. generalize s. clear s Hcn. intros s s' b Hs E. revert s b s' Hs E.
  match goal with |- forall s b s', linked s -> ?m s = _ -> _ => change (stays m) end. stays_steps.
  apply stays_put. intros s [H1 H2 H3 H4]. split; cbn; try done.
  - intros t. by rewrite lookup_delete_ne.
  - intros t d [cd [Hd Hcd]%lookup_delete_Some]. rewrite lookup_delete_ne by done. apply H2. by eexists.
  - apply lookup_delete_None. by right.
Qed.

Section reachable.
Variables (logl : QArith_base.Q -> QArith_base.Q) (clock : nat -> Z).

Lemma stays_timeout fuel t curr_ms : stays (timeout_loop fuel t curr_ms).
Proof.
  induction fuel as [|fuel IH]; cbn [timeout_loop]; stays_using ltac:(first [apply stays_close|exact IH]).
Qed.

Lemma stays_process_timers : stays (process_timers clock).
Proof. unfold process_timers, close_expired. stays_using ltac:(apply stays_timeout). Qed.

Lemma stays_accept fd : stays (handle_accept clock fd).
Proof.
  destruct fd as [fd|]; cbn [handle_accept]; [|apply stays_ret].
  intros s b s' Hs E. apply srv_bind_ok in E as (s0 & s1 & E1 & E). unfold get in E1. injection E1 as <- <-.
  apply srv_bind_ok in E as (t1 & ? & [-> ->]%clock_step & E). apply srv_bind_ok in E as (t2 & ? & [-> ->]%clock_step & E).
  apply srv_bind_ok in E as (t3 & ? & [-> ->]%clock_step & E). apply srv_bind_ok in E as ([] & s4 & E4 & E).
  assert (linked s4); [|revert E; by apply (stays_bind _ _ (stays_insert _ _)); [intros _; apply stays_ret|]].
  unfold put in E4. injection E4 as <-. destruct Hs as [H1 H2 H3 H4]. split; cbn.
  - intros t. apply lookup_insert_is_Some'. by right.
  - intros t c. rewrite !lookup_insert_is_Some'. intros [?|?]; [by left|right; by apply H2].
  - rewrite lookup_insert_ne; [done|]. intros E'. rewrite E' in H4. lia.
  - lia.
Qed.

Lemma stays_serve_fd env fd : stays (serve_fd logl clock env fd).
Proof. unfold serve_fd, handle_read, handle_write. stays_using ltac:(apply stays_close). Qed.

Lemma stays_pass ev : stays (pass logl clock ev).
Proof.
  assert (Hfds : forall ps, stays (poll_fds ps)).
  { induction ps as [|[c|] ps IH]; cbn [poll_fds]; stays_using ltac:(exact IH). }
  assert (Hserve : forall env fds, stays (serve_fds logl clock env fds)).
  { intros env fds. induction fds; cbn [serve_fds]; stays_using ltac:(first [apply stays_serve_fd|assumption]). }
  unfold pass, next_timer_ms, register. 
  stays_using ltac:(first [apply Hfds|apply Hserve|apply stays_process_timers|apply stays_accept]).
Qed.

Lemma init_linked s : server_init = Ok s -> linked s.
Proof.
  intros E. apply (server_init_ok clock) in E as Hok. unfold server_init in E. apply bind_ok in E as (h & Eh & [= <-]).
  assert (HL : is_Some (h !! LIST)) by (destruct (ring_sentinel _ _ _ (so_ring _ _ _ Hok)) as [v Hv]; by eexists).
  split; cbn; try done. intros t c. rewrite lookup_empty. by intros [].
Qed.

Lemma steps_linked s s' : linked s -> rtc (server_step logl clock) s s' -> linked s'.
Proof. intros Hs H. induction H as [|s s1 s2 [s0 ev s1' _ E] _ IH]; [done|]. apply IH. by eapply stays_pass. Qed.
End reachable.

(** *** Closing a connection *)

Lemma detach_cases (h : links) c :
  is_Some (h !! c) -> (exists h', dlist_deatach h (Some c) = Ok h') \/ dlist_deatach h (Some c) = Fault Dangling.
Proof.
  intros [n Hn]. unfold dlist_deatach. rewrite (deref_some _ _ _ Hn). cbn [mbind result_bind].
  assert (Hup : forall (g : links) q f, (exists g', (if q is Some _ then update g q f else Ok g) = Ok g')
    \/ (if q is Some _ then update g q f else Ok g) = Fault Dangling).
  { intros g [q|] f; [|left; by eexists]. cbn. destruct (g !! q); [left; by eexists|by right]. }
  destruct (Hup h (dl_prev n) (set_next (dl_next n))) as [[h1 ->]| ->]; [|by right]. cbn [mbind result_bind]. apply Hup.
Qed.

(** Detaching a node whose neighbours are there changes only them. *)
Lemma detach_frame (h : links) c n :
  h !! c = Some n -> (forall p, dl_prev n = Some p -> is_Some (h !! p)) -> (forall p, dl_next n = Some p -> is_Some (h !! p)) ->
  exists h', dlist_deatach h (Some c) = Ok h' /\
    forall x, dl_prev n <> Some x -> dl_next n <> Some x -> h' !! x = h !! x.
Proof.
  intros Hn Hp Hx. unfold dlist_deatach. rewrite (deref_some _ _ _ Hn). cbn [mbind result_bind].
  assert (Hup : forall (g : links) q f, (forall p, q = Some p -> is_Some (g !! p)) ->
    exists g', (if q is Some _ then update g q f else Ok g) = Ok g' /\ (forall x, q <> Some x -> g' !! x = g !! x) /\
      forall x, is_Some (g !! x) -> is_Some (g' !! x)).
  { intros g [q|] f Hq; [|by exists g]. destruct (Hq q eq_refl) as [v Hv]. exists (<[q := f v]> g). cbn. rewrite Hv.
    split; [done|]. split; [intros x Hne; apply lookup_insert_ne; congruence|]. intros x ?. apply lookup_insert_is_Some'. by right. }
  destruct (Hup h (dl_prev n) (set_next (dl_next n)) Hp) as (h1 & -> & F1 & D1). cbn [mbind result_bind].
  destruct (Hup h1 (dl_next n) (set_prev (dl_prev n))) as (h2 & -> & F2 & _); [intros p Hp'; by apply D1, Hx|].
  exists h2. split; [done|]. intros x N1 N2. by rewrite F2, F1.
Qed.

Lemma detach_fault t c s f : dlist_deatach (sv_links s t) (Some c) = Fault f -> detach t c s = Fault f.
Proof. intros E. unfold detach. erewrite srv_step by reflexivity. unfold run, mbind at 1, srv_bind. by rewrite E. Qed.

(** The state in which [close_conn] comes to the lists of reads and writes. *)
Lemma close_begins clock s xs1 c xs2 :
  server_ok clock s (xs1 ++ c :: xs2) ->
  exists s1, close_conn c s = (_ ← detach READ c; _ ← detach WRITE c; put (delete_conn c)) s1 /\
    sv_conns s1 = sv_conns s /\ sv_links s1 READ = sv_links s READ /\ sv_links s1 WRITE = sv_links s WRITE.
Proof.
  intros Hok. pose proof Hok as [H1 H2 _ _ H5 _ _ _].
  destruct (proj1 (H2 c)) as [cn Hcn]; [apply elem_of_app; right; apply list_elem_of_here|].
  destruct (H5 _ _ Hcn) as [Hfd Hslot]. destruct (ring_deatach _ _ _ _ _ H1) as (h & Eh & _ & _).
  eexists. split; [|split; [|split]].
  - unfold close_conn. erewrite srv_step by (unfold conn; erewrite srv_step by reflexivity; apply run_eq, deref_some, Hcn).
    erewrite srv_step by reflexivity. erewrite srv_step.
    2: { unfold set_fd_slot, fd_slot. erewrite srv_step; [reflexivity|]. erewrite srv_step by reflexivity. apply run_eq.
         cbn [add_closed sv_fd_to_conn]. rewrite (proj2 (Z.leb_le 0 (c_fd cn))) by done. by rewrite Hslot. }
    erewrite srv_step by (apply detach_eq; exact Eh). reflexivity.
  - reflexivity.
  - reflexivity.
  - reflexivity.
Qed.

Lemma close_cases clock s xs1 c xs2 :
  server_ok clock s (xs1 ++ c :: xs2) -> linked s ->
  (exists s', close_conn c s = Ok (tt, s')) \/ close_conn c s = Fault Dangling.
Proof.
  intros Hok Hl. assert (Hc : is_Some (sv_conns s !! c)).
  { apply (so_live _ _ _ Hok), elem_of_app. right. apply list_elem_of_here. }
  destruct (close_begins _ _ _ _ _ Hok) as (s1 & -> & _ & E2 & E3).
  destruct (detach_cases (sv_links s1 READ) c) as [[h Eh]|Eh]; [rewrite E2; by apply Hl| |].
  2: { right. unfold mbind, srv_bind. by rewrite (detach_fault READ c s1 _ Eh). }
  erewrite srv_step by (by apply detach_eq). cbn beta.
  destruct (detach_cases (sv_links (set_links READ h s1) WRITE) c) as [[h2 Eh2]|Eh2]; [cbn; rewrite E3; by apply Hl| |].
  - left. eexists. erewrite srv_step by (by apply detach_eq). reflexivity.
  - right. unfold mbind, srv_bind. by rewrite (detach_fault WRITE c _ _ Eh2).
Qed.

Lemma open_live curr_ms s t p : linked s -> open_link curr_ms s (Some p) -> is_Some (sv_links s t !! p).
Proof. intros Hl [->|(cd & Hd & _)]; [by apply Hl|]. apply Hl. by eexists. Qed.

(** The links of a connection that is not left open are not touched. *)
Lemma open_other curr_ms s p d cd :
  linked s -> open_link curr_ms s p -> sv_conns s !! d = Some cd -> ~ recent curr_ms (d, cd) -> p <> Some d.
Proof.
  intros Hl Hp Hd Hn ->. destruct Hp as [->|(cd' & Hd' & Hr)]; [pose proof (ln_none _ Hl); congruence|].
  assert (cd' = cd) as -> by congruence. done.
Qed.

Lemma close_open clock s xs1 c xs2 curr_ms :
  server_ok clock s (xs1 ++ c :: xs2) -> linked s -> open_links curr_ms s c ->
  exists s', close_conn c s = Ok (tt, s') /\
    forall t d cd, t <> IDLE -> d <> c -> sv_conns s !! d = Some cd -> ~ recent curr_ms (d, cd) ->
      sv_links s' t !! d = sv_links s t !! d.
Proof.
  intros Hok Hl Ho. assert (Hc : is_Some (sv_conns s !! c)).
  { apply (so_live _ _ _ Hok), elem_of_app. right. apply list_elem_of_here. }
  destruct (close_begins _ _ _ _ _ Hok) as (s1 & -> & E1 & E2 & E3).
  destruct (ln_conn _ Hl READ c Hc) as [n1 Hn1]. destruct (ln_conn _ Hl WRITE c Hc) as [n2 Hn2].
  destruct (Ho READ n1 ltac:(done) Hn1) as [P1 X1]. destruct (Ho WRITE n2 ltac:(done) Hn2) as [P2 X2].
  destruct (detach_frame (sv_links s1 READ) c n1) as (h1 & D1 & F1);
    [by rewrite E2|intros p Hp; rewrite E2; rewrite Hp in P1; by eapply open_live
    |intros p Hp; rewrite E2; rewrite Hp in X1; by eapply open_live|].
  destruct (detach_frame (sv_links (set_links READ h1 s1) WRITE) c n2) as (h2 & D2 & F2);
    [cbn; by rewrite E3|intros p Hp; cbn; rewrite E3; rewrite Hp in P2; by eapply open_live
    |intros p Hp; cbn; rewrite E3; rewrite Hp in X2; by eapply open_live|].
  eexists. split.
  - erewrite srv_step by (by apply detach_eq). cbn beta. erewrite srv_step by (by apply detach_eq). reflexivity.
  - intros t d cd Ht Hne Hd Hn. pose proof (fun p => open_other curr_ms s p d cd Hl) as Hoth. cbn. rewrite lookup_delete_ne by done.
    destruct t; [done| |]; cbn.
    + rewrite F1 by (by apply Hoth). by rewrite E2.
    + rewrite F2 by (by apply Hoth). cbn. by rewrite E3.
Qed.

(** *** The loop *)

Section loop.
Variable clock : nat -> Z.
Hypothesis clock_range : forall n, 0 <= clock n < 2 ^ 63.

(** A turn of the loop on the first connection of the list. *)
Lemma idle_turn fuel curr_ms s c xs cn :
  server_ok clock s (c :: xs) -> sv_conns s !! c = Some cn ->
  timeout_loop (S fuel) IDLE curr_ms s
  = if decide (recent curr_ms (c, cn)) then Ok (tt, s) else (_ ← close_conn c; timeout_loop fuel IDLE curr_ms) s.
Proof.
  intros Hok Hcn. cbn [timeout_loop]. erewrite srv_step by (by apply (idle_front clock)). cbn [first].
  erewrite srv_step by (unfold conn; erewrite srv_step by reflexivity; apply run_eq, deref_some, Hcn).
  rewrite (idle_deadline clock clock_range s (c :: xs) c cn Hok Hcn). unfold recent. cbn [snd].
  case_decide; by zbool.
Qed.

Lemma idle_done fuel curr_ms s : server_ok clock s [] -> timeout_loop fuel IDLE curr_ms s = Ok (tt, s).
Proof. intros Hok. destruct fuel; cbn [timeout_loop]; by erewrite srv_step by (by apply (idle_front clock)). Qed.

Lemma front_conn s c xs : server_ok clock s (c :: xs) -> exists cn, sv_conns s !! c = Some cn.
Proof. intros Hok. apply (so_live _ _ _ Hok). apply list_elem_of_here. Qed.

Lemma idle_loop_faults fuel curr_ms s xs :
  server_ok clock s xs -> linked s -> (length xs <= fuel)%nat ->
  match timeout_loop fuel IDLE curr_ms s with Ok _ => True | Fault f => f = Dangling end.
Proof.
  revert s xs. induction fuel as [|fuel IH]; intros s [|c xs] Hok Hl Hf; cbn [length] in Hf; try lia;
    try (by rewrite (idle_done _ _ _ Hok)).
  destruct (front_conn _ _ _ Hok) as [cn Hcn]. rewrite (idle_turn _ _ _ _ _ _ Hok Hcn). case_decide; [done|].
  destruct (close_cases clock s [] c xs Hok Hl) as [[s' E]|E].
  - rewrite (srv_step _ _ _ _ _ E).
    apply (IH s' xs); [exact (proj1 (close_conn_ok clock s [] c xs _ _ Hok E))|by eapply stays_close|lia].
  - unfold mbind, srv_bind. by rewrite E.
Qed.

Lemma idle_loop_returns fuel curr_ms s xs :
  server_ok clock s xs -> linked s -> (length xs <= fuel)%nat ->
  (forall c cn, sv_conns s !! c = Some cn -> ~ recent curr_ms (c, cn) -> open_links curr_ms s c) ->
  exists s', timeout_loop fuel IDLE curr_ms s = Ok (tt, s').
Proof.
  revert s xs. induction fuel as [|fuel IH]; intros s [|c xs] Hok Hl Hf Ho; cbn [length] in Hf; try lia;
    try (exists s; by apply idle_done).
  destruct (front_conn _ _ _ Hok) as [cn Hcn]. rewrite (idle_turn _ _ _ _ _ _ Hok Hcn).
  case_decide as Hr; [by eexists|].
  destruct (close_open clock s [] c xs curr_ms Hok Hl (Ho _ _ Hcn Hr)) as (s1 & E & Hfr). rewrite (srv_step _ _ _ _ _ E).
  destruct (close_conn_ok clock s [] c xs _ _ Hok E) as (Hok1 & Hdel & _).
  eapply (IH s1 xs); [done|by eapply stays_close|lia|]. rewrite Hdel.
  intros d cd [Hne Hd]%lookup_delete_Some Hn t n Ht Hnd. rewrite (Hfr t d cd) in Hnd by done.
  assert (Hk : forall p, open_link curr_ms s p -> open_link curr_ms s1 p).
  { intros [p|]; [|done]. intros [->|(cp & Hp & Hrp)]; [by left|]. right. exists cp. rewrite Hdel.
    rewrite lookup_delete_ne; [done|]. intros <-. assert (cp = cn) as -> by congruence. done. }
  destruct (Ho d cd Hd Hn t n Ht Hnd) as [Hp Hx]. split; by apply Hk.
Qed.

Lemma conns_length s xs : server_ok clock s xs -> (length xs <= size (sv_conns s))%nat.
Proof.
  intros Hok. pose proof (ring_nodup _ _ _ (so_ring _ _ _ Hok)) as Hnd. apply NoDup_cons in Hnd as [_ Hnd].
  rewrite <- length_map_to_list, <- (length_fmap fst (map_to_list _)). apply submseteq_length, NoDup_submseteq; [done|].
  intros c [cn Hcn]%(so_live _ _ _ Hok). apply list_elem_of_fmap. exists (c, cn). split; [done|]. by apply elem_of_map_to_list.
Qed.
End loop.

(** ** Properties *)

Section properties.
Variables (logl : QArith_base.Q -> QArith_base.Q) (clock : nat -> Z).
Hypothesis clock_mono : forall n m, (n <= m)%nat -> clock n <= clock m.
Hypothesis clock_range : forall n, 0 <= clock n < 2 ^ 63.

(** C29: the idle timeout.  In every state the event loop reaches, the first
    loop of [process_timers] either returns, and then the connections left are
    exactly those that were active in the last 100 seconds, unchanged, or it
    follows a stale link of a list of reads or writes; and it returns whenever
    these links of the connections to be closed lead nowhere, to the head of
    the list or to a connection that stays open. *)
Theorem idle_timeout_exact s0 s curr_ms :
  server_init = Ok s0 -> rtc (server_step logl clock) s0 s ->
  match close_expired IDLE curr_ms s with
  | Ok (_, s') => sv_conns s' = filter (recent curr_ms) (sv_conns s)
  | Fault f => f = Dangling
  end /\
  ((forall c cn, sv_conns s !! c = Some cn -> ~ recent curr_ms (c, cn) -> open_links curr_ms s c) ->
   exists s', close_expired IDLE curr_ms s = Ok (tt, s')).
Proof.
  intros E H. destruct (steps_ok logl clock clock_mono clock_range s0 s [] (server_init_ok clock s0 E) H) as [xs Hok].
  pose proof (steps_linked logl clock s0 s (init_linked clock s0 E) H) as Hl. pose proof (conns_length clock s xs Hok) as Hlen.
  unfold close_expired. erewrite srv_step by reflexivity. split.
  - pose proof (idle_loop_faults clock clock_range _ curr_ms s xs Hok Hl Hlen) as Hf.
    destruct (timeout_loop _ IDLE curr_ms s) as [[a s']|f] eqn:Et; [|exact Hf]. by eapply idle_loop_exact.
  - by eapply idle_loop_returns.
Qed.
End properties.

(** ** Witnesses *)

(** The links of the connection of [sv1], which has sent nothing, are null. *)
Lemma sv1_links c cn : sv_conns sv1 !! c = Some cn -> open_links 200000 sv1 c.
Proof.
  intros Hc. assert (Hd : dom (sv_conns sv1) = {[2%positive]}) by (vm_compute; reflexivity).
  assert (c = 2%positive) as ->.
  { assert (Hin : c ∈ dom (sv_conns sv1)) by (apply elem_of_dom; by eexists). rewrite Hd in Hin. by apply elem_of_singleton in Hin. }
  intros t n Ht Hn. assert (Hl : sv_links sv1 t !! 2%positive = Some (mkNode NULL NULL tt))
    by (destruct t; [done|vm_compute; reflexivity..]). rewrite Hl in Hn. by injection Hn as <-.
Qed.

Lemma idle_timeout_exact_witness :
  exists s', close_expired IDLE 200000 sv1 = Ok (tt, s') /\ sv_conns s' = filter (recent 200000) (sv_conns sv1).
Proof.
  destruct (idle_timeout_exact (fun q => q) ms_clock ms_clock_mono ms_clock_range sv0 sv1 200000 sv0_init
    (rtc_once _ _ sv1_step)) as [H1 H2].
  destruct H2 as [s' E]; [intros c cn Hc _; exact (sv1_links c cn Hc)|].
  rewrite E in H1. exists s'. split; [exact E|exact H1].
Defined.
