(* ===== verification/Session.v ===== *)
(** * Sessions: the event loop of [src/src/server.cpp] with many clients

    The whole server (event loop, connections, timeout lists, request loop,
    database) against an abstract one: a map of strings, and per descriptor
    the bytes of a request that has not arrived in full and the bytes of
    responses that are not sent.  The clients send SET, GET and DEL requests, cut
    anywhere, and send a request only after they have the response to the one
    before (see [pipelined_request_dangles] for one that does not). *)

From stdpp Require Import sorting.
From Stdlib Require Import String.
From S2P Require Import Prelude Libc Dstr Dlist Heap Hash Buffers Request Hashmap Avl Hll Node Zset Commands Keyspace Wire Expiry Server.

(** ** Specification *)

Record View := mkView { v_map : gmap (list Z) (list Z); v_conns : gmap Z ConnBufs }.

Definition v_set (fd : Z) (b : ConnBufs) (V : View) : View := mkView (v_map V) (<[fd := b]> (v_conns V)).

(** What has arrived of a request. *)
Definition cut_short (p : list Z) : Prop :=
  exists q query, request_ok query /\ p ++ q = request_frame query /\ q <> [].

(** What one descriptor that [poll] reports does to the view. *)
Inductive fd_step (e : FdEvents) (fd : Z) (V : View) : View -> Prop :=
  | fd_quiet : u8 (fe_revents e) = 0 -> fd_step e fd V V
  | fd_again : fe_revents e = POLLIN /\ fe_read e = RdAgain \/ fe_revents e = POLLOUT /\ fe_write e = WrAgain ->
      fd_step e fd V V
  | fd_reads p data queries cs rest :
      fe_revents e = POLLIN -> fe_read e = RdData data -> v_conns V !! fd = Some (mkConnBufs p []) ->
      p ++ data = concat (request_frame <$> queries) ++ rest -> cut_short rest ->
      Forall kv_ok cs -> Forall2 kv_request cs queries ->
      Z.of_nat (size (v_map V)) + Z.of_nat (length cs) < 2 ^ 60 ->
      Z.of_nat (length (concat (reply_frame <$> fst (kv_run cs (v_map V))))) < 2 ^ 32 ->
      fd_step e fd V (mkView (snd (kv_run cs (v_map V)))
        (<[fd := mkConnBufs rest (concat (reply_frame <$> fst (kv_run cs (v_map V))))]> (v_conns V)))
  | fd_writes inc out n :
      fe_revents e = POLLOUT -> fe_write e = Wrote n -> v_conns V !! fd = Some (mkConnBufs inc out) ->
      0 < n <= Z.of_nat (length out) ->
      fd_step e fd V (v_set fd (mkConnBufs inc (drop (Z.to_nat n) out)) V).

(** The descriptors are served in ascending order. *)
Definition view_fds (V : View) : list Z := merge_sort Z.le (elements (dom (v_conns V))).

Inductive fds_step (env : Z -> FdEvents) : list Z -> View -> View -> Prop :=
  | fds_nil V : fds_step env [] V V
  | fds_cons fd fds V V1 V2 : fd_step (env fd) fd V V1 -> fds_step env fds V1 V2 -> fds_step env (fd :: fds) V V2.

(** A pass of the loop; a new connection is served from the next pass on. *)
Inductive view_pass : poll_event -> View -> View -> Prop :=
  | vp_intr V : view_pass PollIntr V V
  | vp_refused env V : view_pass (PollReady (Some None) env) V V
  | vp_serves env V V' : fds_step env (view_fds V) V V' -> view_pass (PollReady None env) V V'
  | vp_accepts fd env V V' : 0 <= fd -> v_conns V !! fd = None ->
      fds_step env (view_fds V) (v_set fd (mkConnBufs [] []) V) V' -> view_pass (PollReady (Some (Some fd)) env) V V'.

(** ** Representation *)

(** The timeout lists: a connection with bytes to send is in [write_list], and
    one without is in [read_list] or was never in it. *)
Record conn_links (R W : links) (rs ws : list loc) (c : loc) (cn : Conn) : Prop := mkConnLinks {
  cl_open : c_want_close cn = false;
  cl_here : c <> LIST /\ is_Some (R !! c) /\ is_Some (W !! c);
  cl_side : match outgoing (c_bufs cn) with
            | [] => c_want_write cn = false /\ c_want_read cn = true /\ (c ∉ ws) /\
                    ((c ∈ rs) \/ R !! c = Some (mkNode NULL NULL tt))
            | _ :: _ => c_want_write cn = true /\ (c ∈ ws) /\ (c ∉ rs)
            end
}.

Definition lists_ok (R W : links) (cs : gmap loc Conn) : Prop :=
  exists rs ws, ring R LIST rs /\ ring W LIST ws /\
    (forall c, c ∈ rs \/ c ∈ ws -> is_Some (cs !! c)) /\
    forall c cn, cs !! c = Some cn -> conn_links R W rs ws c cn.

Definition bufs_of (cs : gmap loc Conn) (B : gmap Z ConnBufs) : Prop :=
  forall fd b, B !! fd = Some b <-> exists c cn, cs !! c = Some cn /\ c_fd cn = fd /\ c_bufs cn = b.

Record session_ok (clock : nat -> Z) (s : Server) (V : View) : Prop := mkSessionOk {
  se_server : exists xs, server_ok clock s xs;
  se_lists : lists_ok (sv_links s READ) (sv_links s WRITE) (sv_conns s);
  se_bufs : bufs_of (sv_conns s) (v_conns V);
  se_map : kv_rep (sv_store s) (v_map V);
  se_heap : s_heap (sv_store s) = []
}.

(** ** Lemmas *)

(** *** The timeout lists *)

Lemma frame_some (h h' : links) ls c : Dlist.frame h h' ls -> is_Some (h' !! c) <-> is_Some (h !! c).
Proof. intros [_ H]. specialize (H c). destruct (h !! c), (h' !! c); try done; cbn in H; split; by intros []. Qed.

(** Connections whose nodes were not linked or unlinked. *)
Lemma others_links (R R' W W' : links) rs rs' ws ws' lr lw c d cn :
  Dlist.frame R R' lr -> Dlist.frame W W' lw -> (forall x, x ∈ lr -> x = c \/ x = LIST \/ x ∈ rs) ->
  (forall x, x <> c -> x ∈ rs' <-> x ∈ rs) -> (forall x, x <> c -> x ∈ ws' <-> x ∈ ws) ->
  d <> c -> conn_links R W rs ws d cn -> conn_links R' W' rs' ws' d cn.
Proof.
  intros FR FW Hlr Hrs Hws Hd [H1 (H2 & H3 & H4) H5]. split; [done| |].
  - by rewrite (frame_some _ _ _ _ FR), (frame_some _ _ _ _ FW).
  - destruct (outgoing (c_bufs cn)); [|by rewrite Hrs, Hws]. rewrite Hrs, Hws by done.
    destruct H5 as (E1 & E2 & Hw & Hr). split_and!; try done. destruct (decide (d ∈ rs)) as [|Hn]; [by left|right].
    destruct Hr as [|Hr]; [done|]. rewrite (proj1 FR); [done|]. intros [|[|]]%Hlr; done.
Qed.

Definition side (cn : Conn) : bool * bool * bool * bool :=
  (c_want_close cn, c_want_read cn, c_want_write cn, bool_decide (outgoing (c_bufs cn) = [])).

Lemma lists_same R W cs c cn cn' :
  lists_ok R W cs -> cs !! c = Some cn -> side cn' = side cn -> lists_ok R W (<[c := cn']> cs).
Proof.
  intros (rs & ws & HR & HW & Hin & Hall) Hc Hs. exists rs, ws. split_and!; try done.
  - intros d Hd. destruct (decide (d = c)) as [->|]; [by rewrite lookup_insert_eq|rewrite lookup_insert_ne by done; by apply Hin].
  - intros d cd [[<- <-]|[Hd Hcd]]%lookup_insert_Some; [|by apply Hall].
    destruct (Hall _ _ Hc) as [H1 H2 H3]. unfold side in Hs. injection Hs as E1 E2 E3 E4. split; [congruence|done|].
    rewrite E2, E3. destruct (outgoing (c_bufs cn)), (outgoing (c_bufs cn')); done.
Qed.

Lemma lists_open R W cs c cn : lists_ok R W cs -> cs !! c = Some cn -> c_want_close cn = false.
Proof. intros (rs & ws & _ & _ & _ & Hall) Hc. apply (cl_open _ _ _ _ _ _ (Hall _ _ Hc)). Qed.

Lemma ring_member (h : links) xs c : ring h LIST xs -> c ∈ xs -> exists h' xs', dlist_deatach h (Some c) = Ok h' /\
  ring h' LIST xs' /\ (forall d, d ∈ xs' <-> d ∈ xs /\ d <> c) /\ Dlist.frame h h' (LIST :: xs').
Proof.
  intros Hr (xs1 & xs2 & ->)%list_elem_of_split. destruct (ring_deatach _ _ _ _ _ Hr) as (h' & E & Hr' & F).
  exists h', (xs1 ++ xs2). split_and!; try done. intros d.
  destruct (nodup_middle _ _ _ _ (ring_nodup _ _ _ Hr)) as [Hc _]. rewrite !elem_of_app, elem_of_cons in *.
  split; [|naive_solver]. intros Hd. split; [tauto|]. intros ->. tauto.
Qed.

(** [read_timeout] is unlinked when it was linked. *)
Lemma read_unlinks (R : links) rs c :
  ring R LIST rs -> (c ∈ rs \/ R !! c = Some (mkNode NULL NULL tt)) ->
  exists R' rs', dlist_deatach R (Some c) = Ok R' /\ ring R' LIST rs' /\ (forall d, d ∈ rs' <-> d ∈ rs /\ d <> c) /\
    Dlist.frame R R' (LIST :: rs').
Proof.
  intros Hr Hc. destruct (decide (c ∈ rs)) as [|Hn]; [by apply ring_member|]. destruct Hc as [|Hc]; [done|].
  exists R, rs. split_and!; [unfold dlist_deatach; by rewrite (deref_some _ _ _ Hc)|done| |by split].
  intros d. split; [|tauto]. intros Hd. split; [done|]. by intros ->.
Qed.

(** A connection that gets bytes to send. *)
Lemma lists_to_write R W cs c cn cn' :
  lists_ok R W cs -> cs !! c = Some cn -> outgoing (c_bufs cn) = [] ->
  c_want_close cn' = false -> c_want_write cn' = true -> outgoing (c_bufs cn') <> [] ->
  exists R' W', dlist_deatach R (Some c) = Ok R' /\ dlist_insert_before W (Some LIST) (Some c) = Ok W' /\
    lists_ok R' W' (<[c := cn']> cs).
Proof.
  intros (rs & ws & HR & HW & Hin & Hall) Hc Ho Hcl Hww Hne. destruct (Hall _ _ Hc) as [_ (HL & Hr & [nd Hw]) Hside].
  rewrite Ho in Hside. destruct Hside as (_ & _ & Hnw & Hrs).
  destruct (read_unlinks R rs c HR Hrs) as (R' & rs' & ER & HR' & Hrs' & FR).
  destruct (ring_insert W LIST ws c nd HW) as (W' & EW & HW' & FW); [by rewrite not_elem_of_cons|done|].
  exists R', W'. split; [done|]. split; [done|]. exists rs', (ws ++ [c]). split_and!; try done.
  - intros d. rewrite Hrs', elem_of_app, list_elem_of_singleton. destruct (decide (d = c)) as [->|].
    + by rewrite lookup_insert_eq.
    + rewrite lookup_insert_ne by done. intros Hd. apply Hin. tauto.
  - intros d cd [[<- <-]|[Hd Hcd]]%lookup_insert_Some.
    + split; [done|by rewrite (frame_some _ _ _ _ FR), (frame_some _ _ _ _ FW), Hw|].
      destruct (outgoing (c_bufs cn')); [done|]. rewrite Hrs', elem_of_app, list_elem_of_singleton. tauto.
    + apply (others_links R R' W W' rs rs' ws (ws ++ [c]) _ _ c d cd FR FW); try done; try (by apply Hall).
      * intros x. rewrite elem_of_cons, Hrs'. tauto.
      * intros x Hx. rewrite Hrs'. tauto.
      * intros x Hx. rewrite elem_of_app, list_elem_of_singleton. tauto.
Qed.

(** A connection that has sent everything. *)
Lemma lists_to_read R W cs c cn cn' :
  lists_ok R W cs -> cs !! c = Some cn -> outgoing (c_bufs cn) <> [] ->
  c_want_close cn' = false -> c_want_write cn' = false -> c_want_read cn' = true -> outgoing (c_bufs cn') = [] ->
  exists R' W', dlist_deatach W (Some c) = Ok W' /\ dlist_insert_before R (Some LIST) (Some c) = Ok R' /\
    lists_ok R' W' (<[c := cn']> cs).
Proof.
  intros (rs & ws & HR & HW & Hin & Hall) Hc Ho Hcl Hww Hwr He. destruct (Hall _ _ Hc) as [_ (HL & [nd Hr] & Hw) Hside].
  assert (Hside' : c ∈ ws /\ c ∉ rs) by (by destruct (outgoing (c_bufs cn)); [|destruct Hside as (_ & ? & ?)]).
  destruct Hside' as [Hws Hnr]. clear Hside.
  destruct (ring_member W ws c HW Hws) as (W' & ws' & EW & HW' & Hws' & FW).
  destruct (ring_insert R LIST rs c nd HR) as (R' & ER & HR' & FR); [by rewrite not_elem_of_cons|done|].
  exists R', W'. split; [done|]. split; [done|]. exists (rs ++ [c]), ws'. split_and!; try done.
  - intros d. rewrite Hws', elem_of_app, list_elem_of_singleton. destruct (decide (d = c)) as [->|].
    + by rewrite lookup_insert_eq.
    + rewrite lookup_insert_ne by done. intros Hd. apply Hin. tauto.
  - intros d cd [[<- <-]|[Hd Hcd]]%lookup_insert_Some.
    + split; [done|by rewrite (frame_some _ _ _ _ FR), (frame_some _ _ _ _ FW), Hr|].
      rewrite He, Hws', elem_of_app, list_elem_of_singleton. tauto.
    + apply (others_links R R' W W' rs (rs ++ [c]) ws ws' _ _ c d cd FR FW); try done; try (by apply Hall).
      * intros x. rewrite !elem_of_cons. tauto.
      * intros x Hx. rewrite elem_of_app, list_elem_of_singleton. tauto.
      * intros x Hx. rewrite Hws'. tauto.
Qed.

(** A new connection. *)
Lemma lists_accept (R W : links) cs c cn :
  lists_ok R W cs -> cs !! c = None -> c <> LIST -> side cn = (false, true, false, true) ->
  lists_ok (<[c := mkNode NULL NULL tt]> R) (<[c := mkNode NULL NULL tt]> W) (<[c := cn]> cs).
Proof.
  intros (rs & ws & HR & HW & Hin & Hall) Hc HL Hs.
  assert (Hnr : c ∉ rs) by (intros Hd; destruct (Hin c ltac:(by left)); congruence).
  assert (Hnw : c ∉ ws) by (intros Hd; destruct (Hin c ltac:(by right)); congruence).
  assert (Hring : forall (h : links) xs, ring h LIST xs -> (c ∉ xs) -> ring (<[c := mkNode NULL NULL tt]> h) LIST xs).
  { intros h xs [Hnd Hseg] Hx. split; [done|]. eapply seg_ext; [|exact Hseg]. intros y Hy.
    rewrite lookup_insert_ne; [done|]. intros <-. apply elem_of_cons in Hy as [|]; done. }
  exists rs, ws. split_and!; [by apply Hring|by apply Hring| |].
  - intros d Hd. destruct (decide (d = c)) as [->|]; [by rewrite lookup_insert_eq|rewrite lookup_insert_ne by done; by apply Hin].
  - intros d cd [[<- <-]|[Hd Hcd]]%lookup_insert_Some.
    + unfold side in Hs. injection Hs as E1 E2 E3 E4. split; rewrite ?lookup_insert_eq; try done.
      apply bool_decide_eq_true in E4. rewrite E4. auto.
    + destruct (Hall _ _ Hcd) as [H1 H2 H3]. split; rewrite ?lookup_insert_ne; done.
Qed.

(** *** The handlers *)

Section handlers.
Variables (logl : QArith_base.Q -> QArith_base.Q) (clock : nat -> Z).

Lemma conn_eq c s cn : sv_conns s !! c = Some cn -> conn c s = Ok (cn, s).
Proof. intros H. unfold conn. erewrite srv_step by reflexivity. apply run_eq. by apply deref_some. Qed.

Lemma set_conn_eq c f s cn : sv_conns s !! c = Some cn -> set_conn c f s = Ok (tt, set_conns (<[c := f cn]> (sv_conns s)) s).
Proof.
  intros H. unfold set_conn. erewrite srv_step by reflexivity.
  by erewrite srv_step by (apply run_eq; by apply update_some).
Qed.

Lemma insert_last_eq t c s h :
  dlist_insert_before (sv_links s t) (Some LIST) (Some c) = Ok h -> insert_last t c s = Ok (tt, set_links t h s).
Proof. intros H. unfold insert_last. erewrite srv_step by reflexivity. by erewrite srv_step by (apply run_eq; exact H). Qed.

(** The interpreter that reads the clock, with no deadlines. *)
Definition kv_tick (x : Store * nat) (D : gmap (list Z) (list Z)) : Prop := kv_rep (fst x) D /\ s_heap (fst x) = [].

Lemma tick_answers x D c query ds out :
  kv_tick x D -> kv_ok c -> Z.of_nat (size D) + 1 < 2 ^ 60 -> kv_request c query ->
  Forall2 dstr_rep ds query -> Z.of_nat (length out) < 2 ^ 32 ->
  exists x', answer (serve_tick logl clock) out ds x = Ok (out ++ reply_frame (fst (kv_step c D)), x') /\
    kv_tick x' (snd (kv_step c D)).
Proof.
  destruct x as [st n]. intros [Hrep Hh] Hok Hsz Hq Hds Hout.
  destruct (kv_answers logl (clock n) st D c query ds out Hrep Hok Hsz Hq Hds Hout) as (st' & E & Hrep' & Hh').
  exists (st', S n). split; [|split; [done|cbn; by rewrite Hh']]. unfold answer, serve_tick in *. cbn [fst snd] in *.
  destruct (before_res_build out) as [o hp]. destruct (serve_cmd _ _ _ _ _) as [[o1 s1]|]; [|done].
  cbn [mbind result_bind] in *. destruct (after_res_build o1 hp); cbn [mbind result_bind] in *; by simplify_eq.
Qed.

Lemma kv_requests_ok cs queries : Forall kv_ok cs -> Forall2 kv_request cs queries -> Forall request_ok queries.
Proof.
  intros Hok H. induction H as [|c q cs qs Hq _ IH]; [constructor|].
  apply Forall_cons in Hok as [Hc Hok]. constructor; [by eapply kv_request_ok|by apply IH].
Qed.

(** One [read]: the requests it completes, and the rest. *)
Lemma read_kv p data queries cs rest x D :
  kv_tick x D -> p ++ data = concat (request_frame <$> queries) ++ rest -> cut_short rest ->
  Forall kv_ok cs -> Forall2 kv_request cs queries -> Z.of_nat (size D) + Z.of_nat (length cs) < 2 ^ 60 ->
  Z.of_nat (length (concat (reply_frame <$> fst (kv_run cs D)))) < 2 ^ 32 ->
  exists x', handle_read_data (serve_tick logl clock) (mkConnBufs p []) data x
      = Ok (mkConnBufs rest (concat (reply_frame <$> fst (kv_run cs D))), x') /\ kv_tick x' (snd (kv_run cs D)).
Proof.
  intros Hx Hp (q & query & Hqok & Hpq & Hq) Hok Hreq Hsz Hout. pose proof (kv_requests_ok _ _ Hok Hreq) as Hall.
  destruct (commands_exist queries Hall) as (dss & Hd & HF).
  destruct (kv_serve _ kv_tick tick_answers cs queries dss x D [] Hx Hok Hreq HF Hsz Hout) as (x' & E & Hx').
  exists x'. split; [|done]. unfold handle_read_data. cbn [incoming outgoing]. rewrite buf_append_all, Hp.
  rewrite (drain_frames _ queries dss rest q query) by (done || lia). by rewrite E.
Qed.

(** What a handler leaves: the connection [c] with other buffers, the lists
    in order, and the map [D]. *)
Definition moved (c : loc) (cn : Conn) (b : ConnBufs) (D : gmap (list Z) (list Z)) (s s' : Server) : Prop :=
  (exists cn', sv_conns s' = <[c := cn']> (sv_conns s) /\ c_fd cn' = c_fd cn /\ c_bufs cn' = b) /\
  lists_ok (sv_links s' READ) (sv_links s' WRITE) (sv_conns s') /\ kv_tick (sv_store s', 0%nat) D.

Lemma handle_read_moves c cn p data queries cs rest s D :
  lists_ok (sv_links s READ) (sv_links s WRITE) (sv_conns s) -> kv_tick (sv_store s, 0%nat) D ->
  sv_conns s !! c = Some cn -> c_bufs cn = mkConnBufs p [] ->
  p ++ data = concat (request_frame <$> queries) ++ rest -> cut_short rest ->
  Forall kv_ok cs -> Forall2 kv_request cs queries -> Z.of_nat (size D) + Z.of_nat (length cs) < 2 ^ 60 ->
  Z.of_nat (length (concat (reply_frame <$> fst (kv_run cs D)))) < 2 ^ 32 ->
  exists s', handle_read logl clock c (RdData data) s = Ok (tt, s') /\
    moved c cn (mkConnBufs rest (concat (reply_frame <$> fst (kv_run cs D)))) (snd (kv_run cs D)) s s'.
Proof.
  intros Hl Hk Hc Hb Hp Hrest Hok Hreq Hsz Hout. set (out := concat (reply_frame <$> _)) in *.
  destruct (read_kv p data queries cs rest (sv_store s, sv_ticks s) D) as ([st' n'] & E & Hk'); [done..|]. fold out in E.
  cbn [handle_read]. erewrite srv_step by (by apply conn_eq). erewrite srv_step by reflexivity.
  erewrite srv_step by (apply run_eq; rewrite Hb; exact E). cbn beta iota. erewrite srv_step by reflexivity.
  erewrite srv_step by (apply set_conn_eq; exact Hc). erewrite srv_step by reflexivity.
  erewrite srv_step by (apply set_conn_eq, lookup_insert_eq).
  erewrite srv_step by (apply conn_eq, lookup_insert_eq).
  cbn [with_read_ms with_bufs c_bufs outgoing set_ticks set_conns set_store sv_conns]. rewrite insert_insert_eq.
  destruct (Nat.ltb_spec 0 (length out)) as [Hlt|Hle].
  - destruct (lists_to_write _ _ _ _ _ (with_write_ms (clock (S n')) (with_wants false true
      (with_read_ms (clock n') (with_bufs (mkConnBufs rest out) cn)))) Hl Hc) as (R' & W' & ER & EW & Hl');
      [by rewrite Hb|cbn; by eapply lists_open|done|cbn; intros Ho; rewrite Ho in Hlt; cbn in Hlt; lia|].
    erewrite srv_step by (apply set_conn_eq, lookup_insert_eq). erewrite srv_step by (apply detach_eq; exact ER).
    erewrite srv_step by (apply insert_last_eq; exact EW). erewrite srv_step by reflexivity.
    cbn [set_conns set_links set_ticks set_store sv_conns].  rewrite insert_insert_eq.
    erewrite set_conn_eq by apply lookup_insert_eq. eexists. split; [done|].
    cbn [set_conns set_links set_ticks set_store sv_conns]. rewrite insert_insert_eq.
    split; [by eexists|]. split; [exact Hl'|exact Hk'].
  - eexists. split; [done|]. split; [by eexists|]. split; [|exact Hk'].
    eapply lists_same; [exact Hl|exact Hc|]. unfold side. cbn. rewrite Hb. by destruct out; [|cbn in Hle; lia].
Qed.

Lemma handle_write_moves c cn inc out n s D :
  lists_ok (sv_links s READ) (sv_links s WRITE) (sv_conns s) -> kv_tick (sv_store s, 0%nat) D ->
  sv_conns s !! c = Some cn -> c_bufs cn = mkConnBufs inc out -> 0 < n <= Z.of_nat (length out) ->
  exists s', handle_write clock c (Wrote n) s = Ok (tt, s') /\ moved c cn (mkConnBufs inc (drop (Z.to_nat n) out)) D s s'.
Proof.
  intros Hl Hk Hc Hb Hn. set (rest := drop (Z.to_nat n) out).
  assert (Hout : out <> []) by (intros ->; cbn in Hn; lia).
  cbn [handle_write]. erewrite srv_step by (by apply conn_eq). rewrite Hb. cbn [incoming outgoing].
  erewrite srv_step by (apply run_eq; unfold buf_consume; zbool; reflexivity).
  erewrite srv_step by (apply set_conn_eq; exact Hc). erewrite srv_step by reflexivity.
  erewrite srv_step by (apply set_conn_eq, lookup_insert_eq). fold rest.
  cbn [set_ticks set_conns sv_conns]. rewrite insert_insert_eq.
  destruct (Nat.eqb_spec (length rest) 0) as [He|Hne].
  - apply nil_length_inv in He. rewrite He.
    destruct (lists_to_read _ _ _ _ _ (with_read_ms (clock (S (sv_ticks s))) (with_wants true false
      (with_write_ms (clock (sv_ticks s)) (with_bufs (mkConnBufs inc []) cn)))) Hl Hc) as (R' & W' & EW & ER & Hl');
      [by rewrite Hb|cbn; by eapply lists_open|done..|].
    erewrite srv_step by (apply set_conn_eq, lookup_insert_eq). erewrite srv_step by (apply detach_eq; exact EW).
    erewrite srv_step by (apply insert_last_eq; exact ER). erewrite srv_step by reflexivity.
    cbn [set_conns set_links set_ticks sv_conns]. rewrite insert_insert_eq.
    erewrite set_conn_eq by apply lookup_insert_eq. eexists. split; [done|].
    cbn [set_conns set_links set_ticks sv_conns]. rewrite insert_insert_eq.
    split; [by eexists|]. split; [exact Hl'|exact Hk].
  - eexists. split; [done|]. split; [by eexists|]. split; [|exact Hk].
    eapply lists_same; [exact Hl|exact Hc|]. unfold side. cbn. rewrite Hb. cbn.
    rewrite !bool_decide_false; [done|done|]. intros E. by rewrite E in Hne.
Qed.

(** A ready connection moves to the end of the idle list. *)
Lemma touch_links s xs c cn :
  server_ok clock s xs -> sv_conns s !! c = Some cn ->
  exists h1 h2, dlist_deatach (sv_links s IDLE) (Some c) = Ok h1 /\ dlist_insert_before h1 (Some LIST) (Some c) = Ok h2.
Proof.
  intros Hok Hc. destruct (member_split clock s xs c cn Hok Hc) as (xs1 & xs2 & ->). pose proof (so_ring _ _ _ Hok) as Hr.
  destruct (nodup_middle _ _ _ _ (ring_nodup _ _ _ Hr)) as [Hn HL].
  destruct (ring_deatach _ _ _ _ _ Hr) as (h1 & E1 & Hr1 & F1).
  assert (is_Some (h1 !! c)) as [nd Hnd].
  { rewrite (frame_some _ _ _ _ F1). destruct Hr as [_ Hs].
    destruct (seg_lookup _ _ (LIST :: xs1 ++ c :: xs2) _ c ltac:(set_solver) Hs) as [nd Hnd]. by eexists. }
  destruct (ring_insert h1 LIST (xs1 ++ xs2) c nd Hr1) as (h2 & E2 & _); [by rewrite not_elem_of_cons|done|].
  by exists h1, h2.
Qed.

Lemma bufs_update cs B c cn cn' :
  bufs_of cs B -> cs !! c = Some cn -> c_fd cn' = c_fd cn ->
  (forall d cd, cs !! d = Some cd -> c_fd cd = c_fd cn -> d = c) ->
  bufs_of (<[c := cn']> cs) (<[c_fd cn := c_bufs cn']> B).
Proof.
  unfold bufs_of. intros HB Hc Hfd Hinj fd b. rewrite lookup_insert_Some, HB. split.
  - intros [[<- <-]|[Hne (d & cd & Hd & <- & <-)]]; [exists c, cn'; by rewrite lookup_insert_eq|].
    exists d, cd. rewrite lookup_insert_ne; [done|]. intros <-. congruence.
  - intros (d & cd & [[<- <-]|[Hne Hd]]%lookup_insert_Some & <- & <-); [by left|right].
    split; [|by exists d, cd]. intros E. apply Hne. symmetry. by eapply Hinj.
Qed.

Lemma server_fd_inj s xs c cn d cd :
  server_ok clock s xs -> sv_conns s !! c = Some cn -> sv_conns s !! d = Some cd -> c_fd cd = c_fd cn -> d = c.
Proof.
  intros Hok Hc Hd E. destruct (so_fd _ _ _ Hok _ _ Hc) as [_ H1]. destruct (so_fd _ _ _ Hok _ _ Hd) as [_ H2].
  rewrite E, H1 in H2. by injection H2.
Qed.

(** A descriptor with one event, up to its handler. *)
Definition handler (c : loc) (e : FdEvents) : srvM unit :=
  if decide (fe_revents e = POLLIN) then handle_read logl clock c (fe_read e) else handle_write clock c (fe_write e).

Lemma serve_fd_ready env s xs c cn :
  server_ok clock s xs -> sv_conns s !! c = Some cn ->
  fe_revents (env (c_fd cn)) = POLLIN \/ fe_revents (env (c_fd cn)) = POLLOUT ->
  exists s1, sv_conns s1 = <[c := with_active (clock (sv_ticks s)) cn]> (sv_conns s) /\
    sv_links s1 READ = sv_links s READ /\ sv_links s1 WRITE = sv_links s WRITE /\ sv_store s1 = sv_store s /\
    sv_closed s1 = sv_closed s /\ sv_ticks s1 = S (sv_ticks s) /\
    forall s', handler c (env (c_fd cn)) s1 = Ok (tt, s') -> serve_fd logl clock env (c_fd cn) s = Ok (tt, s').
Proof.
  intros Hok Hc Hev. destruct (so_fd _ _ _ Hok _ _ Hc) as [Hfd Hslot].
  set (s0 := set_ticks (S (sv_ticks s)) s).
  destruct (touch_links s xs c cn Hok Hc) as (h1 & h2 & E1 & E2).
  exists (set_links IDLE h2 (set_links IDLE h1 (set_conns (<[c := with_active (clock (sv_ticks s)) cn]> (sv_conns s)) s0))).
  split_and!; try done. intros s' E. unfold serve_fd, handler in *.
  assert (Hs : fd_slot (c_fd cn) s = Ok (Some c, s)).
  { unfold fd_slot. erewrite srv_step by reflexivity. apply run_eq. zbool. by rewrite Hslot. }
  destruct Hev as [He|He]; rewrite He in *.
  - change (u8 POLLIN =? 0) with false. change (Z.land (u8 POLLIN) POLLIN =? 0) with false.
    change (Z.land (u8 POLLIN) POLLOUT =? 0) with true. change (Z.land (u8 POLLIN) POLLERR =? 0) with true. cbn [negb].
    erewrite srv_step by exact Hs. erewrite srv_step by reflexivity. erewrite srv_step by reflexivity.
    erewrite srv_step by (apply set_conn_eq; exact Hc). erewrite srv_step by (apply detach_eq; exact E1).
    erewrite srv_step by (apply insert_last_eq; exact E2). erewrite srv_step by exact E. done.
  - change (u8 POLLOUT =? 0) with false. change (Z.land (u8 POLLOUT) POLLIN =? 0) with true.
    change (Z.land (u8 POLLOUT) POLLOUT =? 0) with false. change (Z.land (u8 POLLOUT) POLLERR =? 0) with true. cbn [negb].
    erewrite srv_step by exact Hs. erewrite srv_step by reflexivity. erewrite srv_step by reflexivity.
    erewrite srv_step by (apply set_conn_eq; exact Hc). erewrite srv_step by (apply detach_eq; exact E1).
    erewrite srv_step by (apply insert_last_eq; exact E2). erewrite srv_step by reflexivity. erewrite srv_step by exact E. done.
Qed.
End handlers.

(** *** The event loop *)

Section event_loop.
Variables (logl : QArith_base.Q -> QArith_base.Q) (clock : nat -> Z).
Hypothesis clock_mono : forall n m, (n <= m)%nat -> clock n <= clock m.
Hypothesis clock_range : forall n, 0 <= clock n < 2 ^ 63.

Lemma view_conn s V fd b :
  session_ok clock s V -> v_conns V !! fd = Some b ->
  exists c cn, sv_conns s !! c = Some cn /\ c_fd cn = fd /\ c_bufs cn = b.
Proof. intros [_ _ HB _ _] H. by apply HB. Qed.

(** From a handler that moves its connection to a state of the session. *)
Lemma moved_session s V c cn cn1 env s1 s' b D :
  session_ok clock s V -> sv_conns s !! c = Some cn -> c_fd cn1 = c_fd cn ->
  sv_conns s1 = <[c := cn1]> (sv_conns s) -> serve_fd logl clock env (c_fd cn) s = Ok (tt, s') -> moved c cn1 b D s1 s' ->
  session_ok clock s' (mkView D (<[c_fd cn := b]> (v_conns V))).
Proof.
  intros [[xs Hok] Hl HB Hm Hh] Hc Hfd Hs1 E [(cn' & Hcs & Hfd' & <-) [Hl' [Hm' Hh']]].
  assert (Hcs' : sv_conns s' = <[c := cn']> (sv_conns s)) by (by rewrite Hcs, Hs1, insert_insert_eq).
  split; try done.
  - by eapply serve_fd_ok.
  - cbn [v_conns]. rewrite Hcs'. apply bufs_update; [done|done|congruence|].
    intros d cd Hd Ed. by eapply (server_fd_inj clock s xs c cn d cd).
Qed.

(** One turn of the loop over the descriptors. *)
Lemma serve_fd_session s V env fd V' :
  session_ok clock s V -> is_Some (v_conns V !! fd) -> fd_step (env fd) fd V V' ->
  exists s', serve_fd logl clock env fd s = Ok (tt, s') /\ session_ok clock s' V'.
Proof.
  intros Hs [b Hb] Hst. destruct (view_conn s V fd b Hs Hb) as (c & cn & Hc & <- & <-).
  pose proof Hs as [[xs Hok] Hl _ Hm Hh].
  assert (Hgo : forall b' D', (fe_revents (env (c_fd cn)) = POLLIN \/ fe_revents (env (c_fd cn)) = POLLOUT) ->
    (forall s1 cn1, lists_ok (sv_links s1 READ) (sv_links s1 WRITE) (sv_conns s1) -> kv_tick (sv_store s1, 0%nat) (v_map V) ->
      sv_conns s1 !! c = Some cn1 -> c_bufs cn1 = c_bufs cn ->
      exists s', handler logl clock c (env (c_fd cn)) s1 = Ok (tt, s') /\ moved c cn1 b' D' s1 s') ->
    exists s', serve_fd logl clock env (c_fd cn) s = Ok (tt, s') /\
      session_ok clock s' (mkView D' (<[c_fd cn := b']> (v_conns V)))).
  { intros b' D' Hev Hh'. destruct (serve_fd_ready logl clock env s xs c cn Hok Hc Hev) as (s1 & Hc1 & HR & HW & Hst1 & _ & _ & Hrun).
    destruct (Hh' s1 (with_active (clock (sv_ticks s)) cn)) as (s' & E & Hmv).
    - rewrite HR, HW, Hc1. by eapply lists_same.
    - rewrite Hst1. by split.
    - rewrite Hc1. apply lookup_insert_eq.
    - done.
    - apply Hrun in E. exists s'. split; [done|]. apply (moved_session s V c cn (with_active (clock (sv_ticks s)) cn) env s1 s' b' D' Hs Hc); done. }
  unfold handler in Hgo. destruct Hst as [Hq|Ha|p data queries cs rest Hrev Hrd Hfd Hp Hcut Hok' Hreq Hsz Hout|inc out n Hrev Hwr Hfd Hn].
  - exists s. split; [|done]. unfold serve_fd. by rewrite Hq.
  - destruct (Hgo (c_bufs cn) (v_map V)) as (s' & E & Hs'); [tauto| |exists s'; split; [done|]; rewrite insert_id in Hs' by done; by destruct V].
    intros s1 cn1 Hl1 Hk1 Hc1 Hb1. exists s1.
    destruct Ha as [[-> ->]|[-> ->]]; cbn; (split; [done|]); (split; [exists cn1; by rewrite insert_id|by split]).
  - rewrite Hb in Hfd. injection Hfd as Hfd. apply Hgo; [by left|]. intros s1 cn1 Hl1 Hk1 Hc1 Hb1.
    rewrite decide_True, Hrd by done. apply (handle_read_moves logl clock c cn1 p data queries cs rest); try done. congruence.
  - rewrite Hb in Hfd. injection Hfd as Hfd. apply Hgo; [by right|]. intros s1 cn1 Hl1 Hk1 Hc1 Hb1.
    rewrite Hrev, Hwr. cbn. apply handle_write_moves; try done. congruence.
Qed.

Lemma fd_step_dom e fd V V' : is_Some (v_conns V !! fd) -> fd_step e fd V V' -> dom (v_conns V') = dom (v_conns V).
Proof.
  intros [b Hb] H. destruct H; cbn [v_set v_conns]; try done; apply dom_insert_lookup_L; by eexists.
Qed.

Lemma serve_fds_session s V env fds V' :
  session_ok clock s V -> (forall fd, fd ∈ fds -> is_Some (v_conns V !! fd)) -> fds_step env fds V V' ->
  exists s', serve_fds logl clock env fds s = Ok (tt, s') /\ session_ok clock s' V'.
Proof.
  intros Hs Hin H. revert s Hs Hin. induction H as [V|fd fds V V1 V2 H1 _ IH]; intros s Hs Hin; [by exists s|].
  destruct (serve_fd_session s V env fd V1 Hs) as (s1 & E1 & Hs1); [apply Hin, list_elem_of_here|done|].
  destruct (IH s1 Hs1) as (s2 & E2 & Hs2).
  - intros fd' Hfd'. apply elem_of_dom. erewrite fd_step_dom; [|apply Hin, list_elem_of_here|done].
    apply elem_of_dom, Hin. by apply list_elem_of_further.
  - exists s2. split; [|done]. cbn [serve_fds]. by erewrite srv_step by exact E1.
Qed.

(** [poll_args] lists the descriptors of the view in ascending order. *)
Lemma poll_fds_sorted s ps i :
  (forall j c, ps !! j = Some (Some c) -> exists cn, sv_conns s !! c = Some cn /\ c_fd cn = Z.of_nat (i + j)) ->
  exists fds, poll_fds ps s = Ok (fds, s) /\ StronglySorted Z.le fds /\ NoDup fds /\
    forall fd, fd ∈ fds <-> exists j c, ps !! j = Some (Some c) /\ fd = Z.of_nat (i + j).
Proof.
  revert i. induction ps as [|p ps IH]; intros i Hps.
  - exists []. split_and!; [done|constructor|constructor|]. intros fd. rewrite elem_of_nil. split; [done|].
    intros (j & c & Hj & _). by rewrite lookup_nil in Hj.
  - destruct (IH (S i)) as (fds & E & Hsort & Hnd & Hin).
    { intros j c Hj. destruct (Hps (S j) c Hj) as (cn & Hcn & Hfd). exists cn. split; [done|]. lia. }
    assert (Hgt : forall fd, fd ∈ fds -> Z.of_nat i < fd) by (intros fd (j & c & _ & ->)%Hin; lia).
    destruct p as [c|]; cbn [poll_fds].
    + destruct (Hps 0%nat c eq_refl) as (cn & Hcn & Hfd). rewrite Nat.add_0_r in Hfd.
      exists (Z.of_nat i :: fds). erewrite srv_step by (by apply conn_eq). erewrite srv_step by exact E. rewrite Hfd.
      split_and!; [done| | |].
      * constructor; [done|]. apply Forall_forall. intros fd Hfd'. apply Hgt in Hfd'. lia.
      * constructor; [|done]. intros Hi%Hgt. lia.
      * intros fd. rewrite elem_of_cons, Hin. split.
        -- intros [->|(j & d & Hj & ->)]; [exists 0%nat, c; split; [done|lia]|exists (S j), d; split; [done|lia]].
        -- intros ([|j] & d & Hj & ->); [left; lia|right; exists j, d; split; [done|lia]].
    + exists fds. split_and!; try done. intros fd. rewrite Hin. split.
      * intros (j & d & Hj & ->). exists (S j), d. split; [done|lia].
      * intros ([|j] & d & Hj & ->); [done|exists j, d; split; [done|lia]].
Qed.

Lemma poll_view s V : session_ok clock s V -> poll_fds (sv_fd_to_conn s) s = Ok (view_fds V, s).
Proof.
  intros [[xs Hok] _ HB _ _]. destruct (poll_fds_sorted s (sv_fd_to_conn s) 0) as (fds & E & Hsort & Hnd & Hin).
  { intros j c Hj. destruct (so_slot _ _ _ Hok _ _ Hj) as (cn & Hcn & Hfd). by exists cn. }
  rewrite E. do 2 f_equal. apply (StronglySorted_unique Z.le); [done|apply StronglySorted_merge_sort; apply _|].
  unfold view_fds. rewrite merge_sort_Permutation. apply NoDup_Permutation; [done|apply NoDup_elements|].
  intros fd. rewrite Hin, elem_of_elements, elem_of_dom. split.
  - intros (j & c & Hj & ->). destruct (so_slot _ _ _ Hok _ _ Hj) as (cn & Hcn & Hfd). exists (c_bufs cn). apply HB.
    by exists c, cn.
  - intros [b (c & cn & Hcn & <- & _)%HB]. destruct (so_fd _ _ _ Hok _ _ Hcn) as [H0 Hs].
    exists (Z.to_nat (c_fd cn)), c. split; [done|lia].
Qed.

Lemma session_ticks s V n : session_ok clock s V -> (sv_ticks s <= n)%nat -> session_ok clock (set_ticks n s) V.
Proof. intros [[xs Hok] H2 H3 H4 H5] Hn. split; try done. exists xs. eapply calm_ok; [done|exact Hok|]. by split. Qed.

Lemma next_timer_session s V : session_ok clock s V ->
  exists v s', next_timer_ms clock s = Ok (v, s') /\ session_ok clock s' V /\
    sv_fd_to_conn s' = sv_fd_to_conn s /\ sv_conns s' = sv_conns s.
Proof.
  intros Hs. pose proof Hs as [[xs Hok] _ _ _ _]. unfold next_timer_ms. erewrite srv_step by (by eapply idle_front).
  destruct xs as [|c xs]; cbn [first]; [by eexists _, s|].
  destruct (proj1 (so_live _ _ _ Hok c)) as [cn Hcn]; [apply list_elem_of_here|].
  erewrite srv_step by reflexivity. erewrite srv_step by (apply conn_eq; exact Hcn). erewrite srv_step by reflexivity.
  eexists _, _. split; [reflexivity|]. split; [|done]. apply session_ticks; [done|lia].
Qed.

(** A new connection. *)
Lemma accept_links s xs :
  server_ok clock s xs -> exists h,
    dlist_insert_before (<[sv_fresh s := mkNode NULL NULL tt]> (sv_links s IDLE)) (Some LIST) (Some (sv_fresh s)) = Ok h.
Proof.
  intros Hok. pose proof Hok as [O1 O2 O3 O4 _ _ _ _]. set (c := sv_fresh s) in *.
  assert (Hcx : c ∉ LIST :: xs).
  { rewrite not_elem_of_cons. split; [intros E; rewrite <- E in O4; lia|]. intros Hx%O2%O3. lia. }
  destruct (ring_insert (<[c := mkNode NULL NULL tt]> (sv_links s IDLE)) LIST xs c (mkNode NULL NULL tt)) as (h & Eh & _).
  - destruct O1 as [Hnd Hs]. split; [done|]. eapply seg_ext; [|exact Hs]. intros y Hy.
    rewrite lookup_insert_ne; [done|]. by intros ->.
  - done.
  - apply lookup_insert_eq.
  - by exists h.
Qed.

Lemma register_runs c cn s : sv_conns s !! c = Some cn -> 0 <= c_fd cn -> exists s', register c s = Ok (tt, s').
Proof.
  intros Hc Hfd. unfold register. erewrite srv_step by (by apply conn_eq). erewrite srv_step by reflexivity.
  destruct (Z.leb_spec (Z.of_nat (length (sv_fd_to_conn s))) (c_fd cn)) as [Hle|Hlt].
  - erewrite srv_step by reflexivity. unfold set_fd_slot, fd_slot.
    destruct (lookup_lt_is_Some_2 (sv_fd_to_conn s ++ replicate (Z.to_nat (c_fd cn + 1) - length (sv_fd_to_conn s)) NULL)
      (Z.to_nat (c_fd cn))) as [p Hp]; [rewrite length_app, length_replicate; lia|].
    rewrite (srv_step _ _ _ p (set_fd_to_conn (sv_fd_to_conn s ++ replicate (Z.to_nat (c_fd cn + 1) - length (sv_fd_to_conn s)) NULL) s));
      [by eexists|]. erewrite srv_step by reflexivity. apply run_eq. zbool. cbn [set_fd_to_conn sv_fd_to_conn]. by rewrite Hp.
  - erewrite srv_step by reflexivity. unfold set_fd_slot, fd_slot.
    destruct (lookup_lt_is_Some_2 (sv_fd_to_conn s) (Z.to_nat (c_fd cn))) as [p Hp]; [lia|].
    rewrite (srv_step _ _ _ p s); [by eexists|]. erewrite srv_step by reflexivity. apply run_eq. zbool. by rewrite Hp.
Qed.

Lemma accept_session s V fd :
  session_ok clock s V -> 0 <= fd -> v_conns V !! fd = None ->
  exists c s1 s2, handle_accept clock (Some fd) s = Ok (Some c, s1) /\ register c s1 = Ok (tt, s2) /\
    session_ok clock s2 (v_set fd (mkConnBufs [] []) V).
Proof.
  intros [[xs Hok] Hl HB Hm Hh] Hfd Hnew. destruct (accept_links s xs Hok) as [h Eh].
  assert (Ha : accept_ok s fd).
  { split; [done|]. intros c cn Hc <-. apply (eq_None_not_Some (v_conns V !! c_fd cn)); [done|].
    exists (c_bufs cn). apply HB. by exists c, cn. }
  set (c := sv_fresh s) in *. set (cn := mkConn fd true false false (mkConnBufs [] []) (clock (sv_ticks s))
    (clock (S (sv_ticks s))) (clock (S (S (sv_ticks s))))).
  set (s1 := set_links IDLE h (mkServer (sv_store s) (<[c := cn]> (sv_conns s)) (fun t => <[c := mkNode NULL NULL tt]> (sv_links s t))
    (sv_fd_to_conn s) (sv_closed s) (S (S (S (sv_ticks s)))) (Pos.succ c))).
  assert (E1 : handle_accept clock (Some fd) s = Ok (Some c, s1)).
  { cbn [handle_accept]. do 5 (erewrite srv_step by reflexivity). by erewrite srv_step by (apply insert_last_eq; exact Eh). }
  destruct (register_runs c cn s1) as [s2 E2]; [apply lookup_insert_eq|done|].
  destruct (handle_accept_ok clock s xs fd _ _ _ eq_refl Hok E1) as (_ & Hnone & _). fold c in Hnone.
  pose proof (register_eq _ _ _ _ cn E2 ltac:(apply lookup_insert_eq) Hfd) as Es2.
  exists c, s1, s2. split; [done|]. split; [done|]. split; try (rewrite Es2; done).
  - by eapply accept_register_ok.
  - rewrite Es2. apply lists_accept; [done|done| |done]. pose proof (so_list _ _ _ Hok). unfold c. lia.
  - rewrite Es2. cbn [set_fd_to_conn sv_conns s1 set_links v_set v_conns]. intros fd' b.
    rewrite lookup_insert_Some. split.
    + intros [[<- <-]|[Hne (d & cd & Hd & <- & <-)%HB]]; [exists c, cn; by rewrite lookup_insert_eq|].
      exists d, cd. rewrite lookup_insert_ne; [done|]. intros <-. congruence.
    + intros (d & cd & [[<- <-]|[Hne Hd]]%lookup_insert_Some & <- & <-); [by left|right].
      split; [intros E; by apply (proj2 Ha d cd)|]. apply HB. by exists d, cd.
Qed.

(** No connection is past a timeout that it waits for. *)
Definition armed (t : timer) (cn : Conn) : bool :=
  match t with IDLE => true | READ => c_want_read cn | WRITE => c_want_write cn end.

Definition in_time (s : Server) : bool :=
  forallb (fun x => forallb (fun t => implb (armed t (snd x)) (clock (sv_ticks s) <=? timeout_ms t (snd x))) [IDLE; READ; WRITE])
    (map_to_list (sv_conns s)).

Lemma in_time_conn s t c cn :
  in_time s = true -> sv_conns s !! c = Some cn -> armed t cn = true -> clock (sv_ticks s) <= timeout_ms t cn.
Proof.
  intros H Hc Ha. unfold in_time in H. rewrite forallb_forall in H.
  specialize (H (c, cn)). rewrite forallb_forall in H. apply Z.leb_le. cbn [snd] in H.
  specialize (H ltac:(by apply list_elem_of_In, elem_of_map_to_list) t). rewrite Ha in H. apply H.
  destruct t; cbn; tauto.
Qed.

(** A timeout list none of whose connections is past its timeout. *)
Lemma close_none t ms s ys :
  ring (sv_links s t) LIST ys -> (forall c, c ∈ ys -> exists cn, sv_conns s !! c = Some cn /\ ms <= timeout_ms t cn) ->
  close_expired t ms s = Ok (tt, s).
Proof.
  intros Hr Hys. unfold close_expired. erewrite srv_step by reflexivity. destruct ys as [|c ys].
  - destruct (size _); cbn [timeout_loop]; by erewrite srv_step by (by eapply ring_front).
  - destruct (Hys c) as (cn & Hcn & Hle); [apply list_elem_of_here|].
    destruct (size _); cbn [timeout_loop]; (erewrite srv_step by (by eapply ring_front)); cbn [first];
      (erewrite srv_step by (apply conn_eq; exact Hcn)); by zbool.
Qed.

(** The timers when nothing is due. *)
Lemma timers_idle s s1 xs rs ws :
  s1 = set_ticks (S (sv_ticks s)) s -> s_heap (sv_store s) = [] ->
  ring (sv_links s IDLE) LIST xs -> ring (sv_links s READ) LIST rs -> ring (sv_links s WRITE) LIST ws ->
  (forall t c, c ∈ match t with IDLE => xs | READ => rs | WRITE => ws end ->
    exists cn, sv_conns s !! c = Some cn /\ clock (sv_ticks s) <= timeout_ms t cn) ->
  process_timers clock s = Ok (tt, s1).
Proof.
  intros -> Hh HI HR HW Hin. unfold process_timers. erewrite srv_step by reflexivity. set (s1 := set_ticks _ s).
  erewrite srv_step by (apply (close_none IDLE _ s1 xs HI); intros c Hc; by apply (Hin IDLE)).
  erewrite srv_step by (apply (close_none READ _ s1 rs HR); intros c Hc; by apply (Hin READ)).
  erewrite srv_step by (apply (close_none WRITE _ s1 ws HW); intros c Hc; by apply (Hin WRITE)).
  erewrite srv_step by reflexivity. erewrite srv_step.
  2: { apply run_eq. unfold expire_entries. cbn [Z.to_nat MAX_TTL_TASKS expire_loop]. erewrite cmd_step by reflexivity.
       cbn [world w_heap s1 set_ticks sv_store]. by rewrite Hh. }
  cbn beta iota. unfold put, s1. do 2 f_equal. destruct s as [[] ? ? ? ? ? ?]. done.
Qed.

Lemma timers_session s V :
  session_ok clock s V -> in_time s = true -> exists s', process_timers clock s = Ok (tt, s') /\ session_ok clock s' V.
Proof.
  intros Hs Ht. pose proof Hs as [[xs Hok] (rs & ws & HR & HW & Hin & Hall) _ _ Hh].
  exists (set_ticks (S (sv_ticks s)) s). split; [|apply session_ticks; [done|lia]].
  apply (timers_idle s _ xs rs ws); try done; [apply (so_ring _ _ _ Hok)|]. intros t c Hc.
  assert (exists cn, sv_conns s !! c = Some cn /\ armed t cn = true) as (cn & Hcn & Ha).
  2: { exists cn. split; [done|]. by apply (in_time_conn s t c cn). }
  destruct t.
  - apply (so_live _ _ _ Hok) in Hc as [cn Hcn]. by exists cn.
  - destruct (Hin c ltac:(by left)) as [cn Hcn]. exists cn. split; [done|]. cbn [armed].
    destruct (Hall _ _ Hcn) as [_ _ Hside]. destruct (outgoing (c_bufs cn)); [by destruct Hside as (_ & -> & _)|].
    by destruct Hside as (_ & _ & ?).
  - destruct (Hin c ltac:(by right)) as [cn Hcn]. exists cn. split; [done|]. cbn [armed].
    destruct (Hall _ _ Hcn) as [_ _ Hside]. destruct (outgoing (c_bufs cn)); [by destruct Hside as (_ & _ & ? & _)|].
    by destruct Hside as (-> & _).
Qed.

(** A pass up to [process_timers], and whether it gets there. *)
Definition sockets (ev : poll_event) : srvM bool :=
  s ← get;
  fds ← poll_fds (sv_fd_to_conn s);
  _ ← next_timer_ms clock;
  match ev with
  | PollIntr | PollFail => mret false
  | PollReady ev_listen env =>
      go ← match ev_listen with
           | None => mret true
           | Some connfd =>
               p ← handle_accept clock connfd;
               match p with None => mret false | Some c => _ ← register c; mret true end
           end;
      if (go : bool) then _ ← serve_fds logl clock env fds; mret true else mret false
  end.

Lemma pass_sockets ev s go s1 s' :
  ev <> PollFail -> sockets ev s = Ok (go, s1) ->
  (if go then process_timers clock s1 = Ok (tt, s') else s' = s1) -> pass logl clock ev s = Ok (true, s').
Proof.
  intros Hev E Ht. unfold sockets in E. unfold pass. apply srv_bind_ok in E as (s0 & s2 & E0 & E).
  erewrite srv_step by exact E0. apply srv_bind_ok in E as (fds & s3 & E1 & E). erewrite srv_step by exact E1.
  apply srv_bind_ok in E as (tm & s4 & E2 & E). erewrite srv_step by exact E2.
  destruct ev as [| |l env]; [srv_inv; by subst|done|]. apply srv_bind_ok in E as (b & s5 & E3 & E).
  erewrite srv_step by exact E3. destruct b; [|srv_inv; by subst]. apply srv_bind_ok in E as ([] & s6 & E4 & E).
  erewrite srv_step by exact E4. srv_inv. by erewrite srv_step by exact Ht.
Qed.

Lemma sockets_session s V ev V' :
  session_ok clock s V -> view_pass ev V V' ->
  ev <> PollFail /\ exists go s1, sockets ev s = Ok (go, s1) /\ session_ok clock s1 V'.
Proof.
  intros Hs Hp. unfold sockets. destruct (next_timer_session s V Hs) as (v & s1 & E1 & Hs1 & Hf & Hc).
  assert (Hfds : forall fd, fd ∈ view_fds V -> is_Some (v_conns V !! fd)).
  { intros fd. unfold view_fds. rewrite merge_sort_Permutation, elem_of_elements. by rewrite elem_of_dom. }
  assert (Hpre : forall A (k : list Z -> srvM A), (s0 ← get; fds ← poll_fds (sv_fd_to_conn s0); _ ← next_timer_ms clock; k fds) s
    = k (view_fds V) s1).
  { intros A k. erewrite srv_step by reflexivity. erewrite srv_step by (by apply poll_view). by erewrite srv_step by exact E1. }
  destruct Hp as [V|env V|env V V' Hst|fd env V V' Hfd Hnew Hst]; (split; [done|]); rewrite Hpre.
  - by exists false, s1.
  - by exists false, s1.
  - destruct (serve_fds_session s1 V env (view_fds V) V' Hs1 Hfds Hst) as (s2 & E2 & Hs2).
    exists true, s2. split; [|done]. erewrite srv_step by reflexivity. cbn beta iota. by erewrite srv_step by exact E2.
  - destruct (accept_session s1 V fd Hs1 Hfd Hnew) as (c & s2 & s3 & E2 & E3 & Hs3).
    destruct (serve_fds_session s3 _ env (view_fds V) V' Hs3) as (s4 & E4 & Hs4); [|done|].
    { intros fd' Hfd'. cbn [v_set v_conns]. rewrite lookup_insert_is_Some. destruct (decide (fd = fd')); [by left|right; auto]. }
    exists true, s4. split; [|done]. rewrite (srv_step _ _ s1 true s3).
    + cbn beta iota. by erewrite srv_step by exact E4.
    + erewrite srv_step by exact E2. cbn beta iota. by erewrite srv_step by exact E3.
Qed.

Lemma pass_session s V ev V' :
  session_ok clock s V -> view_pass ev V V' -> (forall s1, sockets ev s = Ok (true, s1) -> in_time s1 = true) ->
  exists s', pass logl clock ev s = Ok (true, s') /\ session_ok clock s' V'.
Proof.
  intros Hs Hp Ht. destruct (sockets_session s V ev V' Hs Hp) as (Hev & go & s1 & E & Hs1).
  destruct go.
  - destruct (timers_session s1 V' Hs1 (Ht _ E)) as (s' & Et & Hs'). exists s'. split; [|done]. by eapply pass_sockets.
  - exists s1. split; [|done]. by eapply pass_sockets.
Qed.

(** Every pass runs its timers before a connection is past its timeout. *)
Fixpoint punctual (evs : list poll_event) (s : Server) : bool :=
  match evs with
  | [] => true
  | ev :: evs =>
      match sockets ev s with Ok (true, s1) => in_time s1 | _ => true end &&
      match pass logl clock ev s with Ok (true, s') => punctual evs s' | _ => true end
  end.

(** A connection that was never in [read_list], alone on the server. *)
Record lone (s : Server) (c : loc) (cn : Conn) : Prop := mkLone {
  lo_server : server_ok clock s [c];
  lo_conns : sv_conns s = {[ c := cn ]};
  lo_read : ring (sv_links s READ) LIST [] /\ sv_links s READ !! c = Some (mkNode NULL NULL tt);
  lo_write : ring (sv_links s WRITE) LIST [];
  lo_heap : s_heap (sv_store s) = [];
  lo_closed : sv_closed s = []
}.

(** [read] returns 0 whenever [poll] reports the descriptor. *)
Definition eof_event (fd : Z) : poll_event :=
  PollReady None (fun f => if f =? fd then mkFdEvents POLLIN RdClosed WrAgain else quiet_fd).

Lemma lone_idle s c cn xs : server_ok clock s xs -> sv_conns s = {[ c := cn ]} -> server_ok clock s [c].
Proof.
  intros Hok Hc. enough (xs = [c]) as -> by done. pose proof (ring_nodup _ _ _ (so_ring _ _ _ Hok)) as Hnd.
  apply NoDup_cons in Hnd as [_ Hnd]. apply Permutation_singleton_r, NoDup_Permutation; [done|apply NoDup_singleton|].
  intros d. rewrite (so_live _ _ _ Hok), Hc, list_elem_of_singleton, lookup_singleton_is_Some. done.
Qed.

Lemma lone_polls s c cn : lone s c cn -> poll_fds (sv_fd_to_conn s) s = Ok ([c_fd cn], s).
Proof.
  intros [Hok Hc _ _ _ _]. assert (Hcn : sv_conns s !! c = Some cn) by (by rewrite Hc, lookup_singleton_eq).
  destruct (poll_fds_sorted s (sv_fd_to_conn s) 0) as (fds & E & _ & Hnd & Hin).
  { intros j d Hj. destruct (so_slot _ _ _ Hok _ _ Hj) as (cd & Hcd & Hfd). by exists cd. }
  rewrite E. do 2 f_equal. apply Permutation_singleton_r, NoDup_Permutation; [done|apply NoDup_singleton|].
  intros fd. rewrite Hin, list_elem_of_singleton. destruct (so_fd _ _ _ Hok _ _ Hcn) as [H0 Hs]. split.
  - intros (j & d & Hj & ->). destruct (so_slot _ _ _ Hok _ _ Hj) as (cd & Hcd & Hfd).
    rewrite Hc in Hcd. apply lookup_singleton_Some in Hcd as [<- <-]. cbn. lia.
  - intros ->. exists (Z.to_nat (c_fd cn)), c. split; [done|lia].
Qed.

Lemma eof_pass s c cn :
  (forall n, clock (S n) <= clock n + IDLE_TIMEOUT_MS) -> lone s c cn ->
  exists s' cn', pass logl clock (eof_event (c_fd cn)) s = Ok (true, s') /\ lone s' c cn' /\ c_fd cn' = c_fd cn /\
    c_want_close cn' = true.
Proof.
  intros Hck Hlo. pose proof Hlo as [Hok Hc [HR HRc] HW Hh Hcl].
  assert (Hcn : sv_conns s !! c = Some cn) by (by rewrite Hc, lookup_singleton_eq).
  set (s1 := set_ticks (S (sv_ticks s)) s). assert (Hok1 : server_ok clock s1 [c]).
  { eapply calm_ok; [done|exact Hok|]. split; try done. cbn. lia. }
  set (env := fun f => if f =? c_fd cn then mkFdEvents POLLIN RdClosed WrAgain else quiet_fd).
  assert (Henv : env (c_fd cn) = mkFdEvents POLLIN RdClosed WrAgain) by (unfold env; by rewrite Z.eqb_refl).
  destruct (serve_fd_ready logl clock env s1 [c] c cn Hok1 Hcn) as (s2 & Hc2 & HR2 & HW2 & Hst2 & Hcl2 & Htk2 & Hrun);
    [rewrite Henv; by left|].
  cbn [s1 set_ticks sv_links sv_store sv_closed sv_conns] in HR2, HW2, Hst2, Hcl2, Hc2.
  set (cn' := with_close (with_active (clock (sv_ticks s1)) cn)).
  set (s3 := set_links READ (sv_links s2 READ) (set_conns (<[c := cn']> (sv_conns s2)) s2)).
  assert (E3 : serve_fd logl clock env (c_fd cn) s1 = Ok (tt, s3)).
  { apply Hrun. rewrite Henv. unfold handler. cbn [fe_revents fe_read]. rewrite decide_True by done. cbn [handle_read].
    erewrite srv_step by (apply set_conn_eq; rewrite Hc2; apply lookup_insert_eq). apply detach_eq.
    cbn [set_conns sv_links]. rewrite HR2. unfold dlist_deatach. by rewrite (deref_some _ _ _ HRc). }
  assert (Hc3 : sv_conns s3 = {[ c := cn' ]}).
  { cbn. by rewrite Hc2, insert_insert_eq, Hc, insert_singleton_eq. }
  destruct (serve_fd_ok logl clock clock_mono clock_range env (c_fd cn) s1 [c] tt s3 Hok1 E3) as [xs Hok3].
  pose proof (lone_idle _ _ _ _ Hok3 Hc3) as Hok3'. clear Hok3.
  exists (set_ticks (S (sv_ticks s3)) s3), cn'. split_and!; [|split|done..].
  - unfold pass. erewrite srv_step by reflexivity. erewrite srv_step by (by eapply lone_polls).
    erewrite (srv_step (next_timer_ms clock) _ s _ s1).
    2: { unfold next_timer_ms. erewrite srv_step by (by eapply idle_front). cbn [first]. erewrite srv_step by reflexivity.
         erewrite srv_step by (apply conn_eq; exact Hcn). by erewrite srv_step by reflexivity. }
    cbn [eof_event]. erewrite srv_step by reflexivity. cbn beta iota. cbn [serve_fds]. fold env.
    erewrite srv_step by (by erewrite srv_step by exact E3).
    erewrite srv_step; [done|]. apply (timers_idle s3 _ [c] [] []); try done.
    + cbn. by rewrite Hst2.
    + apply (so_ring _ _ _ Hok3').
    + change (sv_links s3 READ) with (sv_links s2 READ). by rewrite HR2.
    + change (sv_links s3 WRITE) with (sv_links s2 WRITE). by rewrite HW2.
    + intros [] d Hd; [|by apply elem_of_nil in Hd..]. apply list_elem_of_singleton in Hd as ->. exists cn'.
      rewrite Hc3, lookup_singleton_eq. split; [done|]. rewrite (idle_deadline clock clock_range s3 [c] c cn' Hok3').
      * change (sv_ticks s3) with (sv_ticks s2). rewrite Htk2. apply Hck.
      * by rewrite Hc3, lookup_singleton_eq.
  - eapply calm_ok; [done|exact Hok3'|]. split; try done. cbn. lia.
  - exact Hc3.
  - change (ring (sv_links s2 READ) LIST [] /\ sv_links s2 READ !! c = Some (mkNode NULL NULL tt)). by rewrite HR2.
  - change (ring (sv_links s2 WRITE) LIST []). by rewrite HW2.
  - cbn. by rewrite Hst2.
  - cbn. by rewrite Hcl2.
Qed.

Lemma init_session s : server_init = Ok s -> session_ok clock s (mkView ∅ ∅).
Proof.
  intros E. pose proof (server_init_ok clock s E) as Hok. unfold server_init in E. apply bind_ok in E as (h & Eh & [= <-]).
  split; try done.
  - by exists [].
  - pose proof (so_ring _ _ _ Hok) as Hr. exists [], []. split_and!; [exact Hr|exact Hr| |].
    + intros c [Hc|Hc]; by apply elem_of_nil in Hc.
    + intros c cn. cbn. by rewrite lookup_empty.
  - intros fd b. cbn. rewrite lookup_empty. split; [done|]. intros (c & cn & Hc & _). by rewrite lookup_empty in Hc.
  - apply st_empty_rep.
Qed.
End event_loop.

Inductive view_passes : list poll_event -> View -> View -> Prop :=
  | vps_nil V : view_passes [] V V
  | vps_cons ev evs V V1 V2 : view_pass ev V V1 -> view_passes evs V1 V2 -> view_passes (ev :: evs) V V2.

(** ** Properties *)

Section properties.
Variables (logl : QArith_base.Q -> QArith_base.Q) (clock : nat -> Z).
Hypothesis clock_mono : forall n m, (n <= m)%nat -> clock n <= clock m.
Hypothesis clock_range : forall n, 0 <= clock n < 2 ^ 63.

(** C11: the server with many clients.  From the start, for any interleaving
    of new connections, reads that cut SET, GET and DEL requests anywhere and
    partial writes, in which clients wait for their responses and no timeout
    passes, every pass of the event loop returns without a fault, the buffers
    of every connection are those of the abstract server, that is, the responses
    of one map of strings to the requests in the order they were completed, and
    the database represents that map. *)
Theorem sessions_refine evs s0 V :
  server_init = Ok s0 -> view_passes evs (mkView ∅ ∅) V -> punctual logl clock evs s0 = true ->
  exists s, passes logl clock evs s0 = Ok (tt, s) /\ bufs_of (sv_conns s) (v_conns V) /\ kv_rep (sv_store s) (v_map V).
Proof.
  intros E Hv Hp. pose proof (init_session clock s0 E) as Hs. clear E. revert s0 Hs Hp.
  induction Hv as [V|ev evs V V1 V2 H1 _ IH]; intros s0 Hs Hp.
  - exists s0. split; [done|]. split; apply Hs.
  - cbn [punctual] in Hp. apply andb_true_iff in Hp as [Ht Hp].
    destruct (pass_session logl clock clock_mono clock_range s0 V ev V1 Hs H1) as (s1 & E1 & Hs1); [intros s1 E; by rewrite E in Ht|].
    rewrite E1 in Hp. destruct (IH s1 Hs1 Hp) as (s & E & H). exists s. split; [|done]. cbn [passes]. by erewrite srv_step by exact E1.
Qed.
(** (A connection is closed on POLLERR only): when a client disconnects,
    [read] returns 0 and [handle_read] marks the connection, but [poll] reports
    POLLIN, never POLLERR, and every pass renews the time of the last activity;
    however many passes follow, the connection is marked and still open. *)
Theorem eof_never_closed s c cn n :
  (forall k, clock (S k) <= clock k + IDLE_TIMEOUT_MS) -> lone clock s c cn ->
  exists s' cn', passes logl clock (replicate n (eof_event (c_fd cn))) s = Ok (tt, s') /\
    sv_conns s' = {[ c := cn' ]} /\ sv_closed s' = [] /\ ((0 < n)%nat -> c_want_close cn' = true).
Proof.
  intros Hck Hlo. assert (H : exists s' cn', passes logl clock (replicate n (eof_event (c_fd cn))) s = Ok (tt, s') /\
    lone clock s' c cn' /\ ((0 < n)%nat \/ c_want_close cn = true -> c_want_close cn' = true)).
  { revert s cn Hlo. induction n as [|n IH]; intros s cn Hlo; [exists s, cn; split_and!; [done|done|by intros [?%Nat.lt_irrefl|]]|].
    destruct (eof_pass logl clock clock_mono clock_range s c cn Hck Hlo) as (s1 & cn1 & E1 & Hlo1 & Hfd & Hcl).
    destruct (IH s1 cn1 Hlo1) as (s2 & cn2 & E2 & Hlo2 & Hcl2). rewrite Hfd in E2. exists s2, cn2.
    split_and!; [|done|by intros _; apply Hcl2; right]. cbn [replicate passes]. by erewrite srv_step by exact E1. }
  destruct H as (s' & cn' & E & [_ Hc _ _ _ Hclosed] & Hm). exists s', cn'. split_and!; try done. intros Hn. apply Hm. by left.
Qed.
End properties.

(** ** Witnesses *)

(** Two clients, on descriptors 5 and 6.  The first sends SET k v1 in two
    pieces and the second GET k in one; the response to the first is sent in
    two pieces. *)
Definition set_frame : list Z := request_frame [lit "set"; lit "k"; lit "v1"].
Definition on_fds (e5 e6 : FdEvents) : poll_event :=
  PollReady None (fun fd => if fd =? 5 then e5 else if fd =? 6 then e6 else quiet_fd).
Definition accept6 : poll_event := PollReady (Some (Some 6)) (fun _ => quiet_fd).
Definition readable (data : list Z) : FdEvents := mkFdEvents POLLIN (RdData data) WrAgain.
Definition writable (n : Z) : FdEvents := mkFdEvents POLLOUT RdAgain (Wrote n).

Definition two_clients : list poll_event :=
  [ accept6; accept5; on_fds (readable (take 9 set_frame)) quiet_fd; PollIntr;
    on_fds (readable (drop 9 set_frame)) (readable get_request); on_fds (writable 7) quiet_fd ].

Definition set_reply : list Z := reply_frame (RES_OK, [INull]).
Definition get_reply : list Z := reply_frame (RES_OK, [IStr (lit "v1")]).

Definition two_clients_view : View :=
  mkView {[ lit "k" := lit "v1" ]} {[ 5 := mkConnBufs [] (drop 7 set_reply); 6 := mkConnBufs [] get_reply ]}.

Lemma cut_short_take n query :
  request_ok query -> (n < length (request_frame query))%nat -> cut_short (take n (request_frame query)).
Proof.
  intros Hq Hn. exists (drop n (request_frame query)), query. split; [done|]. split; [apply take_drop|].
  intros E. apply (f_equal length) in E. rewrite length_drop in E. cbn in E. lia.
Qed.

Ltac compute_fds :=
  match goal with |- fds_step _ ?l _ _ => let l' := eval vm_compute in l in change l with l' end.

Lemma set_query_ok : request_ok [lit "set"; lit "k"; lit "v1"].
Proof. vm_compute. discriminate. Qed.

Lemma two_clients_passes : view_passes two_clients (mkView ∅ ∅) two_clients_view.
Proof.
  assert (Hex : exists V, view_passes two_clients (mkView ∅ ∅) V /\ V = two_clients_view); [|by destruct Hex as (V & H & <-)].
  eexists. split.
  - eapply vps_cons; [eapply vp_accepts; [done|reflexivity|compute_fds; constructor]|].
    eapply vps_cons; [eapply vp_accepts; [done|reflexivity|compute_fds; econstructor; [by apply fd_quiet|constructor]]|].
    eapply vps_cons.
    { eapply vp_serves. compute_fds. econstructor.
      - apply (fd_reads _ _ _ [] (take 9 set_frame) [] [] (take 9 set_frame));
          [done|done|reflexivity|done|apply cut_short_take; [apply set_query_ok|by_compute]|constructor|constructor|done|done].
      - econstructor; [by apply fd_quiet|constructor]. }
    eapply vps_cons; [constructor|]. eapply vps_cons.
    { eapply vp_serves. compute_fds. econstructor.
      - apply (fd_reads _ _ _ (take 9 set_frame) (drop 9 set_frame) [[lit "set"; lit "k"; lit "v1"]] [KvSet (lit "k") (lit "v1")] []);
          [done|done|reflexivity|vm_compute; reflexivity|apply (cut_short_take 0 _ set_query_ok); by_compute
          |repeat constructor; by_compute|repeat constructor; by exists (lit "set")|by_compute|by_compute].
      - econstructor; [|constructor].
        apply (fd_reads _ _ _ [] get_request [[lit "get"; lit "k"]] [KvGet (lit "k")] []);
          [done|done|reflexivity|vm_compute; reflexivity|apply (cut_short_take 0 _ set_query_ok); by_compute
          |repeat constructor; by_compute|repeat constructor; by exists (lit "get")|by_compute|by_compute]. }
    eapply vps_cons; [|constructor]. eapply vp_serves. compute_fds. econstructor; [|econstructor; [by apply fd_quiet|constructor]].
    apply (fd_writes _ _ _ [] set_reply 7); [done|done|reflexivity|by_compute].
  - vm_compute. reflexivity.
Qed.

Lemma sessions_refine_witness :
  exists s, passes (fun q => q) ms_clock two_clients sv0 = Ok (tt, s) /\
    bufs_of (sv_conns s) {[ 5 := mkConnBufs [] (drop 7 set_reply); 6 := mkConnBufs [] get_reply ]} /\
    kv_rep (sv_store s) {[ lit "k" := lit "v1" ]}.
Proof.
  apply (sessions_refine (fun q => q) ms_clock ms_clock_mono ms_clock_range two_clients sv0 two_clients_view sv0_init two_clients_passes).
  vm_compute. reflexivity.
Defined.

(** The connection of [sv1], on descriptor 5. *)
Definition conn5 : Conn := mkConn 5 true false false (mkConnBufs [] []) 0 1 2.

Lemma eof_never_closed_witness :
  exists s' cn', passes (fun q => q) ms_clock (replicate 1000 (eof_event 5)) sv1 = Ok (tt, s') /\
    sv_conns s' = {[ 2%positive := cn' ]} /\ sv_closed s' = [] /\ c_want_close cn' = true.
Proof.
  assert (Hc : sv_conns sv1 = {[ 2%positive := conn5 ]}) by (vm_compute; reflexivity).
  destruct (steps_ok (fun q => q) ms_clock ms_clock_mono ms_clock_range sv0 sv1 [] (server_init_ok ms_clock sv0 sv0_init)
    (rtc_once _ _ sv1_step)) as [xs Hok].
  destruct (eof_never_closed (fun q => q) ms_clock ms_clock_mono ms_clock_range sv1 2 conn5 1000) as (s' & cn' & E & H1 & H2 & H3).
  - intros k. unfold ms_clock, IDLE_TIMEOUT_MS. lia.
  - split; [by eapply lone_idle|exact Hc| | |vm_compute; reflexivity|vm_compute; reflexivity].
    + split; [split; [by_compute|]|vm_compute; reflexivity]. split; [|done]. exists tt. vm_compute. reflexivity.
    + split; [by_compute|]. split; [|done]. exists tt. vm_compute. reflexivity.
  - exists s', cn'. split; [exact E|]. split; [exact H1|]. split; [exact H2|]. apply H3. lia.
Defined.
