(* ===== verification/Threadpool.v ===== *)
(** * The thread pool: [src/src/threadpool.cpp], [threadpool.h]

    The workers and the thread that produces work interleave at every call of
    the pthread functions.  A step relation with one rule per call covers all
    schedules, spurious wake-ups of [pthread_cond_wait] included; [quiet_step]
    leaves these and further calls out, for the theorem that no wake-up is lost. *)

From S2P Require Import Prelude.

Section threadpool.
(** [ThreadPoolWork]: a function and its argument. *)
Context {Work : Type}.

(** ** State *)

(** Where a worker is in [work]: about to lock, holding the mutex at the test
    of the queue, waiting, woken but without the mutex, holding the mutex with
    an item, running it. *)
Inductive worker_pc := WLock | WTest | WWait | WWoken | WUnlock (w : Work) | WRun (w : Work).

(** Where the producer is in [threadpool_produce]. *)
Inductive producer_pc := PIdle | PLock (w : Work) | PPush (w : Work) | PSignal | PUnlock.

Inductive tid := Producer | Worker (i : nat).

#[export] Instance tid_eq_dec : EqDecision tid.
Proof. solve_decision. Defined.

(** [ThreadPool], the owner of its mutex, the threads, and the history: the
    items pushed, popped and run to the end, in order. *)
Record ThreadPool := mkPool {
  tp_queue : list Work;
  tp_mutex : option tid;
  tp_threads : list worker_pc;
  tp_producer : producer_pc;
  tp_produced : list Work;
  tp_started : list Work;
  tp_finished : list Work
}.

(** ** Steps *)

(** The threads running [work] after the loop of [threadpool_init], from the
    results of [pthread_create]: it stops at the first error. *)
Fixpoint create_threads (errs : list Z) : list worker_pc :=
  match errs with
  | [] => []
  | err :: errs => if err =? 0 then WLock :: create_threads errs else []
  end.

(** [threadpool_init], from the results of [pthread_mutex_init], of
    [pthread_cond_init] and of each [pthread_create]. *)
Definition threadpool_init (mutex_err cond_err : Z) (errs : list Z) : ThreadPool :=
  let tp := mkPool [] None [] PIdle [] [] [] in
  if negb (mutex_err =? 0) then tp
  else if negb (cond_err =? 0) then tp
  else mkPool (tp_queue tp) (tp_mutex tp) (create_threads errs) (tp_producer tp)
         (tp_produced tp) (tp_started tp) (tp_finished tp).

Definition at_worker (i : nat) (pc : worker_pc) (mutex : option tid) (tp : ThreadPool) : ThreadPool :=
  mkPool (tp_queue tp) mutex (<[i := pc]> (tp_threads tp)) (tp_producer tp)
    (tp_produced tp) (tp_started tp) (tp_finished tp).
Definition at_producer (pc : producer_pc) (mutex : option tid) (tp : ThreadPool) : ThreadPool :=
  mkPool (tp_queue tp) mutex (tp_threads tp) pc (tp_produced tp) (tp_started tp) (tp_finished tp).

Inductive worker_step (i : nat) (tp : ThreadPool) : ThreadPool -> Prop :=
  (** [pthread_mutex_lock(&tp->mutex)] *)
  | ws_lock : tp_threads tp !! i = Some WLock -> tp_mutex tp = None ->
      worker_step i tp (at_worker i WTest (Some (Worker i)) tp)
  (** [while (tp->queue.empty()) pthread_cond_wait(&tp->cond, &tp->mutex)] *)
  | ws_wait : tp_threads tp !! i = Some WTest -> tp_queue tp = [] ->
      worker_step i tp (at_worker i WWait None tp)
  | ws_relock : tp_threads tp !! i = Some WWoken -> tp_mutex tp = None ->
      worker_step i tp (at_worker i WTest (Some (Worker i)) tp)
  (** [work = tp->queue.front(); tp->queue.pop()] *)
  | ws_pop w q : tp_threads tp !! i = Some WTest -> tp_queue tp = w :: q ->
      worker_step i tp
        (mkPool q (tp_mutex tp) (<[i := WUnlock w]> (tp_threads tp)) (tp_producer tp)
           (tp_produced tp) (tp_started tp ++ [w]) (tp_finished tp))
  | ws_unlock w : tp_threads tp !! i = Some (WUnlock w) -> worker_step i tp (at_worker i (WRun w) None tp)
  (** [work.f(work.arg)] *)
  | ws_run w : tp_threads tp !! i = Some (WRun w) ->
      worker_step i tp
        (mkPool (tp_queue tp) (tp_mutex tp) (<[i := WLock]> (tp_threads tp)) (tp_producer tp)
           (tp_produced tp) (tp_started tp) (tp_finished tp ++ [w])).

Inductive producer_step (tp : ThreadPool) : ThreadPool -> Prop :=
  | ps_call w : tp_producer tp = PIdle -> producer_step tp (at_producer (PLock w) (tp_mutex tp) tp)
  | ps_lock w : tp_producer tp = PLock w -> tp_mutex tp = None ->
      producer_step tp (at_producer (PPush w) (Some Producer) tp)
  (** [tp->queue.push(ThreadPoolWork{f, arg})] *)
  | ps_push w : tp_producer tp = PPush w ->
      producer_step tp
        (mkPool (tp_queue tp ++ [w]) (tp_mutex tp) (tp_threads tp) PSignal
           (tp_produced tp ++ [w]) (tp_started tp) (tp_finished tp))
  (** [pthread_cond_signal(&tp->cond)] wakes one waiting thread, if there is one. *)
  | ps_signal i : tp_producer tp = PSignal -> tp_threads tp !! i = Some WWait ->
      producer_step tp (at_producer PUnlock (tp_mutex tp) (at_worker i WWoken (tp_mutex tp) tp))
  | ps_signal_none : tp_producer tp = PSignal -> WWait ∉ tp_threads tp ->
      producer_step tp (at_producer PUnlock (tp_mutex tp) tp)
  | ps_unlock : tp_producer tp = PUnlock -> producer_step tp (at_producer PIdle None tp).

(** [pthread_cond_wait] may also return without a signal. *)
Inductive spurious_step (i : nat) (tp : ThreadPool) : ThreadPool -> Prop :=
  | sp_wake : tp_threads tp !! i = Some WWait -> spurious_step i tp (at_worker i WWoken (tp_mutex tp) tp).

Definition pool_step (tp tp' : ThreadPool) : Prop :=
  (exists i, worker_step i tp tp') \/ producer_step tp tp' \/ (exists i, spurious_step i tp tp').

(** The steps that are left when [threadpool_produce] is not called again and no
    wake-up is spurious: those of the workers and of a call that has begun. *)
Definition quiet_step (tp tp' : ThreadPool) : Prop :=
  (exists i, worker_step i tp tp') \/ (tp_producer tp <> PIdle /\ producer_step tp tp').

(** ** The invariant *)

(** The item a worker has taken and not finished. *)
Definition held (pc : worker_pc) : list Work := match pc with WUnlock w | WRun w => [w] | _ => [] end.

(** Inside the critical section. *)
Definition inside (pc : worker_pc) : Prop := match pc with WTest | WUnlock _ => True | _ => False end.
Definition producer_inside (pc : producer_pc) : Prop :=
  match pc with PPush _ | PSignal | PUnlock => True | _ => False end.

Record pool_ok (tp : ThreadPool) : Prop := mkPoolOk {
  po_worker : forall i pc, tp_threads tp !! i = Some pc -> (inside pc <-> tp_mutex tp = Some (Worker i));
  po_producer : producer_inside (tp_producer tp) <-> tp_mutex tp = Some Producer;
  po_fifo : tp_produced tp = tp_started tp ++ tp_queue tp;
  po_once : tp_started tp ≡ₚ tp_finished tp ++ (tp_threads tp ≫= held);
  po_wake : tp_queue tp <> [] -> tp_producer tp = PSignal \/
    exists i pc, tp_threads tp !! i = Some pc /\ pc <> WWait
}.

(** ** Lemmas *)

Lemma held_insert ths i pc pc' :
  ths !! i = Some pc -> held pc ++ (<[i := pc']> ths ≫= held) ≡ₚ held pc' ++ (ths ≫= held).
Proof.
  intros Hi. apply list_elem_of_split_length in Hi as (l1 & l2 & -> & ->).
  rewrite insert_app_r_alt, Nat.sub_diag by lia. cbn [insert list_insert]. rewrite !bind_app. cbn.
  rewrite !(assoc_L (++)), !(comm (++) _ (l1 ≫= held)), <- !(assoc_L (++)).
  apply Permutation_app_head. rewrite !(assoc_L (++)). apply Permutation_app_tail, Permutation_app_comm.
Qed.

Lemma lookup_other {A} (l : list A) i j (a b : A) :
  <[i := a]> l !! j = Some b -> (j = i /\ b = a) \/ (j <> i /\ l !! j = Some b).
Proof. intros [(-> & <- & _)|[? ?]]%list_lookup_insert_Some; auto. Qed.

(** A worker moves from [pc] to [pc'] and the mutex from [m] to [m']. *)
Lemma move_worker tp i pc pc' m' :
  pool_ok tp -> tp_threads tp !! i = Some pc -> (inside pc' <-> m' = Some (Worker i)) ->
  (m' = tp_mutex tp \/ (tp_mutex tp = None /\ m' = Some (Worker i)) \/ (tp_mutex tp = Some (Worker i) /\ m' = None)) ->
  (forall j q, <[i := pc']> (tp_threads tp) !! j = Some q -> (inside q <-> m' = Some (Worker j))) /\
  (producer_inside (tp_producer tp) <-> m' = Some Producer).
Proof.
  intros [Hw Hp _ _ _] Hi Hin Hm. split.
  - intros j q [[-> ->]|[Hne Hj]]%lookup_other; [done|]. rewrite (Hw j q Hj).
    destruct Hm as [->|[[-> ->]|[-> ->]]]; [done|split; congruence..].
  - rewrite Hp. destruct Hm as [->|[[-> ->]|[-> ->]]]; [done|split; congruence..].
Qed.

Lemma keep_awake (ths : list worker_pc) i pc pc' :
  ths !! i = Some pc -> pc' <> WWait -> exists j q, <[i := pc']> ths !! j = Some q /\ q <> WWait.
Proof. intros Hi Hpc. exists i, pc'. rewrite list_lookup_insert_eq; [done|]. by eapply lookup_lt_Some. Qed.

Lemma worker_keeps i tp tp' : pool_ok tp -> worker_step i tp tp' -> pool_ok tp'.
Proof.
  intros Hok Hs. pose proof Hok as [Hw Hp Hf Ho Hk].
  assert (Hheld : forall pc pc', tp_threads tp !! i = Some pc -> held pc = held pc' ->
    tp_started tp ≡ₚ tp_finished tp ++ (<[i := pc']> (tp_threads tp) ≫= held)).
  { intros pc pc' Hi Eh. rewrite Ho. apply Permutation_app_head. pose proof (held_insert _ _ _ pc' Hi) as H.
    rewrite Eh in H. by apply Permutation_app_inv_l in H. }
  destruct Hs as [Hi Hm|Hi Hq|Hi Hm|w q Hi Hq|w Hi|w Hi].
  - destruct (move_worker tp i _ WTest (Some (Worker i)) Hok Hi) as [H1 H2]; [done|auto|].
    split; cbn; [done|done|done|by eapply Hheld|]. intros _. right. by eapply keep_awake.
  - destruct (move_worker tp i _ WWait None Hok Hi) as [H1 H2]; [done| |].
    { right. right. split; [|done]. by apply (Hw _ _ Hi). }
    split; cbn; [done|done|done|by eapply Hheld|]. by rewrite Hq.
  - destruct (move_worker tp i _ WTest (Some (Worker i)) Hok Hi) as [H1 H2]; [done|auto|].
    split; cbn; [done|done|done|by eapply Hheld|]. intros _. right. by eapply keep_awake.
  - destruct (move_worker tp i _ (WUnlock w) (tp_mutex tp) Hok Hi) as [H1 H2]; [|auto|].
    { rewrite <- (Hw _ _ Hi). done. }
    split; cbn; [done|done|by rewrite Hf, Hq, <- app_assoc| |].
    + rewrite Ho, <- app_assoc. apply Permutation_app_head. rewrite Permutation_app_comm.
      by rewrite <- (held_insert _ _ _ (WUnlock w) Hi).
    + intros _. right. by eapply keep_awake.
  - destruct (move_worker tp i _ (WRun w) None Hok Hi) as [H1 H2]; [done| |].
    { right. right. split; [|done]. by apply (Hw _ _ Hi). }
    split; cbn; [done|done|done|by eapply Hheld|]. intros _. right. by eapply keep_awake.
  - destruct (move_worker tp i _ WLock (tp_mutex tp) Hok Hi) as [H1 H2]; [|auto|].
    { rewrite <- (Hw _ _ Hi). done. }
    split; cbn; [done|done|done| |].
    + rewrite Ho, <- app_assoc. apply Permutation_app_head. by rewrite <- (held_insert _ _ _ WLock Hi).
    + intros _. right. by eapply keep_awake.
Qed.

Lemma spurious_keeps i tp tp' : pool_ok tp -> spurious_step i tp tp' -> pool_ok tp'.
Proof.
  intros Hok [Hi]. pose proof Hok as [Hw Hp Hf Ho Hk].
  destruct (move_worker tp i _ WWoken (tp_mutex tp) Hok Hi) as [H1 H2]; [|auto|].
  { rewrite <- (Hw _ _ Hi). done. }
  split; cbn; [done|done|done| |].
  - rewrite Ho. apply Permutation_app_head. by pose proof (held_insert _ _ _ WWoken Hi).
  - intros _. right. by eapply keep_awake.
Qed.

Lemma producer_keeps tp tp' :
  (0 < length (tp_threads tp))%nat -> pool_ok tp -> producer_step tp tp' -> pool_ok tp'.
Proof.
  intros Hn Hok Hs. pose proof Hok as [Hw Hp Hf Ho Hk].
  destruct Hs as [w Hpc|w Hpc Hm|w Hpc|i Hpc Hi|Hpc Hnone|Hpc]; rewrite Hpc in *.
  - split; cbn; try done. intros Hq. right. by destruct (Hk Hq).
  - split; cbn; try done; [intros i pc Hi; rewrite (Hw _ _ Hi), Hm; split; congruence|].
    intros Hq. right. by destruct (Hk Hq).
  - split; cbn; try done; [by rewrite Hf, app_assoc|]. by left.
  - assert (Hmx : tp_mutex tp = Some Producer) by (by apply Hp).
    destruct (move_worker tp i _ WWoken (tp_mutex tp) Hok Hi) as [H1 H2]; [rewrite Hmx; split; [done|congruence]|auto|].
    split; cbn; [done|by rewrite Hmx|done| |].
    + rewrite Ho. apply Permutation_app_head. by pose proof (held_insert _ _ _ WWoken Hi).
    + intros _. right. by eapply keep_awake.
  - split; cbn; try done. intros _. right.
    destruct (tp_threads tp) as [|pc ths] eqn:Et; [cbn in Hn; lia|]. exists 0%nat, pc. split; [done|].
    intros ->. apply Hnone. apply list_elem_of_here.
  - assert (Hmx : tp_mutex tp = Some Producer) by (by apply Hp).
    split; cbn; try done; [intros i pc Hi; rewrite (Hw _ _ Hi), Hmx; split; congruence|].
    intros Hq. right. by destruct (Hk Hq).
Qed.

Lemma create_locks errs i pc : create_threads errs !! i = Some pc -> pc = WLock.
Proof.
  revert i. induction errs as [|err errs IH]; intros i; cbn; [done|]. destruct (err =? 0); [|done].
  destruct i as [|i]; cbn; [congruence|apply IH].
Qed.

Lemma create_held errs : create_threads errs ≫= held = [].
Proof. induction errs as [|err errs IH]; cbn; [done|]. destruct (err =? 0); [|done]. exact IH. Qed.

Lemma init_ok mutex_err cond_err errs : pool_ok (threadpool_init mutex_err cond_err errs).
Proof.
  unfold threadpool_init. destruct (negb (mutex_err =? 0)); [by split|]. destruct (negb (cond_err =? 0)); [by split|].
  split; cbn; try done.
  - intros i pc ->%create_locks. done.
  - by rewrite create_held.
Qed.

Lemma init_mutex mutex_err cond_err errs : tp_mutex (threadpool_init mutex_err cond_err errs) = None.
Proof. unfold threadpool_init. by destruct (negb (mutex_err =? 0)), (negb (cond_err =? 0)). Qed.

Lemma step_threads tp tp' : pool_step tp tp' -> length (tp_threads tp') = length (tp_threads tp).
Proof. by intros [(i & [])|[[]|(i & [])]]; cbn; rewrite ?length_insert. Qed.

Lemma step_keeps tp tp' : (0 < length (tp_threads tp))%nat -> pool_ok tp -> pool_step tp tp' -> pool_ok tp'.
Proof.
  intros Hn Hok [(i & Hs)|[Hs|(i & Hs)]]; [by eapply worker_keeps|by eapply producer_keeps|by eapply spurious_keeps].
Qed.

(** The owner of the mutex is one of the threads. *)
Definition owner_ok (tp : ThreadPool) : Prop :=
  forall i, tp_mutex tp = Some (Worker i) -> (i < length (tp_threads tp))%nat.

Lemma step_owner tp tp' : owner_ok tp -> pool_step tp tp' -> owner_ok tp'.
Proof.
  intros Ho Hs j Hj. rewrite (step_threads _ _ Hs). revert Hj.
  destruct Hs as [(i & [])|[[]|(i & [])]]; cbn; intros Hj; try done; try exact (Ho j Hj).
  all: injection Hj as <-; by eapply lookup_lt_Some.
Qed.

(** The states of a pool with at least one thread. *)
Record pool_inv (tp : ThreadPool) : Prop := mkPoolInv {
  pi_threads : (0 < length (tp_threads tp))%nat;
  pi_ok : pool_ok tp;
  pi_owner : owner_ok tp
}.

Lemma step_inv tp tp' : pool_inv tp -> pool_step tp tp' -> pool_inv tp'.
Proof.
  intros [Hn Hok Ho] Hs. split; [by rewrite (step_threads _ _ Hs)|by eapply step_keeps|by eapply step_owner].
Qed.

Lemma reach_inv tp tp' : pool_inv tp -> rtc pool_step tp tp' -> pool_inv tp'.
Proof. intros Hi H. induction H as [|tp tp1 tp2 Hs _ IH]; [done|]. apply IH. by eapply step_inv. Qed.

Lemma init_inv mutex_err cond_err errs :
  (0 < length (tp_threads (threadpool_init mutex_err cond_err errs)))%nat ->
  pool_inv (threadpool_init mutex_err cond_err errs).
Proof. intros Hn. split; [done|apply init_ok|]. intros i. by rewrite init_mutex. Qed.

(** ** The work is done *)

(** What is left to do: an upper bound on the number of quiet steps. *)
Definition worker_weight (pc : worker_pc) : nat :=
  match pc with WWait => 0 | WTest => 1 | WLock | WWoken => 2 | WRun _ => 3 | WUnlock _ => 4 end.
Definition producer_weight (pc : producer_pc) : nat :=
  match pc with PIdle => 0 | PUnlock => 1 | PSignal => 4 | PPush _ => 9 | PLock _ => 10 end.
Definition pool_weight (tp : ThreadPool) : nat :=
  sum_list_with worker_weight (tp_threads tp) + producer_weight (tp_producer tp) + 4 * length (tp_queue tp).

Lemma weight_insert ths i pc pc' :
  ths !! i = Some pc ->
  (sum_list_with worker_weight (<[i := pc']> ths) + worker_weight pc
   = sum_list_with worker_weight ths + worker_weight pc')%nat.
Proof.
  intros Hi. apply list_elem_of_split_length in Hi as (l1 & l2 & -> & ->).
  rewrite insert_app_r_alt, Nat.sub_diag by lia. cbn [insert list_insert]. rewrite !sum_list_with_app. cbn. lia.
Qed.

Lemma quiet_weight tp tp' : quiet_step tp tp' -> (pool_weight tp' < pool_weight tp)%nat.
Proof.
  unfold pool_weight. intros [(i & Hs)|[Hp Hs]].
  - destruct Hs as [Hi Hm|Hi Hq|Hi Hm|w q Hi Hq|w Hi|w Hi]; cbn [at_worker tp_threads tp_producer tp_queue].
    4: rewrite Hq.
    all: match goal with Hi : tp_threads ?t !! ?i = Some _ |- context [insert ?i ?pc _] =>
           pose proof (weight_insert _ _ _ pc Hi) as H; cbn in H |- *; lia end.
  - destruct Hs as [w Hpc|w Hpc Hm|w Hpc|i Hpc Hi|Hpc Hnone|Hpc]; rewrite Hpc in *; [done|..];
      cbn [at_worker at_producer tp_threads tp_producer tp_queue]; rewrite ?length_app; cbn.
    3: pose proof (weight_insert _ _ _ WWoken Hi) as H; cbn in H.
    all: lia.
Qed.

Lemma quiet_pool tp tp' : quiet_step tp tp' -> pool_step tp tp'.
Proof. intros [?|[_ ?]]; [by left|by right; left]. Qed.

Lemma quiet_nsteps n tp tp' : nsteps quiet_step n tp tp' -> (n + pool_weight tp' <= pool_weight tp)%nat.
Proof. induction 1 as [|n tp tp1 tp2 Hs _ IH]; [lia|]. apply quiet_weight in Hs. lia. Qed.

(** Nothing produced is forgotten. *)
Lemma quiet_produced tp tp' : rtc quiet_step tp tp' -> tp_produced tp `prefix_of` tp_produced tp'.
Proof.
  induction 1 as [|tp tp1 tp2 Hs _ IH]; [done|]. etrans; [|exact IH].
  destruct Hs as [(i & [])|[_ []]]; cbn; try done. by eexists.
Qed.

Lemma waiting_dec (ths : list worker_pc) : (exists i, ths !! i = Some WWait) \/ (WWait ∉ ths).
Proof.
  induction ths as [|pc ths IH]; [right; apply not_elem_of_nil|]. destruct IH as [[i Hi]|Hn]; [left; by exists (S i)|].
  destruct pc; try (right; rewrite not_elem_of_cons; by split). left. by exists 0%nat.
Qed.

Lemma awake_dec (ths : list worker_pc) :
  (exists i pc, ths !! i = Some pc /\ pc <> WWait) \/ Forall (fun pc => pc = WWait) ths.
Proof.
  induction ths as [|pc ths [(i & q & Hi & Hq)|IH]]; [by right|left; by exists (S i), q|].
  destruct pc; try (left; by exists 0%nat; eexists). right. by constructor.
Qed.

(** All is done: every worker waits and no call is under way. *)
Definition at_rest (tp : ThreadPool) : Prop :=
  tp_queue tp = [] /\ tp_producer tp = PIdle /\ Forall (fun pc => pc = WWait) (tp_threads tp).

Lemma rest_finished tp : pool_inv tp -> at_rest tp -> tp_started tp = tp_produced tp /\ tp_finished tp ≡ₚ tp_produced tp.
Proof.
  intros [_ [_ _ Hf Ho _] _] (Hq & _ & Hw). rewrite Hf, Hq, app_nil_r. split; [done|]. rewrite Ho.
  replace (tp_threads tp ≫= held) with (@nil Work); [by rewrite app_nil_r|].
  clear Ho. induction Hw as [|pc ths -> _ IH]; [done|exact IH].
Qed.

(** A pool that is not at rest can make a quiet step. *)
Lemma quiet_progress tp : pool_inv tp -> at_rest tp \/ exists tp', quiet_step tp tp'.
Proof.
  intros [_ Hok Ho]. destruct (tp_mutex tp) as [[|i]|] eqn:Hm.
  - pose proof (proj2 (po_producer _ Hok) Hm) as Hin. right.
    destruct (tp_producer tp) as [|w|w| |] eqn:Hp; try done.
    + eexists. right. split; [by rewrite Hp|by apply (ps_push _ w)].
    + destruct (waiting_dec (tp_threads tp)) as [[i Hi]|Hn]; eexists; right; (split; [by rewrite Hp|]);
        [by apply (ps_signal _ i)|by apply ps_signal_none].
    + eexists. right. split; [by rewrite Hp|by apply ps_unlock].
  - destruct (lookup_lt_is_Some_2 _ _ (Ho i Hm)) as [pc Hpc]. right.
    pose proof (proj2 (po_worker _ Hok _ _ Hpc) Hm) as Hin. destruct pc as [| | | |w|w]; try done.
    + destruct (tp_queue tp) as [|w q] eqn:Hq; eexists; left; exists i; [by apply ws_wait|by eapply ws_pop].
    + eexists. left. exists i. by eapply ws_unlock.
  - destruct (awake_dec (tp_threads tp)) as [(i & pc & Hi & Hpc)|Hall].
    + pose proof (po_worker _ Hok _ _ Hi) as Hin. rewrite Hm in Hin. right.
      destruct pc as [| | | |w|w]; [|by discriminate (proj1 Hin I)|done| |by discriminate (proj1 Hin I)|];
        eexists; left; exists i; [by apply ws_lock|by apply ws_relock|by eapply ws_run].
    + pose proof (po_producer _ Hok) as Hin. rewrite Hm in Hin.
      destruct (tp_producer tp) as [|w|w| |] eqn:Hp; [|right|by discriminate (proj1 Hin I)..].
      * left. split; [|done]. destruct (tp_queue tp) as [|w q] eqn:Hq; [done|].
        destruct (po_wake _ Hok) as [?|(i & pc & Hi & Hpc)]; [by rewrite Hq|congruence|].
        by rewrite Forall_lookup in Hall; apply Hall in Hi.
      * eexists. right. split; [by rewrite Hp|]. by apply (ps_lock _ w).
Qed.

(** ** Properties *)

(** C27: in every schedule of any number of workers, the items are popped in
    the order they were produced and none is lost or taken twice: what was
    produced is what was started, in order, followed by the queue, and every
    item started is finished or held by exactly one worker; at most one thread
    is in a critical section. *)
Theorem pool_fifo_once mutex_err cond_err errs tp :
  (0 < length (tp_threads (threadpool_init mutex_err cond_err errs)))%nat ->
  rtc pool_step (threadpool_init mutex_err cond_err errs) tp ->
  tp_produced tp = tp_started tp ++ tp_queue tp /\ tp_started tp ≡ₚ tp_finished tp ++ (tp_threads tp ≫= held) /\
  (forall i j pc pc', tp_threads tp !! i = Some pc -> tp_threads tp !! j = Some pc' -> inside pc -> inside pc' -> i = j) /\
  (producer_inside (tp_producer tp) -> Forall (fun pc => ~ inside pc) (tp_threads tp)).
Proof.
  intros Hn%init_inv H. destruct (reach_inv _ _ Hn H) as [_ [Hw Hp Hf Ho _] _].
  split_and!; [done|done| |].
  - intros i j pc pc' Hi Hj H1%(Hw _ _ Hi) H2%(Hw _ _ Hj). congruence.
  - intros Hin%Hp. apply Forall_lookup. intros i pc Hi H1%(Hw _ _ Hi). congruence.
Qed.

(** C28: no lost wake-up.  From every state that any schedule reaches, spurious
    wake-ups included, every schedule of the workers and of the call of
    [threadpool_produce] under way, without another call and without help from
    spurious wake-ups, makes at most [pool_weight] steps; it can only stop when
    the queue is empty, every worker waits and all that was produced has been
    started in order and finished once; and until then it can go on. *)
Theorem pool_drains mutex_err cond_err errs tp :
  (0 < length (tp_threads (threadpool_init mutex_err cond_err errs)))%nat ->
  rtc pool_step (threadpool_init mutex_err cond_err errs) tp ->
  (forall n tp', nsteps quiet_step n tp tp' -> (n <= pool_weight tp)%nat) /\
  forall tp', rtc quiet_step tp tp' ->
    tp_produced tp `prefix_of` tp_produced tp' /\
    ((exists tp'', quiet_step tp' tp'') \/
     (tp_queue tp' = [] /\ Forall (fun pc => pc = WWait) (tp_threads tp') /\
      tp_started tp' = tp_produced tp' /\ tp_finished tp' ≡ₚ tp_produced tp')).
Proof.
  intros Hn%init_inv H. pose proof (reach_inv _ _ Hn H) as Hinv. split.
  - intros n tp' Hs%quiet_nsteps. lia.
  - intros tp' Hs. split; [by apply quiet_produced|].
    assert (Hinv' : pool_inv tp') by (eapply reach_inv; [exact Hinv|]; eapply rtc_subrel; [exact quiet_pool|done]).
    destruct (quiet_progress tp' Hinv') as [Hrest|?]; [right|by left].
    destruct (rest_finished tp' Hinv' Hrest) as [? ?]. by destruct Hrest as (? & _ & ?).
Qed.
End threadpool.

(** ** Witnesses *)

(** One worker waits; an item is pushed and the worker is signalled. *)
Definition pool_waiting : @ThreadPool nat := mkPool [] None [WWait] PIdle [] [] [].
Definition pool_pushed : @ThreadPool nat := mkPool [7%nat] (Some Producer) [WWoken] PUnlock [7%nat] [] [].

Lemma pool_waiting_reach : rtc pool_step (threadpool_init 0 0 [0]) pool_waiting.
Proof.
  eapply rtc_l; [left; exists 0%nat; by apply ws_lock|]. cbn.
  eapply rtc_l; [left; exists 0%nat; by apply ws_wait|]. apply rtc_refl.
Qed.

Lemma pool_pushed_reach : rtc pool_step (threadpool_init 0 0 [0]) pool_pushed.
Proof.
  etrans; [apply pool_waiting_reach|].
  eapply rtc_l; [right; left; by apply (ps_call _ 7%nat)|]. cbn.
  eapply rtc_l; [right; left; by apply (ps_lock _ 7%nat)|]. cbn.
  eapply rtc_l; [right; left; by apply (ps_push _ 7%nat)|]. cbn.
  eapply rtc_l; [right; left; by apply (ps_signal _ 0%nat)|]. apply rtc_refl.
Qed.

Lemma pool_fifo_once_witness :
  tp_produced pool_pushed = tp_started pool_pushed ++ tp_queue pool_pushed /\
  (producer_inside (tp_producer pool_pushed) -> Forall (fun pc => ~ inside pc) (tp_threads pool_pushed)).
Proof.
  destruct (pool_fifo_once 0 0 [0] pool_pushed ltac:(cbn; lia) pool_pushed_reach) as (H1 & _ & _ & H2). split; [exact H1|exact H2].
Defined.

Lemma pool_drains_witness :
  (forall n tp', nsteps quiet_step n pool_pushed tp' -> (n <= 7)%nat) /\
  ((exists tp'', quiet_step pool_pushed tp'') \/ tp_queue pool_pushed = []).
Proof.
  destruct (pool_drains 0 0 [0] pool_pushed ltac:(cbn; lia) pool_pushed_reach) as [H1 H2]. split; [exact H1|].
  destruct (H2 _ (rtc_refl _ _)) as [_ [H|[H _]]]; [by left|by right].
Defined.
