(* ===== verification/Scenarios.v ===== *)
(** * Sessions

    Sequences of commands, run on the executable model from an empty database,
    in which the handlers of [src/src/redis_functions.cpp] and the tables of
    [src/src/data_structures/hashmap.cpp] lose data or leave defined
    behaviour. *)

From Stdlib Require Import String.
From S2P Require Import Prelude Libc Dstr Dlist Heap Hash Buffers Request Hashmap Avl Hll Node Zset Commands Keyspace Wire Expiry.

(** ** Running a session *)

(** A command as the client sends it. *)
Definition say (q : list string) : list dstr := (fun s => exact_dstr (lit s)) <$> q.

(** The commands one after the other, at the time [now]. *)
Fixpoint session (now : Z) (qs : list (list string)) (st : Store) : result Store :=
  match qs with
  | [] => Ok st
  | q :: qs => '(_, st) ← serve_cmd (fun x => x) now (fst (before_res_build [])) (say q) st; session now qs st
  end.

(** The body of the response to a command. *)
Definition reply (now : Z) (q : list string) (st : Store) : result (list Z) :=
  '(out, _) ← serve_cmd (fun x => x) now (fst (before_res_build [])) (say q) st; Ok (drop 4 out).

(** SET of [n] keys of one letter each. *)
Definition letters (n : nat) : list (list string) :=
  (fun i => ["set"; String (Ascii.ascii_of_nat (65 + i)) EmptyString; "x"]%string) <$> seq 0 n.

Definition after (now : Z) (qs : list (list string)) : result Store := session now qs st_empty.

#[local] Open Scope string_scope.

(** ** Properties *)

(** (Resizing disposes of the values it moves): a hash field is readable
    after 30 more keys are set and gone after 31: the insertion of the 32nd
    key starts a resize, and [ht_unlink], which [hm_rehash_help] uses to move
    nodes, empties the hash of every node it moves. *)
Theorem resize_empties_hash :
  (st ← after 0 (["hset"; "h"; "f"; "v"] :: letters 30); reply 0 ["hget"; "h"; "f"] st)
  = Ok (response_body RES_OK [IStr (lit "v")]) /\
  (st ← after 0 (["hset"; "h"; "f"; "v"] :: letters 31); reply 0 ["hget"; "h"; "f"] st)
  = Ok (response_body RES_OK [INull]).
Proof. split; vm_compute; reflexivity. Qed.

(** The same for sorted sets: the member is gone. *)
Theorem resize_empties_zset :
  (st ← after 0 (["zadd"; "z"; "1"; "m"] :: letters 31); reply 0 ["zscore"; "z"; "m"] st)
  = Ok (response_body RES_OK [INull]).
Proof. vm_compute. reflexivity. Qed.

(** (A deleted key keeps its deadline): after SET, EXPIRE and DEL of a key
    the entry stays in the heap, and the expiry loop follows it into the freed
    node. *)
Theorem del_leaves_deadline :
  exists st, after 0 [["set"; "k"; "v"]; ["expire"; "k"; "1"]; ["del"; "k"]] = Ok st /\
    length (s_heap st) = 1%nat /\ expire_entries 2000 (world st []) = Fault Dangling.
Proof.
  destruct (after 0 [["set"; "k"; "v"]; ["expire"; "k"; "1"]; ["del"; "k"]]) as [st|f] eqn:E; [|by vm_compute in E].
  exists st. split; [done|]. vm_compute in E. injection E as <-. split; vm_compute; reflexivity.
Qed.

(** (EXPIRE does not look for a deadline): a second EXPIRE of a key, which is
    how a deadline is changed, adds a second entry for the same node; when the
    first deadline has passed the expiry loop deletes the node and then follows
    the other entry into it. *)
Theorem expire_twice :
  exists st l, after 0 [["set"; "k"; "v"]; ["expire"; "k"; "1"]; ["expire"; "k"; "5"]] = Ok st /\
    s_heap st = [mkHeapNode 1000 l; mkHeapNode 5000 l] /\ expire_entries 1001 (world st []) = Fault Dangling.
Proof.
  destruct (after 0 [["set"; "k"; "v"]; ["expire"; "k"; "1"]; ["expire"; "k"; "5"]]) as [st|f] eqn:E; [|by vm_compute in E].
  exists st, 1%positive. split; [done|]. vm_compute in E. injection E as <-. split; vm_compute; reflexivity.
Qed.

(** (The key of the wrong node is assigned): HSET of a field that exists
    dereferences a null key. *)
Theorem hset_existing_field :
  (st ← after 0 [["hset"; "h"; "f"; "v"]]; reply 0 ["hset"; "h"; "f"; "w"] st) = Fault NullDeref.
Proof. vm_compute. reflexivity. Qed.

(** HSET stores the first pair only. *)
Theorem hset_first_pair :
  (st ← after 0 [["hset"; "h"; "f"; "v"; "g"; "w"]]; reply 0 ["hget"; "h"; "g"] st)
  = Ok (response_body RES_OK [INull]).
Proof. vm_compute. reflexivity. Qed.

(** SADD of a member twice counts it twice. *)
Theorem sadd_duplicates :
  (st ← after 0 [["sadd"; "s"; "a"]; ["sadd"; "s"; "a"]]; reply 0 ["scard"; "s"] st)
  = Ok (response_body RES_OK [IInt 2]).
Proof. vm_compute. reflexivity. Qed.

(** TTL after PERSIST reads the heap out of range. *)
Theorem ttl_after_persist :
  (st ← after 0 [["set"; "k"; "v"]; ["expire"; "k"; "1"]; ["persist"; "k"]]; reply 0 ["ttl"; "k"] st)
  = Fault OutOfBounds.
Proof. vm_compute. reflexivity. Qed.

(** TTL takes the clock as 32 bits: after 2^32 ms it is wrong by 2^32 ms. *)
Theorem ttl_wraps :
  (st ← after 5000000000 [["set"; "k"; "v"]; ["expire"; "k"; "10"]]; reply 5000000000 ["ttl"; "k"] st)
  = Ok (response_body RES_OK [IInt (10 + 4294967)]).
Proof. vm_compute. reflexivity. Qed.

(** LPOP without a count reads an argument that is not there. *)
Theorem pop_without_count :
  (st ← after 0 [["lpush"; "l"; "a"]]; reply 0 ["lpop"; "l"] st) = Fault OutOfBounds.
Proof. vm_compute. reflexivity. Qed.

(** GET of a list reads a field that was never written. *)
Theorem get_of_list :
  (st ← after 0 [["lpush"; "l"; "a"]]; reply 0 ["get"; "l"] st) = Fault Uninitialised.
Proof. vm_compute. reflexivity. Qed.

(** PFMERGE has no body. *)
Theorem pfmerge_missing : reply 0 ["pfmerge"; "a"; "b"] st_empty = Fault MissingReturn.
Proof. vm_compute. reflexivity. Qed.
