(* ===== verification/Registers.v ===== *)
(** * The dense registers and the cache of a HyperLogLog
    ([src/src/data_structures/hyperloglog.cpp])

    The 16384 registers of six bits are packed from the low bit of the first
    byte after the header.  [bit] reads one bit of the block; the theorems
    compare [set_reg] and [get_reg] with it. *)

From Stdlib Require Import QArith.
From S2P Require Import Prelude Dstr Hash Hll.

Local Close Scope Q_scope.
Local Open Scope Z_scope.

(** ** Representation *)

(** A block whose bytes are all written. *)
Definition holds (hll : dstr) (bs : list Z) : Prop := d_buf hll = (Some <$> bs) /\ bytes_ok bs.

(** Bit [k] of the block, counted from the low bit of its first byte. *)
Definition bit (bs : list Z) (k : Z) : bool := Z.testbit (nth (Z.to_nat (k / 8)) bs 0) (k mod 8).

(** The first bit of a register. *)
Definition reg_pos (r : Z) : Z := 8 * HLL_HEADER_SIZE_BYTES + 6 * r.

(** The value of a register. *)
Definition reg (bs : list Z) (r : Z) : Z :=
  foldr (fun i acc => Z.b2z (bit bs (reg_pos r + i)) + 2 * acc) 0 [0; 1; 2; 3; 4; 5].

(** The size of a dense block: header, registers and terminator. *)
Definition dense_size : Z := HLL_HEADER_SIZE_BYTES + HLL_DENSE_SIZE_BYTES + 1.

(** ** Lemmas *)

Lemma buf_get_ok hll bs i b : holds hll bs -> 0 <= i -> bs !! Z.to_nat i = Some b -> buf_get hll i = Ok b.
Proof. intros [Hb _]. apply (buf_get_at hll bs []). by rewrite app_nil_r. Qed.

Lemma insert_byte (bs : list Z) i v : bytes_ok bs -> bytes_ok (<[i := u8 v]> bs).
Proof. intros H. apply Forall_insert; [done|]. apply u8_range. Qed.

Lemma buf_put_ok hll bs i v :
  holds hll bs -> 0 <= i < Z.of_nat (length bs) ->
  exists hll', buf_put hll i v = Ok hll' /\ holds hll' (<[Z.to_nat i := u8 v]> bs) /\
    d_size hll' = d_size hll /\ d_free hll' = d_free hll.
Proof.
  intros [Hb Hok] Hi. rewrite (buf_put_at hll bs [] i v) by (by rewrite ?app_nil_r).
  eexists. split; [reflexivity|]. split; [|done]. split; [by rewrite app_nil_r|by apply insert_byte].
Qed.

Lemma testbit_small v i n : 0 <= v < 2 ^ n -> n <= i -> Z.testbit v i = false.
Proof.
  intros Hv Hi. destruct (decide (v = 0)) as [->|Hne]; [apply Z.bits_0|].
  apply Z.bits_above_log2; [lia|]. assert (Z.log2 v < n) by (apply Z.log2_lt_pow2; lia). lia.
Qed.

Lemma testbit_u32 z i : 0 <= i < 32 -> Z.testbit (u32 z) i = Z.testbit z i.
Proof. intros Hi. unfold u32. by rewrite Z.mod_pow2_bits_low by lia. Qed.

Lemma testbit_u8 z i : 0 <= i < 8 -> Z.testbit (u8 z) i = Z.testbit z i.
Proof. intros Hi. unfold u8. by rewrite Z.mod_pow2_bits_low by lia. Qed.

(** The sign extension of a [char] does not change its low bits. *)
Lemma testbit_char b i : 0 <= b < 2 ^ 8 -> 0 <= i < 8 -> Z.testbit (if b <? 128 then b else b - 256) i = Z.testbit b i.
Proof.
  intros Hb Hi. case_match; [done|]. rewrite <- (Z.mod_pow2_bits_low (b - 256) 8 i) by lia.
  replace (b - 256) with (b + (-1) * 2 ^ 8) by lia. rewrite Z_mod_plus_full, Z.mod_small by lia. done.
Qed.

(** Clearing and setting the bits of a value that starts at bit [fb]. *)
Lemma byte_low c v fb i :
  0 <= fb < 8 -> 0 <= v < 2 ^ 6 -> 0 <= i < 8 ->
  Z.testbit (Z.land (Z.lor (Z.land (u32 c) (u32 (Z.lnot (Z.shiftl 63 fb)))) (u32 (Z.shiftl v fb))) 255) i
  = if (fb <=? i) && (i <? fb + 6) then Z.testbit v (i - fb) else Z.testbit c i.
Proof.
  intros Hfb Hv Hi. rewrite Z.land_spec, Z.lor_spec, Z.land_spec, !testbit_u32 by lia.
  rewrite Z.lnot_spec by lia. rewrite !Z.shiftl_spec by lia.
  change 255 with (Z.ones 8). rewrite (Z.ones_spec_low 8 i), andb_true_r by lia.
  change 63 with (Z.ones 6). destruct (Z.leb_spec fb i) as [Hle|Hlt]; cbn [andb].
  - destruct (Z.ltb_spec i (fb + 6)).
    + rewrite Z.ones_spec_low by lia. cbn. by rewrite andb_false_r.
    + rewrite Z.ones_spec_high, (testbit_small v (i - fb) 6) by lia. cbn. by rewrite andb_true_r, orb_false_r.
  - rewrite (Z.testbit_neg_r (Z.ones 6)), (Z.testbit_neg_r v) by lia. cbn. by rewrite andb_true_r, orb_false_r.
Qed.

Lemma byte_high c v fb i :
  0 <= fb < 8 -> 0 <= v < 2 ^ 6 -> 0 <= i < 8 ->
  Z.testbit (Z.land (Z.lor (Z.land (u32 c) (u32 (Z.lnot (Z.shiftr 63 (8 - fb))))) (Z.shiftr v (8 - fb))) 255) i
  = if i + 8 <? fb + 6 then Z.testbit v (i + 8 - fb) else Z.testbit c i.
Proof.
  intros Hfb Hv Hi. rewrite Z.land_spec, Z.lor_spec, Z.land_spec, !testbit_u32 by lia.
  rewrite Z.lnot_spec by lia. rewrite !Z.shiftr_spec by lia.
  change 255 with (Z.ones 8). rewrite (Z.ones_spec_low 8 i), andb_true_r by lia.
  change 63 with (Z.ones 6). replace (i + (8 - fb)) with (i + 8 - fb) by lia.
  destruct (Z.ltb_spec (i + 8) (fb + 6)).
  - rewrite Z.ones_spec_low by lia. cbn. by rewrite andb_false_r.
  - rewrite Z.ones_spec_high, (testbit_small v (i + 8 - fb) 6) by lia. cbn. by rewrite andb_true_r, orb_false_r.
Qed.

(** Where a register starts. *)
Lemma reg_at r :
  0 <= r < REGISTER_CNT ->
  8 * reg_byte r + reg_bit r = reg_pos r /\ 0 <= reg_bit r < 8 /\ 16 <= reg_byte r < 16 + HLL_DENSE_SIZE_BYTES.
Proof.
  unfold reg_byte, reg_bit, reg_pos, REGISTER_CNT, HLL_HEADER_SIZE_BYTES. intros Hr. rewrite u32_small by lia.
  change HLL_DENSE_SIZE_BYTES with 12288.
  pose proof (Z.div_mod (6 * r) 8 ltac:(lia)). pose proof (Z.mod_pos_bound (6 * r) 8 ltac:(lia)). lia.
Qed.

Lemma bit_byte bs j i : 0 <= j -> 0 <= i < 8 -> bit bs (8 * j + i) = Z.testbit (nth (Z.to_nat j) bs 0) i.
Proof.
  intros Hj Hi. unfold bit. rewrite (Z.mul_comm 8 j), Z.add_comm, Z.div_add, Z_mod_plus_full by lia.
  by rewrite Z.div_small, Z.mod_small, Z.add_0_l by lia.
Qed.

Lemma nth_insert (bs : list Z) n m v :
  (n < length bs)%nat -> nth m (<[n := v]> bs) 0 = if decide (m = n) then v else nth m bs 0.
Proof.
  intros Hn. rewrite !nth_lookup. case_decide as E; [subst; by rewrite list_lookup_insert_eq|].
  by rewrite list_lookup_insert_ne.
Qed.

Lemma buf_char_ok hll bs i b :
  holds hll bs -> 0 <= i -> bs !! Z.to_nat i = Some b ->
  buf_char hll i = Ok (if b <? 128 then b else b - 256) /\ 0 <= b < 2 ^ 8.
Proof.
  intros H Hi Hb. unfold buf_char. rewrite (buf_get_ok _ _ _ _ H Hi Hb). split; [done|].
  destruct H as [_ H]. by apply (Forall_lookup_1 _ _ _ _ H) in Hb.
Qed.

Lemma set_reg_ok hll bs r v :
  holds hll bs -> dense_size <= Z.of_nat (length bs) -> 0 <= r < REGISTER_CNT -> 0 <= v < 2 ^ 6 ->
  exists hll' bs', set_reg hll r v = Ok hll' /\ holds hll' bs' /\ length bs' = length bs /\ d_size hll' = d_size hll /\
    forall k, 0 <= k -> bit bs' k = if (reg_pos r <=? k) && (k <? reg_pos r + 6) then Z.testbit v (k - reg_pos r) else bit bs k.
Proof.
  intros H Hlen Hr Hv. destruct (reg_at r Hr) as (Hp & Hfb & Hb). change dense_size with (16 + HLL_DENSE_SIZE_BYTES + 1) in Hlen.
  set (b0 := reg_byte r) in *. set (fb := reg_bit r) in *.
  destruct (lookup_lt_is_Some_2 bs (Z.to_nat b0) ltac:(lia)) as [c0 Hc0].
  destruct (lookup_lt_is_Some_2 bs (Z.to_nat (b0 + 1)) ltac:(lia)) as [c1 Hc1].
  destruct (buf_char_ok _ _ b0 _ H ltac:(lia) Hc0) as [E0 Hr0].
  destruct (buf_char_ok _ _ (b0 + 1) _ H ltac:(lia) Hc1) as [E1 Hr1].
  unfold set_reg. fold b0 fb. rewrite E0. cbn [mbind result_bind]. rewrite E1. cbn [mbind result_bind].
  set (B0 := Z.land (Z.lor _ (u32 (Z.shiftl v fb))) 255). destruct (buf_put_ok hll bs b0 B0 H) as (h1 & -> & H1 & Hs1 & _); [lia|].
  cbn [mbind result_bind]. set (B1 := Z.land (Z.lor _ (Z.shiftr v (8 - fb))) 255).
  destruct (buf_put_ok h1 _ (b0 + 1) B1 H1) as (h2 & -> & H2 & Hs2 & _); [rewrite length_insert; lia|].
  exists h2. eexists. split; [done|]. split; [exact H2|]. split; [by rewrite !length_insert|]. split; [congruence|].
  intros k Hk. assert (Hki : k = 8 * (k / 8) + k mod 8) by (apply Z.div_mod; lia).
  pose proof (Z.mod_pos_bound k 8 ltac:(lia)) as Hi. assert (Hj : 0 <= k / 8) by (apply Z.div_pos; lia).
  set (j := k / 8) in *. set (i := k mod 8) in *. rewrite Hki, !bit_byte by lia.
  rewrite !nth_insert by (rewrite ?length_insert; lia). rewrite <- Hp.
  destruct (decide (Z.to_nat j = Z.to_nat (b0 + 1))) as [Ej|Ej].
  - assert (j = b0 + 1) as -> by lia. rewrite testbit_u8 by lia. unfold B1. rewrite byte_high by lia. rewrite testbit_char by lia.
    rewrite nth_lookup, Hc1. cbn [default]. zbool. cbn [andb].
    replace (8 * (b0 + 1) + i <? 8 * b0 + fb + 6) with (i + 8 <? fb + 6) by (destruct (Z.ltb_spec (i + 8) (fb + 6)); by zbool).
    by replace (8 * (b0 + 1) + i - (8 * b0 + fb)) with (i + 8 - fb) by lia.
  - destruct (decide (Z.to_nat j = Z.to_nat b0)) as [Ej'|Ej'].
    + assert (j = b0) as -> by lia. rewrite testbit_u8 by lia. unfold B0. rewrite byte_low by lia. rewrite testbit_char by lia.
      rewrite nth_lookup, Hc0. cbn [default].
      replace (8 * b0 + fb <=? 8 * b0 + i) with (fb <=? i) by (destruct (Z.leb_spec fb i); by zbool).
      replace (8 * b0 + i <? 8 * b0 + fb + 6) with (i <? fb + 6) by (destruct (Z.ltb_spec i (fb + 6)); by zbool).
      by replace (8 * b0 + i - (8 * b0 + fb)) with (i - fb) by lia.
    + destruct (Z.leb_spec (8 * b0 + fb) (8 * j + i)); cbn [andb]; [|done]. by zbool.
Qed.

Lemma b2z_testbits v : 0 <= v < 2 ^ 6 ->
  foldr (fun i acc => Z.b2z (Z.testbit v i) + 2 * acc) 0 [0; 1; 2; 3; 4; 5] = v.
Proof.
  intros Hv.
  assert (Hall : Forall (fun v => foldr (fun i acc => Z.b2z (Z.testbit v i) + 2 * acc) 0 [0; 1; 2; 3; 4; 5] = v) (seqZ 0 64))
    by by_compute.
  rewrite Forall_forall in Hall. apply Hall, elem_of_seqZ. lia.
Qed.

(** Two blocks with the same bits in a register. *)
Lemma reg_ext bs bs' r : (forall i, 0 <= i < 6 -> bit bs' (reg_pos r + i) = bit bs (reg_pos r + i)) -> reg bs' r = reg bs r.
Proof. intros H. unfold reg. cbn [foldr]. by rewrite !H by lia. Qed.

(** ** The cache *)

Lemma put_bytes_at n hll (bs : list Z) (rest : list cell) i v :
  d_buf hll = (Some <$> bs) ++ rest -> 0 <= i -> i + Z.of_nat n <= Z.of_nat (length bs) ->
  put_bytes n hll i v = Ok (mkDstr (d_size hll) (d_free hll)
    ((Some <$> take (Z.to_nat i) bs ++ le_bytes n v ++ drop (Z.to_nat i + n) bs) ++ rest)).
Proof.
  revert hll bs i v. induction n as [|n IH]; intros hll bs i v H Hi Hl; cbn [put_bytes].
  - change (le_bytes 0 v) with ([] : list Z). cbn [app]. rewrite Nat.add_0_r, take_drop, <- H. by destruct hll.
  - rewrite (buf_put_at hll bs rest i _ H) by lia. cbn [mbind result_bind].
    erewrite IH; [|reflexivity|lia|rewrite length_insert; lia]. cbn [d_size d_free]. do 4 f_equal.
    replace (Z.to_nat (i + 1)) with (S (Z.to_nat i)) by lia. rewrite drop_insert_lt by lia.
    rewrite (take_S_r _ _ (u8 (Z.land v 255))), take_insert_ge by (rewrite ?list_lookup_insert_eq; (done || lia)).
    rewrite <- app_assoc. cbn [app]. replace (Z.to_nat i + S n)%nat with (S (Z.to_nat i) + n)%nat by lia.
    unfold le_bytes; fold le_bytes. cbn [app]. rewrite Z.shiftr_div_pow2 by lia. do 2 f_equal.
    change 255 with (Z.ones 8). rewrite Z.land_ones by lia. unfold u8. by rewrite Z.mod_mod.
Qed.

Lemma lor_above b x shift :
  0 <= shift -> 0 <= b < 2 ^ 8 -> Z.lor (Z.shiftl b shift) (x * 2 ^ (shift + 8)) = b * 2 ^ shift + x * 2 ^ (shift + 8).
Proof.
  intros Hs Hb. rewrite <- !Z.shiftl_mul_pow2 by lia. symmetry. rewrite <- Z.add_lor_land.
  replace (Z.land _ _) with 0; [lia|]. symmetry. apply Z.bits_inj_0. intros i.
  rewrite Z.land_spec. destruct (decide (0 <= i)); [|by rewrite Z.testbit_neg_r by lia].
  rewrite !Z.shiftl_spec by lia. destruct (decide (i < shift + 8)).
  - by rewrite (Z.testbit_neg_r x), andb_false_r by lia.
  - by rewrite (testbit_small b (i - shift) 8) by lia.
Qed.

Lemma get_bytes_at n hll (bs : list Z) (rest : list cell) i k shift :
  d_buf hll = (Some <$> bs) ++ rest -> bytes_ok bs -> 0 <= i -> 0 <= shift -> take n (drop (Z.to_nat i) bs) = k -> length k = n ->
  get_bytes n hll i shift = Ok (le_val k * 2 ^ shift).
Proof.
  intros H Hok. revert i k shift. induction n as [|n IH]; intros i k shift Hi Hs Hk Hl; cbn [get_bytes].
  - destruct k; [|done]. done.
  - destruct k as [|b k]; [done|]. destruct (drop (Z.to_nat i) bs) as [|b' rest'] eqn:Ed; [done|]. cbn in Hk, Hl.
    injection Hk as -> Hk. assert (Hb : bs !! Z.to_nat i = Some b).
    { rewrite <- (Nat.add_0_r (Z.to_nat i)), <- lookup_drop, Ed. done. }
    rewrite (buf_get_at _ _ _ _ _ H Hi Hb). cbn [mbind result_bind].
    rewrite (IH (i + 1) k (shift + 8)); [|lia|lia| |lia].
    2: { replace (Z.to_nat (i + 1)) with (S (Z.to_nat i)) by lia. rewrite <- Nat.add_1_r, <- drop_drop, Ed. done. }
    cbn [mbind result_bind le_val]. f_equal. pose proof (Forall_lookup_1 _ _ _ _ Hok Hb) as Hbr. cbn in Hbr.
    rewrite lor_above by lia. rewrite Z.pow_add_r by lia. lia.
Qed.

Lemma byte_of_bits b : 0 <= b < 2 ^ 8 ->
  b = foldr (fun i acc => Z.b2z (Z.testbit b i) + 2 * acc) 0 [0; 1; 2; 3; 4; 5]
      + 64 * (Z.b2z (Z.testbit b 6) + 2 * Z.b2z (Z.testbit b 7)).
Proof.
  intros Hb.
  assert (Hall : Forall (fun b => b = foldr (fun i acc => Z.b2z (Z.testbit b i) + 2 * acc) 0 [0; 1; 2; 3; 4; 5]
      + 64 * (Z.b2z (Z.testbit b 6) + 2 * Z.b2z (Z.testbit b 7))) (seqZ 0 256)) by by_compute.
  rewrite Forall_forall in Hall. apply Hall, elem_of_seqZ. lia.
Qed.

(** A register that starts a byte is read as that byte. *)
Lemma get_reg_byte hll bs r b :
  holds hll bs -> dense_size <= Z.of_nat (length bs) -> 0 <= r < REGISTER_CNT -> reg_bit r = 0 ->
  bs !! Z.to_nat (reg_byte r) = Some b -> get_reg hll r = Ok b.
Proof.
  intros H Hlen Hr Hfb Hb. destruct (reg_at r Hr) as (_ & _ & Hb0). change dense_size with (16 + HLL_DENSE_SIZE_BYTES + 1) in Hlen.
  destruct (lookup_lt_is_Some_2 bs (Z.to_nat (reg_byte r + 1)) ltac:(lia)) as [c1 Hc1].
  destruct (buf_char_ok _ _ (reg_byte r) _ H ltac:(lia) Hb) as [E0 Hr0].
  destruct (buf_char_ok _ _ (reg_byte r + 1) _ H ltac:(lia) Hc1) as [E1 Hr1].
  unfold get_reg. rewrite E0. cbn [mbind result_bind]. rewrite E1. cbn [mbind result_bind]. rewrite Hfb, Z.shiftr_0_r.
  f_equal. apply Z.bits_inj'. intros i Hi. rewrite Z.land_spec. change 255 with (Z.ones 8).
  destruct (decide (i < 8)).
  - rewrite Z.ones_spec_low, andb_true_r, Z.lor_spec, !testbit_u32, testbit_char by lia.
    rewrite Z.shiftl_spec, (Z.testbit_neg_r (u32 _)), orb_false_r by lia. done.
  - by rewrite Z.ones_spec_high, andb_false_r, (testbit_small b i 8) by lia.
Qed.

Lemma reg_bits r bs : 0 <= r -> reg bs r mod 4 = Z.b2z (bit bs (reg_pos r)) + 2 * Z.b2z (bit bs (reg_pos r + 1)).
Proof.
  intros Hr. unfold reg. cbn [foldr]. rewrite Z.add_0_r. set (x := _ + 2 * (Z.b2z (bit bs (reg_pos r + 3)) + _)).
  set (p := Z.b2z (bit bs (reg_pos r))). set (q := Z.b2z (bit bs (reg_pos r + 1))).
  assert (Hb : forall c, 0 <= Z.b2z c <= 1) by (intros []; cbn; lia).
  assert (0 <= p <= 1) by apply Hb. assert (0 <= q <= 1) by apply Hb.
  replace (p + 2 * (q + 2 * x)) with (p + 2 * q + x * 4) by lia. rewrite Z_mod_plus_full, Z.mod_small; lia.
Qed.

(** Bits 6 and 7 of a byte. *)
Lemma byte_top x : Z.testbit x 6 = true -> Z.testbit x 7 = true -> 192 <= Z.land x 255 < 256.
Proof.
  intros H6 H7. change 255 with (Z.ones 8). rewrite Z.land_ones by lia. set (b := x mod 2 ^ 8).
  assert (Hb : 0 <= b < 2 ^ 8) by (apply Z.mod_pos_bound; lia). split; [|lia].
  rewrite (byte_of_bits b) by done. unfold b. cbn [foldr]. rewrite !(Z.mod_pow2_bits_low x 8) by lia. rewrite H6, H7.
  destruct (Z.testbit x 0), (Z.testbit x 1), (Z.testbit x 2), (Z.testbit x 3), (Z.testbit x 4), (Z.testbit x 5); cbn [Z.b2z]; lia.
Qed.

Lemma get_reg_reads hll bs r :
  holds hll bs -> dense_size <= Z.of_nat (length bs) -> 0 <= r < REGISTER_CNT -> exists v, get_reg hll r = Ok v.
Proof.
  intros H Hlen Hr. destruct (reg_at r Hr) as (_ & _ & Hb0). change dense_size with (16 + HLL_DENSE_SIZE_BYTES + 1) in Hlen.
  destruct (lookup_lt_is_Some_2 bs (Z.to_nat (reg_byte r)) ltac:(lia)) as [c0 Hc0].
  destruct (lookup_lt_is_Some_2 bs (Z.to_nat (reg_byte r + 1)) ltac:(lia)) as [c1 Hc1].
  destruct (buf_char_ok _ _ (reg_byte r) _ H ltac:(lia) Hc0) as [E0 _].
  destruct (buf_char_ok _ _ (reg_byte r + 1) _ H ltac:(lia) Hc1) as [E1 _].
  unfold get_reg. rewrite E0. cbn [mbind result_bind]. rewrite E1. by eexists.
Qed.

Lemma estimate_regs_overflow n hll bs i r v sum :
  holds hll bs -> dense_size <= Z.of_nat (length bs) -> 0 <= i <= r -> r < i + Z.of_nat n -> i + Z.of_nat n <= REGISTER_CNT ->
  get_reg hll r = Ok v -> 64 <= v -> estimate_regs n hll i sum = Fault Overflow.
Proof.
  intros H Hlen. revert i sum. induction n as [|n IH]; intros i sum Hi Hr Hn Hv H64; [lia|]. cbn [estimate_regs].
  destruct (get_reg_reads hll bs i H Hlen) as [w Ew]; [lia|]. rewrite Ew. cbn [mbind result_bind]. unfold inv_pow2.
  destruct (Z.ltb_spec w 64); cbn [check mbind result_bind]; [|done].
  apply IH; try done; [|lia|lia]. assert (i <> r) by (intros ->; rewrite Ew in Hv; injection Hv; lia). lia.
Qed.

(** The block with the cache filled in. *)
Definition cached (bs : list Z) (v : Z) : list Z := take 8 bs ++ le_bytes 8 v ++ drop 16 bs.

Lemma cached_length bs v : 16 <= Z.of_nat (length bs) -> length (cached bs v) = length bs.
Proof. intros H. unfold cached. len. Qed.

Lemma cache_set_ok hll (bs : list Z) (rest : list cell) v :
  d_buf hll = (Some <$> bs) ++ rest -> bytes_ok bs -> 16 <= Z.of_nat (length bs) -> 0 <= v < 2 ^ 63 ->
  exists h, set_cache hll v = Ok h /\ d_buf h = (Some <$> cached bs v) ++ rest /\ bytes_ok (cached bs v) /\
    (d_size h = d_size hll /\ d_free h = d_free hll) /\ cache_valid h = Ok true /\ get_cache h = Ok v.
Proof.
  intros Hb Hok Hlen Hv. unfold set_cache. zbool. cbn [check mbind result_bind].
  rewrite (put_bytes_at 8 hll bs rest 8 v Hb) by lia. change (Z.to_nat 8) with 8%nat. change (8 + 8)%nat with 16%nat.
  fold (cached bs v). set (bs1 := cached bs v). set (h := mkDstr _ _ _). exists h. split; [done|]. split; [done|].
  assert (Hok1 : bytes_ok bs1).
  { unfold bs1, cached, bytes_ok. rewrite !Forall_app. split_and!; [by apply Forall_take|apply le_bytes_ok|by apply Forall_drop]. }
  split; [done|]. split; [done|]. assert (Hl8 : length (take 8 bs) = 8%nat) by (rewrite length_take; lia).
  assert (Hd : take 8 (drop 8 bs1) = le_bytes 8 v).
  { unfold bs1, cached. rewrite <- Hl8 at 2. rewrite drop_app_length. by rewrite take_app_le, take_ge by (rewrite le_bytes_length; lia). }
  destruct (lookup_lt_is_Some_2 (le_bytes 8 v) 7 ltac:(rewrite le_bytes_length; lia)) as [b Hb7].
  assert (Hb15 : bs1 !! 15%nat = Some b).
  { unfold bs1, cached. rewrite lookup_app_r by lia. rewrite Hl8. by rewrite lookup_app_l by (rewrite le_bytes_length; lia). }
  assert (Hr : 0 <= b < 128).
  { assert (b = v / 2 ^ 56) as ->.
    { unfold le_bytes in Hb7. cbn in Hb7. injection Hb7 as <-. rewrite !Z.div_div by lia. change (_ * _) with (2 ^ 56).
      apply Z.mod_small. split; [apply Z.div_pos; lia|]. apply Z.div_lt_upper_bound; lia. }
    split; [apply Z.div_pos; lia|]. apply Z.div_lt_upper_bound; lia. }
  assert (Hv1 : cache_valid h = Ok true).
  { unfold cache_valid. rewrite (buf_get_at h bs1 rest 15 b eq_refl ltac:(lia) Hb15). cbn [mbind result_bind].
    by rewrite (testbit_small b 7 7) by lia. }
  split; [done|]. unfold get_cache. rewrite Hv1. cbn [check mbind result_bind].
  rewrite (get_bytes_at 8 h bs1 rest 8 (le_bytes 8 v) 0 eq_refl Hok1); [|lia|lia|exact Hd|apply le_bytes_length].
  rewrite le_val_bytes_small by lia. f_equal. lia.
Qed.

Lemma cache_cleared hll bs :
  holds hll bs -> 16 <= Z.of_nat (length bs) -> exists h, invalidate_cache hll = Ok h /\ cache_valid h = Ok false.
Proof.
  intros H Hlen. destruct (lookup_lt_is_Some_2 bs 15 ltac:(lia)) as [b Hb].
  destruct (buf_put_ok hll bs 15 (Z.lor b 128) H) as (h & E & Hh & _); [lia|]. exists h. split.
  - unfold invalidate_cache. by rewrite (buf_get_ok hll bs 15 b H ltac:(lia) Hb).
  - unfold cache_valid. rewrite (buf_get_ok h _ 15 (u8 (Z.lor b 128)) Hh ltac:(lia));
      [|change (Z.to_nat 15) with 15%nat; rewrite list_lookup_insert_eq by lia; done].
    cbn [mbind result_bind]. rewrite testbit_u8, Z.lor_spec by lia. change (Z.testbit 128 7) with true. by rewrite orb_true_r.
Qed.

(** ** Properties *)

(** C38: [set_reg] stores the value in its register and changes no other
    register and no bit of the header, for every one of the 16384 registers
    and also where a register spans two bytes. *)
Theorem set_reg_exact hll bs r v :
  holds hll bs -> dense_size <= Z.of_nat (length bs) -> 0 <= r < REGISTER_CNT -> 0 <= v < 64 ->
  exists hll' bs', set_reg hll r v = Ok hll' /\ holds hll' bs' /\ length bs' = length bs /\ reg bs' r = v /\
    (forall r', 0 <= r' < REGISTER_CNT -> r' <> r -> reg bs' r' = reg bs r') /\
    (forall k, 0 <= k < 8 * HLL_HEADER_SIZE_BYTES -> bit bs' k = bit bs k).
Proof.
  intros H Hlen Hr Hv. destruct (set_reg_ok hll bs r v H Hlen Hr Hv) as (hll' & bs' & E & H' & Hl & _ & Hbits).
  exists hll', bs'. split_and!; try done.
  - rewrite <- (b2z_testbits v) by done. unfold reg. cbn [foldr].
    rewrite !Hbits by (unfold reg_pos, HLL_HEADER_SIZE_BYTES; lia). zbool. cbn [andb].
    by rewrite !Z.add_simpl_l.
  - intros r' Hr' Hne. apply reg_ext. intros i Hi. rewrite Hbits by (unfold reg_pos, HLL_HEADER_SIZE_BYTES; lia).
    unfold reg_pos. destruct (Z.leb_spec (8 * HLL_HEADER_SIZE_BYTES + 6 * r) (8 * HLL_HEADER_SIZE_BYTES + 6 * r' + i));
      cbn [andb]; [|done]. by zbool.
  - intros k Hk. rewrite Hbits by lia. unfold reg_pos. by zbool.
Qed.

(** (The two garbage bits are not masked): [get_reg] of a register that
    starts a byte adds the two low bits of the next register as bits 6 and 7. *)
Theorem get_reg_neighbour hll bs r :
  holds hll bs -> dense_size <= Z.of_nat (length bs) -> 0 <= r -> r + 1 < REGISTER_CNT -> r mod 4 = 0 ->
  get_reg hll r = Ok (reg bs r + 64 * (reg bs (r + 1) mod 4)).
Proof.
  intros H Hlen Hr0 Hr1 Hr4. assert (Hr : 0 <= r < REGISTER_CNT) by lia. destruct (reg_at r Hr) as (Hp & _ & Hb).
  assert (Hfb : reg_bit r = 0).
  { unfold reg_bit, REGISTER_CNT in *. rewrite u32_small by lia. rewrite (Z.div_mod r 4), Hr4 by lia.
    replace (6 * (4 * (r / 4) + 0)) with ((3 * (r / 4)) * 8) by lia. by apply Z_mod_mult. }
  change dense_size with (16 + HLL_DENSE_SIZE_BYTES + 1) in Hlen.
  destruct (lookup_lt_is_Some_2 bs (Z.to_nat (reg_byte r)) ltac:(lia)) as [b Hbb].
  rewrite (get_reg_byte _ _ _ _ H Hlen Hr Hfb Hbb). f_equal. pose proof (Forall_lookup_1 _ _ _ _ (proj2 H) Hbb) as Hbr. cbn in Hbr.
  assert (Hbit : forall i, 0 <= i < 8 -> bit bs (reg_pos r + i) = Z.testbit b i).
  { intros i Hi. replace (reg_pos r + i) with (8 * reg_byte r + i) by lia. rewrite bit_byte by lia. by rewrite nth_lookup, Hbb. }
  rewrite reg_bits by lia. replace (reg_pos (r + 1)) with (reg_pos r + 6) by (unfold reg_pos; lia).
  replace (reg_pos r + 6 + 1) with (reg_pos r + 7) by lia. rewrite (byte_of_bits b) at 1 by done.
  unfold reg. cbn [foldr]. by rewrite !Hbit by lia.
Qed.

(** A register that does not start a byte and whose first byte has its top bit
    set is read with the sign of [char]: the value that [get_reg] returns is at
    least 192, whatever the register holds. *)
Theorem get_reg_sign hll bs r b :
  holds hll bs -> dense_size <= Z.of_nat (length bs) -> 0 <= r < REGISTER_CNT -> reg_bit r <> 0 ->
  bs !! Z.to_nat (reg_byte r) = Some b -> 128 <= b ->
  exists v, get_reg hll r = Ok v /\ 192 <= v < 256.
Proof.
  intros H Hlen Hr Hfb Hb Hb7. destruct (reg_at r Hr) as (_ & Hfr & Hb0). change dense_size with (16 + HLL_DENSE_SIZE_BYTES + 1) in Hlen.
  destruct (lookup_lt_is_Some_2 bs (Z.to_nat (reg_byte r + 1)) ltac:(lia)) as [c1 Hc1].
  destruct (buf_char_ok _ _ (reg_byte r) _ H ltac:(lia) Hb) as [E0 Hr0].
  destruct (buf_char_ok _ _ (reg_byte r + 1) _ H ltac:(lia) Hc1) as [E1 Hr1].
  unfold get_reg. rewrite E0. cbn [mbind result_bind]. rewrite E1. cbn [mbind result_bind].
  eexists. split; [reflexivity|]. assert (Hf2 : 2 <= reg_bit r).
  { unfold reg_bit, REGISTER_CNT in *. rewrite u32_small in * by lia. pose proof (Z.div_mod (6 * r) 8). lia. }
  assert (Hl : Z.log2 (Z.pred (- (b - 256))) <= Z.log2 127) by (apply Z.log2_le_mono; lia). change (Z.log2 127) with 6 in Hl.
  zbool. apply byte_top; rewrite Z.lor_spec, Z.shiftr_spec, testbit_u32, Z.bits_above_log2_neg by lia; done.
Qed.

(** PFCOUNT of a dense value one register of which is read as 64 or more
    shifts by at least 64 bits. *)
Theorem dense_count_overflows hll bs r v :
  holds hll bs -> dense_size <= Z.of_nat (length bs) -> 0 <= r < REGISTER_CNT ->
  get_reg hll r = Ok v -> 64 <= v -> estimate_cnt_d hll = Fault Overflow.
Proof.
  intros H Hlen Hr Hv H64. unfold estimate_cnt_d. rewrite (estimate_regs_overflow _ hll bs 0 r v); try done; lia.
Qed.

(** The cached cardinality.  [set_cache] of a value below 2^63 stores it so
    that [get_cache] returns it and the cache is valid, and writes nothing else;
    [invalidate_cache] then makes [get_cache] fail its assertion. *)
Theorem cache_roundtrip hll bs v :
  holds hll bs -> 16 <= Z.of_nat (length bs) -> 0 <= v < 2 ^ 63 ->
  exists h1 h2, set_cache hll v = Ok h1 /\ holds h1 (take 8 bs ++ le_bytes 8 v ++ drop 16 bs) /\
    cache_valid h1 = Ok true /\ get_cache h1 = Ok v /\
    invalidate_cache h1 = Ok h2 /\ cache_valid h2 = Ok false /\ get_cache h2 = Fault AssertFailed.
Proof.
  intros [Hb Hok] Hlen Hv. assert (Hb' : d_buf hll = (Some <$> bs) ++ []) by (by rewrite app_nil_r).
  destruct (cache_set_ok hll bs [] v Hb' Hok Hlen Hv) as (h1 & E1 & H1 & Hok1 & _ & Hv1 & Hc1). rewrite app_nil_r in H1.
  destruct (cache_cleared h1 _ (conj H1 Hok1)) as (h2 & E2 & Hv2); [rewrite cached_length by lia; lia|].
  exists h1, h2. split_and!; try done. unfold get_cache. by rewrite Hv2.
Qed.

(** ** Witnesses *)

(** The bytes of a new dense value. *)
Definition dense_bytes : list Z := HYLL ++ [0] ++ replicate 10 0 ++ [128] ++ replicate (Z.to_nat HLL_DENSE_SIZE_BYTES + 1) 0.
Definition dense_value : dstr := mkDstr (dense_size - 1) 0 (Some <$> dense_bytes).

Lemma dense_holds : holds dense_value dense_bytes.
Proof. split; [done|]. by_compute. Qed.

Lemma dense_bytes_size : dense_size <= Z.of_nat (length dense_bytes).
Proof. vm_compute. discriminate. Qed.

Lemma set_reg_exact_witness :
  exists hll' bs', set_reg dense_value 1 37 = Ok hll' /\ holds hll' bs' /\ reg bs' 1 = 37 /\ reg bs' 2 = reg dense_bytes 2.
Proof.
  destruct (set_reg_exact dense_value dense_bytes 1 37 dense_holds dense_bytes_size) as (h & bs & E & H & _ & Hr & Ho & _);
    [unfold REGISTER_CNT; lia|lia|].
  exists h, bs. split; [exact E|]. split; [exact H|]. split; [exact Hr|]. apply Ho; [unfold REGISTER_CNT; lia|lia].
Defined.

Lemma get_reg_neighbour_witness :
  get_reg dense_value 4 = Ok (reg dense_bytes 4 + 64 * (reg dense_bytes 5 mod 4)).
Proof. apply (get_reg_neighbour dense_value dense_bytes 4 dense_holds dense_bytes_size); [lia|unfold REGISTER_CNT; lia|reflexivity]. Defined.

Lemma cache_roundtrip_witness :
  exists h1 h2, set_cache dense_value 12345 = Ok h1 /\ get_cache h1 = Ok 12345 /\
    invalidate_cache h1 = Ok h2 /\ get_cache h2 = Fault AssertFailed.
Proof.
  destruct (cache_roundtrip dense_value dense_bytes 12345 dense_holds) as (h1 & h2 & E1 & _ & _ & E2 & E3 & _ & E4);
    [vm_compute; discriminate|lia|].
  exists h1, h2. split; [exact E1|]. split; [exact E2|]. split; [exact E3|exact E4].
Defined.
