(* ===== verification/Sparse.v ===== *)
(** * The sparse encoding of a HyperLogLog: PFADD and PFCOUNT
    ([src/src/data_structures/hyperloglog.cpp])

    A sparse value is a sequence of flags: VAL (a value repeated 1 to 4 times),
    ZERO (1 to 64 zero registers) and XZERO (1 to 16384 zero registers, in two
    bytes).  [regs] is the array of registers that a sequence of flags stands
    for; the theorems compare [add_sparse] with an update of that array, and
    follow the first element of a value through PFADD and PFCOUNT. *)

From Stdlib Require Import QArith Qround Lqa String.
From S2P Require Import Prelude Libc Dstr Dlist Heap Hash Buffers Hashmap Avl Hll Node Zset Commands Keyspace Lists Bitmaps Registers.

Local Close Scope Q_scope.
Local Open Scope Z_scope.

(** ** Flags *)

Inductive flag := Val (v c : Z) | Zero (c : Z) | XZero (c : Z).

(** What the bits of a flag can hold. *)
Definition flag_ok (f : flag) : Prop :=
  match f with
  | Val v c => 1 <= v <= 32 /\ 1 <= c <= 4
  | Zero c => 1 <= c <= 64
  | XZero c => 1 <= c <= 16384
  end.

Definition flag_bytes (f : flag) : list Z :=
  match f with
  | Val v c => [128 + 4 * (v - 1) + (c - 1)]
  | Zero c => [c - 1]
  | XZero c => [64 + (c - 1) / 256; (c - 1) mod 256]
  end.

Definition flag_cnt (f : flag) : Z := match f with Val _ c | Zero c | XZero c => c end.
Definition flag_val (f : flag) : Z := match f with Val v _ => v | _ => 0 end.
Definition kind_of (f : flag) : flag_kind := match f with Val _ _ => KVal | Zero _ => KZero | XZero _ => KXZero end.

Definition enc (fs : list flag) : list Z := mjoin (flag_bytes <$> fs).
Definition regs (fs : list flag) : list Z := mjoin ((fun f => replicate (Z.to_nat (flag_cnt f)) (flag_val f)) <$> fs).

(** The length of the bytes and the number of registers. *)
Definition elen (fs : list flag) : Z := Z.of_nat (length (enc fs)).
Definition total (fs : list flag) : Z := Z.of_nat (length (regs fs)).

(** The block: header, flags, and room that [free] overstates by at most 15
    bytes (see [dstr_reserve_short]). *)
Record sparse_at (d : dstr) (hdr : list Z) (fs : list flag) (rest : list cell) : Prop := mkSparse {
  sp_buf : d_buf d = (Some <$> hdr ++ enc fs) ++ rest;
  sp_size : d_size d = HLL_HEADER_SIZE_BYTES + elen fs;
  sp_hdr : Z.of_nat (length hdr) = HLL_HEADER_SIZE_BYTES;
  sp_ok : bytes_ok hdr;
  sp_free : 0 <= d_free d <= Z.of_nat (length rest) + 15;
  sp_cap : d_size d + d_free d <= MAX_STR_SIZE
}.

(** A run of [n] zero registers as the program writes it. *)
Definition zrun (n : Z) : list flag := if n =? 0 then [] else if n <=? 65 then [Zero n] else [XZero n].

(** No two neighbouring VAL flags are short and equal enough to be merged. *)
Definition mergeable (f g : flag) : bool :=
  match f, g with Val v c, Val v' c' => (v =? v') && (c + c' <=? 4) | _, _ => false end.

Fixpoint separated (fs : list flag) : bool :=
  match fs with
  | f :: ((g :: _) as fs') => negb (mergeable f g) && separated fs'
  | _ => true
  end.

(** The byte in front of a flag does not look like the start of another one:
    the merging loop starts there. *)
Definition quiet_end (fs : list flag) : Prop :=
  match last fs with Some (XZero c) => (c - 1) mod 256 < 64 | _ => True end.

(** ** Bytes of flags *)

Lemma byte_ind (P : Z -> bool) : forallb P (seqZ 0 256) = true -> forall b, 0 <= b < 256 -> P b = true.
Proof. rewrite forallb_forall. intros H b Hb. apply H. apply list_elem_of_In, elem_of_seqZ. lia. Qed.

(** The tests and fields of a flag byte, read as numbers. *)
Lemma flag_byte b : 0 <= b < 256 ->
  is_val b = (128 <=? b) /\ is_zero b = (b <? 64) /\ val_value b = b mod 128 / 4 + 1 /\ val_cnt b = b mod 4 + 1 /\
  (b < 64 -> zero_cnt b = b + 1) /\ (64 <= b < 128 -> Z.land b (Z.lnot 64) = b - 64).
Proof.
  intros Hb.
  pose proof (byte_ind (fun b => Bool.eqb (is_val b) (128 <=? b) && Bool.eqb (is_zero b) (b <? 64)
    && (val_value b =? b mod 128 / 4 + 1) && (val_cnt b =? b mod 4 + 1) && ((64 <=? b) || (zero_cnt b =? b + 1))
    && ((b <? 64) || (128 <=? b) || (Z.land b (Z.lnot 64) =? b - 64))) ltac:(vm_compute; reflexivity) b Hb) as H.
  cbn beta in H. rewrite !andb_true_iff, !orb_true_iff, !Bool.eqb_true_iff in H.
  destruct H as (((((H1 & H2) & H3) & H4) & H5) & H6). split_and!; [done|done|lia|lia|lia|lia].
Qed.

Lemma xzero_cnt_eq c : 1 <= c <= 16384 -> xzero_cnt (64 + (c - 1) / 256) ((c - 1) mod 256) = c.
Proof.
  intros Hc. assert (Hq : 0 <= (c - 1) / 256 < 64) by (split; [apply Z.div_pos|apply Z.div_lt_upper_bound]; lia).
  pose proof (Z.mod_pos_bound (c - 1) 256 ltac:(lia)). pose proof (Z.div_mod (c - 1) 256 ltac:(lia)).
  destruct (flag_byte (64 + (c - 1) / 256)) as (_ & _ & _ & _ & _ & E); [lia|]. unfold xzero_cnt. rewrite E by lia.
  pose proof (lor_above ((c - 1) mod 256) ((c - 1) / 256) 0) as L. rewrite Z.shiftl_0_r in L. change (0 + 8) with 8 in L.
  rewrite Z.lor_comm, Z.shiftl_mul_pow2 by lia. replace (64 + (c - 1) / 256 - 64) with ((c - 1) / 256) by lia.
  rewrite L by lia. lia.
Qed.

(** What the program reads from the bytes of a flag. *)
Lemma val_read v c : flag_ok (Val v c) ->
  let b := 128 + 4 * (v - 1) + (c - 1) in
  0 <= b < 256 /\ is_val b = true /\ is_zero b = false /\ val_value b = v /\ val_cnt b = c.
Proof.
  intros [Hv Hc] b. assert (Hb : 0 <= b < 256) by lia. destruct (flag_byte b Hb) as (-> & -> & -> & -> & _).
  unfold b. split; [done|]. zbool. split_and!; [done|done| |]; Z.to_euclidean_division_equations; lia.
Qed.

Lemma zero_read c : flag_ok (Zero c) -> 0 <= c - 1 < 256 /\ is_val (c - 1) = false /\ is_zero (c - 1) = true /\ zero_cnt (c - 1) = c.
Proof.
  intros Hc. cbn in Hc. assert (Hb : 0 <= c - 1 < 256) by lia. destruct (flag_byte _ Hb) as (-> & -> & _ & _ & H & _).
  rewrite H by lia. split; [done|]. zbool. split_and!; [done|done|lia].
Qed.

Lemma xzero_read c : flag_ok (XZero c) ->
  let b := 64 + (c - 1) / 256 in 0 <= b < 256 /\ is_val b = false /\ is_zero b = false.
Proof.
  intros Hc b. cbn in Hc. assert (Hq : 0 <= (c - 1) / 256 < 64) by (split; [apply Z.div_pos|apply Z.div_lt_upper_bound]; lia).
  assert (Hb : 0 <= b < 256) by lia. destruct (flag_byte b Hb) as (-> & -> & _). unfold b. split; [done|]. zbool. done.
Qed.

(** ** Sequences of flags *)

Lemma enc_app fs gs : enc (fs ++ gs) = enc fs ++ enc gs.
Proof. unfold enc. by rewrite fmap_app, join_app. Qed.

Lemma regs_app fs gs : regs (fs ++ gs) = regs fs ++ regs gs.
Proof. unfold regs. by rewrite fmap_app, join_app. Qed.

Lemma elen_app fs gs : elen (fs ++ gs) = elen fs + elen gs.
Proof. unfold elen. rewrite enc_app, length_app. lia. Qed.

Lemma total_app fs gs : total (fs ++ gs) = total fs + total gs.
Proof. unfold total. rewrite regs_app, length_app. lia. Qed.

Lemma enc_cons f fs : enc (f :: fs) = flag_bytes f ++ enc fs.
Proof. done. Qed.

Lemma regs_cons f fs : regs (f :: fs) = replicate (Z.to_nat (flag_cnt f)) (flag_val f) ++ regs fs.
Proof. done. Qed.

Lemma elen_cons f fs : elen (f :: fs) = Z.of_nat (length (flag_bytes f)) + elen fs.
Proof. unfold elen. rewrite enc_cons, length_app. lia. Qed.

Lemma total_cons f fs : flag_ok f -> total (f :: fs) = flag_cnt f + total fs.
Proof. intros Hf. unfold total. rewrite regs_cons, length_app, length_replicate. destruct f; cbn in *; lia. Qed.

Lemma elen_nonneg fs : 0 <= elen fs.
Proof. unfold elen. lia. Qed.

Lemma total_nonneg fs : 0 <= total fs.
Proof. unfold total. lia. Qed.

Lemma flag_cnt_pos f : flag_ok f -> 1 <= flag_cnt f.
Proof. destruct f; cbn; lia. Qed.

Lemma elen_ge fs : Z.of_nat (length fs) <= elen fs.
Proof. induction fs as [|f fs IH]; [done|]. rewrite elen_cons. destruct f; cbn [flag_bytes length] in *; lia. Qed.

(** The [i]-th byte of a flag in the block. *)
Lemma flag_get d hdr fs1 f fs2 rest i b :
  sparse_at d hdr (fs1 ++ f :: fs2) rest -> 0 <= i -> flag_bytes f !! Z.to_nat i = Some b ->
  buf_get d (HLL_HEADER_SIZE_BYTES + elen fs1 + i) = Ok b.
Proof.
  intros [Hb _ Hh _ _ _] Hi Hl. apply (buf_get_at _ _ _ _ _ Hb); [pose proof (elen_nonneg fs1); unfold HLL_HEADER_SIZE_BYTES; lia|].
  rewrite enc_app, enc_cons. unfold elen. rewrite <- Hh.
  rewrite lookup_app_r by lia. rewrite lookup_app_r by lia.
  replace (Z.to_nat _ - length hdr - length (enc fs1))%nat with (Z.to_nat i) by lia.
  by apply lookup_app_l_Some.
Qed.

Lemma flag_get0 d hdr fs1 f fs2 rest b :
  sparse_at d hdr (fs1 ++ f :: fs2) rest -> head (flag_bytes f) = Some b ->
  buf_get d (HLL_HEADER_SIZE_BYTES + elen fs1) = Ok b.
Proof.
  intros H Hb. rewrite <- (Z.add_0_r (_ + elen fs1)). eapply flag_get; [exact H|lia|]. by rewrite <- head_lookup.
Qed.

Lemma size_split d hdr fs1 f fs2 rest :
  sparse_at d hdr (fs1 ++ f :: fs2) rest ->
  d_size d = HLL_HEADER_SIZE_BYTES + elen fs1 + Z.of_nat (length (flag_bytes f)) + elen fs2.
Proof. intros [_ -> _ _ _ _]. rewrite elen_app, elen_cons. lia. Qed.

(** ** The search for the flag of a register *)

(** The last byte before the flag at [fn], if there is a flag before it. *)
Definition prev_of (fs : list flag) : option Z :=
  match fs with [] => None | _ => Some (HLL_HEADER_SIZE_BYTES + elen fs - 1) end.

Definition found_at (fs1 : list flag) (f : flag) (fs2 : list flag) : found :=
  let cur := HLL_HEADER_SIZE_BYTES + elen fs1 in
  let next := cur + Z.of_nat (length (flag_bytes f)) in
  mkFound (total fs1) (total fs1 + flag_cnt f - 1) (prev_of fs1) (Some cur)
    (match fs2 with [] => None | _ => Some next end) (kind_of f).

Lemma prev_of_app fs f : flag_ok f -> prev_of (fs ++ [f]) = Some (HLL_HEADER_SIZE_BYTES + elen (fs ++ [f]) - 1).
Proof. by destruct fs. Qed.

(** The end of a turn, once the count of the flag is known. *)
Local Ltac turn_ends Hnext :=
  cbn [flag_cnt flag_bytes length kind_of] in *;
  match goal with |- context [u32 (u32 ?x - 1)] => rewrite (u32_small x), (u32_small (x - 1)), Hnext by lia end;
  match goal with |- context [Some (?p + ?x - 1)] => match goal with |- context [find_flag _ _ _ ?n _ _ (Some ?m)] =>
    replace (p + x) with n by lia; replace (n - 1) with m by lia end end;
  by zcase.

(** One turn of the loop reads one flag. *)
Lemma find_flag_step fuel d hdr fs1 f fs2 rest reg start prev curr :
  sparse_at d hdr (fs1 ++ f :: fs2) rest -> flag_ok f -> total fs1 + flag_cnt f < 2 ^ 32 ->
  find_flag (S fuel) d reg (HLL_HEADER_SIZE_BYTES + elen fs1) (total fs1) start prev curr =
  let next := HLL_HEADER_SIZE_BYTES + elen (fs1 ++ [f]) in
  if reg <? total (fs1 ++ [f]) then
    Ok (mkFound (total fs1) (total fs1 + flag_cnt f - 1) prev (Some (HLL_HEADER_SIZE_BYTES + elen fs1))
          (match fs2 with [] => None | _ => Some next end) (kind_of f))
  else find_flag fuel d reg next (total (fs1 ++ [f])) (total fs1) (Some (next - 1)) (Some (HLL_HEADER_SIZE_BYTES + elen fs1)).
Proof.
  intros H Hf Ht. pose proof (size_split _ _ _ _ _ _ H) as Hs. pose proof (elen_nonneg fs2). pose proof (total_nonneg fs1).
  pose proof (flag_cnt_pos f Hf). cbn zeta. rewrite elen_app, total_app, elen_cons, (total_cons f []) by done.
  change (elen []) with 0. change (total []) with 0. rewrite !Z.add_0_r.
  assert (Hnext : forall n, n = HLL_HEADER_SIZE_BYTES + (elen fs1 + Z.of_nat (length (flag_bytes f))) ->
    (if n <? d_size d then Some n else None) = match fs2 with [] => None | _ => Some n end).
  { intros n ->. rewrite Hs. destruct fs2 as [|g fs2]; [change (elen []) with 0; by zbool|].
    pose proof (elen_ge (g :: fs2)). cbn [length] in *. by zbool. }
  cbn [find_flag]. replace (HLL_HEADER_SIZE_BYTES + elen fs1 <? d_size d) with true
    by (symmetry; apply Z.ltb_lt; destruct f; cbn [flag_bytes length] in Hs; lia).
  destruct f as [v c|c|c]; erewrite flag_get0 by (exact H || reflexivity); cbn [mbind result_bind].
  - destruct (val_read v c Hf) as (_ & Ev & _ & _ & Ec). rewrite Ev. cbn [mbind result_bind]. rewrite Ec. turn_ends Hnext.
  - destruct (zero_read c Hf) as (_ & Ev & Ez & Ec). rewrite Ev, Ez. cbn [mbind result_bind]. rewrite Ec. turn_ends Hnext.
  - destruct (xzero_read c Hf) as (_ & Ev & Ez). rewrite Ev, Ez.
    rewrite (flag_get d hdr fs1 (XZero c) fs2 rest 1 ((c - 1) mod 256) H) by (done || lia).
    cbn [mbind result_bind]. rewrite (xzero_cnt_eq c Hf). turn_ends Hnext.
Qed.

Lemma find_flag_ok fuel d hdr pre fs1 f fs2 rest reg start curr :
  sparse_at d hdr (pre ++ fs1 ++ f :: fs2) rest -> Forall flag_ok (pre ++ fs1 ++ f :: fs2) ->
  total (pre ++ fs1 ++ f :: fs2) < 2 ^ 32 -> (length fs1 < fuel)%nat ->
  total (pre ++ fs1) <= reg < total (pre ++ fs1) + flag_cnt f ->
  find_flag fuel d reg (HLL_HEADER_SIZE_BYTES + elen pre) (total pre) start (prev_of pre) curr
  = Ok (found_at (pre ++ fs1) f fs2).
Proof.
  revert fuel pre start curr. induction fs1 as [|g fs1 IH]; intros fuel pre start curr H Hok Ht Hfuel Hr;
    (destruct fuel as [|fuel]; [cbn in Hfuel; lia|]).
  - rewrite app_nil_r in *. cbn [app] in *. assert (Hf : flag_ok f) by (decompose_Forall; done).
    rewrite total_app, total_cons in Ht by done. pose proof (total_nonneg fs2).
    rewrite (find_flag_step _ d hdr pre f fs2 rest) by (done || lia). cbn zeta.
    rewrite total_app, (total_cons f []) by done. change (total []) with 0. rewrite Z.add_0_r. zbool.
    unfold found_at. do 2 f_equal. destruct fs2; [done|]. f_equal. rewrite elen_app, elen_cons. change (elen []) with 0. lia.
  - assert (Hg : flag_ok g) by (decompose_Forall; done).
    assert (Happ : pre ++ (g :: fs1) ++ f :: fs2 = (pre ++ [g]) ++ fs1 ++ f :: fs2) by (by rewrite <- !app_assoc).
    assert (Happ1 : pre ++ g :: fs1 = (pre ++ [g]) ++ fs1) by (by rewrite <- app_assoc).
    assert (total (pre ++ [g]) = total pre + flag_cnt g) as Hpg by (rewrite total_app, total_cons by done; by rewrite Z.add_0_r).
    rewrite Happ1 in Hr |- *. rewrite Happ, total_app in Ht. pose proof (total_nonneg (fs1 ++ f :: fs2)).
    rewrite (find_flag_step _ d hdr pre g (fs1 ++ f :: fs2) rest) by (done || lia). cbn zeta.
    pose proof (total_nonneg fs1). rewrite (total_app (pre ++ [g])) in Hr. zbool. rewrite <- (prev_of_app pre g) by done. rewrite Happ in H, Hok.
    apply IH; try done; [rewrite total_app; lia|cbn in Hfuel; lia|rewrite total_app; lia].
Qed.

(** ** Reserving room *)

(** The amount [add_sparse] asks [dstr_reserve] for. *)
Definition reserve_amount (size : Z) : Z :=
  let new_cap := u32 (size + 3) in
  let new_cap := u32 (new_cap + Z.min new_cap 300) in
  u64 ((if HLL_SPARSE_MAX_BYTES <? new_cap then HLL_SPARSE_MAX_BYTES else new_cap) - size).

(** Below this size the capacity asked for is not cut to the limit. *)
Definition growing (d : dstr) : Prop := d_size d <= HLL_SPARSE_MAX_BYTES - 303.

Lemma reserve_amount_eq size :
  18 <= size <= HLL_SPARSE_MAX_BYTES - 303 -> reserve_amount size = 3 + Z.min (size + 3) 300.
Proof.
  unfold HLL_SPARSE_MAX_BYTES. intros H. unfold reserve_amount, HLL_SPARSE_MAX_BYTES. cbn zeta. nowrap. zbool. nowrap. lia.
Qed.

Lemma sparse_size d hdr fs rest : sparse_at d hdr fs rest -> Forall flag_ok fs -> total fs = REGISTER_CNT -> 18 <= d_size d.
Proof.
  intros H Hok Ht. rewrite (sp_size _ _ _ _ H). unfold HLL_HEADER_SIZE_BYTES. destruct fs as [|f [|g fs]]; [done| |].
  - inversion_clear Hok as [|? ? Hf _]. rewrite (total_cons f [] Hf) in Ht. change (total []) with 0 in Ht. unfold REGISTER_CNT in Ht.
    rewrite elen_cons. change (elen []) with 0. destruct f; cbn in *; lia.
  - pose proof (elen_ge (f :: g :: fs)). cbn [length] in *. lia.
Qed.

Lemma reserve_ok d hdr fs rest :
  sparse_at d hdr fs rest -> 18 <= d_size d -> growing d ->
  exists d' rest', dstr_reserve true d (reserve_amount (d_size d)) = Ok (STR_OK, d') /\ sparse_at d' hdr fs rest' /\
    d_size d' = d_size d /\ 24 <= d_free d'.
Proof.
  intros H Hmin Hg. pose proof H as [Hb Hs Hh Hok Hf Hcap]. unfold growing in Hg. rewrite reserve_amount_eq by done.
  unfold HLL_SPARSE_MAX_BYTES in Hg. set (add := 3 + Z.min (d_size d + 3) 300). assert (Hadd : 24 <= add <= 303) by lia.
  unfold dstr_reserve. rewrite max_str_size_eq. nowrap. zbool. zcase; [exists d, rest; split_and!; (done || lia)|].
  cbn [check mbind result_bind]. unfold sizeof_dstr at 1. zbool. cbn [check mbind result_bind].
  eexists _, (resize (Z.to_nat (add - 15)) None rest). split; [reflexivity|]. cbn [d_size d_free d_buf].
  split; [|lia]. assert (Hl : Z.of_nat (length (hdr ++ enc fs)) = d_size d) by (rewrite Hs, length_app, Nat2Z.inj_add, Hh; done).
  split; cbn [d_size d_free d_buf]; try done; [|rewrite length_resize; lia|rewrite max_str_size_eq; lia].
  unfold realloc_buf, sizeof_dstr. rewrite Hb, resize_app_ge by (rewrite length_fmap; lia). f_equal.
  f_equal. rewrite length_fmap. lia.
Qed.

(** ** Splicing flags in *)

(** Replacing the bytes of one flag by [tmp], with the flags behind it moved. *)
Lemma splice_bytes (A old tmp F : list Z) (R : list cell) delta cur hll_end next b :
  delta = Z.of_nat (length tmp) - Z.of_nat (length old) -> cur = Z.of_nat (length A) ->
  hll_end = Z.of_nat (length A + length old + length F) -> delta <= Z.of_nat (length R) ->
  match next with Some n => n = cur + Z.of_nat (length old) | None => F = [] end ->
  b = (Some <$> A ++ old ++ F) ++ R ->
  exists b' R', Z.of_nat (length R') = Z.of_nat (length R) - delta /\
    match next with
    | Some n => if delta =? 0 then Ok b else move_at (n + delta) n (hll_end - n) b
    | None => Ok b
    end = Ok b' /\
    write_at cur tmp b' = Ok ((Some <$> A ++ tmp ++ F) ++ R').
Proof.
  intros Hd -> -> HR Hnext Hb.
  assert (Hlb : length b = (length A + length old + length F + length R)%nat)
    by (rewrite Hb, length_app, length_fmap, !length_app; lia).
  set (R' := drop (length A + length tmp + length F) b).
  assert (HlR : Z.of_nat (length R') = Z.of_nat (length R) - delta) by (unfold R'; rewrite length_drop; lia).
  assert (Hw : forall X : list cell, take (length A) X = (Some <$> A) ->
    drop (length A + length tmp) X = (Some <$> F) ++ R' -> length X = length b ->
    write_at (Z.of_nat (length A)) tmp X = Ok ((Some <$> A ++ tmp ++ F) ++ R')).
  { intros X HA HF HX. rewrite write_at_spec by lia. f_equal. rewrite inserts_split, Nat2Z.id, HA, length_fmap, HF
      by (rewrite length_fmap; lia). by rewrite !fmap_app, <- !app_assoc. }
  assert (HAb : take (length A) b = (Some <$> A)).
  { rewrite Hb, fmap_app, <- app_assoc. rewrite <- (length_fmap Some A) at 1. apply take_app_length. }
  assert (HFb : drop (length A + length old) b = (Some <$> F) ++ R).
  { rewrite Hb, !fmap_app, <- !app_assoc, app_assoc.
    replace (length A + length old)%nat with (length ((Some <$> A) ++ (Some <$> old))) by (rewrite length_app, !length_fmap; done).
    apply drop_app_length. }
  destruct next as [n|]; [destruct (Z.eqb_spec delta 0) as [E|E]; [|subst n]|].
  - exists b, R'. split_and!; [done|done|]. apply Hw; [exact HAb| |done]. unfold R'.
    assert (length tmp = length old) as -> by lia. rewrite HFb, <- drop_drop, HFb. rewrite <- (length_fmap Some F). by rewrite drop_app_length.
  - unfold move_at. replace (Z.of_nat (length A + length old + length F) - _) with (Z.of_nat (length F)) by lia. zbool. cbn [andb]. eexists _, R'. split_and!; [done|reflexivity|].
    replace (Z.to_nat (Z.of_nat (length A) + Z.of_nat (length old))) with (length A + length old)%nat by lia.
    rewrite HFb, Nat2Z.id. replace (take (length F) _) with (Some <$> F)
      by (rewrite <- (length_fmap Some F) at 1; by rewrite take_app_length).
    apply Hw; rewrite inserts_split by (rewrite length_fmap; lia);
      replace (Z.to_nat _) with (length A + length tmp)%nat by lia.
    + rewrite take_app_le by (rewrite length_take; lia). by rewrite take_take, Nat.min_l by lia.
    + rewrite drop_app_ge by (rewrite length_take; lia). rewrite length_take, Nat.min_l, Nat.sub_diag by lia.
      unfold R'. by rewrite length_fmap, drop_0.
    + rewrite !length_app, length_take, length_drop, length_fmap. lia.
  - subst F. exists b, R'. split_and!; [done|done|]. apply Hw; [exact HAb| |done]. unfold R'. by rewrite Nat.add_0_r.
Qed.

(** ** The merging loop has nothing to do *)

Lemma separated_tail f fs : separated (f :: fs) = true -> separated fs = true.
Proof. destruct fs as [|g fs]; [done|]. cbn [separated]. by intros [_ H]%andb_true_iff. Qed.

Lemma separated_drop fs gs : separated (fs ++ gs) = true -> separated gs = true.
Proof. induction fs as [|f fs IH]; [done|]. cbn [app]. intros H%separated_tail. auto. Qed.

Lemma merge_idle n d hdr fs1 fs2 rest :
  sparse_at d hdr (fs1 ++ fs2) rest -> Forall flag_ok fs2 -> separated fs2 = true ->
  merge_loop n d (HLL_HEADER_SIZE_BYTES + elen fs1) (d_size d) = Ok d.
Proof.
  intros H. rewrite (sp_size _ _ _ _ H), elen_app. revert n fs1 H.
  induction fs2 as [|f fs2 IH]; intros n fs1 H Hok Hsep; (destruct n as [|n]; [done|]); cbn [merge_loop].
  - change (elen []) with 0. by zbool.
  - inversion_clear Hok as [|? ? Hf Hok']. pose proof (separated_tail _ _ Hsep) as Hsep'.
    rewrite elen_cons. pose proof (elen_nonneg fs2).
    assert (Happ : fs1 ++ f :: fs2 = (fs1 ++ [f]) ++ fs2) by (by rewrite <- app_assoc).
    assert (Hnext : merge_loop n d (HLL_HEADER_SIZE_BYTES + elen fs1 + Z.of_nat (length (flag_bytes f)))
      (HLL_HEADER_SIZE_BYTES + (elen fs1 + (Z.of_nat (length (flag_bytes f)) + elen fs2))) = Ok d).
    { pose proof H as H'. rewrite Happ in H'. specialize (IH n (fs1 ++ [f]) H' Hok' Hsep').
      rewrite elen_app, elen_cons in IH. change (elen []) with 0 in IH. rewrite Z.add_0_r, !Z.add_assoc in IH. by rewrite !Z.add_assoc. }
    destruct f as [v c|c|c]; cbn [flag_bytes length] in *; zbool; erewrite flag_get0 by (exact H || reflexivity); cbn [mbind result_bind].
    + destruct (val_read v c Hf) as (_ & Ev & Ez & Evv & Ec). rewrite Ev, Ez. cbn [negb].
      assert (Hsecond : exists b, (if HLL_HEADER_SIZE_BYTES + elen fs1 + 1 <? HLL_HEADER_SIZE_BYTES + (elen fs1 + (Z.of_nat 1 + elen fs2))
          then buf_get d (HLL_HEADER_SIZE_BYTES + elen fs1 + 1) else Ok 0) = Ok b /\
          is_val b && (v =? val_value b) && (u8 (c + val_cnt b) <=? 4) = false).
      { destruct fs2 as [|g fs2]; [exists 0; change (elen []) with 0; by zbool|]. inversion_clear Hok' as [|? ? Hg _].
        pose proof (elen_ge (g :: fs2)). cbn [length] in *. zbool. rewrite Happ in H.
        assert (E : HLL_HEADER_SIZE_BYTES + elen fs1 + 1 = HLL_HEADER_SIZE_BYTES + elen (fs1 ++ [Val v c]))
          by (rewrite elen_app, elen_cons; change (elen []) with 0; cbn [flag_bytes length]; lia).
        rewrite E. destruct g as [v' c'|c'|c']; erewrite flag_get0 by (exact H || reflexivity); eexists; (split; [reflexivity|]).
        - destruct (val_read v' c' Hg) as (_ & -> & _ & -> & ->). cbn [separated mergeable] in Hsep.
          apply andb_true_iff in Hsep as [Hm _]. destruct Hf, Hg. unfold u8. rewrite Z.mod_small by lia. cbn [andb]. by apply negb_true_iff.
        - by destruct (zero_read c' Hg) as (_ & -> & _).
        - by destruct (xzero_read c' Hg) as (_ & -> & _). }
      destruct Hsecond as (b & -> & Eb). cbn [mbind result_bind]. rewrite Evv, Ec, Eb. exact Hnext.
    + destruct (zero_read c Hf) as (_ & Ev & Ez & _). rewrite Ez. exact Hnext.
    + destruct (xzero_read c Hf) as (_ & Ev & Ez). rewrite Ev, Ez. exact Hnext.
Qed.

(** The loop starts at the last byte of the flag before the one that was split. *)
Lemma merge_from_prev d hdr fs1 fs2 rest :
  sparse_at d hdr (fs1 ++ fs2) rest -> Forall flag_ok (fs1 ++ fs2) -> separated (fs1 ++ fs2) = true -> quiet_end fs1 ->
  merge_loop 5 d (match prev_of fs1 with Some p => p | None => HLL_HEADER_SIZE_BYTES end) (d_size d) = Ok d.
Proof.
  intros H Hok Hsep Hq. destruct (decide (fs1 = [])) as [->|Hne].
  { cbn [prev_of]. rewrite <- (Z.add_0_r HLL_HEADER_SIZE_BYTES). by apply (merge_idle 5 d hdr [] fs2 rest). }
  destruct (exists_last Hne) as (fs & f & ->). unfold quiet_end in Hq. rewrite last_snoc in Hq.
  assert (Hf : flag_ok f) by (decompose_Forall; done). rewrite prev_of_app by done. rewrite <- app_assoc in H, Hok, Hsep. cbn [app] in *.
  rewrite elen_app, elen_cons. change (elen []) with 0. rewrite Z.add_0_r.
  assert (Hplain : flag_bytes f = [default 0 (head (flag_bytes f))] ->
    merge_loop 5 d (HLL_HEADER_SIZE_BYTES + (elen fs + Z.of_nat (length (flag_bytes f))) - 1) (d_size d) = Ok d).
  { intros ->. cbn [length]. replace (_ - 1) with (HLL_HEADER_SIZE_BYTES + elen fs) by lia.
    eapply merge_idle; [exact H| |by apply separated_drop in Hsep]. by apply Forall_app in Hok as [_ ?]. }
  destruct f as [v c|c|c]; [by apply Hplain|by apply Hplain|].
  cbn [flag_bytes length]. replace (_ - 1) with (HLL_HEADER_SIZE_BYTES + elen fs + 1) by lia.
  change 5%nat with (S 4). generalize 4%nat as n. intros n. cbn [merge_loop]. pose proof (size_split _ _ _ _ _ _ H) as Hs. cbn [flag_bytes length] in Hs. pose proof (elen_nonneg fs2). zbool.
  rewrite (flag_get d hdr fs (XZero c) fs2 rest 1 ((c - 1) mod 256) H) by (done || lia). cbn [mbind result_bind].
  pose proof (Z.mod_pos_bound (c - 1) 256 ltac:(lia)). destruct (flag_byte ((c - 1) mod 256)) as (_ & -> & _); [lia|]. zbool.
  replace (_ + 1 + 1) with (HLL_HEADER_SIZE_BYTES + elen (fs ++ [XZero c]))
    by (rewrite elen_app, elen_cons; change (elen []) with 0; cbn [flag_bytes length]; lia).
  replace (fs ++ XZero c :: fs2) with ((fs ++ [XZero c]) ++ fs2) in H by (by rewrite <- app_assoc).
  eapply merge_idle; [exact H| |]; [by apply Forall_app in Hok as [_ Hok]; inversion Hok|].
  apply (separated_drop fs), separated_tail in Hsep. done.
Qed.

(** ** Adding to a run of zero registers *)

Lemma lor_top b : 0 <= b < 256 -> (b < 64 -> Z.lor 64 b = 64 + b) /\ (b < 128 -> Z.lor 128 b = 128 + b).
Proof.
  intros Hb. pose proof (byte_ind (fun b => ((64 <=? b) || (Z.lor 64 b =? 64 + b)) && ((128 <=? b) || (Z.lor 128 b =? 128 + b)))
    ltac:(vm_compute; reflexivity) b Hb) as H. cbn beta in H. rewrite andb_true_iff, !orb_true_iff in H. lia.
Qed.

Lemma zero_flags_eq n : 1 <= n <= 16384 -> n <> 65 -> zero_flags (n - 1) = enc (zrun n) /\ Forall flag_ok (zrun n).
Proof.
  intros Hn H65. unfold zero_flags, zrun, enc. replace (n =? 0) with false by lia.
  destruct (Z.leb_spec n 65); zbool; cbn [fmap list_fmap mjoin list_join flag_bytes app]; unfold u8.
  - rewrite Z.mod_small by lia. split; [done|]. constructor; [cbn; lia|constructor].
  - split; [|constructor; [cbn; lia|constructor]].
    assert (Hq : 0 <= (n - 1) / 256 < 64) by (split; [apply Z.div_pos|apply Z.div_lt_upper_bound]; lia).
    rewrite Z.shiftr_div_pow2 by lia. change (2 ^ 8) with 256. change 255 with (Z.ones 8). rewrite Z.land_ones by lia.
    rewrite (proj1 (lor_top ((n - 1) / 256) ltac:(lia))) by lia. by rewrite Z.mod_small by lia.
Qed.

Lemma regs_zrun n : 0 <= n -> regs (zrun n) = replicate (Z.to_nat n) 0.
Proof.
  intros Hn. unfold zrun. destruct (Z.eqb_spec n 0) as [->|]; [done|].
  case_match; unfold regs; cbn [fmap list_fmap mjoin list_join flag_cnt flag_val]; by rewrite app_nil_r.
Qed.

(** The flags around a register of a run of zeros that is set to [val]. *)
Definition split_run (fs1 : list flag) (n1 val n2 : Z) (fs2 : list flag) : list flag :=
  fs1 ++ (zrun n1 ++ Val val 1 :: zrun n2) ++ fs2.

Lemma split_run_regs fs1 f n1 val n2 fs2 :
  flag_val f = 0 -> 0 <= n1 -> 0 <= n2 -> flag_cnt f = n1 + 1 + n2 ->
  regs (split_run fs1 n1 val n2 fs2) = <[Z.to_nat (total fs1 + n1) := val]> (regs (fs1 ++ f :: fs2)).
Proof.
  intros Hf H1 H2 Hc. unfold split_run. rewrite !regs_app, !regs_cons, !regs_zrun, Hf, Hc by done. cbn [flag_cnt flag_val].
  replace (Z.to_nat (n1 + 1 + n2)) with (Z.to_nat n1 + S (Z.to_nat n2))%nat by lia. rewrite replicate_add.
  change (replicate (S (Z.to_nat n2)) 0) with (0 :: replicate (Z.to_nat n2) 0).
  change (replicate (Z.to_nat 1) val) with [val]. rewrite <- !app_assoc. unfold total.
  replace (Z.to_nat (_ + n1)) with (length (regs fs1) + (length (replicate (Z.to_nat n1) 0%Z) + 0))%nat
    by (rewrite length_replicate; lia).
  cbn [app]. rewrite insert_app_r, insert_app_r. reflexivity.
Qed.

(** The bytes that the general case of [add_sparse] prepares. *)
Lemma split_flags_eq fs1 f fs2 n1 n2 val pval :
  flag_ok f -> kind_of f <> KVal -> flag_cnt f = n1 + 1 + n2 -> 0 <= n1 -> 0 <= n2 -> n1 <> 65 -> n2 <> 65 ->
  0 <= total fs1 < 2 ^ 31 -> 1 <= val <= 32 ->
  split_flags (found_at fs1 f fs2) (total fs1 + n1) (val - 1) pval = enc (zrun n1 ++ Val val 1 :: zrun n2) /\
  Forall flag_ok (zrun n1 ++ Val val 1 :: zrun n2).
Proof.
  intros Hf Hk Hc H1 H2 N1 N2 Ht Hv. assert (Hc2 : flag_cnt f <= 16384) by (destruct f; cbn in *; lia).
  assert (Hrun : forall n, 0 <= n -> n <> 65 -> n <= 16384 ->
    (if n =? 0 then [] else zero_flags (n - 1)) = enc (zrun n) /\ Forall flag_ok (zrun n)).
  { intros n Hn N65 Hmax. destruct (Z.eqb_spec n 0) as [->|]; [by split|]. apply zero_flags_eq; lia. }
  destruct (Hrun n1 H1 N1 ltac:(lia)) as [E1 O1]. destruct (Hrun n2 H2 N2 ltac:(lia)) as [E2 O2].
  split; [|apply Forall_app; split; [done|constructor; [cbn; lia|done]]].
  rewrite enc_app, enc_cons, <- E1, <- E2. unfold split_flags, found_at. cbn [f_kind f_start f_end].
  replace (total fs1 + n1 =? total fs1) with (n1 =? 0) by lia.
  replace (total fs1 + n1 =? total fs1 + flag_cnt f - 1) with (n2 =? 0) by lia.
  replace (total fs1 + n1 - total fs1 - 1) with (n1 - 1) by lia.
  replace (total fs1 + flag_cnt f - 1 - (total fs1 + n1) - 1) with (n2 - 1) by lia.
  assert (Hvb : [u8 (Z.lor 128 (Z.shiftl (val - 1) 2))] = flag_bytes (Val val 1)).
  { rewrite Z.shiftl_mul_pow2 by lia. rewrite (proj2 (lor_top ((val - 1) * 2 ^ 2) ltac:(lia))) by lia. unfold u8.
    rewrite Z.mod_small by lia. cbn [flag_bytes]. f_equal. lia. }
  rewrite Hvb. assert (Hu : forall n, (if n =? 0 then [] else zero_flags (u32 (n - 1))) = (if n =? 0 then [] else zero_flags (n - 1)) \/ n < 0 \/ 2 ^ 32 < n).
  { intros n. destruct (Z.eqb_spec n 0); [by left|]. destruct (decide (0 <= n <= 2 ^ 32)); [left; by rewrite u32_small by lia|lia]. }
  destruct (Hu n1) as [->|[?|?]]; [|lia|lia]. destruct (Hu n2) as [->|[?|?]]; [|lia|lia]. by destruct f.
Qed.

(** The header with the mark that the cached count is not valid. *)
Definition dirty (hdr : list Z) : list Z := <[15%nat := u8 (Z.lor (nth 15 hdr 0) 128)]> hdr.

Lemma sparse_hdr d hdr fs rest i :
  sparse_at d hdr fs rest -> 0 <= i < 16 -> buf_get d i = Ok (nth (Z.to_nat i) hdr 0).
Proof.
  intros [Hb _ Hh _ _ _] Hi. unfold HLL_HEADER_SIZE_BYTES in Hh. apply (buf_get_at _ _ _ _ _ Hb); [lia|].
  rewrite lookup_app_l by lia. destruct (lookup_lt_is_Some_2 hdr (Z.to_nat i) ltac:(lia)) as [x Hx].
  by rewrite nth_lookup, Hx.
Qed.

Lemma invalidate_ok d hdr fs rest :
  sparse_at d hdr fs rest ->
  exists d', invalidate_cache d = Ok d' /\ sparse_at d' (dirty hdr) fs rest /\ d_size d' = d_size d /\ d_free d' = d_free d.
Proof.
  intros H. pose proof H as [Hb Hs Hh Hok Hf Hcap]. unfold invalidate_cache. erewrite sparse_hdr by (exact H || lia).
  unfold HLL_HEADER_SIZE_BYTES in Hh. cbn [mbind result_bind]. erewrite buf_put_at by (exact Hb || (rewrite length_app; lia)).
  eexists. split; [reflexivity|]. split; [|done]. change (Z.to_nat 15) with 15%nat.
  split; cbn [d_size d_free d_buf]; try done.
  - by rewrite insert_app_l by lia.
  - unfold dirty. by rewrite length_insert.
  - by apply insert_byte.
Qed.

Lemma splice_run d hdr fs1 f fs2 rest n1 n2 val pval :
  sparse_at d hdr (fs1 ++ f :: fs2) rest -> Forall flag_ok (fs1 ++ f :: fs2) -> total (fs1 ++ f :: fs2) = REGISTER_CNT ->
  kind_of f <> KVal -> flag_cnt f = n1 + 1 + n2 -> 0 <= n1 -> 0 <= n2 -> n1 <> 65 -> n2 <> 65 -> 1 <= val <= 32 ->
  separated (split_run fs1 n1 val n2 fs2) = true -> quiet_end fs1 -> 24 <= d_free d ->
  exists d' rest', splice d (found_at fs1 f fs2) (HLL_HEADER_SIZE_BYTES + elen fs1) (total fs1 + n1) (val - 1) pval = Ok d' /\
    sparse_at d' (dirty hdr) (split_run fs1 n1 val n2 fs2) rest' /\ Forall flag_ok (split_run fs1 n1 val n2 fs2).
Proof.
  intros H Hok Ht Hk Hc H1 H2 N1 N2 Hv Hsep Hq Hfree. pose proof H as [Hb Hs Hh Hhok Hf Hcap].
  pose proof (size_split _ _ _ _ _ _ H) as Hs2. apply Forall_app in Hok as [Ok1 Ok2]. inversion_clear Ok2 as [|? ? Okf Ok2'].
  rewrite max_str_size_eq in Hcap. rewrite total_app, total_cons in Ht by done. unfold REGISTER_CNT in Ht.
  pose proof (total_nonneg fs1). pose proof (total_nonneg fs2). pose proof (elen_nonneg fs1). pose proof (elen_nonneg fs2).
  assert (0 <= HLL_HEADER_SIZE_BYTES) by done.
  destruct (split_flags_eq fs1 f fs2 n1 n2 val pval) as [Etmp Oktmp]; [done..|lia|done|].
  assert (Okall : Forall flag_ok (split_run fs1 n1 val n2 fs2)) by (unfold split_run; rewrite Forall_app; split; [done|]; by apply Forall_app).
  set (tmp := enc (zrun n1 ++ Val val 1 :: zrun n2)) in *.
  assert (Htl : 1 <= Z.of_nat (length tmp) <= 5).
  { unfold tmp. rewrite enc_app, enc_cons, !length_app. unfold zrun. destruct (n1 =? 0), (n1 <=? 65), (n2 =? 0), (n2 <=? 65); cbn; lia. }
  assert (Hold : (match f_kind (found_at fs1 f fs2) with KXZero => 2 | _ => 1 end) = Z.of_nat (length (flag_bytes f))) by (by destruct f).
  unfold splice. rewrite Etmp. cbn zeta. rewrite Hold. change (f_prev (found_at fs1 f fs2)) with (prev_of fs1).
  remember (Z.of_nat (length tmp) - Z.of_nat (length (flag_bytes f))) as delta eqn:Ed.
  assert (Hlf : 1 <= Z.of_nat (length (flag_bytes f)) <= 2) by (destruct f; cbn; lia).
  destruct (splice_bytes (hdr ++ enc fs1) (flag_bytes f) tmp (enc fs2) rest delta (HLL_HEADER_SIZE_BYTES + elen fs1) (d_size d)
    (f_next (found_at fs1 f fs2)) (d_buf d)) as (b & R' & HR & Em & Ew);
    [done|unfold elen; len|unfold elen in *; len|lia|by destruct fs2|rewrite Hb, enc_app, enc_cons; by rewrite !app_assoc|].
  rewrite Em. cbn [mbind result_bind]. rewrite Ew. cbn [mbind result_bind].
  set (d1 := mkDstr _ _ _).
  assert (Hd1 : sparse_at d1 hdr (split_run fs1 n1 val n2 fs2) R').
  { split; cbn [d1 d_buf d_size d_free]; try done.
    - unfold split_run. rewrite enc_app, (enc_app (_ ++ _)). fold tmp. by rewrite <- !app_assoc.
    - unfold split_run. rewrite elen_app, (elen_app (_ ++ _)). unfold elen at 2. fold tmp. rewrite u64_small by lia. lia.
    - rewrite u64_small by lia. lia.
    - rewrite !u64_small, max_str_size_eq by lia. lia. }
  replace (d_size d + delta) with (d_size d1) by (cbn; apply u64_small; lia).
  rewrite (merge_from_prev d1 hdr fs1 _ R' Hd1 Okall Hsep Hq). cbn [mbind result_bind].
  destruct (invalidate_ok d1 hdr _ R' Hd1) as (d' & -> & Hd' & _). by exists d', R'.
Qed.

(** What [add_sparse] does after the room is reserved and the flag is found. *)
Lemma add_sparse_found d hdr fs1 f fs2 rest reg val :
  sparse_at d hdr (fs1 ++ f :: fs2) rest -> Forall flag_ok (fs1 ++ f :: fs2) -> total (fs1 ++ f :: fs2) = REGISTER_CNT ->
  growing d -> 1 <= val <= 32 -> total fs1 <= reg < total fs1 + flag_cnt f ->
  exists d1 rest1, sparse_at d1 hdr (fs1 ++ f :: fs2) rest1 /\ 24 <= d_free d1 /\ d_size d1 = d_size d /\
    let cur := HLL_HEADER_SIZE_BYTES + elen fs1 in
    let split := d2 ← splice d1 (found_at fs1 f fs2) cur reg (val - 1) (flag_val f); Ok (d2, 1) in
    add_sparse d reg val =
      match f with
      | Val v c => if val - 1 <=? v then Ok (d1, 0)
                   else if c =? 1 then
                     d2 ← buf_put d1 cur (Z.lor (Z.land (128 + 4 * (v - 1) + (c - 1)) (Z.lnot (Z.shiftl 31 2))) (Z.shiftl (val - 1) 2));
                     d2 ← invalidate_cache d2; Ok (d2, 1)
                   else split
      | Zero c => if c =? 1 then
                    d2 ← buf_put d1 cur (Z.lor (Z.lor 128 (Z.shiftl (val - 1) 2)) 1);
                    d2 ← invalidate_cache d2; Ok (d2, 1)
                  else split
      | XZero c => split
      end.
Proof.
  intros H Hok Ht Hg Hv Hr. pose proof (sparse_size _ _ _ _ H Hok Ht) as Hmin.
  destruct (reserve_ok d hdr _ rest H Hmin Hg) as (d1 & rest1 & E & H1 & Hs1 & Hf1). exists d1, rest1.
  split; [done|]. split; [done|]. split; [done|]. cbn zeta. unfold growing, HLL_SPARSE_MAX_BYTES in Hg.
  unfold add_sparse. replace (32 <? val) with false by lia. unfold HLL_SPARSE_MAX_BYTES at 1. rewrite u64_small by lia. zbool. cbn [orb].
  cbn zeta. fold (reserve_amount (d_size d)). rewrite E. cbn [mbind result_bind].
  assert (Hfuel : (length fs1 < length (d_buf d1))%nat).
  { pose proof (elen_ge fs1) as Hl. rewrite (sp_buf _ _ _ _ H1), enc_app. unfold elen in Hl.
    pose proof (sp_hdr _ _ _ _ H1). unfold HLL_HEADER_SIZE_BYTES in *. len. }
  assert (Efind : find_flag (length (d_buf d1)) d1 reg HLL_HEADER_SIZE_BYTES 0 0 None None = Ok (found_at fs1 f fs2)).
  { apply (find_flag_ok _ d1 hdr [] fs1 f fs2 rest1); try done. cbn [app]. by rewrite Ht. }
  rewrite Efind. cbn [mbind result_bind]. change (f_curr (found_at fs1 f fs2)) with (Some (HLL_HEADER_SIZE_BYTES + elen fs1)).
  cbn [need mbind result_bind].
  assert (Okf : flag_ok f) by (decompose_Forall; done). unfold u8. rewrite Z.mod_small by lia.
  change (f_kind (found_at fs1 f fs2)) with (kind_of f).
  destruct f as [v c|c|c]; erewrite flag_get0 by (exact H1 || reflexivity); cbn [mbind result_bind kind_of flag_val].
  - destruct (val_read v c Okf) as (_ & _ & _ & -> & ->). done.
  - destruct (zero_read c Okf) as (_ & _ & _ & ->). done.
  - done.
Qed.

Lemma add_run d hdr fs1 f fs2 rest reg val :
  sparse_at d hdr (fs1 ++ f :: fs2) rest -> Forall flag_ok (fs1 ++ f :: fs2) -> total (fs1 ++ f :: fs2) = REGISTER_CNT ->
  growing d -> 1 <= val <= 32 -> kind_of f <> KVal -> f <> Zero 1 -> total fs1 <= reg < total fs1 + flag_cnt f ->
  let n1 := reg - total fs1 in
  let n2 := flag_cnt f - 1 - n1 in
  n1 <> 65 -> n2 <> 65 -> separated (split_run fs1 n1 val n2 fs2) = true -> quiet_end fs1 ->
  exists d' rest', add_sparse d reg val = Ok (d', 1) /\ sparse_at d' (dirty hdr) (split_run fs1 n1 val n2 fs2) rest' /\
    Forall flag_ok (split_run fs1 n1 val n2 fs2) /\
    regs (split_run fs1 n1 val n2 fs2) = <[Z.to_nat reg := val]> (regs (fs1 ++ f :: fs2)).
Proof.
  intros H Hok Ht Hg Hv Hk Hz Hr n1 n2 N1 N2 Hsep Hq.
  destruct (add_sparse_found d hdr fs1 f fs2 rest reg val H Hok Ht Hg Hv Hr) as (d1 & rest1 & H1 & Hf1 & _ & E). cbn zeta in E.
  destruct (splice_run d1 hdr fs1 f fs2 rest1 n1 n2 val (flag_val f) H1 Hok Ht Hk) as (d' & rest' & Es & Hd' & Okd'); try done; [lia..|].
  replace (total fs1 + n1) with reg in Es by lia. rewrite Es in E. cbn [mbind result_bind] in E.
  exists d', rest'. split_and!; [|done..|].
  - rewrite E. destruct f as [v c|c|c]; [done| |done]. destruct (Z.eqb_spec c 1) as [->|]; done.
  - rewrite (split_run_regs fs1 f n1 val n2 fs2); [by replace (total fs1 + n1) with reg by lia|by destruct f|lia..].
Qed.

(** ** Theorems on the registers *)

(** C23: PFADD into a run of zero registers.  For every register of a ZERO flag of
    more than one register or of an XZERO flag, [add_sparse] returns 1 and the
    flags then stand for exactly the same registers with that one set to the
    value, the cached count marked as not valid; flags before and after are kept.
    The parts of the run on either side are not 65 registers long (see
    [zero_run_65]), there are no VAL flags that the program would merge, and
    there is room below the limit of the encoding. *)
Theorem add_sparse_exact d hdr fs1 f fs2 rest reg val :
  sparse_at d hdr (fs1 ++ f :: fs2) rest -> Forall flag_ok (fs1 ++ f :: fs2) -> total (fs1 ++ f :: fs2) = REGISTER_CNT ->
  growing d -> 1 <= val <= 32 -> kind_of f <> KVal -> f <> Zero 1 -> total fs1 <= reg < total fs1 + flag_cnt f ->
  let n1 := reg - total fs1 in
  let n2 := flag_cnt f - 1 - n1 in
  n1 <> 65 -> n2 <> 65 -> separated (split_run fs1 n1 val n2 fs2) = true -> quiet_end fs1 ->
  exists d' fs' rest', add_sparse d reg val = Ok (d', 1) /\ sparse_at d' (dirty hdr) fs' rest' /\ Forall flag_ok fs' /\
    fs' = split_run fs1 n1 val n2 fs2 /\ regs fs' = <[Z.to_nat reg := val]> (regs (fs1 ++ f :: fs2)).
Proof.
  intros H Hok Ht Hg Hv Hk Hz Hr n1 n2 N1 N2 Hsep Hq.
  destruct (add_run d hdr fs1 f fs2 rest reg val H Hok Ht Hg Hv Hk Hz Hr N1 N2 Hsep Hq) as (d' & rest' & E & Hd & Ho & Hregs).
  by exists d', (split_run fs1 n1 val n2 fs2), rest'.
Qed.

(** A register of a VAL flag is left alone when its value is at least [val - 1]:
    the value that is one larger is not recorded, since the code compares the
    stored value with the decremented one. *)
Theorem add_sparse_keeps d hdr fs1 v c fs2 rest reg val :
  sparse_at d hdr (fs1 ++ Val v c :: fs2) rest -> Forall flag_ok (fs1 ++ Val v c :: fs2) ->
  total (fs1 ++ Val v c :: fs2) = REGISTER_CNT -> growing d -> 1 <= val <= 32 -> total fs1 <= reg < total fs1 + c -> val <= v + 1 ->
  exists d' rest', add_sparse d reg val = Ok (d', 0) /\ sparse_at d' hdr (fs1 ++ Val v c :: fs2) rest'.
Proof.
  intros H Hok Ht Hg Hv Hr Hle.
  destruct (add_sparse_found d hdr fs1 (Val v c) fs2 rest reg val H Hok Ht Hg Hv Hr) as (d1 & rest1 & H1 & _ & _ & E). cbn zeta in E.
  exists d1, rest1. rewrite E. zbool. done.
Qed.

(** A ZERO flag of one register becomes a VAL flag of two registers: every
    register behind it moves up by one. *)
Theorem add_sparse_zero_one d hdr fs1 fs2 rest val :
  sparse_at d hdr (fs1 ++ Zero 1 :: fs2) rest -> Forall flag_ok (fs1 ++ Zero 1 :: fs2) ->
  total (fs1 ++ Zero 1 :: fs2) = REGISTER_CNT -> growing d -> 1 <= val <= 32 ->
  exists d' rest', add_sparse d (total fs1) val = Ok (d', 1) /\ sparse_at d' (dirty hdr) (fs1 ++ Val val 2 :: fs2) rest' /\
    regs (fs1 ++ Val val 2 :: fs2) = regs fs1 ++ val :: val :: regs fs2.
Proof.
  intros H Hok Ht Hg Hv.
  destruct (add_sparse_found d hdr fs1 (Zero 1) fs2 rest (total fs1) val H Hok Ht Hg Hv) as (d1 & rest1 & H1 & _ & _ & E); [cbn; lia|].
  cbn zeta in E. cbn [Z.eqb Pos.eqb] in E. pose proof H1 as [Hb Hs Hh Hhok Hf Hcap].
  assert (Hl : Z.of_nat (length (hdr ++ enc fs1)) = HLL_HEADER_SIZE_BYTES + elen fs1) by (unfold elen; len).
  rewrite (buf_put_at d1 _ _ _ _ Hb) in E by (rewrite enc_app, enc_cons; cbn [flag_bytes]; unfold elen, HLL_HEADER_SIZE_BYTES in *; len).
  cbn [mbind result_bind] in E. set (d2 := mkDstr _ _ _) in E.
  assert (H2 : sparse_at d2 hdr (fs1 ++ Val val 2 :: fs2) rest1).
  { split; cbn [d2 d_buf d_size d_free]; try done; [|rewrite Hs; by rewrite !elen_app, !elen_cons]. f_equal.
    rewrite !enc_app, !enc_cons, !app_assoc, <- !(app_assoc (hdr ++ enc fs1)).
    replace (Z.to_nat _) with (length (hdr ++ enc fs1) + 0)%nat by lia. rewrite insert_app_r. do 2 f_equal.
    cbn [flag_bytes app insert list_insert]. f_equal.
    rewrite Z.shiftl_mul_pow2 by lia. rewrite (proj2 (lor_top ((val - 1) * 2 ^ 2) ltac:(lia))) by lia.
    assert (Z.lor (128 + (val - 1) * 2 ^ 2) 1 = 128 + 4 * (val - 1) + (2 - 1)) as ->.
    { rewrite <- Z.add_nocarry_lor; [lia|]. change 1 with (Z.ones 1) at 2. rewrite Z.land_ones by lia.
      replace (_ + _) with ((64 + 2 * (val - 1)) * 2 ^ 1) by lia. by apply Z_mod_mult. }
    unfold u8. apply Z.mod_small. lia. }
  destruct (invalidate_ok d2 hdr _ rest1 H2) as (d' & Ed & Hd' & _). rewrite Ed in E. cbn [mbind result_bind] in E.
  exists d', rest1. split_and!; [done|done|]. by rewrite regs_app, regs_cons.
Qed.

(** A run of 65 zero registers is written as the byte 64, which is read back as
    the first byte of an XZERO flag. *)
Theorem zero_run_65 : zero_flags (65 - 1) = [64] /\ is_zero 64 = false /\ is_val 64 = false.
Proof. done. Qed.

(** [densify] goes on at the last register of a VAL flag instead of the one after
    it, since [cnt] is 2^32 - 1 after its loop: the next flag overwrites it, and
    every later register is one place too low. *)
Theorem densify_overlap fuel d dhll hdr fs1 v c fs2 rest r :
  sparse_at d hdr (fs1 ++ Val v c :: fs2) rest -> flag_ok (Val v c) -> 0 <= r < 2 ^ 31 ->
  densify_loop (S fuel) d dhll (HLL_HEADER_SIZE_BYTES + elen fs1) r =
  ('(dhll, r') ← set_run (Z.to_nat c) dhll r v;
   _ ← check (r' =? r + c) AssertFailed;
   densify_loop fuel d dhll (HLL_HEADER_SIZE_BYTES + elen (fs1 ++ [Val v c])) (r + c - 1)).
Proof.
  intros H Hf Hr. pose proof (size_split _ _ _ _ _ _ H) as Hs. cbn [flag_bytes length] in Hs. pose proof (elen_nonneg fs2).
  destruct (val_read v c Hf) as (_ & Ev & _ & Evv & Ec). destruct Hf as [Hv Hc].
  assert (Hrun : forall n dh x, x + Z.of_nat n < 2 ^ 32 -> 0 <= x -> forall dh' r', set_run n dh x v = Ok (dh', r') -> r' = x + Z.of_nat n).
  { induction n as [|n IH]; intros dh x Hx Hx0 dh' r' E; cbn [set_run] in E; [injection E as <- <-; lia|].
    apply bind_ok in E as (dh1 & _ & E). rewrite u32_small in E by lia. apply IH in E; lia. }
  cbn [densify_loop]. zbool. erewrite flag_get0 by (exact H || reflexivity). cbn [mbind result_bind]. rewrite Ev, Evv, Ec.
  destruct (set_run _ dhll r v) as [[dh' r']|e] eqn:E; [|done]. cbn [mbind result_bind]. apply Hrun in E; [|lia|lia].
  replace (r' =? r + c) with true by lia. cbn [check mbind result_bind]. subst r'.
  f_equal; [rewrite elen_app, elen_cons; change (elen []) with 0; cbn [flag_bytes length]; lia|].
  unfold u32. replace (_ + (2 ^ 32 - 1)) with ((r + c - 1) + 1 * 2 ^ 32) by lia. rewrite Z_mod_plus_full. apply Z.mod_small. lia.
Qed.

(** ** Arithmetic of [long double] *)

Lemma rnd_of_pos p x : 0 < Qnum x -> rnd p x = rnd_pos p (Qnum x) (Zpos (Qden x)).
Proof. unfold rnd. by destruct (Qnum x). Qed.

Lemma rnd_of_neg p x : Qnum x < 0 -> rnd p x = Qopp (rnd p (Qopp x)).
Proof. unfold rnd. cbn [Qopp Qnum Qden]. by destruct (Qnum x). Qed.

(** A value that has at most 47 bits, 32 of them behind the point, is exact. *)
Lemma rnd_exact x k : 0 < k < 2 ^ 47 -> Qnum x * 2 ^ 32 = k * Zpos (Qden x) -> rnd 64 x = Qred (Qmake k (2 ^ 32)).
Proof.
  intros Hk Hx. assert (Hn : 0 < Qnum x) by nia. rewrite rnd_of_pos by done. unfold rnd_pos.
  set (num := Qnum x) in *. set (den := Zpos (Qden x)) in *. assert (Hd : 0 < den) by (unfold den; lia). cbn zeta.
  set (e0 := Z.log2 num - Z.log2 den). assert (He0 : e0 <= 31).
  { assert (Hl : Z.log2 (num * 2 ^ 32) = 32 + Z.log2 num) by (by apply Z.log2_mul_pow2).
    assert (Hl2 : Z.log2 (k * den) <= Z.log2 k + Z.log2 den + 1) by (apply Z.log2_mul_above; lia).
    assert (Z.log2 k < 47) by (apply Z.log2_lt_pow2; lia). rewrite <- Hx, Hl in Hl2. unfold e0. lia. }
  set (e := if _ <? _ then e0 - 1 else e0). assert (He : e <= 31) by (unfold e; case_match; lia). clearbody e.
  set (sh := 64 - 1 - e). assert (Hsh : 32 <= sh) by lia. clearbody sh. replace (0 <=? sh) with true by lia.
  rewrite (Z.max_r 0 sh), (Z.max_l 0 (- sh)), Z.shiftl_0_r, Z.shiftl_mul_pow2 by lia.
  assert (E : num * 2 ^ sh = (k * 2 ^ (sh - 32)) * den).
  { replace (2 ^ sh) with (2 ^ 32 * 2 ^ (sh - 32)) by (rewrite <- Z.pow_add_r by lia; f_equal; lia). rewrite Z.mul_assoc, Hx. lia. }
  unfold round_frac. rewrite E, Z_div_mult, Z_mod_mult by lia. zbool. replace (den =? 2 * 0) with false by lia. cbn [orb andb].
  apply Qred_complete. unfold Qeq. cbn [Qnum Qden]. assert (0 < 2 ^ sh) by (apply Z.pow_pos_nonneg; lia).
  rewrite Z2Pos.id by done. replace (2 ^ sh) with (2 ^ 32 * 2 ^ (sh - 32)) by (rewrite <- Z.pow_add_r by lia; f_equal; lia).
  change (Z.pos (2 ^ 32)) with (2 ^ 32). lia.
Qed.

(** Rounding changes a value by less than a millionth. *)
Lemma rnd_near x : (0 < x)%Q -> (x < 1000000000)%Q ->
  (x * (1 - (1 # 1048576)) <= rnd 64 x /\ rnd 64 x <= x * (1 + (1 # 1048576)))%Q.
Proof.
  intros H0 H2. assert (Hn : 0 < Qnum x) by (unfold Qlt in H0; cbn [Qnum Qden] in H0; lia).
  rewrite rnd_of_pos by done. unfold rnd_pos. destruct x as [num den]. cbn [Qnum Qden] in *.
  assert (Hlt : num < 2 ^ 40 * Zpos den) by (unfold Qlt in H2; cbn [Qnum Qden] in H2; lia).
  cbn zeta. set (e0 := Z.log2 num - Z.log2 (Zpos den)).
  pose proof (Z.log2_spec num Hn) as [Hl1 _]. pose proof (Z.log2_spec (Zpos den) ltac:(lia)) as [_ Hl2].
  pose proof (Z.log2_nonneg num). pose proof (Z.log2_nonneg (Zpos den)).
  assert (He1 : e0 <= 40).
  { assert (Z.log2 num <= Z.log2 (Zpos den * 2 ^ 40)) by (apply Z.log2_le_mono; lia). rewrite Z.log2_mul_pow2 in * by lia. lia. }
  set (e := if _ <? _ then e0 - 1 else e0). assert (He : e <= e0) by (unfold e; case_match; lia). clearbody e.
  set (sh := 64 - 1 - e). assert (Hsh : 0 <= sh) by lia. assert (Hsh2 : 63 - e0 <= sh) by lia. clearbody sh. replace (0 <=? sh) with true by lia.
  rewrite (Z.max_r 0 sh), (Z.max_l 0 (- sh)), Z.shiftl_0_r, Z.shiftl_mul_pow2 by lia.
  assert (Hp : 0 < 2 ^ sh) by (apply Z.pow_pos_nonneg; lia).
  assert (Hbig : 2 ^ 20 * Zpos den <= num * 2 ^ sh).
  { assert (2 ^ 20 * 2 ^ Z.succ (Z.log2 (Zpos den)) <= 2 ^ Z.log2 num * 2 ^ sh)
      by (rewrite <- !Z.pow_add_r by lia; apply Z.pow_le_mono_r; lia). nia. }
  set (N := num * 2 ^ sh) in *.
  assert (Hm : (2 ^ 20 - 1) * N <= 2 ^ 20 * (round_frac N (Zpos den) * Zpos den) <= (2 ^ 20 + 1) * N).
  { pose proof (Z.div_mod N (Zpos den) ltac:(lia)). pose proof (Z.mod_pos_bound N (Zpos den) ltac:(lia)).
    assert (2 ^ 20 <= N / Zpos den) by (apply Z.div_le_lower_bound; lia). unfold round_frac. case_match; nia. }
  rewrite Qred_correct. unfold Qle. change (1 - (1 # 1048576))%Q with (2 ^ 20 - 1 # 2 ^ 20)%Q. change (1 + (1 # 1048576))%Q with (2 ^ 20 + 1 # 2 ^ 20)%Q.
  cbn [Qnum Qden Qmult]. rewrite !Pos2Z.inj_mul, Z2Pos.id by done. change (Z.pos (2 ^ 20)) with (2 ^ 20). unfold N in *. nia.
Qed.

(** ** Counting a sparse value *)

(** [x] is [k] units of 2^-32. *)
Definition units (x : Q) (k : Z) : Prop := Qnum x * 2 ^ 32 = k * Zpos (Qden x).

Lemma units_iff x k : units x k <-> Qeq x (Qmake k (2 ^ 32)).
Proof. unfold units, Qeq. cbn [Qnum Qden]. change (Z.pos (2 ^ 32)) with (2 ^ 32). lia. Qed.

Lemma units_canon k : units (Qred (Qmake k (2 ^ 32))) k.
Proof. apply units_iff, Qred_correct. Qed.

Lemma units_add x y j k : units x j -> units y k -> 0 <= j -> 0 < k -> j + k < 2 ^ 47 -> ld_add x y = Qred (Qmake (j + k) (2 ^ 32)).
Proof.
  intros Hx Hy Hj Hk Hm. apply rnd_exact; [lia|]. apply (proj2 (units_iff _ _)). apply (proj1 (units_iff _ _)) in Hx, Hy. rewrite Hx, Hy.
  unfold Qeq, Qplus. cbn [Qnum Qden]. rewrite !Pos2Z.inj_mul. change (Z.pos (2 ^ 32)) with (2 ^ 32). lia.
Qed.

(** The share of a flag in the sum, in units. *)
Definition weight (f : flag) : Z := flag_cnt f * 2 ^ (32 - flag_val f).
Definition weights (fs : list flag) : Z := foldr Z.add 0 (weight <$> fs).

Lemma weight_bounds f : flag_ok f -> 0 < weight f <= flag_cnt f * 2 ^ 32.
Proof.
  intros Hf. pose proof (flag_cnt_pos f Hf). assert (Hv : 0 <= flag_val f <= 32) by (destruct f; cbn in *; lia). unfold weight.
  assert (0 < 2 ^ (32 - flag_val f)) by (apply Z.pow_pos_nonneg; lia).
  assert (2 ^ (32 - flag_val f) <= 2 ^ 32) by (apply Z.pow_le_mono_r; lia). nia.
Qed.

Lemma weights_bound fs : Forall flag_ok fs -> 0 <= weights fs <= total fs * 2 ^ 32.
Proof.
  induction 1 as [|f fs Hf _ IH]; [done|]. rewrite total_cons by done. pose proof (weight_bounds f Hf).
  change (weights (f :: fs)) with (weight f + weights fs). lia.
Qed.

(** The term that the loop adds for a flag. *)
Lemma flag_term f :
  flag_ok f -> ld_mul (Qmake 1 (Z.to_pos (2 ^ flag_val f))) (inject_Z (flag_cnt f)) = Qred (Qmake (weight f) (2 ^ 32)).
Proof.
  intros Hf. assert (Hv : 0 <= flag_val f <= 32 /\ flag_cnt f <= 16384) by (destruct f; cbn in *; lia). pose proof (weight_bounds f Hf).
  apply rnd_exact; [lia|]. unfold Qmult, weight. cbn [Qnum Qden inject_Z]. rewrite Pos.mul_1_r.
  rewrite Z2Pos.id by (apply Z.pow_pos_nonneg; lia).
  replace (2 ^ 32) with (2 ^ (32 - flag_val f) * 2 ^ flag_val f) by (rewrite <- Z.pow_add_r by lia; f_equal; lia). lia.
Qed.

Lemma estimate_flags_ok fs1 : forall fuel d hdr fs2 rest sum k,
  sparse_at d hdr (fs1 ++ fs2) rest -> Forall flag_ok fs2 -> (length fs2 <= fuel)%nat -> fs2 <> [] ->
  units sum k -> 0 <= k -> k + weights fs2 < 2 ^ 47 ->
  estimate_flags fuel d (HLL_HEADER_SIZE_BYTES + elen fs1) sum = Ok (Qred (Qmake (k + weights fs2) (2 ^ 32))).
Proof.
  intros fuel d hdr fs2 rest sum k H Hok Hfuel Hne. assert (Hsz := sp_size _ _ _ _ H). rewrite elen_app in Hsz.
  revert fs1 fuel sum k H Hfuel Hne Hsz. induction Hok as [|f fs2 Hf Hok IH]; [done|].
  intros fs1 fuel sum k H Hfuel _ Hsz Hk Hk0 Hmax. destruct fuel as [|fuel]; [cbn in Hfuel; lia|].
  pose proof (weight_bounds f Hf). pose proof (weights_bound fs2 Hok). pose proof (elen_nonneg fs2).
  change (weights (f :: fs2)) with (weight f + weights fs2) in *. rewrite elen_cons in Hsz.
  assert (Happ : fs1 ++ f :: fs2 = (fs1 ++ [f]) ++ fs2) by (by rewrite <- app_assoc).
  assert (Hn : elen (fs1 ++ [f]) = elen fs1 + Z.of_nat (length (flag_bytes f))) by (rewrite elen_app, elen_cons; change (elen []) with 0; lia).
  assert (Hgo : estimate_flags fuel d (HLL_HEADER_SIZE_BYTES + elen fs1 + Z.of_nat (length (flag_bytes f)))
    (ld_add sum (ld_mul (Qmake 1 (Z.to_pos (2 ^ flag_val f))) (inject_Z (flag_cnt f))))
    = Ok (Qred (Qmake (k + (weight f + weights fs2)) (2 ^ 32)))).
  { rewrite flag_term, (units_add sum _ k (weight f)); [|done|apply units_canon|lia..|done]. rewrite Z.add_assoc.
    destruct (decide (fs2 = [])) as [->|Hne2].
    - change (elen []) with 0 in Hsz. change (weights []) with 0. rewrite Z.add_0_r. destruct fuel; cbn [estimate_flags]; by zbool.
    - rewrite <- Z.add_assoc, <- Hn. rewrite Happ in H. apply IH; try done; [cbn in Hfuel; lia|rewrite Hn; lia|apply units_canon|lia|lia]. }
  cbn [estimate_flags]. assert (Hlen : 1 <= Z.of_nat (length (flag_bytes f))) by (destruct f; cbn; lia). zbool.
  destruct f as [v c|c|c]; erewrite flag_get0 by (exact H || reflexivity); cbn [mbind result_bind].
  - destruct (val_read v c Hf) as (_ & -> & _ & -> & ->). unfold inv_pow2. replace (v <? 64) with true by (destruct Hf; lia).
    cbn [check mbind result_bind]. exact Hgo.
  - destruct (zero_read c Hf) as (_ & -> & -> & ->). cbn [mbind result_bind]. exact Hgo.
  - destruct (xzero_read c Hf) as (_ & -> & ->).
    rewrite (flag_get d hdr fs1 (XZero c) fs2 rest 1 ((c - 1) mod 256) H) by (done || lia).
    cbn [mbind result_bind]. rewrite (xzero_cnt_eq c Hf). rewrite <- Z.add_assoc. exact Hgo.
Qed.

(** A ZERO flag that the zero count of the program reads right: it tests the flag
    for 0 and takes any other ZERO flag for the first byte of an XZERO flag. *)
Definition countable (f : flag) : bool := match f with Zero c => c =? 1 | _ => true end.

Definition zeros (fs : list flag) : Z := foldr Z.add 0 ((fun f => if flag_val f =? 0 then flag_cnt f else 0) <$> fs).

Lemma zero_regs_ok fs1 : forall fuel d hdr fs2 rest k,
  sparse_at d hdr (fs1 ++ fs2) rest -> Forall flag_ok fs2 -> forallb countable fs2 = true -> (length fs2 <= fuel)%nat ->
  0 <= k -> k + total fs2 < 2 ^ 32 ->
  zero_regs_sparse fuel d (HLL_HEADER_SIZE_BYTES + elen fs1) k = Ok (k + zeros fs2).
Proof.
  intros fuel d hdr fs2 rest k H Hok. assert (Hsz := sp_size _ _ _ _ H). rewrite elen_app in Hsz.
  revert fs1 fuel k H Hsz. induction Hok as [|f fs2 Hf Hok IH]; intros fs1 fuel k H Hsz Hc Hfuel Hk Hmax.
  { change (elen []) with 0 in Hsz. change (zeros []) with 0. rewrite Z.add_0_r. destruct fuel; cbn [zero_regs_sparse]; by zbool. }
  destruct fuel as [|fuel]; [cbn in Hfuel; lia|]. cbn [forallb] in Hc. apply andb_true_iff in Hc as [Hcf Hc].
  rewrite total_cons in Hmax by done. pose proof (flag_cnt_pos f Hf). pose proof (total_nonneg fs2). rewrite elen_cons in Hsz.
  assert (Happ : fs1 ++ f :: fs2 = (fs1 ++ [f]) ++ fs2) by (by rewrite <- app_assoc).
  assert (Hn : elen (fs1 ++ [f]) = elen fs1 + Z.of_nat (length (flag_bytes f))) by (rewrite elen_app, elen_cons; change (elen []) with 0; lia).
  set (z := if flag_val f =? 0 then flag_cnt f else 0). assert (Hz : 0 <= z <= flag_cnt f) by (unfold z; case_match; lia).
  assert (Hgo : zero_regs_sparse fuel d (HLL_HEADER_SIZE_BYTES + elen fs1 + Z.of_nat (length (flag_bytes f))) (k + z) = Ok (k + zeros (f :: fs2))).
  { change (zeros (f :: fs2)) with (z + zeros fs2). rewrite <- Z.add_assoc, <- Hn, Z.add_assoc. rewrite Happ in H.
    apply IH; try done; [rewrite Hn; lia|cbn in Hfuel; lia|lia|lia]. }
  cbn [zero_regs_sparse]. pose proof (elen_nonneg fs2).
  assert (Hlen : 1 <= Z.of_nat (length (flag_bytes f))) by (destruct f; cbn; lia). zbool.
  destruct f as [v c|c|c]; erewrite flag_get0 by (exact H || reflexivity); cbn [mbind result_bind].
  - destruct (val_read v c Hf) as (_ & -> & _). destruct Hf. replace (_ =? 0) with false by lia.
    replace (k + z) with k in Hgo; [exact Hgo|]. unfold z. cbn. replace (v =? 0) with false by lia. lia.
  - cbn in Hcf. apply Z.eqb_eq in Hcf as ->. change (zero_cnt (1 - 1)) with 1. cbn [Z.eqb].
    change z with 1 in *. rewrite u32_small by (cbn in *; lia). exact Hgo.
  - destruct (xzero_read c Hf) as (_ & -> & _). cbn in Hf. assert (0 <= (c - 1) / 256) by (apply Z.div_pos; lia).
    replace (_ =? 0) with false by lia.
    rewrite (flag_get d hdr fs1 (XZero c) fs2 rest 1 ((c - 1) mod 256) H) by (done || lia).
    cbn [mbind result_bind]. rewrite (xzero_cnt_eq c Hf). change z with c in *. rewrite u32_small by (cbn in *; lia). exact Hgo.
Qed.

(** What the program needs of [logl]: it is within 2^-60 of the bounds of the
    logarithm between 1/2 and 2. *)
Definition logl_ok (logl : Q -> Q) : Prop :=
  forall x, ((1 # 2) <= x)%Q -> (x <= 2)%Q -> (1 - / x - (1 # 2 ^ 60) <= logl x /\ logl x <= x - 1 + (1 # 2 ^ 60))%Q.

(** One register in use: the estimate is below the range of the correction. *)
Lemma estimate_one v : 1 <= v <= 32 ->
  Qle_bool (ld_mul pref (ld_div (inject_Z 1) (Qred (Qmake (16383 * 2 ^ 32 + 2 ^ (32 - v)) (2 ^ 32))))) (inject_Z REGISTER_CNT * (5 # 2))%Q = true.
Proof.
  intros Hv. assert (H : forallb (fun v => Qle_bool (ld_mul pref (ld_div (inject_Z 1)
    (Qred (Qmake (16383 * 2 ^ 32 + 2 ^ (32 - v)) (2 ^ 32))))) (inject_Z REGISTER_CNT * (5 # 2))%Q) (seqZ 1 32) = true) by (vm_compute; reflexivity).
  rewrite forallb_forall in H. apply H. apply list_elem_of_In, elem_of_seqZ. lia.
Qed.

Lemma trunc_floor x : (0 <= x)%Q -> trunc x = Qfloor x.
Proof.
  intros H. unfold trunc, Qfloor. destruct x as [num den]. cbn [Qnum Qden]. unfold Qle in H. cbn [Qnum Qden] in H.
  apply Z.quot_div_nonneg; lia.
Qed.

(** The correction for small counts gives 1. *)
Lemma log_one logl : logl_ok logl ->
  trunc (ld_add (ld_mul (logl (ld_div (inject_Z REGISTER_CNT) (inject_Z 16383))) (inject_Z REGISTER_CNT)) (1 # 2)%Q) = 1.
Proof.
  intros Hl. set (x := ld_div (inject_Z REGISTER_CNT) (inject_Z 16383)).
  assert (Hx : ((1 # 2) <= x /\ x <= 2)%Q) by (split; vm_compute; discriminate).
  assert (Hb : ((1 # 16400) <= 1 - / x - (1 # 2 ^ 60) /\ x - 1 + (1 # 2 ^ 60) <= (1 # 16380))%Q) by (split; vm_compute; discriminate).
  destruct (Hl x) as [Hlo Hhi]; [apply Hx|apply Hx|]. set (y := logl x) in *. clearbody y. clearbody x.
  unfold ld_add, ld_mul. change (inject_Z REGISTER_CNT) with (16384 # 1)%Q.
  destruct (rnd_near (y * (16384 # 1))) as [R1 R2]; [lra|lra|]. set (m := rnd 64 (y * (16384 # 1))) in *. clearbody m.
  destruct (rnd_near (m + (1 # 2))) as [S1 S2]; [lra|lra|]. set (s := rnd 64 (m + (1 # 2))) in *. clearbody s.
  assert (H1 : (1 <= s /\ s < 2)%Q) by lra. rewrite trunc_floor by lra. pose proof (Qfloor_le s). pose proof (Qlt_floor s).
  assert (inject_Z (Qfloor s) < inject_Z 2)%Q as Ha by (change (inject_Z 2) with 2%Q; lra).
  assert (inject_Z 1 < inject_Z (Qfloor s + 1))%Q as Hc by (change (inject_Z 1) with 1%Q; lra). rewrite <- Zlt_Qlt in Ha, Hc. lia.
Qed.

Lemma weights_app fs gs : weights (fs ++ gs) = weights fs + weights gs.
Proof. unfold weights. rewrite fmap_app, foldr_app. induction (weight <$> fs) as [|x l IH]; cbn in *; lia. Qed.

Lemma zeros_app fs gs : zeros (fs ++ gs) = zeros fs + zeros gs.
Proof.
  unfold zeros. rewrite fmap_app, foldr_app. induction ((fun f => if flag_val f =? 0 then flag_cnt f else 0) <$> fs) as [|x l IH]; cbn in *; lia.
Qed.

Lemma zrun_sums n : 0 <= n -> weights (zrun n) = n * 2 ^ 32 /\ zeros (zrun n) = n.
Proof.
  intros Hn. unfold zrun. destruct (Z.eqb_spec n 0) as [->|]; [done|].
  case_match; unfold weights, zeros, weight; cbn [fmap list_fmap foldr flag_cnt flag_val Z.eqb]; rewrite Z.sub_0_r; lia.
Qed.

(** The flags of a value with one register in use. *)
Definition one_reg (n1 v n2 : Z) : list flag := split_run [] n1 v n2 [].

Lemma one_reg_sums n1 v n2 :
  0 <= n1 -> 0 <= n2 -> 1 <= v <= 32 ->
  weights (one_reg n1 v n2) = (n1 + n2) * 2 ^ 32 + 2 ^ (32 - v) /\ zeros (one_reg n1 v n2) = n1 + n2.
Proof.
  intros H1 H2 Hv. unfold one_reg, split_run. rewrite app_nil_l, app_nil_r, weights_app, zeros_app.
  change (Val v 1 :: zrun n2) with ([Val v 1] ++ zrun n2). rewrite weights_app, zeros_app.
  destruct (zrun_sums n1 H1) as [-> ->], (zrun_sums n2 H2) as [-> ->].
  unfold weights, zeros, weight. cbn [fmap list_fmap foldr flag_cnt flag_val]. replace (v =? 0) with false by lia. lia.
Qed.

Lemma enc_bytes_ok fs : Forall flag_ok fs -> bytes_ok (enc fs).
Proof.
  induction 1 as [|f fs Hf _ IH]; [constructor|]. rewrite enc_cons. apply Forall_app. split; [|done].
  destruct f as [v c|c|c]; cbn [flag_bytes].
  - destruct (val_read v c Hf) as (? & _). by constructor.
  - destruct (zero_read c Hf) as (? & _). by constructor.
  - destruct (xzero_read c Hf) as (? & _). constructor; [done|]. constructor; [|constructor]. apply Z.mod_pos_bound. lia.
Qed.

Lemma sparse_cached d hdr fs rest v :
  sparse_at d hdr fs rest -> Forall flag_ok fs -> 0 <= v < 2 ^ 63 ->
  exists d', set_cache d v = Ok d' /\ sparse_at d' (cached hdr v) fs rest /\ cache_valid d' = Ok true /\ get_cache d' = Ok v.
Proof.
  intros [Hb Hsz Hh Hhok Hf Hcap] Hok Hv. unfold HLL_HEADER_SIZE_BYTES in Hh.
  destruct (cache_set_ok d (hdr ++ enc fs) rest v Hb) as (d' & E & Hb' & Hok' & [Hs' Hf'] & Hva & Hg);
    [apply Forall_app; split; [done|by apply enc_bytes_ok]|len|done|].
  assert (Hc : cached (hdr ++ enc fs) v = cached hdr v ++ enc fs).
  { unfold cached. rewrite take_app_le, drop_app_le by lia. by rewrite <- !app_assoc. }
  exists d'. split_and!; try done. rewrite Hc in *. apply Forall_app in Hok' as [Hok' _].
  split; rewrite ?Hs', ?Hf'; try done. rewrite cached_length by lia. done.
Qed.

(** A count in the small range, from its parts. *)
Lemma hll_count_small logl d est z c :
  cache_valid d = Ok false -> estimate_cnt d = Ok est -> Qle_bool est (inject_Z REGISTER_CNT * (5 # 2))%Q = true ->
  cnt_zero_regs d = Ok z -> z <> 0 ->
  trunc (ld_add (ld_mul (logl (ld_div (inject_Z REGISTER_CNT) (inject_Z z))) (inject_Z REGISTER_CNT)) (1 # 2)%Q) = c ->
  hll_count logl d = (_ ← check ((0 <=? c) && (c <? 2 ^ 64)) Overflow; hll ← set_cache d c; Ok (c, hll)).
Proof.
  intros Hc He Hq Hz Hz0 Hf. unfold hll_count. rewrite Hc. cbn [mbind result_bind]. rewrite He. cbn [mbind result_bind].
  rewrite Hq, Hz. cbn [mbind result_bind]. replace (z =? 0) with false by lia. cbn [mbind result_bind]. by rewrite Hf.
Qed.

(** The parts of a count that do not depend on the zero registers. *)
Lemma one_reg_estimate d hdr n1 v n2 rest :
  sparse_at d hdr (one_reg n1 v n2) rest -> Forall flag_ok (one_reg n1 v n2) -> 0 <= n1 -> 0 <= n2 -> n1 + n2 = 16383 -> 1 <= v <= 32 ->
  nth 4 hdr 0 = 1 -> Z.testbit (nth 15 hdr 0) 7 = true ->
  (length (one_reg n1 v n2) <= length (d_buf d))%nat /\ cache_valid d = Ok false /\ get_enc d = Ok 1 /\
  estimate_cnt d = Ok (ld_mul pref (ld_div (inject_Z 1) (Qred (Qmake (16383 * 2 ^ 32 + 2 ^ (32 - v)) (2 ^ 32))))).
Proof.
  intros H Hok H1 H2 Hs Hv H4 H15. destruct (one_reg_sums n1 v n2 H1 H2 Hv) as [Hw Hz]. rewrite Hs in Hw, Hz.
  set (fs := one_reg n1 v n2) in *.
  assert (Hp : 0 < 2 ^ (32 - v) <= 2 ^ 32) by (split; [apply Z.pow_pos_nonneg|apply Z.pow_le_mono_r]; lia).
  assert (Hne : fs <> []) by (intros E; rewrite E in Hz; done).
  assert (Hfuel : (length fs <= length (d_buf d))%nat).
  { pose proof (elen_ge fs) as Hg. rewrite (sp_buf _ _ _ _ H). unfold elen in Hg. len. }
  assert (E4 : get_enc d = Ok 1).
  { unfold get_enc. rewrite (sparse_hdr _ _ _ _ 4 H ltac:(lia)). change (Z.to_nat 4) with 4%nat. by rewrite H4. }
  split; [done|]. split; [|split; [done|]].
  - unfold cache_valid. rewrite (sparse_hdr _ _ _ _ 15 H ltac:(lia)). cbn [mbind result_bind].
    change (Z.to_nat 15) with 15%nat. by rewrite H15.
  - unfold estimate_cnt. rewrite E4. cbn [mbind result_bind]. change (1 =? enc_byte HLL_DENSE) with false. cbn iota.
    unfold estimate_cnt_s. pose proof (estimate_flags_ok [] _ d hdr fs rest (inject_Z 0) 0 H Hok Hfuel Hne) as E.
    change (elen []) with 0 in E. rewrite Z.add_0_r in E. rewrite E; [|done|lia|lia]. cbn [mbind result_bind]. by rewrite Z.add_0_l, Hw.
Qed.

Lemma hll_count_one logl d hdr n1 v n2 rest :
  logl_ok logl -> sparse_at d hdr (one_reg n1 v n2) rest -> Forall flag_ok (one_reg n1 v n2) ->
  forallb countable (one_reg n1 v n2) = true -> 0 <= n1 -> 0 <= n2 -> n1 + n2 = 16383 -> 1 <= v <= 32 ->
  total (one_reg n1 v n2) = REGISTER_CNT -> nth 4 hdr 0 = 1 -> Z.testbit (nth 15 hdr 0) 7 = true ->
  exists d', hll_count logl d = Ok (1, d') /\ sparse_at d' (cached hdr 1) (one_reg n1 v n2) rest /\ hll_count logl d' = Ok (1, d').
Proof.
  intros Hl H Hok Hc H1 H2 Hs Hv Ht H4 H15. destruct (one_reg_sums n1 v n2 H1 H2 Hv) as [_ Hz]. rewrite Hs in Hz.
  destruct (one_reg_estimate d hdr n1 v n2 rest H Hok H1 H2 Hs Hv H4 H15) as (Hfuel & Ecv & E4 & E1).
  set (fs := one_reg n1 v n2) in *.
  assert (E2 : cnt_zero_regs d = Ok 16383).
  { unfold cnt_zero_regs. rewrite E4. cbn [mbind result_bind]. change (1 =? enc_byte HLL_DENSE) with false. cbn iota.
    pose proof (zero_regs_ok [] _ d hdr fs rest 0 H Hok Hc Hfuel ltac:(lia)) as E. change (elen []) with 0 in E. rewrite Z.add_0_r in E.
    rewrite E by (rewrite Ht; done). by rewrite Hz. }
  destruct (sparse_cached d hdr fs rest 1 H Hok) as (d' & Es & Hd' & Hva & Hg); [lia|].
  exists d'. split_and!; [|done|unfold hll_count; rewrite Hva; cbn [mbind result_bind]; by rewrite Hg].
  erewrite hll_count_small; [|exact Ecv|exact E1|by apply estimate_one|exact E2|lia|by apply log_one].
  cbn [Z.leb Z.ltb Z.compare andb check mbind result_bind]. by rewrite Es.
Qed.

(** ** A count that is read wrong *)

Lemma rnd_neg x : (x < 0)%Q -> (-(1000000000) < x)%Q ->
  (x * (1 + (1 # 1048576)) <= rnd 64 x /\ rnd 64 x <= x * (1 - (1 # 1048576)))%Q.
Proof.
  intros H0 H1. assert (Hn : Qnum x < 0) by (unfold Qlt in H0; cbn [Qnum Qden] in H0; lia).
  rewrite rnd_of_neg by done. destruct (rnd_near (- x)) as [H H']; [lra|lra|]. set (m := rnd 64 (- x)) in *. clearbody m. lra.
Qed.

Lemma trunc_neg x : (x <= -(1))%Q -> trunc x < 0.
Proof.
  intros H. unfold trunc. destruct x as [num den]. unfold Qle in H. cbn [Qnum Qden Qopp] in *.
  pose proof (Z.quot_le_mono num (-1 * Zpos den) (Zpos den) ltac:(lia) ltac:(lia)) as Hm. rewrite Z.quot_mul in Hm by lia. lia.
Qed.

(** A count of zero registers well above their number makes the estimate negative. *)
Lemma log_negative logl z : logl_ok logl -> 16700 <= z <= 32767 ->
  trunc (ld_add (ld_mul (logl (ld_div (inject_Z REGISTER_CNT) (inject_Z z))) (inject_Z REGISTER_CNT)) (1 # 2)%Q) < 0.
Proof.
  intros Hl Hz. unfold ld_add, ld_mul, ld_div. change (inject_Z REGISTER_CNT) with (16384 # 1)%Q.
  assert (Hzq : (16700 <= inject_Z z /\ inject_Z z <= 32767)%Q).
  { split; [change 16700%Q with (inject_Z 16700)|change 32767%Q with (inject_Z 32767)]; rewrite <- Zle_Qle; lia. }
  set (u := inject_Z z) in *. clearbody u.
  assert (Hq : ((500015 # 1000000) <= (16384 # 1) / u /\ (16384 # 1) / u <= (9811 # 10000))%Q).
  { split; [apply Qle_shift_div_l; lra|apply Qle_shift_div_r; lra]. }
  set (q := ((16384 # 1) / u)%Q) in *. clearbody q.
  destruct (rnd_near q) as [X1 X2]; [lra|lra|]. set (x := rnd 64 q) in *. clearbody x.
  assert (Hx : ((50001 # 100000) <= x /\ x <= (982 # 1000))%Q) by lra.
  assert (Hi : (/ x <= 2)%Q) by (apply Qle_shift_inv_r; lra).
  destruct (Hl x) as [L1 L2]; [lra|lra|]. assert (Ht : ((1 # 2 ^ 60) <= (1 # 1000))%Q) by done.
  set (tol := (1 # 2 ^ 60)%Q) in *. clearbody tol. set (y := logl x) in *. clearbody y. set (i := (/ x)%Q) in *. clearbody i.
  destruct (rnd_neg (y * (16384 # 1))) as [M1 M2]; [lra|lra|]. set (m := rnd 64 (y * (16384 # 1))) in *. clearbody m.
  destruct (rnd_neg (m + (1 # 2))) as [S1 S2]; [lra|lra|]. set (s := rnd 64 (m + (1 # 2))) in *. clearbody s.
  apply trunc_neg. lra.
Qed.

(** A ZERO flag of 2 to 64 registers in front of a VAL flag is taken for an XZERO
    flag whose second byte is the VAL flag. *)
Lemma zero_misread fuel d hdr fs1 c v c' fs2 rest k :
  sparse_at d hdr (fs1 ++ Zero c :: Val v c' :: fs2) rest -> 2 <= c <= 64 -> flag_ok (Val v c') -> 0 <= k < 2 ^ 31 ->
  zero_regs_sparse (S fuel) d (HLL_HEADER_SIZE_BYTES + elen fs1) k =
  zero_regs_sparse fuel d (HLL_HEADER_SIZE_BYTES + elen (fs1 ++ [Zero c; Val v c'])) (k + 256 * (c - 1) + (128 + 4 * (v - 1) + (c' - 1)) + 1).
Proof.
  intros H Hc Hv Hk. pose proof (size_split _ _ _ _ _ _ H) as Hs. cbn [flag_bytes length] in Hs. pose proof (elen_nonneg (Val v c' :: fs2)).
  cbn [zero_regs_sparse]. zbool. erewrite flag_get0 by (exact H || reflexivity). cbn [mbind result_bind]. replace (c - 1 =? 0) with false by lia.
  destruct (zero_read c ltac:(cbn; lia)) as (_ & -> & _).
  assert (Happ : fs1 ++ Zero c :: Val v c' :: fs2 = (fs1 ++ [Zero c]) ++ Val v c' :: fs2) by (by rewrite <- app_assoc). rewrite Happ in H.
  assert (Hn : HLL_HEADER_SIZE_BYTES + elen fs1 + 1 = HLL_HEADER_SIZE_BYTES + elen (fs1 ++ [Zero c]))
    by (rewrite elen_app, elen_cons; change (elen []) with 0; cbn [flag_bytes length]; lia).
  rewrite Hn. erewrite flag_get0 by (exact H || reflexivity). cbn [mbind result_bind].
  destruct (val_read v c' Hv) as (Hb & _). set (b := 128 + 4 * (v - 1) + (c' - 1)) in *.
  assert (xzero_cnt (c - 1) b = 256 * (c - 1) + b + 1) as ->.
  { unfold xzero_cnt. assert (Z.land (c - 1) (Z.lnot 64) = c - 1) as ->.
    { apply Z.eqb_eq. pose proof (byte_ind (fun b => (64 <=? b) || (Z.land b (Z.lnot 64) =? b)) ltac:(vm_compute; reflexivity) (c - 1) ltac:(lia)) as Hl.
      cbn beta in Hl. replace (64 <=? c - 1) with false in Hl by lia. exact Hl. }
    pose proof (lor_above b (c - 1) 0) as L. rewrite Z.shiftl_0_r in L. change (0 + 8) with 8 in L.
    rewrite Z.lor_comm, Z.shiftl_mul_pow2, L by lia. lia. }
  rewrite u32_small by lia. f_equal; [|lia]. rewrite elen_app, !elen_cons. change (elen []) with 0. cbn [flag_bytes length]. lia.
Qed.

Lemma hll_count_misread logl d hdr r v rest :
  logl_ok logl -> sparse_at d hdr (one_reg r v (16383 - r)) rest -> Forall flag_ok (one_reg r v (16383 - r)) ->
  2 <= r <= 64 -> 1 <= v <= 32 -> nth 4 hdr 0 = 1 -> Z.testbit (nth 15 hdr 0) 7 = true ->
  hll_count logl d = Fault Overflow.
Proof.
  intros Hl H Hok Hr Hv H4 H15.
  destruct (one_reg_estimate d hdr r v (16383 - r) rest H Hok) as (Hfuel & Ecv & E4 & E1); [lia..|done|done|].
  assert (Hfs : one_reg r v (16383 - r) = [Zero r; Val v 1; XZero (16383 - r)]).
  { unfold one_reg, split_run, zrun. replace (r =? 0) with false by lia. replace (16383 - r =? 0) with false by lia. zbool. done. }
  rewrite Hfs in *. set (z := 256 * (r - 1) + (128 + 4 * (v - 1) + (1 - 1)) + 1 + (16383 - r)).
  assert (E2 : cnt_zero_regs d = Ok z).
  { unfold cnt_zero_regs. rewrite E4. cbn [mbind result_bind]. change (1 =? enc_byte HLL_DENSE) with false. cbn iota.
    destruct (length (d_buf d)) as [|fuel]; [cbn in Hfuel; lia|]. rewrite <- (Z.add_0_r HLL_HEADER_SIZE_BYTES). change 0 with (elen []) at 1.
    rewrite (zero_misread fuel d hdr [] r v 1 [XZero (16383 - r)] rest 0 H) by (cbn; lia). cbn [app].
    rewrite (zero_regs_ok [Zero r; Val v 1] fuel d hdr [XZero (16383 - r)] rest); [|done| |done|cbn in *; lia|lia|].
    - unfold zeros, z. cbn [fmap list_fmap foldr flag_val flag_cnt Z.eqb]. f_equal. lia.
    - by do 2 apply Forall_inv_tail in Hok.
    - rewrite total_cons by (cbn; lia). change (total []) with 0. cbn [flag_cnt]. lia. }
  pose proof (log_negative logl z Hl ltac:(lia)) as Hneg.
  erewrite hll_count_small; [|exact Ecv|exact E1|by apply estimate_one|exact E2|lia|reflexivity].
  set (c := trunc _) in *. replace (0 <=? c) with false by lia. done.
Qed.

(** ** Adding the first element *)

(** The register of an element and the value it asks for. *)
Definition hll_reg (vb : list Z) : Z := Z.shiftr (str_hash vb) HLL_Q.
Definition hll_rank (vb : list Z) : Z := leading (Z.to_nat HLL_Q) 1 (u64 (Z.shiftl (str_hash vb) HLL_P)).

Lemma hll_reg_range vb : 0 <= hll_reg vb < REGISTER_CNT.
Proof.
  pose proof (str_hash_u64 vb). unfold hll_reg, HLL_Q, HLL_P, REGISTER_CNT. rewrite Z.shiftr_div_pow2 by lia.
  split; [apply Z.div_pos; lia|apply Z.div_lt_upper_bound; lia].
Qed.

Lemma hll_rank_pos vb : 1 <= hll_rank vb.
Proof.
  unfold hll_rank. assert (H : forall n z e, 1 <= z -> 1 <= leading n z e); [|apply H; lia].
  induction n as [|n IH]; intros z e Hz; cbn [leading]; [done|]. repeat case_match; try done. apply IH. lia.
Qed.

(** [hll_add] on a sparse value that stays sparse. *)
Lemma hll_add_sparse d hdr fs rest vb d' hdr' fs' rest' ret :
  sparse_at d hdr fs rest -> nth 4 hdr 0 = 1 -> add_sparse d (hll_reg vb) (hll_rank vb) = Ok (d', ret) ->
  sparse_at d' hdr' fs' rest' -> nth 4 hdr' 0 = 1 -> d_size d' <= HLL_SPARSE_MAX_BYTES -> hll_add d vb = Ok (d', ret).
Proof.
  intros H H4 E H' H4' Hm. unfold hll_add. cbn zeta. unfold get_enc. rewrite (sparse_hdr _ _ _ _ 4 H ltac:(lia)). cbn [mbind result_bind].
  change (Z.to_nat 4) with 4%nat. rewrite H4. change (1 =? enc_byte HLL_DENSE) with false. cbn iota.
  fold (hll_reg vb) (hll_rank vb). rewrite E. cbn [mbind result_bind]. rewrite (sparse_hdr _ _ _ _ 4 H' ltac:(lia)). cbn [mbind result_bind].
  change (Z.to_nat 4) with 4%nat. rewrite H4'. replace (HLL_SPARSE_MAX_BYTES <? d_size d') with false by lia. done.
Qed.

(** A new value: one run of zeros over all registers. *)
Definition new_hdr : list Z := HYLL ++ [1] ++ replicate 10 0 ++ [128].
Definition new_hll : dstr := mkDstr 18 0 (Some <$> (HYLL ++ [1] ++ replicate 10 0 ++ [128; 127; 255; 0])).

Lemma new_hll_sparse : sparse_at new_hll new_hdr [XZero 16384] [Some 0].
Proof. split; [done|done|done|by_compute|cbn; lia|done]. Qed.

(** Registers whose neighbouring runs PFCOUNT reads right: a run of 2 to 65 zero
    registers would be written as a ZERO flag other than 0. *)
Definition plain_reg (r : Z) : Prop := (r <= 1 \/ 66 <= r) /\ (r <= REGISTER_CNT - 67 \/ REGISTER_CNT - 2 <= r).

(** Registers whose neighbouring runs are not 65 registers long. *)
Definition writable_reg (r : Z) : Prop := r <> 65 /\ r <> REGISTER_CNT - 66.

Lemma plain_writable r : plain_reg r -> writable_reg r.
Proof. unfold plain_reg, writable_reg, REGISTER_CNT. lia. Qed.

(** One register in use: at most five bytes, nothing to merge. *)
Lemma one_reg_shape r v :
  0 <= r < REGISTER_CNT ->
  separated (one_reg r v (16383 - r)) = true /\ 16 + elen (one_reg r v (16383 - r)) <= HLL_SPARSE_MAX_BYTES - 303 /\
  (plain_reg r -> forallb countable (one_reg r v (16383 - r)) = true).
Proof.
  unfold plain_reg, REGISTER_CNT. intros Hr. unfold one_reg, split_run, zrun. rewrite app_nil_l, app_nil_r.
  destruct (Z.eqb_spec r 0), (Z.leb_spec r 65), (Z.eqb_spec (16383 - r) 0), (Z.leb_spec (16383 - r) 65); try lia;
    cbn [app separated mergeable negb andb forallb countable]; rewrite ?andb_true_r;
    (split; [done|]); (split; [vm_compute; discriminate|]); intros [H1 H2]; try done; lia.
Qed.

(** The value after its first element. *)
Lemma first_add vb :
  hll_rank vb <= 32 -> writable_reg (hll_reg vb) ->
  let fs := one_reg (hll_reg vb) (hll_rank vb) (16383 - hll_reg vb) in
  exists d rest, hll_add new_hll vb = Ok (d, 1) /\ sparse_at d (dirty new_hdr) fs rest /\ Forall flag_ok fs /\
    total fs = REGISTER_CNT /\ regs fs = <[Z.to_nat (hll_reg vb) := hll_rank vb]> (replicate (Z.to_nat REGISTER_CNT) 0).
Proof.
  intros Hrank Hp fs. pose proof (hll_reg_range vb) as Hr. pose proof (hll_rank_pos vb) as Hv.
  destruct (one_reg_shape (hll_reg vb) (hll_rank vb) Hr) as (Hsep & Hlen & _). destruct Hp as [N1 N2]. unfold REGISTER_CNT in N2.
  remember (hll_reg vb) as r eqn:Er. remember (hll_rank vb) as v eqn:Ev. unfold REGISTER_CNT in Hr.
  pose proof (add_run new_hll new_hdr [] (XZero 16384) [] [Some 0] r v new_hll_sparse) as A. cbn zeta in A.
  change (total []) with 0 in A. cbn [app flag_cnt] in A. rewrite Z.sub_0_r in A.
  replace (16384 - 1 - r) with (16383 - r) in A by lia. fold (one_reg r v (16383 - r)) in A. fold fs in A, Hsep, Hlen.
  assert (Hx : Forall flag_ok [XZero 16384]) by (apply Forall_singleton; done).
  destruct (A Hx eq_refl) as (d & rest & E & Hd & Hok & Hregs); try done; [lia|].
  exists d, rest. subst r v. split_and!; try done.
  - eapply hll_add_sparse; [apply new_hll_sparse|done|exact E|exact Hd|done|].
    rewrite (sp_size _ _ _ _ Hd). unfold HLL_HEADER_SIZE_BYTES, HLL_SPARSE_MAX_BYTES in *. lia.
  - unfold total. rewrite Hregs, length_insert. done.
Qed.

(** ** PFADD and PFCOUNT *)

(** The node [l] holds a sparse value with the given header and flags. *)
Definition hll_at (m : Mem) (l : loc) (hdr : list Z) (fs : list flag) : Prop :=
  exists n d rest, m_hnodes m !! l = Some n /\ h_type n = T_HLL /\ h_hll n = Some d /\ sparse_at d hdr fs rest.

Lemma node_init_hll kb z n : node_init kb T_HLL z = Ok n -> h_type n = T_HLL /\ h_hll n = Some new_hll.
Proof.
  unfold node_init. rewrite hll_init_eq. destruct (dstr_copy kb); [|done]. cbn [mbind result_bind]. by intros [= <-].
Qed.

(** PFADD on a node, once [hll_add] is known. *)
Lemma do_pfadd_node w w1 M cmd key kb el vb l n d d' ret :
  cmd !! 1%nat = Some key -> cmd !! 2%nat = Some el -> dstr_rep el vb ->
  find_or_create key T_HLL w = Ok (l, w1) -> db_ok w1 (<[key_id kb := l]> M) ->
  m_hnodes (w_mem w1) !! l = Some n -> h_type n = T_HLL -> h_hll n = Some d -> hll_add d vb = Ok (d', ret) ->
  exists w', do_pfadd cmd w = Ok (SUCCESS, w') /\ w_out w' = out_int (w_out w1) ret /\ db_ok w' (<[key_id kb := l]> M) /\
    w_heap w' = w_heap w1 /\ m_hnodes (w_mem w') = <[l := set_h_hll d' n]> (m_hnodes (w_mem w1)).
Proof.
  intros H1 H2 He E Hdb Hn Ht Hh Ha. set (n' := set_h_hll d' n). set (w2 := put_node l n' w1).
  exists (with_out (out_int (w_out w1) ret) w2). split_and!; try done.
  - unfold do_pfadd. cstep arg_ok. cstep arg_ok. erewrite cmd_step by exact E. cstep node_ok. rewrite decide_True by done.
    erewrite cmd_step by (by apply field_ok). erewrite cmd_step by (apply lift_ok; by apply rep_bytes).
    erewrite cmd_step by (apply lift_ok; exact Ha). cbn beta iota. erewrite cmd_step by (by apply set_node_ok).
    by erewrite cmd_step by reflexivity.
  - assert (db_ok w2 (<[key_id kb := l]> M)) as [? ? ?] by (by apply (put_node_db _ _ _ n)). done.
Qed.

Lemma do_pfcount_node logl w M cmd key kb l n d d' c :
  db_ok w M -> cmd !! 1%nat = Some key -> dstr_rep key kb -> short_key kb -> M !! key_id kb = Some l ->
  m_hnodes (w_mem w) !! l = Some n -> h_type n = T_HLL -> h_hll n = Some d -> hll_count logl d = Ok (c, d') ->
  exists w', do_pfcount logl cmd w = Ok (SUCCESS, w') /\ w_out w' = out_int (w_out w) c /\ db_ok w' M /\
    w_heap w' = w_heap w /\ m_hnodes (w_mem w') = <[l := set_h_hll d' n]> (m_hnodes (w_mem w)).
Proof.
  intros Hdb H1 Hk Hs Hl Hn Ht Hh Hc. set (n' := set_h_hll d' n). set (w2 := put_node l n' w).
  exists (with_out (out_int (w_out w) c) w2). split_and!; try done.
  - unfold do_pfcount. cstep arg_ok. erewrite cmd_step by (by eapply lookup_key_ok). rewrite Hl.
    rewrite (cmd_step _ _ w SUCCESS w); [|unfold validate_hmnode; cstep node_ok; by rewrite decide_True].
    cstep node_ok. erewrite cmd_step by (by apply field_ok). erewrite cmd_step by (apply lift_ok; exact Hc). cbn beta iota.
    erewrite cmd_step by (by apply set_node_ok). by erewrite cmd_step by reflexivity.
  - assert (db_ok w2 M) as [? ? ?] by (by apply (put_node_db _ _ _ n)). done.
Qed.

Lemma total_zrun n : 0 <= n -> total (zrun n) = n.
Proof. intros Hn. unfold total. rewrite regs_zrun, length_replicate by done. lia. Qed.

(** Adding the element again changes nothing. *)
Lemma again_add d hdr rest vb :
  let fs := one_reg (hll_reg vb) (hll_rank vb) (16383 - hll_reg vb) in
  sparse_at d hdr fs rest -> Forall flag_ok fs -> total fs = REGISTER_CNT -> nth 4 hdr 0 = 1 ->
  hll_rank vb <= 32 ->
  exists d' rest', hll_add d vb = Ok (d', 0) /\ sparse_at d' hdr fs rest'.
Proof.
  intros fs H Hok Ht H4 Hrank. pose proof (hll_reg_range vb) as Hr. pose proof (hll_rank_pos vb) as Hv. unfold REGISTER_CNT in Hr.
  destruct (one_reg_shape (hll_reg vb) (hll_rank vb) Hr) as (_ & Hlen & _). fold fs in Hlen.
  assert (Hfs : fs = zrun (hll_reg vb) ++ Val (hll_rank vb) 1 :: zrun (16383 - hll_reg vb)) by (unfold fs, one_reg, split_run; by rewrite app_nil_l, app_nil_r).
  assert (Hg : growing d) by (unfold growing; rewrite (sp_size _ _ _ _ H); exact Hlen).
  rewrite Hfs in H, Hok, Ht.
  destruct (add_sparse_keeps d hdr _ _ _ _ rest (hll_reg vb) (hll_rank vb) H Hok Ht Hg) as (d' & rest' & E & Hd);
    [lia|rewrite total_zrun by lia; lia|lia|].
  exists d', rest'. rewrite Hfs. split; [|done]. eapply hll_add_sparse; [exact H|done|exact E|exact Hd|done|].
  rewrite (sp_size _ _ _ _ Hd), <- Hfs. unfold HLL_HEADER_SIZE_BYTES, HLL_SPARSE_MAX_BYTES in *. lia.
Qed.

(** The first PFADD, for any register that is written right. *)
Lemma pfadd_first w M cmd key kb el vb :
  db_ok w M -> Z.of_nat (size M) + 1 < 2 ^ 60 ->
  cmd !! 1%nat = Some key -> dstr_rep key kb -> short_key kb -> cmd !! 2%nat = Some el -> dstr_rep el vb ->
  M !! key_id kb = None -> hll_rank vb <= 32 -> writable_reg (hll_reg vb) ->
  let fs := one_reg (hll_reg vb) (hll_rank vb) (16383 - hll_reg vb) in
  exists w' l n d rest, do_pfadd cmd w = Ok (SUCCESS, w') /\ w_out w' = out_int (w_out w) 1 /\
    db_ok w' (<[key_id kb := l]> M) /\ m_hnodes (w_mem w') !! l = Some n /\ h_type n = T_HLL /\ h_hll n = Some d /\
    sparse_at d (dirty new_hdr) fs rest /\ Forall flag_ok fs /\ total fs = REGISTER_CNT /\
    regs fs = <[Z.to_nat (hll_reg vb) := hll_rank vb]> (replicate (Z.to_nat REGISTER_CNT) 0) /\
    (forall x, x ∈ vals M -> mem_obs (w_mem w') x = mem_obs (w_mem w) x).
Proof.
  intros Hdb Hsz H1 Hk Hs H2 He Hnew Hrank Hp fs.
  destruct (find_or_create_ok w M key kb T_HLL Hdb Hsz Hk Hs) as (w1 & l & E & Hdb1 & Ho1 & Hh1 & _ & Hcase). rewrite Hnew in Hcase.
  destruct Hcase as [Hlv (n0 & n & En & Hn & Hc & Hobs)]. destruct (node_init_hll kb _ n0 En) as [Ht0 Hd0].
  assert (Ht : h_type n = T_HLL) by (rewrite <- Ht0; by apply (f_equal h_type) in Hc).
  assert (Hd : h_hll n = Some new_hll) by (rewrite <- Hd0; by apply (f_equal h_hll) in Hc).
  destruct (first_add vb Hrank Hp) as (d & rest & Ea & Hsp & Hok & Htot & Hregs). fold fs in Hsp, Hok, Htot, Hregs.
  destruct (do_pfadd_node w w1 M cmd key kb el vb l n new_hll d 1 H1 H2 He E Hdb1 Hn Ht Hd Ea) as (w' & E' & Ho' & Hdb' & Hh' & Hm').
  exists w', l, (set_h_hll d n), d, rest. split; [done|]. split; [by rewrite Ho', Ho1|]. split; [done|].
  split; [by rewrite Hm', lookup_insert_eq|]. do 6 (split; [done|]).
  intros x Hx. rewrite <- Hobs by done. unfold mem_obs. rewrite Hm', lookup_insert_ne; [done|by intros <-].
Qed.

(** C22: the first element of a HyperLogLog.  PFADD on a new key replies 1 and
    creates a value whose registers are all zero but the one of the element, which
    has its rank; PFADD of the same element again replies 0 and keeps the
    registers; PFCOUNT replies 1, fills the cache and replies 1 again from it; the
    other nodes keep all but the tables of hashes.  For elements of rank at most 32, and registers
    whose neighbouring runs of zeros PFCOUNT reads right ([plain_reg]; see
    [pfcount_misreads]). *)
Theorem pfadd_pfcount logl w M cmd key kb el vb :
  logl_ok logl -> db_ok w M -> Z.of_nat (size M) + 1 < 2 ^ 60 ->
  cmd !! 1%nat = Some key -> dstr_rep key kb -> short_key kb -> cmd !! 2%nat = Some el -> dstr_rep el vb ->
  M !! key_id kb = None -> hll_rank vb <= 32 -> plain_reg (hll_reg vb) ->
  exists w' l hdr fs, do_pfadd cmd w = Ok (SUCCESS, w') /\ w_out w' = out_int (w_out w) 1 /\
    db_ok w' (<[key_id kb := l]> M) /\ hll_at (w_mem w') l hdr fs /\
    regs fs = <[Z.to_nat (hll_reg vb) := hll_rank vb]> (replicate (Z.to_nat REGISTER_CNT) 0) /\
    (forall x, x ∈ vals M -> mem_obs (w_mem w') x = mem_obs (w_mem w) x) /\
    (exists w2, do_pfadd cmd w' = Ok (SUCCESS, w2) /\ w_out w2 = out_int (w_out w') 0 /\ hll_at (w_mem w2) l hdr fs) /\
    (forall cnt, cnt !! 1%nat = Some key ->
      exists w2 hdr2 w3, do_pfcount logl cnt w' = Ok (SUCCESS, w2) /\ w_out w2 = out_int (w_out w') 1 /\
      db_ok w2 (<[key_id kb := l]> M) /\ hll_at (w_mem w2) l hdr2 fs /\
      do_pfcount logl cnt w2 = Ok (SUCCESS, w3) /\ w_out w3 = out_int (w_out w2) 1).
Proof.
  intros Hlog Hdb Hsz H1 Hk Hs H2 He Hnew Hrank Hp.
  destruct (pfadd_first w M cmd key kb el vb Hdb Hsz H1 Hk Hs H2 He Hnew Hrank (plain_writable _ Hp))
    as (w' & l & n & d & rest & E' & Ho' & Hdb' & Hn & Ht & Hd & Hsp & Hok & Htot & Hregs & Hobs).
  set (fs := one_reg (hll_reg vb) (hll_rank vb) (16383 - hll_reg vb)) in *.
  assert (Hl' : (<[key_id kb := l]> M) !! key_id kb = Some l) by apply lookup_insert_eq.
  exists w', l, (dirty new_hdr), fs. do 3 (split; [done|]). split; [by exists n, d, rest|]. do 2 (split; [done|]). split.
  - destruct (again_add d (dirty new_hdr) rest vb Hsp Hok Htot eq_refl Hrank) as (d2 & rest2 & Ea2 & Hsp2).
    assert (Ef : find_or_create key T_HLL w' = Ok (l, w')).
    { unfold find_or_create. erewrite cmd_step by (by eapply lookup_key_ok). by rewrite Hl'. }
    assert (Hdb2 : db_ok w' (<[key_id kb := l]> (<[key_id kb := l]> M))) by (by rewrite insert_insert_eq).
    destruct (do_pfadd_node w' w' _ cmd key kb el vb l n d d2 0 H1 H2 He Ef Hdb2 Hn Ht Hd Ea2) as (w2 & E2 & Ho2 & _ & _ & Hm2).
    exists w2. split_and!; [done|done|]. eexists _, d2, rest2. rewrite Hm2, lookup_insert_eq. by split_and!.
  - intros cnt Hcnt. pose proof (hll_reg_range vb) as Hr. pose proof (hll_rank_pos vb). unfold REGISTER_CNT in Hr.
    destruct (one_reg_shape (hll_reg vb) (hll_rank vb) Hr) as (_ & _ & Hcb). specialize (Hcb Hp).
    destruct (hll_count_one logl d (dirty new_hdr) (hll_reg vb) (hll_rank vb) (16383 - hll_reg vb) rest) as (d2 & Ec & Hsp2 & Ec2);
      try done; [lia..|].
    destruct (do_pfcount_node logl w' _ cnt key kb l n d d2 1 Hdb' Hcnt Hk Hs Hl' Hn Ht Hd Ec) as (w2 & E2 & Ho2 & Hdb2 & _ & Hm2).
    assert (Hn2 : m_hnodes (w_mem w2) !! l = Some (set_h_hll d2 n)) by (by rewrite Hm2, lookup_insert_eq).
    destruct (do_pfcount_node logl w2 _ cnt key kb l _ d2 d2 1 Hdb2 Hcnt Hk Hs Hl' Hn2 Ht eq_refl Ec2) as (w3 & E3 & Ho3 & _).
    exists w2, (cached (dirty new_hdr) 1), w3. split_and!; try done. by eexists _, d2, rest.
Qed.

(** The first element in one of the registers 2 to 64 leaves a ZERO flag in front
    of its VAL flag; PFCOUNT takes the two for an XZERO flag, counts more zero
    registers than there are, and converts a negative estimate to [uint64_t]. *)
Theorem pfcount_misreads logl w M cmd key kb el vb :
  logl_ok logl -> db_ok w M -> Z.of_nat (size M) + 1 < 2 ^ 60 ->
  cmd !! 1%nat = Some key -> dstr_rep key kb -> short_key kb -> cmd !! 2%nat = Some el -> dstr_rep el vb ->
  M !! key_id kb = None -> hll_rank vb <= 32 -> 2 <= hll_reg vb <= 64 ->
  exists w', do_pfadd cmd w = Ok (SUCCESS, w') /\ w_out w' = out_int (w_out w) 1 /\
    forall cnt, cnt !! 1%nat = Some key -> do_pfcount logl cnt w' = Fault Overflow.
Proof.
  intros Hlog Hdb Hsz H1 Hk Hs H2 He Hnew Hrank Hr. assert (Hw : writable_reg (hll_reg vb)) by (unfold writable_reg, REGISTER_CNT; lia).
  destruct (pfadd_first w M cmd key kb el vb Hdb Hsz H1 Hk Hs H2 He Hnew Hrank Hw)
    as (w' & l & n & d & rest & E' & Ho' & Hdb' & Hn & Ht & Hd & Hsp & Hok & _).
  exists w'. split; [done|]. split; [done|]. intros cnt Hcnt. pose proof (hll_rank_pos vb).
  pose proof (hll_count_misread logl d _ _ _ rest Hlog Hsp Hok Hr ltac:(lia) eq_refl eq_refl) as Ec.
  unfold do_pfcount. cstep arg_ok. erewrite cmd_step by (by eapply lookup_key_ok). rewrite lookup_insert_eq.
  rewrite (cmd_step _ _ w' SUCCESS w'); [|unfold validate_hmnode; cstep node_ok; by rewrite decide_True].
  cstep node_ok. erewrite cmd_step by (by apply field_ok). unfold lift. rewrite Ec. done.
Qed.

(** ** Witnesses *)

Lemma add_sparse_exact_witness :
  exists d' fs' rest', add_sparse new_hll 300 5 = Ok (d', 1) /\ sparse_at d' (dirty new_hdr) fs' rest' /\
    fs' = [XZero 300; Val 5 1; XZero 16083].
Proof.
  destruct (add_sparse_exact new_hll new_hdr [] (XZero 16384) [] [Some 0] 300 5) as (d' & fs' & rest' & E & Hd & _ & Hfs & _);
    [exact new_hll_sparse|by apply Forall_singleton|reflexivity|by_compute|lia|discriminate|discriminate|by_compute|by_compute|by_compute|reflexivity|exact I|].
  exists d', fs', rest'. split; [exact E|]. split; [exact Hd|]. rewrite Hfs. reflexivity.
Defined.

Definition pf_cmd : list dstr := exact_dstr <$> [lit "pfadd"; lit "h"; lit "a"].

(** The bounds asked of [logl] can be met. *)
Lemma logl_ok_example : logl_ok (fun x => (x - 1)%Q).
Proof.
  intros x H1 H2. assert (Hi : (x * / x == 1)%Q) by (apply Qmult_inv_r; lra). assert (Ht : (0 <= (1 # 2 ^ 60))%Q) by done.
  set (tol := (1 # 2 ^ 60)%Q) in *. clearbody tol. assert (0 < / x)%Q by (apply Qinv_lt_0_compat; lra).
  set (i := (/ x)%Q) in *. clearbody i. split; [|lra].
  assert (H0 : (0 <= (x - 1) * (x - 1))%Q).
  { destruct (Qlt_le_dec x 1); [|apply Qmult_le_0_compat; lra].
    assert (0 <= (1 - x) * (1 - x))%Q by (apply Qmult_le_0_compat; lra). lra. }
  assert (Hsq : (0 <= (x - 1) * (x - 1) * i)%Q) by (apply Qmult_le_0_compat; lra).
  assert (Hex : ((x - 1) * (x - 1) * i == x * (x * i) - 2 * (x * i) + i)%Q) by ring. rewrite Hex, Hi in Hsq. lra.
Qed.

Lemma pfadd_pfcount_witness :
  exists w', do_pfadd pf_cmd w_empty = Ok (SUCCESS, w') /\ w_out w' = out_int [] 1 /\
    exists w2, do_pfcount (fun x => (x - 1)%Q) [exact_dstr (lit "pfcount"); exact_dstr (lit "h")] w' = Ok (SUCCESS, w2) /\
      w_out w2 = out_int (w_out w') 1.
Proof.
  destruct (pfadd_pfcount (fun x => (x - 1)%Q) w_empty ∅ pf_cmd (exact_dstr (lit "h")) (lit "h") (exact_dstr (lit "a")) (lit "a"))
    as (w' & l & hdr & fs & E & Ho & _ & _ & _ & _ & _ & Hcnt);
    [exact logl_ok_example|apply w_empty_ok|reflexivity|reflexivity|by apply exact_dstr_rep|by_compute|reflexivity|by apply exact_dstr_rep
    |apply lookup_empty|by_compute|vm_compute; split; [right; discriminate|left; discriminate]|].
  destruct (Hcnt [exact_dstr (lit "pfcount"); exact_dstr (lit "h")] eq_refl) as (w2 & _ & _ & E2 & Ho2 & _).
  exists w'. split; [exact E|]. split; [exact Ho|]. exists w2. split; [exact E2|exact Ho2].
Defined.
